(* ===== verification/_CoqProject ===== *)
-Q . S2P
Prelude.v
Api.v
Graph.v
DagValidation.v
DagDsl.v
DslValidator.v
Queue.v
MemoryQueue.v
PebbleQueue.v
Store.v
SqliteDag.v
SqliteRun.v
SqliteClaim.v
Database.v
StoredDag.v
TaskRelease.v
Leases.v
Suspension.v
Kube.v
KubeExample.v
Allocator.v
DagManager.v
Worker.v
WorkerSpec.v
Retries.v
LogStore.v
S3Store.v
S3Spec.v
S3Example.v
FileStore.v
LogCollection.v
EventHandlers.v
Controllers.v
ApiTrace.v
ControllerSpec.v
DagControllerSpec.v
Scheduler.v
PostgresDag.v
PostgresRun.v
PostgresClaim.v
PostgresKeys.v
PostgresLeases.v
PostgresAgree.v
PostgresSpec.v
PostgresSuspension.v
Auth.v
AuthSpec.v
GoText.v
ServerDb.v
ServerPg.v
ServerSpec.v
Http.v
LogServe.v
LogServeSpec.v
Unstructured.v
KClient.v
KClientSpec.v
Rest.v
RestSpec.v
Metrics.v
MetricsSpec.v
WorkerPool.v
WorkerPoolSpec.v
Webhook.v
WebhookSpec.v
Config.v
ConfigSpec.v
Watch.v
