(* ===== verification/Prelude.v ===== *)
(** * Kontroler: a verification library

    Kontroler runs DAGs of container tasks on Kubernetes.  A [DAG] object is
    validated and stored, as a version, in an SQL database; a run of it gets a
    task run per task that is ready; workers claim task runs under a lease,
    create a pod for each, and follow the pods through a queue of events: a
    success releases the tasks that waited for it, a failure is retried or
    suspends what depends on it.  This library models that core and proves what
    it promises, and where it does not.  Paths below are relative to
    src/controller.

    ** Layout

    - [Prelude]: machine integers, strings, [result], the state and error monad
      [M S A] with its weakest-precondition rules, [foreach], lists.
    - [Api]: the objects (api/v1alpha1/*_types.go) and the rows the database
      manager hands out (internal/db/dbManagers.go).
    - [Graph], [DagValidation] (Module [Checks]): [ValidateDAG] and its checks
      (api/v1alpha1/dag_types.go), against the specification [valid_dag].
    - [DagDsl] (Module [Convert]): the syntax tree of the DAG language and its
      conversion to a spec (internal/dagdsl/parser.go).  [DslValidator] (Module
      [Validator]): its validator (internal/dagdsl/validator.go) and
      [processDSL] (internal/controller/dag_controller.go).
    - [Queue]: the interface of the event queues and its laws
      (internal/queue/queue.go), implemented by [MemoryQueue] (Module [Memory],
      memory.go, with the concurrent system of producers and consumers) and
      [PebbleQueue] (Module [Pebble], pebble.go, over a key-value store).
    - [Store]: the tables of the SQLite schema
      (internal/db/migrations/sqlite/001_initial-schema.up.sql) and statements
      that may fail at any call; [SqliteDag], [SqliteRun], [SqliteClaim]
      (Modules [DagDb], [RunDb], [ClaimDb]): every operation of
      internal/db/sqliteManager.go.  [Database] (Module [Calls]): the operations as data
      and the databases they can reach.  [StoredDag], [TaskRelease], [Leases],
      [Suspension]: what they do to a stored DAG and to a run of it.
    - [Kube]: pods, the API client as an interface, finalizers and the
      conversion of pod templates (internal/object/utils.go, dag_types.go);
      [KubeExample]: a small cluster, for witnesses.
    - [Allocator]: the pod of a task (internal/workers/taskAllocator.go).
    - [DagManager]: the interface [DBDAGManager] as a class, with SQLite as an
      instance.  [Worker] (Module [Workers]): the handlers of
      internal/workers/workers.go against that interface.  [WorkerSpec],
      [Retries]: a worker on SQLite.
    - [LogStore]: the interface of the log stores and the stream of a pod's log;
      [S3Store] (Module [S3], internal/object/logStore.go) with its laws and
      theorems in [S3Spec] and an S3 service in [S3Example]; [FileStore] (Module
      [Files], internal/object/filesystem.go).  [LogCollection] (Modules
      [Collect] and [Concurrent]): what a worker does with a log, against the
      class [LogStoreLaws], and its goroutines.
    - [EventHandlers] (Module [Events]): the handlers that fill the queues
      (internal/workers/podEventHandler.go, eventHandler.go).
    - [Controllers] (Modules [Runs], [Dags], [Tasks], [Orphans]): the
      reconcilers of internal/controller.  [ApiTrace]: an API server that answers
      as it likes and records what it is asked, so that a theorem holds for every
      cluster; [ControllerSpec], [DagControllerSpec]: the reconcilers on SQLite.
      [WorkerPool] (Module [Pools]), [WorkerPoolSpec]: the controller of worker
      pools (workerpool_controller.go, workerpool_rbac.go), on such a server.
    - [Scheduler] (Module [Scheduler]): the tick of internal/dag/dagScheduler.go.
    - [PostgresDag], [PostgresRun], [PostgresClaim] (Modules [PgSchema], [PgDag],
      [PgRun], [PgClaim]): every operation of internal/db/postgresDAGManager.go
      over the same tables with the foreign keys and cascades of
      migrations/postgresql; the second instance of [DagManager].
      [PostgresKeys] (Module [PgCalls]): the databases its calls can reach.
      [PostgresLeases] (Module [Locks]): its claims as statements that interleave
      under row locks.  [PostgresAgree]: what both managers do alike.
      [PostgresSpec], [PostgresSuspension]: what its calls do.
    - [Metrics] (Modules [SqliteMetrics], [PgMetrics]), [MetricsSpec]: the managers
      that count and time the calls of the two (internal/db/*Metrics.go) and the
      registry (internal/metrics/dbMetrics.go).
    - [Webhook] (Module [Hooks]), [WebhookSpec]: the sender of internal/webhook as
      a system of goroutines around its channel.
    - [Config] (Modules [Path], [ControllerCfg], [ServerCfg], [DbCfg],
      [ServerDbCfg]), [ConfigSpec]: the configuration of the programs
      (internal/config, internal/server/config, the settings of the databases)
      and the log store that is opened.

    The server (internal/server) has its own files:

    - [Auth] (Modules [SqliteAuth], [PgAuth]): accounts and sessions (auth/);
      [AuthSpec] (Module [Sessions]): the table of sessions they implement.
    - [GoText]: Go's functions on text.  [ServerDb] (Modules [Queries],
      [ServerSqlite]), [ServerPg]: what the server reads of the two databases
      (db/sqlite.go, db/postgres.go); [ServerSpec]: what that shows.
    - [Http]: responses.  [LogServe] (Modules [FsFetch], [S3Fetch], [Serve],
      [Ws]): the logs it serves (logs/, ws/ws.go), against the class
      [LogFetcher]; [LogServeSpec]: the class's laws and what is served.
    - [Unstructured]: objects as JSON and their decoding by the tags of
      api/v1alpha1.  [KClient] (Modules [Convert], [Client]): the objects it creates
      (kClient/); [KClientSpec].
    - [Rest] (Modules [Credentials], [Rest]): every route with its handler, the
      authentication and the roles (rest/); [RestSpec]: who may do what.

    ** How the code is read

    A Go function that can fail is a function into [result], one that also
    changes state one into the monad [M]: an error keeps the state reached so
    far, as in Go; a transaction ([withTx]) restores the tables.  A statement of
    the database is one step, and each may be made to fail by the database
    ([st_faults]); the theorems that need a healthy database say so ([healthy],
    [quiet]).  Rows are kept in the order of their keys, and a query
    without ORDER BY gives them in that order.  Go's [int] is a 64-bit word
    (wrap-around is written out where the code computes with values it does not
    bound), a key or a counter of the database is an unbounded integer.  A
    map of the source is a [gmap]; where the code ranges over one, either the
    result does not depend on the order or the order is a parameter.  What the
    code starts with [go] is recorded in the state and runs as a step of its
    own.  Logging has no effect on the state and is left out, and so is counting, but in
    [Metrics].

    What is not under src/ is a parameter: the hash of a spec, the cron
    parser, the clock, the JSON codec, the participle parser, the Pebble store, the
    Kubernetes client, quantities, shell quoting, the random source.  Their documented
    behaviour is a hypothesis of the theorems that use it, and each such theorem
    has a witness with concrete functions.

    ** What is proved

    Validation: [ValidateDAG] accepts exactly the valid DAGs, its searches
    terminate, and a valid DAG never gets stuck.  Language: programs compile to
    the spec they denote; the validator is sound and complete for its checks;
    literals and numerals are read back.  Queues: both refine a FIFO list; the
    in-memory one stays compact in every interleaving; the persistent one keeps
    its events over failures and reopening.  Database: keys, uniqueness and
    versions are invariant under every call; failed calls change nothing; a
    stored DAG is the DAG that was inserted; a success releases exactly the
    ready tasks or completes the run; a failure suspends exactly what it
    holds back; a lease excludes other workers.  Allocator: pooled pods are
    as good as new ones.  Worker: a success advances the run; the error paths
    leave the run alone; a pod is identified by its annotations.
    Logs: a log is stored whole whatever chunks it comes in, the deletion of the
    logs of a run spares every other run, both stores satisfy the laws the
    collection needs, and no log is uploaded twice at a time.  Events: those
    of a pod stay in order.  Controllers: a DAG that is stored is acyclic
    whatever objects, servers and faults come; reconciling a DagRun any number of
    times starts each task once and, when it succeeds, starts the run; a
    deleted DagRun is let go of after its rows and logs; a live pod is no
    orphan; a worker pool gets its account, finalizer and Deployment in this
    order and is let go of when its workers are gone.  Scheduler: exactly the due
    DAGs are run, in a bounded number of attempts each.

    PostgreSQL: keys and references are invariant under every call and cascade;
    claims exclude each other, in bulk too, however their statements interleave,
    and each call is an execution of that system; on a healthy database both
    managers give the same answers where they promise the same; the latest
    report of a pod wins; the recursive query of the suspension ends.

    Metrics: the managers with metrics answer as those they wrap and count every
    call once.  Webhooks: in every interleaving each notification is handled once,
    in order, after its host was verified.  Configuration: exactly the
    configurations that are fit are accepted, and their paths are clean.

    Server: both managers of accounts implement one table of sessions, so that a
    token that is accepted was issued to its user; both databases show the same;
    a run is shown as it is stored and the pages of a listing are the listing; a
    request for a log gets the bytes it asks for, and a log that a worker stored
    is served back; a form becomes a DAG that reads as the form; a run is created
    with its parameters or not at all; and every route is open to the roles it
    names and no others.
    Several theorems state what the code does where that is not what it means
    to do: waiting tasks are released twice ([diamond_completes_before_d]), a
    run can stall ([run_stalls]), leases are void west of UTC
    ([lease_void_west_of_utc]), retries are not bounded ([retries_unbounded])
    and lose their secrets ([retry_loses_secrets]), a configuration error is
    counted twice ([config_error_counts_twice]), and on PostgreSQL a due DAG is
    started again at every tick ([pg_due_dags_stay_due]) and the deletion of a
    DAG breaks one of its name in another namespace
    ([delete_dag_breaks_namesake]).  The pods of a worker process are watched by
    nobody ([watched_by_its_own_id]) and its notifications are never sent
    ([without_a_listener]); the account made for the workers of a pool is not used
    ([account_is_not_used]).

    ** Fuel and bounds

    The searches of the validation have fuel above the number of names in the
    spec, the search for tasks to suspend above the number of its rows of
    dependencies, the recursive query of PostgreSQL above their number: each is
    proved to be enough.  Loops the source bounds
    (five attempts to create a pod, to remove a finalizer, to write a
    status) are bounded by the same numbers.

    ** Not modelled
    The wiring of the programs (cmd/: flags, signals, TLS of the listeners), the
    set-up of the informers and of the clients, the calls of the migration
    library, the worker's own metrics (internal/metrics/workerMetrics.go), and
    generated code (zz_generated.deepcopy.go).  Of the server: the matching of paths to routes, the parsing of bodies, CORS and the
    audit log.  Goroutines that a reconciler or the scheduler starts for the
    elements of a list, and waits for, run one after the other.
*)

From stdpp Require Export prelude gmap strings pretty fin_maps sorting relations.
From Stdlib Require Export ZArith Lia.

Declare Scope kontroler_scope.
Delimit Scope kontroler_scope with K.

(** A test of the source as a boolean. *)
Notation "x =b y" := (bool_decide (x = y)) (at level 70, no associativity) : kontroler_scope.
Notation "x <=b y" := (bool_decide (x <= y)%Z) (at level 70, no associativity) : kontroler_scope.

(** ** Machine integers

    Go's [int] is a signed 64-bit word on every platform the project ships
    for; [uint64] and [int32] keep their own width. *)

Definition wrap64 (z : Z) : Z := ((z + 2 ^ 63) mod 2 ^ 64 - 2 ^ 63)%Z.
Definition wrap_u64 (z : Z) : Z := (z mod 2 ^ 64)%Z.
Definition is_int64 (z : Z) : Prop := (- 2 ^ 63 <= z < 2 ^ 63)%Z.
Definition is_int32 (z : Z) : bool :=
  bool_decide (- 2 ^ 31 <= z)%Z && bool_decide (z < 2 ^ 31)%Z.

(** ** Errors

    A Go [error] is compared with a sentinel, or read as text: both are kept.
    [EWrap m e] is [fmt.Errorf] of a message, a colon and the wrapped error. *)

Inductive GoError :=
| EErrorf (msg : string)
| EWrap (msg : string) (e : GoError)
| ENoRows
| EDriver
| EConstraint (table : string)
| EScan (column : string).

#[global] Instance GoError_eq_dec : EqDecision GoError.
Proof. solve_decision. Defined.

Fixpoint err_Error (e : GoError) : string :=
  match e with
  | EErrorf m => m
  | EWrap m e' => m +:+ ": " +:+ err_Error e'
  | ENoRows => "sql: no rows in result set"
  | EDriver => "driver error"
  | EConstraint t => "UNIQUE constraint failed: " +:+ t
  | EScan c => "sql: Scan error on column " +:+ c
  end.

Inductive result (A : Type) :=
| Ok (a : A)
| Err (e : GoError).
Arguments Ok {A} a.
Arguments Err {A} e.

Definition is_ok {A} (r : result A) : bool :=
  match r with Ok _ => true | Err _ => false end.

(** ** The state and error monad

    A method with a receiver and an [error] result is a function of the state
    that returns a result and the state it leaves; an error keeps the state
    changes made before it, as Go does. *)

Definition M (S A : Type) : Type := S → result A * S.

#[global] Instance M_ret S : MRet (M S) := λ A a s, (Ok a, s).
#[global] Instance M_bind S : MBind (M S) := λ A B f m s,
  match m s with
  | (Ok a, s') => f a s'
  | (Err e, s') => (Err e, s')
  end.

Definition throw {S A} (e : GoError) : M S A := λ s, (Err e, s).
Definition gets {S A} (f : S → A) : M S A := λ s, (Ok (f s), s).
Definition modify {S} (f : S → S) : M S unit := λ s, (Ok tt, f s).

(** [try m] runs [m] and hands its error to the caller as a value: the
    [if err := f(); err != nil] of a caller that goes on after an error. *)
Definition try {S A} (m : M S A) : M S (result A) := λ s,
  let '(r, s') := m s in (Ok r, s').

(** A [for _, x := range l] loop whose body may return early with an error. *)
Fixpoint foreach {S A} (f : A → M S unit) (l : list A) : M S unit :=
  match l with
  | [] => mret tt
  | x :: l' => f x ≫= λ _, foreach f l'
  end.

Fixpoint mapMM {S A B} (f : A → M S B) (l : list A) : M S (list B) :=
  match l with
  | [] => mret []
  | x :: l' => f x ≫= λ y, mapMM f l' ≫= λ ys, mret (y :: ys)
  end.

(** ** Lists *)

(** The rows that satisfy a test (SQL's [WHERE]). *)
Definition where_ {A} (p : A → bool) (l : list A) : list A := List.filter p l.

(** An [UPDATE ... WHERE]: every row that satisfies [p] is replaced. *)
Definition update_where {A} (p : A → bool) (f : A → A) (l : list A) : list A :=
  (λ x, if p x then f x else x) <$> l.

(** The first row with the greatest key ([ORDER BY key DESC LIMIT 1]). *)
Fixpoint first_max {A} (key : A → Z) (l : list A) : option A :=
  match l with
  | [] => None
  | x :: l' =>
      match first_max key l' with
      | Some y => if bool_decide (key y <= key x)%Z then Some x else Some y
      | None => Some x
      end
  end.

(** The rows by descending key ([ORDER BY key DESC]), in row order where the
    keys agree. *)
Fixpoint insert_desc {A} (key : A → Z) (x : A) (l : list A) : list A :=
  match l with
  | [] => [x]
  | y :: l' => if bool_decide (key y <= key x)%Z then x :: l else y :: insert_desc key x l'
  end.

Definition order_desc {A} (key : A → Z) (l : list A) : list A := foldr (insert_desc key) [] l.

(** [LIMIT limit OFFSET offset] as SQLite reads it: a negative limit is none, a
    negative offset is zero. *)
Definition limit_offset {A} (limit offset : Z) (l : list A) : list A :=
  let rest := drop (Z.to_nat offset) l in
  if bool_decide (limit < 0)%Z then rest else take (Z.to_nat limit) rest.

(** How many rows satisfy a test ([COUNT]). *)
Definition count_where {A} (p : A → bool) (l : list A) : Z := Z.of_nat (length (where_ p l)).

(** Values without repetition, first occurrences kept (the keys of a Go map
    filled in this order, or SQL's [DISTINCT]). *)
Fixpoint dedup {A} `{EqDecision A} (l : list A) : list A :=
  match l with
  | [] => []
  | x :: l' => x :: List.filter (λ y, negb (bool_decide (x = y))) (dedup l')
  end.

(** ** Text *)

Definition dquote : string := String (Ascii.ascii_of_nat 34) "".

Definition join (sep : string) (l : list string) : string :=
  match l with
  | [] => ""
  | x :: l' => foldl (λ acc y, acc +:+ sep +:+ y) x l'
  end.

Definition contains (sub s : string) : bool :=
  match String.index 0 sub s with Some _ => true | None => false end.

(** *** Numerals in base ten *)

Definition digit_of (c : Ascii.ascii) : option Z :=
  let n := Z.of_nat (Ascii.nat_of_ascii c) in
  if bool_decide (48 <= n)%Z && bool_decide (n <= 57)%Z then Some (n - 48)%Z else None.

(** The value of a numeral in base ten. *)
Fixpoint decimal (s : string) (acc : Z) : Z :=
  match s with
  | EmptyString => acc
  | String c rest => decimal rest (acc * 10 + default 0%Z (digit_of c))
  end.

Fixpoint all_digits (s : string) : bool :=
  match s with
  | EmptyString => true
  | String c rest => bool_decide (is_Some (digit_of c)) && all_digits rest
  end.

(** ** The program logic of the monad *)

Definition wp {S A} (m : M S A) (s : S) (Q : result A → S → Prop) : Prop :=
  Q (m s).1 (m s).2.

Create HintDb wp.

Lemma wp_ret {S A} (a : A) (s : S) (Q : result A → S → Prop) :
  Q (Ok a) s → wp (mret a) s Q.
Proof. done. Qed.

Lemma wp_throw {S A} e (s : S) (Q : result A → S → Prop) :
  Q (Err e) s → wp (throw e) s Q.
Proof. done. Qed.

Lemma wp_bind {S A B} (m : M S A) (f : A → M S B) (s : S) (Q : result B → S → Prop) :
  wp m s (λ r s', match r with
                  | Ok a => wp (f a) s' Q
                  | Err e => Q (Err e) s'
                  end) →
  wp (m ≫= f) s Q.
Proof. unfold wp, mbind, M_bind. destruct (m s) as [[a|e] s']; done. Qed.

Lemma wp_mono {S A} (m : M S A) (s : S) (P Q : result A → S → Prop) :
  wp m s P → (∀ r s', P r s' → Q r s') → wp m s Q.
Proof. unfold wp; auto. Qed.

Lemma wp_try {S A} (m : M S A) (s : S) (Q : result (result A) → S → Prop) :
  wp m s (λ r s', Q (Ok r) s') → wp (try m) s Q.
Proof. unfold wp, try. by destruct (m s). Qed.

Lemma wp_gets {S A} (f : S → A) (s : S) (Q : result A → S → Prop) :
  Q (Ok (f s)) s → wp (gets f) s Q.
Proof. done. Qed.

(** A loop keeps an invariant that its body keeps. *)
Lemma wp_foreach {S A} (I : S → Prop) (f : A → M S unit) (l : list A) (s : S) :
  (∀ x s', x ∈ l → I s' → wp (f x) s' (λ _ s'', I s'')) →
  I s → wp (foreach f l) s (λ _ s', I s').
Proof.
  revert s. induction l as [|x l IH]; intros s Hf HI; [done|].
  simpl. apply wp_bind. eapply wp_mono; [apply Hf; [left|done]|].
  intros [[]|e] s' Hs'; [|done]. apply IH; [|done].
  intros y s'' Hy. apply Hf. by right.
Qed.

(** A relation between the states before and after a computation, whatever its
    answer. *)
Definition steps {S A} (R : S → S → Prop) (m : M S A) : Prop := ∀ s, R s (m s).2.

Section steps.
Context {S : Type} (R : S → S → Prop) `{!PreOrder R}.

Lemma steps_ret {A} (a : A) : steps R (mret a).
Proof. intros s. simpl. reflexivity. Qed.

Lemma steps_throw {A} e : steps R (throw (A := A) e).
Proof. intros s. simpl. reflexivity. Qed.

Lemma steps_gets {A} (f : S → A) : steps R (gets f).
Proof. intros s. simpl. reflexivity. Qed.

Lemma steps_bind {A B} (m : M S A) (f : A → M S B) :
  steps R m → (∀ a, steps R (f a)) → steps R (m ≫= f).
Proof.
  intros Hm Hf s. specialize (Hm s). unfold mbind, M_bind.
  destruct (m s) as [[a|e] s']; simpl in *; [|done]. etransitivity; [exact Hm|apply Hf].
Qed.

Lemma steps_try {A} (m : M S A) : steps R m → steps R (try m).
Proof. intros Hm s. specialize (Hm s). unfold try. by destruct (m s). Qed.

Lemma steps_foreach {A} (f : A → M S unit) l :
  (∀ a, steps R (f a)) → steps R (foreach f l).
Proof.
  intros Hf. induction l as [|x l IH]; [apply steps_ret|]. by apply steps_bind.
Qed.

End steps.

(** Decompose a computation down to its calls, which [tac] is to solve. *)
Ltac steps_walk_with tac :=
  repeat first
    [ solve [tac]
    | apply steps_ret; exact _ | apply steps_throw; exact _ | apply steps_gets; exact _
    | apply steps_foreach; [exact _|intros ?]
    | apply steps_bind; [exact _| |intros ?]
    | apply steps_try
    | progress case_match ].

(** ** List lemmas *)

Lemma elem_of_where {A} (p : A → bool) (l : list A) x :
  x ∈ where_ p l ↔ p x = true ∧ x ∈ l.
Proof.
  unfold where_. rewrite !list_elem_of_In, filter_In. split; by intros [? ?].
Qed.

Lemma where_cons {A} (p : A → bool) x (l : list A) :
  where_ p (x :: l) = if p x then x :: where_ p l else where_ p l.
Proof. done. Qed.

Lemma elem_of_update_where {A} (p : A → bool) (f : A → A) (l : list A) y :
  y ∈ update_where p f l ↔
  ∃ x, x ∈ l ∧ y = if p x then f x else x.
Proof.
  unfold update_where. rewrite list_elem_of_fmap.
  split; intros (x & ? & ?); eauto.
Qed.

Lemma length_update_where {A} (p : A → bool) (f : A → A) l :
  length (update_where p f l) = length l.
Proof. apply length_fmap. Qed.

Lemma fmap_update_where {A B} (p : A → bool) (f : A → A) (g : A → B) (l : list A) :
  (∀ x, p x = true → g (f x) = g x) → g <$> update_where p f l = g <$> l.
Proof.
  intros H. unfold update_where. rewrite <- list_fmap_compose.
  apply list_fmap_ext; intros i x _. simpl. destruct (p x) eqn:E; auto.
Qed.

Lemma where_sublist {A} (p : A → bool) (l : list A) : where_ p l `sublist_of` l.
Proof.
  induction l as [|x l IH]; simpl; [done|].
  destruct (p x); [by apply sublist_skip | by apply sublist_cons].
Qed.

Lemma NoDup_where {A B} (p : A → bool) (g : A → B) (l : list A) :
  NoDup (g <$> l) → NoDup (g <$> where_ p l).
Proof.
  intros H. eapply sublist_NoDup; [exact H|].
  exact (fmap_sublist g _ _ (where_sublist p l)).
Qed.

Lemma first_max_elem {A} key (l : list A) x : first_max key l = Some x → x ∈ l.
Proof.
  revert x. induction l as [|y l IH]; intros x; simpl; [done|].
  destruct (first_max key l) as [z|] eqn:E.
  - case_bool_decide; intros Hz; inversion Hz; subst; [left | right; auto].
  - intros [= <-]. left.
Qed.

Lemma first_max_ge {A} key (l : list A) x y :
  first_max key l = Some x → y ∈ l → (key y <= key x)%Z.
Proof.
  revert x. induction l as [|z l IH]; intros x; simpl; [intros [=]|].
  destruct (first_max key l) as [w|] eqn:E.
  - case_bool_decide as Hk; intros [= <-] [->|Hy]%elem_of_cons; try lia.
    + specialize (IH w eq_refl Hy). lia.
    + apply IH; [reflexivity|done].
  - destruct l; [|simpl in E; repeat case_match; done].
    intros [= <-] [->|Hy]%elem_of_cons; [lia | by apply elem_of_nil in Hy].
Qed.

Lemma first_max_None {A} key (l : list A) : first_max key l = None ↔ l = [].
Proof.
  split; [|by intros ->]. destruct l as [|x l]; simpl; [done|].
  repeat case_match; done.
Qed.

(** The first [n] pages of a list, and then all of them. *)
Lemma pages_prefix {A} (k n : nat) (l : list A) :
  flat_map (λ i, limit_offset (Z.of_nat k) (Z.of_nat (i * k)) l) (seq 0 n) = take (n * k) l.
Proof.
  induction n as [|n IH]; [done|].
  rewrite seq_S, flat_map_app, IH. simpl. rewrite app_nil_r.
  unfold limit_offset. rewrite bool_decide_false by lia. rewrite !Nat2Z.id.
  rewrite take_take_drop. f_equal; lia.
Qed.

Lemma order_desc_perm {A} (key : A → Z) (l : list A) : order_desc key l ≡ₚ l.
Proof.
  assert (Hi : ∀ x l, insert_desc key x l ≡ₚ x :: l).
  { intros x l'. induction l' as [|y l' IH]; simpl; [done|].
    case_bool_decide; [done|]. rewrite IH. by constructor. }
  induction l as [|x l IH]; simpl; [done|]. rewrite Hi. by constructor.
Qed.

Lemma elem_of_dedup {A} `{EqDecision A} (l : list A) x : x ∈ dedup l ↔ x ∈ l.
Proof.
  induction l as [|y l IH]; simpl; [done|].
  rewrite !elem_of_cons, list_elem_of_In, filter_In, <- list_elem_of_In, IH.
  destruct (decide (x = y)) as [->|Hne]; [tauto|].
  rewrite bool_decide_eq_false_2 by congruence. simpl. tauto.
Qed.

Lemma NoDup_dedup {A} `{EqDecision A} (l : list A) : NoDup (dedup l).
Proof.
  induction l as [|y l IH]; simpl; constructor.
  - rewrite list_elem_of_In, filter_In. intros [_ H].
    by rewrite bool_decide_eq_true_2 in H.
  - eapply sublist_NoDup; [done|apply where_sublist].
Qed.

Lemma where_nil {A} (p : A → bool) (l : list A) :
  where_ p l = [] ↔ ∀ x, x ∈ l → p x = false.
Proof.
  split.
  - intros H x Hx. destruct (p x) eqn:E; [|done].
    assert (x ∈ where_ p l) as Hin by by apply elem_of_where. rewrite H in Hin.
    by apply elem_of_nil in Hin.
  - intros H. destruct (where_ p l) as [|x l'] eqn:E; [done|].
    assert (x ∈ where_ p l) as [Hp Hx]%elem_of_where by (rewrite E; left).
    by rewrite H in Hp.
Qed.

Lemma flat_map_nil {A B} (f : A → list B) (l : list A) :
  flat_map f l = [] ↔ ∀ x, x ∈ l → f x = [].
Proof.
  split.
  - intros H x Hx. destruct (f x) as [|y ys] eqn:E; [done|].
    assert (y ∈ flat_map f l) as Hin.
    { rewrite list_elem_of_In, in_flat_map. exists x. rewrite <- !list_elem_of_In, E.
      split; [done|left]. }
    rewrite H in Hin. by apply elem_of_nil in Hin.
  - induction l as [|x l IH]; intros H; simpl; [done|].
    rewrite H by left. apply IH. intros; apply H; by right.
Qed.

Lemma length_pos_nil {A} (l : list A) : 0 < length l ↔ l ≠ [].
Proof. destruct l; simpl; split; intros; (done || lia). Qed.

Lemma forall_elem_cons {A} (P : A → Prop) x (l : list A) :
  (∀ y, y ∈ x :: l → P y) ↔ P x ∧ ∀ y, y ∈ l → P y.
Proof. rewrite <- !Forall_forall. apply Forall_cons. Qed.

(** Selecting by a unique key yields the row of that key. *)
Lemma where_key {A B} `{EqDecision B} (key : A → B) (rows : list A) x :
  NoDup (key <$> rows) → x ∈ rows → where_ (λ y, bool_decide (key y = key x)) rows = [x].
Proof.
  intros Hnd Hx. induction rows as [|y rows IH]; [by apply elem_of_nil in Hx|].
  rewrite fmap_cons in Hnd. apply NoDup_cons in Hnd as [Hy Hnd].
  unfold where_ in *. simpl. apply elem_of_cons in Hx as [->|Hx].
  - rewrite bool_decide_eq_true_2 by done. f_equal. apply (where_nil _ rows).
    intros z Hz. apply bool_decide_eq_false_2. intros Heq. apply Hy.
    rewrite <- Heq. by apply list_elem_of_fmap_2.
  - rewrite bool_decide_eq_false_2; [by apply IH|]. intros Heq. apply Hy.
    rewrite Heq. by apply list_elem_of_fmap_2.
Qed.

Lemma NoDup_key {A B} `{EqDecision B} (key : A → B) (rows : list A) x y :
  NoDup (key <$> rows) → x ∈ rows → y ∈ rows → key x = key y → x = y.
Proof.
  intros Hnd Hx Hy E. pose proof (where_key key rows y Hnd Hy) as Hw.
  apply list_elem_of_singleton. rewrite <- Hw. apply elem_of_where. by rewrite bool_decide_eq_true_2.
Qed.

Lemma sum_list_cons {A} (f : A → nat) x l :
  sum_list (f <$> x :: l) = f x + sum_list (f <$> l).
Proof. done. Qed.

(** ** Text lemmas *)

Lemma string_app_get a b : String.get (String.length a) (a +:+ b) = String.get 0 b.
Proof. induction a as [|c a IH]; simpl; [done|]. exact IH. Qed.

Lemma string_length_app (a b : string) :
  String.length (a +:+ b) = (String.length a + String.length b)%nat.
Proof. induction a as [|c a IH]; [done|]. exact (f_equal S IH). Qed.

Lemma substring_app (a b : string) : String.substring 0 (String.length a) (a +:+ b) = a.
Proof. induction a as [|c a IH]; [by destruct b|]. exact (f_equal (String c) IH). Qed.

Lemma substring_skip (p s : string) n :
  String.substring (String.length p) n (p +:+ s) = String.substring 0 n s.
Proof. induction p as [|c p IH]; [done|]. exact IH. Qed.

Lemma digit_of_pretty (n : N) : (n < 10)%N → digit_of (pretty_N_char n) = Some (Z.of_N n).
Proof.
  intros H.
  assert (n = 0 ∨ n = 1 ∨ n = 2 ∨ n = 3 ∨ n = 4 ∨ n = 5 ∨ n = 6 ∨ n = 7 ∨ n = 8 ∨ n = 9)%N
    as Hn by lia.
  by destruct Hn as [->|[->|[->|[->|[->|[->|[->|[->|[->| ->]]]]]]]]].
Qed.

Lemma decimal_pretty_go (x : N) : ∀ s,
  decimal (pretty_N_go x s) 0 = decimal s (Z.of_N x) ∧
  all_digits (pretty_N_go x s) = all_digits s.
Proof.
  induction (N.lt_wf_0 x) as [x _ IH]; intros s.
  destruct (decide (0 < x)%N) as [Hx|Hx].
  - rewrite pretty_N_go_step by done.
    destruct (IH (x / 10)%N) with (s := String (pretty_N_char (x mod 10)) s) as [-> ->].
    { apply N.div_lt; lia. }
    assert (x mod 10 < 10)%N by (apply N.mod_lt; lia).
    simpl. rewrite digit_of_pretty by done. simpl. split; [|done].
    f_equal. rewrite (N.div_mod x 10) at 3 by lia. lia.
  - assert (x = 0%N) as -> by lia. by rewrite pretty_N_go_0.
Qed.

Lemma decimal_pretty (x : N) : decimal (pretty x) 0 = Z.of_N x ∧ all_digits (pretty x) = true.
Proof.
  unfold pretty, pretty_N. case_decide as H; [by subst|]. apply (decimal_pretty_go x "").
Qed.


(** ** Integer lemmas *)

Lemma wrap64_id z : is_int64 z → wrap64 z = z.
Proof.
  unfold wrap64, is_int64. intros H.
  rewrite Z.mod_small; lia.
Qed.

Lemma wrap64_range z : is_int64 (wrap64 z).
Proof.
  unfold wrap64, is_int64.
  pose proof (Z.mod_pos_bound (z + 2 ^ 63) (2 ^ 64) ltac:(lia)). lia.
Qed.

#[export] Hint Resolve wp_ret wp_throw wp_bind wp_gets wp_try : wp.

(** Unfold one step of the monad and of [wp]. *)
Ltac wp_step :=
  first
    [ apply wp_bind | apply wp_ret | apply wp_throw | apply wp_gets | apply wp_try ];
  simpl.

(** Case analysis on every boolean test of the code in a hypothesis. *)
Ltac case_tests :=
  repeat match goal with
         | H : context [if ?b then _ else _] |- _ => destruct b eqn:?
         | |- context [if ?b then _ else _] => destruct b eqn:?
         end.
