(* ===== verification/Api.v ===== *)
(** * The API objects

    The custom resources of api/v1alpha1 (dag_types.go, dagrun_types.go,
    dagtask_types.go) as records, field by field.  A Go pointer is an option,
    a slice a list, a map a [gmap]; a nil slice and an empty slice are the same
    list.  Objects the project only passes through as raw JSON (affinity
    terms, label selectors) are kept as their text. *)

From S2P Require Import Prelude.

(** ** Pod templates (dag_types.go) *)

Record DagParameterSpec := mkDagParameterSpec {
  dp_Name : string;
  dp_DefaultValue : string;
  dp_DefaultFromSecret : string
}.

Record PersistentVolumeClaimVolumeSource := mkPVCVolumeSource {
  pvcs_ClaimName : string
}.

Record Volume := mkVolume {
  vol_Name : string;
  vol_EmptyDir : option unit;
  vol_PersistentVolumeClaim : option PersistentVolumeClaimVolumeSource
}.

Record VolumeMount := mkVolumeMount {
  vm_Name : string;
  vm_MountPath : string;
  vm_ReadOnly : bool
}.

Record LocalObjectReference := mkLocalObjectReference { lor_Name : string }.

Record PodSecurityContext := mkPodSecurityContext { psc_FSGroup : option Z }.

Record Toleration := mkToleration {
  tol_Key : string;
  tol_Operator : string;
  tol_Value : string;
  tol_Effect : string;
  tol_TolerationSeconds : option Z
}.

Record Affinity := mkAffinity {
  aff_NodeAffinity : option string;
  aff_PodAffinity : option string;
  aff_PodAntiAffinity : option string
}.

Record ResourceRequirements := mkResourceRequirements {
  rr_Limits : gmap string string;
  rr_Requests : gmap string string
}.

Record PodTemplateSpec := mkPodTemplateSpec {
  pt_Volumes : list Volume;
  pt_VolumeMounts : list VolumeMount;
  pt_ImagePullSecrets : list LocalObjectReference;
  pt_SecurityContext : option PodSecurityContext;
  pt_NodeSelector : gmap string string;
  pt_Tolerations : list Toleration;
  pt_Affinity : option Affinity;
  pt_ServiceAccountName : string;
  pt_ActiveDeadlineSeconds : option Z;
  pt_AutomountServiceAccountToken : option bool;
  pt_Resources : option ResourceRequirements
}.

(** The zero value [PodTemplateSpec{}]. *)
Definition emptyPodTemplate : PodTemplateSpec :=
  mkPodTemplateSpec [] [] [] None ∅ [] None "" None None None.

Record PVC := mkPVC {
  pvc_AccessModes : list string;
  pvc_Selector : option string;
  pvc_Resources : option ResourceRequirements;
  pvc_StorageClassName : option string;
  pvc_VolumeMode : option string
}.

Record Workspace := mkWorkspace {
  ws_Enabled : bool;
  ws_PvcSpec : PVC
}.

Definition emptyPVC : PVC := mkPVC [] None None None None.

(** ** DAGs (dag_types.go) *)

Record TaskRef := mkTaskRef {
  tr_Name : string;
  tr_Version : Z
}.

#[global] Instance TaskRef_eq_dec : EqDecision TaskRef.
Proof. solve_decision. Defined.
#[global] Program Instance TaskRef_countable : Countable TaskRef :=
  inj_countable' (λ t, (tr_Name t, tr_Version t)) (λ p, mkTaskRef p.1 p.2) _.
Next Obligation. by intros []. Qed.

Record Backoff := mkBackoff { bo_Limit : Z }.

Record Conditional := mkConditional {
  co_Enabled : bool;
  co_RetryCodes : list Z
}.

Record TaskSpec := mkTaskSpec {
  ts_Name : string;
  ts_Command : list string;
  ts_Args : list string;
  ts_Image : string;
  ts_RunAfter : list string;
  ts_Backoff : Backoff;
  ts_Conditional : Conditional;
  ts_Parameters : list string;
  ts_PodTemplate : option PodTemplateSpec;
  ts_Script : string;
  ts_ScriptInjectorImage : string;
  ts_TaskRef : option TaskRef
}.

Record Webhook := mkWebhook {
  wh_URL : string;
  wh_VerifySSL : bool
}.

Record DAGSpec := mkDAGSpec {
  ds_Schedule : string;
  ds_Task : list TaskSpec;
  ds_Parameters : list DagParameterSpec;
  ds_Webhook : Webhook;
  ds_Workspace : Workspace;
  ds_Suspended : bool;
  ds_DSL : string
}.

Record DAGStatus := mkDAGStatus {
  dst_Phase : string;
  dst_Message : string
}.

(** A DAG object: the part of its metadata the controllers read, its spec and
    its status. *)
Record DAG := mkDAG {
  dag_Name : string;
  dag_Annotations : gmap string string;
  dag_Finalizers : list string;
  dag_Deleting : bool;
  dag_Spec : DAGSpec;
  dag_Status : DAGStatus
}.

(** ** DAG runs and reusable tasks (dagrun_types.go, dagtask_types.go) *)

Record ParameterSpec := mkParameterSpec {
  ps_Name : string;
  ps_Value : string;
  ps_FromSecret : string
}.

Record DagRunSpec := mkDagRunSpec {
  drs_DagName : string;
  drs_Parameters : list ParameterSpec
}.

Record DagTaskSpec := mkDagTaskSpec {
  dts_Command : list string;
  dts_Args : list string;
  dts_Image : string;
  dts_RunAfter : list string;
  dts_Backoff : Backoff;
  dts_Conditional : Conditional;
  dts_Parameters : list string;
  dts_PodTemplate : option PodTemplateSpec;
  dts_Script : string;
  dts_ScriptInjectorImage : string
}.

Record DagTask := mkDagTask {
  dgt_Name : string;
  dgt_Spec : DagTaskSpec
}.

(** ** Values of the database layer (db/dbManagers.go) *)

(** [Parameter] in the source; the word is reserved here. *)
Record DbParameter := mkDbParameter {
  pa_Name : string;
  pa_IsSecret : bool;
  pa_Value : string
}.

Record Task := mkTask {
  t_Id : Z;
  t_Name : string;
  t_Image : string;
  t_Command : list string;
  t_Args : list string;
  t_Parameters : list DbParameter;
  t_PodTemplate : option PodTemplateSpec;
  t_Script : string;
  t_ScriptInjectorImage : string
}.

Record RunningPodInfo := mkRunningPodInfo {
  rp_Name : string;
  rp_Namespace : string
}.

Record TaskClaim := mkTaskClaim {
  tc_TaskRunID : Z;
  tc_TaskID : Z;
  tc_RunID : Z
}.

(** The names of a spec's tasks, in order. *)
Definition task_names (tasks : list TaskSpec) : list string := ts_Name <$> tasks.
