(* ===== verification/Graph.v ===== *)
(** * Reachability

    The generic facts about finite graphs that the searches of the program
    share: the cycle check and the connectivity check of a DAG, and the
    suspension of the tasks that depend on a failed one.  A graph is a
    successor relation; a search is correct when the set it has visited is
    closed under it. *)

From S2P Require Import Prelude.

Section closure.
Context {A : Type} `{Countable A}.
Context (R : A → A → Prop).

(** A set that is closed under [R] keeps everything reachable from it. *)
Lemma closed_reachable (X : gset A) x y :
  (∀ a b, a ∈ X → R a b → b ∈ X) → x ∈ X → rtc R x y → y ∈ X.
Proof. intros Hc Hx Hr. induction Hr; eauto. Qed.

Lemma closed_reachable_tc (X : gset A) x y :
  (∀ a b, a ∈ X → R a b → b ∈ X) → x ∈ X → tc R x y → y ∈ X.
Proof. intros Hc Hx Hr%tc_rtc. by eapply closed_reachable. Qed.

(** The graph has no cycle. *)
Definition acyclic : Prop := ∀ a, ¬ tc R a a.

(** In a finite acyclic graph that is not empty, some node has no
    successor. *)
Lemma acyclic_has_sink (X : gset A) :
  X ≠ ∅ → (∀ a b, a ∈ X → R a b → b ∈ X) → acyclic →
  (∀ a, a ∈ X → Decision (∃ b, R a b)) → ∃ a, a ∈ X ∧ ∀ b, ¬ R a b.
Proof.
  intros Hne Hcl Hac Hdec.
  assert (∀ n (Y : gset A), size Y = n → Y ⊆ X → ∀ a, a ∈ X → a ∉ Y →
    (∀ y, y ∈ Y → tc R y a) → ∃ a, a ∈ X ∧ ∀ b, ¬ R a b) as Hwalk.
  { intros n. remember (size X - n) as k eqn:Hk. revert n Hk.
    induction k as [|k IH]; intros n Hk Y HY HYX a Ha HaY Hpre.
    - exfalso. assert (size ({[a]} ∪ Y) ≤ size X) as Hs.
      { apply subseteq_size. set_solver. }
      rewrite size_union in Hs by set_solver. rewrite size_singleton in Hs.
      lia.
    - destruct (Hdec a Ha) as [[b Hab]|Hno].
      + assert (b ∉ {[a]} ∪ Y) as Hb.
        { intros [->%elem_of_singleton|HbY]%elem_of_union.
          - by apply (Hac a), tc_once.
          - apply (Hac b). eapply tc_r; [by apply Hpre|done]. }
        apply (IH (S n)) with (Y := {[a]} ∪ Y) (a := b); try done.
        * lia.
        * rewrite size_union, size_singleton by set_solver. lia.
        * set_solver.
        * by eapply Hcl.
        * intros y [->%elem_of_singleton|Hy]%elem_of_union; [by apply tc_once|].
          eapply tc_r; [by apply Hpre|done].
      + exists a. split; [done|]. intros b Hb. apply Hno. by exists b. }
  destruct (set_choose_L X Hne) as [a Ha].
  eapply (Hwalk 0 ∅ size_empty ltac:(set_solver) a Ha); set_solver.
Qed.
End closure.

(** Connectivity of an undirected view of [R]. *)
Definition connected {A} (R : A → A → Prop) : A → A → Prop := rtsc R.
