(* ===== verification/DagValidation.v ===== *)
(** * Validation of a DAG (api/v1alpha1/dag_types.go)

    [ValidateDAG] and its six checks, translated loop by loop.  A
    [map[string]bool] that only ever holds [true] is a [gset]; setting an entry
    back to [false] removes it.  The two recursive searches take fuel; the
    theorems show that one more than the number of names in the spec is
    enough.  The order in which Go ranges over a map is not fixed: the node the
    connectivity check starts from is a parameter [pick] of the model. *)

From S2P Require Import Prelude Api Graph.

(** ** The checks *)

Module Checks.

Definition check_fields_step (task : TaskSpec) (taskNames : gset string)
    : GoError + gset string :=
  if bool_decide (ts_Name task = "") then inl (EErrorf "task name must be specified")
  else match ts_TaskRef task with
  | Some _ => inr taskNames
  | None =>
      if bool_decide (ts_Script task = "") && bool_decide (ts_Command task = [])
      then inl (EErrorf "must provide a script or a command")
      else if bool_decide (ts_Image task = "")
      then inl (EErrorf "task image must be specified")
      else if bool_decide (ts_Name task ∈ taskNames)
      then inl (EErrorf ("duplicate task name: " +:+ ts_Name task))
      else inr ({[ts_Name task]} ∪ taskNames)
  end.

Fixpoint check_fields_loop (tasks : list TaskSpec) (taskNames : gset string)
    : option GoError :=
  match tasks with
  | [] => None
  | task :: rest =>
      match check_fields_step task taskNames with
      | inl e => Some e
      | inr taskNames' => check_fields_loop rest taskNames'
      end
  end.

Definition checkFieldsFilled (dag : DAGSpec) : option GoError :=
  check_fields_loop (ds_Task dag) ∅.

(** The dependencies listed by the tasks called [name], in loop order. *)
Definition run_after_of (tasks : list TaskSpec) (name : string) : list string :=
  flat_map (λ task, if bool_decide (ts_Name task = name) then ts_RunAfter task else []) tasks.

(** Every name a spec mentions. *)
Definition universe (tasks : list TaskSpec) : gset string :=
  list_to_set (task_names tasks ++ flat_map ts_RunAfter tasks).

(** The inner loop of [visit]: stop at the first dependency on a cycle. *)
Fixpoint visit_deps
    (visit : string → gset string * gset string → option (bool * (gset string * gset string)))
    (deps : list string) (st : gset string * gset string)
    : option (bool * (gset string * gset string)) :=
  match deps with
  | [] => Some (false, st)
  | dep :: rest =>
      match visit dep st with
      | Some (false, st') => visit_deps visit rest st'
      | r => r
      end
  end.

(** The state is the pair of the maps [visited] and [recStack]. *)
Fixpoint visit (tasks : list TaskSpec) (fuel : nat) (name : string)
    (st : gset string * gset string) : option (bool * (gset string * gset string)) :=
  match fuel with
  | O => None
  | S fuel' =>
      let '(visited, recStack) := st in
      if bool_decide (name ∈ recStack) then Some (true, st)
      else if bool_decide (name ∈ visited) then Some (false, st)
      else
        match visit_deps (visit tasks fuel') (run_after_of tasks name)
                ({[name]} ∪ visited, {[name]} ∪ recStack) with
        | Some (false, (visited', recStack')) =>
            Some (false, (visited', recStack' ∖ {[name]}))
        | r => r
        end
  end.

Definition visit_fuel (tasks : list TaskSpec) : nat := S (size (universe tasks)).

Definition checkNoCycles (dag : DAGSpec) : option GoError :=
  match visit_deps (visit (ds_Task dag) (visit_fuel (ds_Task dag)))
          (task_names (ds_Task dag)) (∅, ∅) with
  | Some (false, _) => None
  | _ => Some (EErrorf "cyclic dependency detected")
  end.

Definition missing_dep_error (task dep : string) : GoError :=
  EErrorf ("task " +:+ task +:+ " has runAfter dependency on non-existent task " +:+ dep).

Fixpoint check_deps_exist (taskMap : gset string) (task : string) (deps : list string)
    : option GoError :=
  match deps with
  | [] => None
  | dep :: rest =>
      if bool_decide (dep ∈ taskMap) then check_deps_exist taskMap task rest
      else Some (missing_dep_error task dep)
  end.

Fixpoint check_tasks_exist (taskMap : gset string) (tasks : list TaskSpec) : option GoError :=
  match tasks with
  | [] => None
  | task :: rest =>
      match check_deps_exist taskMap (ts_Name task) (ts_RunAfter task) with
      | Some e => Some e
      | None => check_tasks_exist taskMap rest
      end
  end.

Definition checkRunAfterTasksExist (dag : DAGSpec) : option GoError :=
  check_tasks_exist (list_to_set (task_names (ds_Task dag))) (ds_Task dag).

(** [adjList[k] = append(adjList[k], vs...)] *)
Definition append_at (k : string) (vs : list string) (m : gmap string (list string))
    : gmap string (list string) :=
  <[k := default [] (m !! k) ++ vs]> m.

Definition add_adjacency (m : gmap string (list string)) (task : TaskSpec)
    : gmap string (list string) :=
  foldl (λ acc dep, append_at dep [ts_Name task] acc)
    (append_at (ts_Name task) (ts_RunAfter task) m) (ts_RunAfter task).

Definition adjacency (tasks : list TaskSpec) : gmap string (list string) :=
  foldl add_adjacency ∅ tasks.

Fixpoint dfs_list (dfs : string → gset string → option (gset string))
    (neighbours : list string) (visited : gset string) : option (gset string) :=
  match neighbours with
  | [] => Some visited
  | n :: rest =>
      if bool_decide (n ∈ visited) then dfs_list dfs rest visited
      else match dfs n visited with
           | Some visited' => dfs_list dfs rest visited'
           | None => None
           end
  end.

Fixpoint dfs (adj : gmap string (list string)) (fuel : nat) (name : string)
    (visited : gset string) : option (gset string) :=
  match fuel with
  | O => None
  | S fuel' => dfs_list (dfs adj fuel') (default [] (adj !! name)) ({[name]} ∪ visited)
  end.

(** [pick] is the first key Go's [range] yields; a nil map yields none and
    leaves [startNode] the empty string. *)
Definition startNode (pick : gset string → string) (taskMap : gset string) : string :=
  if bool_decide (taskMap = ∅) then "" else pick taskMap.

Definition dfs_fuel (tasks : list TaskSpec) : nat := S (S (size (universe tasks))).

Definition checkAllTasksConnected (pick : gset string → string) (dag : DAGSpec)
    : option GoError :=
  let taskMap := list_to_set (task_names (ds_Task dag)) in
  match dfs (adjacency (ds_Task dag)) (dfs_fuel (ds_Task dag)) (startNode pick taskMap) ∅ with
  | Some visited =>
      if bool_decide (taskMap ⊆ visited) then None
      else Some (EErrorf "not all tasks are connected")
  | None => Some (EErrorf "not all tasks are connected")
  end.

Definition checkStartingTask (dag : DAGSpec) : option GoError :=
  if existsb (λ task, bool_decide (ts_RunAfter task = [])) (ds_Task dag) then None
  else Some (EErrorf "no starting task found (a task with no runAfter dependencies)").

Definition no_default_error : GoError :=
  EErrorf "parameter does not provide defaultValue or defaultFromSecret".

Definition no_param_error : GoError :=
  EErrorf "parameter selected in task does not exist".

Fixpoint check_param_specs (ps : list DagParameterSpec) (paramsMap : gset string)
    : GoError + gset string :=
  match ps with
  | [] => inr paramsMap
  | value :: rest =>
      if bool_decide (dp_Name value = "") then inl (EErrorf "parameter has an empty name")
      else if bool_decide (dp_DefaultValue value = "")
              && bool_decide (dp_DefaultFromSecret value = "") then inl no_default_error
      else if negb (bool_decide (dp_DefaultValue value = ""))
              && negb (bool_decide (dp_DefaultFromSecret value = "")) then inl no_default_error
      else check_param_specs rest ({[dp_Name value]} ∪ paramsMap)
  end.

Definition check_task_params (refParams : gmap TaskRef (list string))
    (paramsMap : gset string) (task : TaskSpec) : bool :=
  let own := forallb (λ v, bool_decide (v ∈ paramsMap)) (ts_Parameters task) in
  match ts_TaskRef task with
  | Some ref =>
      match refParams !! ref with
      | None => true
      | Some values => forallb (λ v, bool_decide (v ∈ paramsMap)) values && own
      end
  | None => own
  end.

Definition checkParameters (refParams : gmap TaskRef (list string)) (dag : DAGSpec)
    : option GoError :=
  match check_param_specs (ds_Parameters dag) ∅ with
  | inl e => Some e
  | inr paramsMap =>
      if forallb (check_task_params refParams paramsMap) (ds_Task dag) then None
      else Some no_param_error
  end.

(** [if err := f(); err != nil { return err }] *)
Definition or_else (e : option GoError) (k : option GoError) : option GoError :=
  match e with Some err => Some err | None => k end.

Definition ValidateDAG (pick : gset string → string)
    (refParams : gmap TaskRef (list string)) (dag : DAGSpec) : option GoError :=
  or_else (checkFieldsFilled dag)
    (or_else (checkParameters refParams dag)
       (or_else (checkNoCycles dag)
          (or_else (checkRunAfterTasksExist dag)
             (or_else (checkAllTasksConnected pick dag)
                (checkStartingTask dag))))).

End Checks.
Import Checks.

(** ** Specification *)

(** [a] runs after [b]: some task called [a] lists [b]. *)
Definition depends (tasks : list TaskSpec) (a b : string) : Prop :=
  ∃ task, task ∈ tasks ∧ ts_Name task = a ∧ b ∈ ts_RunAfter task.

(** The parameters a task reads: its own, and those of the task it refers to;
    a reference the database does not know is not checked. *)
Definition wanted_params (refParams : gmap TaskRef (list string)) (task : TaskSpec)
    : list string :=
  match ts_TaskRef task with
  | Some ref =>
      match refParams !! ref with
      | None => []
      | Some values => values ++ ts_Parameters task
      end
  | None => ts_Parameters task
  end.

Definition inline_names (tasks : list TaskSpec) : list string :=
  ts_Name <$> where_ (λ t, bool_decide (ts_TaskRef t = None)) tasks.

Definition field_ok (task : TaskSpec) : Prop :=
  ts_Name task ≠ "" ∧
  (ts_TaskRef task = None →
   ¬ (ts_Script task = "" ∧ ts_Command task = []) ∧ ts_Image task ≠ "").

Definition param_ok (p : DagParameterSpec) : Prop :=
  dp_Name p ≠ "" ∧
  ¬ (dp_DefaultValue p = "" ∧ dp_DefaultFromSecret p = "") ∧
  ¬ (dp_DefaultValue p ≠ "" ∧ dp_DefaultFromSecret p ≠ "").

#[global] Instance param_ok_dec p : Decision (param_ok p).
Proof. unfold param_ok. apply _. Defined.

Record ValidDAG (refParams : gmap TaskRef (list string)) (dag : DAGSpec) : Prop := {
  vd_fields : ∀ t, t ∈ ds_Task dag → field_ok t;
  vd_unique : NoDup (inline_names (ds_Task dag));
  vd_params : ∀ p, p ∈ ds_Parameters dag → param_ok p;
  vd_task_params : ∀ t v, t ∈ ds_Task dag → v ∈ wanted_params refParams t →
    v ∈ dp_Name <$> ds_Parameters dag;
  vd_acyclic : acyclic (depends (ds_Task dag));
  vd_exist : ∀ a b, depends (ds_Task dag) a b → b ∈ task_names (ds_Task dag);
  vd_connected : ∀ a b, a ∈ task_names (ds_Task dag) → b ∈ task_names (ds_Task dag) →
    connected (depends (ds_Task dag)) a b;
  vd_nonempty : ds_Task dag ≠ []
}.

(** What the cycle check knows between two calls of [visit]: the finished
    nodes are closed under dependencies and none of them is on a cycle. *)
Record dfs_inv (tasks : list TaskSpec) (visited recStack : gset string) : Prop := {
  di_sub : recStack ⊆ visited;
  di_closed : ∀ a b, a ∈ visited ∖ recStack → depends tasks a b → b ∈ visited ∖ recStack;
  di_acyclic : ∀ a, a ∈ visited ∖ recStack → ¬ tc (depends tasks) a a
}.

(** The first key in the order of [elements]: one possible [range] order. *)
Definition first_key (X : gset string) : string := default "" (head (elements X)).

(** A task that only refers to a reusable one, and a spec of such tasks. *)
Definition ref_task (name : string) (runAfter : list string) : TaskSpec :=
  mkTaskSpec name [] [] "" runAfter (mkBackoff 0) (mkConditional false []) [] None "" ""
    (Some (mkTaskRef "shared" 1)).

Definition spec_of (tasks : list TaskSpec) : DAGSpec :=
  mkDAGSpec "" tasks [] (mkWebhook "" false) (mkWorkspace false emptyPVC) false "".

(** Two small specs the examples use: a diamond and a loop. *)
Definition inline_task (name : string) (runAfter : list string) : TaskSpec :=
  mkTaskSpec name ["sh"] [] "alpine" runAfter (mkBackoff 0) (mkConditional false []) []
    None "" "" None.

Definition diamond : DAGSpec :=
  spec_of [inline_task "a" []; inline_task "b" ["a"]; inline_task "c" ["a"];
           inline_task "d" ["b"; "c"]].

Definition looping : DAGSpec :=
  spec_of [inline_task "a" ["c"]; inline_task "b" ["a"]; inline_task "c" ["b"]].

(** ** The cycle check *)

Lemma elem_of_run_after tasks a b : b ∈ run_after_of tasks a ↔ depends tasks a b.
Proof.
  unfold run_after_of, depends. rewrite list_elem_of_In, in_flat_map.
  split.
  - intros (t & Ht & Hb). exists t. rewrite <- list_elem_of_In in Ht.
    case_bool_decide; [by rewrite <- list_elem_of_In in Hb|done].
  - intros (t & Ht & Hn & Hb). exists t. rewrite <- list_elem_of_In.
    by rewrite bool_decide_eq_true_2, <- list_elem_of_In.
Qed.

Lemma task_name_universe tasks t :
  t ∈ tasks → ts_Name t ∈ universe tasks.
Proof.
  intros Ht. unfold universe. apply elem_of_list_to_set, elem_of_app. left.
  by apply list_elem_of_fmap_2.
Qed.

Lemma depends_universe tasks a b :
  depends tasks a b → a ∈ universe tasks ∧ b ∈ universe tasks.
Proof.
  intros (t & Ht & <- & Hb). split; [by apply task_name_universe|].
  unfold universe. apply elem_of_list_to_set, elem_of_app. right.
  rewrite list_elem_of_In, in_flat_map. exists t. by rewrite <- !list_elem_of_In.
Qed.

Lemma difference_size_lt (U v : gset string) x :
  x ∈ U → x ∉ v → size (U ∖ ({[x]} ∪ v)) < size (U ∖ v).
Proof.
  intros HU Hv. apply subset_size. split; [set_solver|].
  intros Hs. assert (x ∈ U ∖ ({[x]} ∪ v)) by set_solver. set_solver.
Qed.

Section cycle_search.
Context (tasks : list TaskSpec).
Notation E := (depends tasks).
Notation U := (universe tasks).

(** The search never runs out of fuel. *)
Lemma visit_total fuel :
  ∀ name v r, name ∈ U → size (U ∖ v) < fuel →
  ∃ b v' r', visit tasks fuel name (v, r) = Some (b, (v', r')) ∧ v ⊆ v'.
Proof.
  induction fuel as [|fuel IH]; intros name v r Hn Hf; [lia|]. simpl.
  case_bool_decide; [by do 3 eexists|].
  case_bool_decide as Hv; [by do 3 eexists|].
  assert (∀ ds v1 r1, (∀ d, d ∈ ds → d ∈ U) → size (U ∖ v1) < fuel →
    ∃ b v' r', visit_deps (visit tasks fuel) ds (v1, r1) = Some (b, (v', r')) ∧ v1 ⊆ v')
    as Hds.
  { induction ds as [|d ds IHds]; intros v1 r1 Hd Hs; simpl; [by do 3 eexists|].
    destruct (IH d v1 r1) as (b & v2 & r2 & -> & Hsub); [apply Hd; left|done|].
    destruct b; [by do 3 eexists|].
    destruct (IHds v2 r2) as (b & v3 & r3 & -> & ?).
    - intros; apply Hd; by right.
    - eapply Nat.le_lt_trans; [apply subseteq_size|exact Hs]. set_solver.
    - do 3 eexists; split; [done|]. set_solver. }
  destruct (Hds (run_after_of tasks name) ({[name]} ∪ v) ({[name]} ∪ r))
    as (b & v' & r' & -> & Hsub).
  - intros d Hd%elem_of_run_after. by apply depends_universe in Hd as [_ ?].
  - pose proof (difference_size_lt U v name Hn Hv). lia.
  - destruct b; do 3 eexists; (split; [done|set_solver]).
Qed.

(** What one call of [visit] establishes, for both of its answers. *)
Definition visit_post (name : string) (v r : gset string) (b : bool)
    (v' r' : gset string) : Prop :=
  if b then ∃ n, tc E n n
  else r' = r ∧ v ⊆ v' ∧ name ∈ v' ∖ r ∧ dfs_inv tasks v' r.

Lemma visit_deps_spec (vis : string → gset string * gset string →
                             option (bool * (gset string * gset string))) :
  (∀ name v r b v' r', vis name (v, r) = Some (b, (v', r')) → dfs_inv tasks v r →
     (∀ a, a ∈ r → tc E a name) → visit_post name v r b v' r') →
  ∀ ds v r b v' r', visit_deps vis ds (v, r) = Some (b, (v', r')) → dfs_inv tasks v r →
    (∀ a d, a ∈ r → d ∈ ds → tc E a d) →
    if b then ∃ n, tc E n n
    else r' = r ∧ v ⊆ v' ∧ (∀ d, d ∈ ds → d ∈ v' ∖ r) ∧ dfs_inv tasks v' r.
Proof.
  intros Hvis. induction ds as [|d ds IH]; intros v r b v' r' Hv Hinv Hp; simpl in Hv.
  - simplify_eq. repeat split; try apply Hinv; try done. by intros d ?%elem_of_nil.
  - destruct (vis d (v, r)) as [[b1 [v1 r1]]|] eqn:E1; [|done].
    apply Hvis in E1; [|done|intros; apply Hp; [done|left]].
    destruct b1; simplify_eq; [done|]. destruct E1 as (-> & Hs1 & Hd1 & Hinv1).
    apply IH in Hv; [|done|intros; apply Hp; [done|by right]].
    destruct b; [done|]. destruct Hv as (-> & Hs & Hds & Hinv').
    repeat split; try apply Hinv'; [set_solver|].
    intros d' [->|?]%elem_of_cons; [set_solver|auto].
Qed.

(** Marking a node as being visited leaves the set of finished nodes. *)
Lemma dfs_inv_enter name v r :
  dfs_inv tasks v r → name ∉ v → dfs_inv tasks ({[name]} ∪ v) ({[name]} ∪ r).
Proof.
  intros [Hsub Hcl Hac] Hn.
  assert (({[name]} ∪ v) ∖ ({[name]} ∪ r) = v ∖ r) as Heq by set_solver.
  split; [set_solver|rewrite Heq; exact Hcl|rewrite Heq; exact Hac].
Qed.

(** A node all of whose dependencies are finished is finished. *)
Lemma dfs_inv_leave name v r :
  dfs_inv tasks v ({[name]} ∪ r) → name ∉ r →
  (∀ d, E name d → d ∈ v ∖ ({[name]} ∪ r)) → dfs_inv tasks v r.
Proof.
  intros [Hsub Hcl Hac] Hn Hd. split.
  - set_solver.
  - intros a b Ha Hab. destruct (decide (a = name)) as [->|Hne].
    + apply Hd in Hab. set_solver.
    + assert (b ∈ v ∖ ({[name]} ∪ r)) by (apply (Hcl a); [set_solver|done]). set_solver.
  - intros a Ha Hcyc. destruct (decide (a = name)) as [->|Hne].
    + inversion Hcyc as [? ? Hself|? d ? Hnd Hdn]; subst.
      * apply Hd in Hself. set_solver.
      * assert (name ∈ v ∖ ({[name]} ∪ r)) as Hbad; [|set_solver].
        eapply closed_reachable_tc; [exact Hcl|by apply Hd|done].
    + apply (Hac a); [set_solver|done].
Qed.

Lemma visit_spec fuel :
  ∀ name v r b v' r', visit tasks fuel name (v, r) = Some (b, (v', r')) →
  dfs_inv tasks v r → (∀ a, a ∈ r → tc E a name) → visit_post name v r b v' r'.
Proof.
  induction fuel as [|fuel IH]; intros name v r b v' r' Hv Hinv Hp; simpl in Hv; [done|].
  case_bool_decide as Hr; [simplify_eq; exists name; auto|].
  case_bool_decide as Hvis; [simplify_eq; split_and!; [done..|clear -Hr Hvis; set_solver|done]|].
  destruct (visit_deps _ _ _) as [[b1 [v1 r1]]|] eqn:E1; [|done].
  apply (visit_deps_spec _ IH) in E1; [|by apply dfs_inv_enter|].
  - destruct b1; simplify_eq; [done|]. destruct E1 as (-> & Hs & Hds & Hinv1).
    split_and!.
    + clear -Hr. set_solver.
    + clear -Hs. set_solver.
    + clear -Hs Hr. set_solver.
    + eapply dfs_inv_leave; [done..|].
      intros d Hd. apply Hds. by apply elem_of_run_after.
  - intros a d [->%elem_of_singleton|Ha]%elem_of_union Hd%elem_of_run_after;
      [by apply tc_once|eapply tc_r; eauto].
Qed.
End cycle_search.

Lemma no_cycles_result (dag : DAGSpec) :
  ∃ b v r, visit_deps (visit (ds_Task dag) (visit_fuel (ds_Task dag)))
    (task_names (ds_Task dag)) (∅, ∅) = Some (b, (v, r)).
Proof.
  assert (∀ ds v r, (∀ d, d ∈ ds → d ∈ universe (ds_Task dag)) →
    ∃ b v' r', visit_deps (visit (ds_Task dag) (visit_fuel (ds_Task dag))) ds (v, r)
      = Some (b, (v', r'))) as H.
  { induction ds as [|d ds IH]; intros v r Hd; cbn [visit_deps]; [by do 3 eexists|].
    destruct (visit_total (ds_Task dag) (visit_fuel (ds_Task dag)) d v r)
      as (b & v' & r' & -> & _).
    - apply Hd. left.
    - unfold visit_fuel. apply Nat.lt_succ_r, subseteq_size. set_solver.
    - destruct b; [by do 3 eexists|]. apply IH. intros; apply Hd; by right. }
  apply H. intros d Hd. unfold universe. apply elem_of_list_to_set, elem_of_app. by left.
Qed.

Lemma checkNoCycles_spec (dag : DAGSpec) :
  checkNoCycles dag = None ↔ acyclic (depends (ds_Task dag)).
Proof.
  unfold checkNoCycles. destruct (no_cycles_result dag) as (b & v & r & Heq). rewrite Heq.
  apply (visit_deps_spec (ds_Task dag) _ (visit_spec _ _)) in Heq.
  - destruct b.
    + split; [done|]. intros Hac. destruct Heq as [n Hn]. by apply Hac in Hn.
    + destruct Heq as (_ & _ & Hall & [_ Hcl Hac]). split; [|done]. intros _ a Ha.
      assert (∃ b, depends (ds_Task dag) a b) as [b (t & Ht & <- & _)]
        by (inversion Ha; eauto).
      eapply Hac; [apply Hall|exact Ha]. by apply list_elem_of_fmap_2.
  - split; set_solver.
  - set_solver.
Qed.

(** ** The connectivity check *)

Lemma lookup_append_at k vs m k' x :
  x ∈ default [] (append_at k vs m !! k') ↔
  x ∈ default [] (m !! k') ∨ k' = k ∧ x ∈ vs.
Proof.
  unfold append_at. rewrite lookup_insert. case_decide as Hk; simpl.
  - subst. rewrite elem_of_app. naive_solver.
  - naive_solver.
Qed.

Lemma elem_of_add_adjacency m task a b :
  b ∈ default [] (add_adjacency m task !! a) ↔
  b ∈ default [] (m !! a) ∨
  (a = ts_Name task ∧ b ∈ ts_RunAfter task) ∨ (b = ts_Name task ∧ a ∈ ts_RunAfter task).
Proof.
  unfold add_adjacency.
  assert (∀ deps acc, b ∈ default [] (foldl (λ acc dep, append_at dep [ts_Name task] acc)
    acc deps !! a) ↔ b ∈ default [] (acc !! a) ∨ (b = ts_Name task ∧ a ∈ deps)) as Hfold.
  { induction deps as [|d deps IH]; intros acc; simpl.
    - rewrite elem_of_nil. naive_solver.
    - rewrite IH, lookup_append_at, !elem_of_cons, elem_of_nil. naive_solver. }
  rewrite Hfold, lookup_append_at. naive_solver.
Qed.

Lemma elem_of_adjacency tasks a b :
  b ∈ default [] (adjacency tasks !! a) ↔ depends tasks a b ∨ depends tasks b a.
Proof.
  unfold adjacency.
  assert (∀ m, b ∈ default [] (foldl add_adjacency m tasks !! a) ↔
    b ∈ default [] (m !! a) ∨ depends tasks a b ∨ depends tasks b a) as Hfold.
  { induction tasks as [|t tasks IH]; intros m; simpl.
    - unfold depends. setoid_rewrite elem_of_nil. naive_solver.
    - rewrite IH, elem_of_add_adjacency. unfold depends. setoid_rewrite elem_of_cons.
      naive_solver. }
  rewrite Hfold, lookup_empty. simpl. rewrite elem_of_nil. naive_solver.
Qed.

Section connect_search.
Context (adj : gmap string (list string)) (U : gset string).
Context (Hclosed : ∀ a b, a ∈ U → b ∈ default [] (adj !! a) → b ∈ U).
Notation nbr := (λ a b, b ∈ default [] (adj !! a)).

(** One call of [dfs] from an unvisited node returns a set in which every new
    node has all its neighbours and is reachable from the node. *)
Definition dfs_post (name : string) (v v' : gset string) : Prop :=
  v ⊆ v' ∧ name ∈ v' ∧
  (∀ x, x ∈ v' → x ∉ v → (∀ y, nbr x y → y ∈ v') ∧ rtc nbr name x).

Lemma dfs_list_spec (dfs : string → gset string → option (gset string)) fuel :
  (∀ n v, n ∈ U → n ∉ v → size (U ∖ v) < fuel → ∃ v', dfs n v = Some v' ∧ dfs_post n v v') →
  ∀ ns v, (∀ n, n ∈ ns → n ∈ U) → size (U ∖ v) < fuel →
  ∃ v', dfs_list dfs ns v = Some v' ∧ v ⊆ v' ∧ (∀ n, n ∈ ns → n ∈ v') ∧
    (∀ x, x ∈ v' → x ∉ v → (∀ y, nbr x y → y ∈ v') ∧ ∃ n, n ∈ ns ∧ rtc nbr n x).
Proof.
  intros Hdfs. induction ns as [|n ns IH]; intros v Hn Hf; simpl.
  - exists v. split_and!; try done. by intros n ?%elem_of_nil.
  - case_bool_decide as Hv.
    + destruct (IH v) as (v' & -> & Hs & Hns & Hx); [intros; apply Hn; by right|done|].
      exists v'. split_and!; try done.
      * intros n' [->|?]%elem_of_cons; [by apply Hs|auto].
      * intros x Hx1 Hx2. destruct (Hx x Hx1 Hx2) as (? & m & ? & ?).
        split; [done|]. exists m. split; [by right|done].
    + destruct (Hdfs n v) as (v1 & -> & Hs1 & Hn1 & Hx1); [apply Hn; left|done|done|].
      destruct (IH v1) as (v' & -> & Hs & Hns & Hx).
      { intros; apply Hn; by right. }
      { eapply Nat.le_lt_trans; [apply subseteq_size|exact Hf]. clear -Hs1. set_solver. }
      exists v'. split_and!; [done|by transitivity v1| |].
      * intros n' [->|?]%elem_of_cons; [by apply Hs|auto].
      * intros x Hx' Hxv. destruct (decide (x ∈ v1)) as [Hin|Hout].
        -- destruct (Hx1 x Hin Hxv) as [Hy Hr]. split; [intros y ?; by apply Hs, Hy|].
           exists n. split; [left|done].
        -- destruct (Hx x Hx' Hout) as (? & m & ? & ?).
           split; [done|]. exists m. split; [by right|done].
Qed.

Lemma dfs_spec fuel :
  ∀ name v, name ∈ U → name ∉ v → size (U ∖ v) < fuel →
  ∃ v', dfs adj fuel name v = Some v' ∧ dfs_post name v v'.
Proof.
  induction fuel as [|fuel IH]; intros name v HU Hv Hf; [lia|]. simpl.
  destruct (dfs_list_spec _ fuel IH (default [] (adj !! name)) ({[name]} ∪ v))
    as (v' & -> & Hs & Hns & Hx).
  - intros n Hn. by eapply Hclosed.
  - pose proof (difference_size_lt U v name HU Hv). lia.
  - exists v'. split; [done|]. split_and!; [clear -Hs; set_solver..|].
    intros x Hx' Hxv. destruct (decide (x = name)) as [->|Hne]; [by split|].
    destruct (Hx x) as (Hy & n & Hn & Hr); [done|set_solver|].
    split; [done|]. by eapply rtc_l.
Qed.
End connect_search.

Lemma universe_closed tasks a b :
  a ∈ universe tasks → b ∈ default [] (adjacency tasks !! a) → b ∈ universe tasks.
Proof. intros _ [H|H]%elem_of_adjacency; apply depends_universe in H; tauto. Qed.

(** The neighbours of the search are the two directions of [depends]. *)
Lemma nbr_connected tasks a b :
  rtc (λ x y, y ∈ default [] (adjacency tasks !! x)) a b ↔ connected (depends tasks) a b.
Proof.
  unfold connected. split; induction 1; try reflexivity.
  - eapply rtc_l; [|done]. match goal with H : _ ∈ _ |- _ => apply elem_of_adjacency in H end.
    unfold sc. tauto.
  - eapply rtc_l; [|done]. apply elem_of_adjacency. done.
Qed.

Section connected_check.
Context (pick : gset string → string) (Hpick : ∀ X : gset string, X ≠ ∅ → pick X ∈ X).

Lemma checkAllTasksConnected_spec (dag : DAGSpec) :
  checkAllTasksConnected pick dag = None ↔
  ∀ a b, a ∈ task_names (ds_Task dag) → b ∈ task_names (ds_Task dag) →
    connected (depends (ds_Task dag)) a b.
Proof.
  unfold checkAllTasksConnected. set (tasks := ds_Task dag).
  set (names := list_to_set (task_names tasks) : gset string). unfold startNode.
  case_bool_decide as Hempty.
  { destruct (dfs_spec (adjacency tasks) (universe tasks ∪ {[""]})
      ltac:(intros a b Ha Hb; apply elem_of_adjacency in Hb;
            destruct Hb as [Hb|Hb]; apply depends_universe in Hb; set_solver)
      (dfs_fuel tasks) "" ∅ ltac:(set_solver) ltac:(set_solver)) as (v & -> & _).
    { unfold dfs_fuel. apply Nat.lt_succ_r.
      pose proof (size_union_alt (universe tasks) ({[""]} : gset string)).
      pose proof (subseteq_size ((universe tasks ∪ {[""]}) ∖ ∅)
        (universe tasks ∪ {[""]}) ltac:(set_solver)).
      pose proof (subseteq_size (({[""]} : gset string) ∖ universe tasks) {[""]}
        ltac:(set_solver)) as H1. rewrite size_singleton in H1. lia. }
    rewrite bool_decide_eq_true_2 by (rewrite Hempty; set_solver).
    split; [|done]. intros _ a b Ha. exfalso.
    apply (not_elem_of_empty (C := gset string) a). rewrite <- Hempty.
    by apply elem_of_list_to_set. }
  assert (pick names ∈ task_names tasks) as Hp.
  { apply (elem_of_list_to_set (C := gset string)). by apply Hpick. }
  assert (pick names ∈ universe tasks) as HpU.
  { unfold universe. apply elem_of_list_to_set, elem_of_app. by left. }
  destruct (dfs_spec (adjacency tasks) (universe tasks) (universe_closed tasks)
    (dfs_fuel tasks) (pick names) ∅ HpU ltac:(set_solver)) as (v & -> & Hpost).
  { unfold dfs_fuel. pose proof (subseteq_size (universe tasks ∖ ∅) (universe tasks)
      ltac:(set_solver)). lia. }
  destruct Hpost as (_ & Hpv & Hv).
  split.
  - case_bool_decide as Hsub; [|done]. intros _ a b Ha Hb.
    assert (∀ x, x ∈ task_names tasks → connected (depends tasks) (pick names) x) as Hc.
    { intros x Hx. apply nbr_connected, Hv; [|set_solver].
      apply Hsub. by apply elem_of_list_to_set. }
    unfold connected in *. transitivity (pick names); [symmetry|]; by apply Hc.
  - intros Hconn. rewrite bool_decide_eq_true_2; [done|].
    intros x Hx%elem_of_list_to_set.
    eapply closed_reachable; [|exact Hpv|by apply nbr_connected, Hconn].
    intros a b Ha Hb. by apply (Hv a Ha ltac:(set_solver)).
Qed.
End connected_check.

(** ** The other checks *)

Lemma check_fields_step_spec t seen :
  match check_fields_step t seen with
  | inl _ => ¬ (field_ok t ∧ (ts_TaskRef t = None → ts_Name t ∉ seen))
  | inr seen' => field_ok t ∧
      (if bool_decide (ts_TaskRef t = None)
       then ts_Name t ∉ seen ∧ seen' = {[ts_Name t]} ∪ seen else seen' = seen)
  end.
Proof.
  unfold check_fields_step, field_ok.
  destruct (bool_decide_reflect (ts_Name t = "")); [tauto|].
  destruct (ts_TaskRef t) as [r|].
  { rewrite bool_decide_eq_false_2 by done. split_and!; done. }
  rewrite (bool_decide_eq_true_2 (@None TaskRef = None)) by done.
  destruct (bool_decide_reflect (ts_Script t = ""));
    destruct (bool_decide_reflect (ts_Command t = [])); simpl;
    destruct (bool_decide_reflect (ts_Image t = ""));
    destruct (bool_decide_reflect (ts_Name t ∈ seen)); naive_solver.
Qed.

Lemma inline_names_cons t tasks :
  inline_names (t :: tasks) =
  if bool_decide (ts_TaskRef t = None) then ts_Name t :: inline_names tasks
  else inline_names tasks.
Proof. unfold inline_names. simpl. by destruct (bool_decide _). Qed.

Lemma check_fields_loop_spec tasks seen :
  check_fields_loop tasks seen = None ↔
  (∀ t, t ∈ tasks → field_ok t) ∧ NoDup (inline_names tasks) ∧
  ∀ n, n ∈ inline_names tasks → n ∉ seen.
Proof.
  revert seen. induction tasks as [|t tasks IH]; intros seen.
  { split; [|done]. intros _. split_and!; [by intros t ?%elem_of_nil|constructor|].
    by intros n ?%elem_of_nil. }
  rewrite inline_names_cons. simpl. pose proof (check_fields_step_spec t seen) as Hs.
  destruct (check_fields_step t seen) as [e|seen'].
  - split; [done|]. intros (Hok & _ & Hn). exfalso. apply Hs. split; [apply Hok; left|].
    intros Hr. apply Hn. rewrite bool_decide_eq_true_2 by done. left.
  - destruct Hs as [Hok Hseen]. rewrite IH. setoid_rewrite elem_of_cons.
    case_bool_decide.
    + destruct Hseen as [Hnew ->]. rewrite NoDup_cons. setoid_rewrite elem_of_cons.
      setoid_rewrite elem_of_union. setoid_rewrite elem_of_singleton.
      split; [intros (? & ? & Hall)|intros (? & [? ?] & Hnot)]; split_and!; try done.
      * by intros t' [->|?]; auto.
      * intros Hin. apply (Hall _ Hin). by left.
      * by intros n [->|?]; [|intros ?; eapply Hall; eauto].
      * eauto.
      * intros n Hn [->|?]; [done|]. eapply Hnot; eauto.
    + subst. split; [intros (? & ? & ?)|intros (? & ? & ?)]; split_and!; auto.
      intros t' [->|?]; auto.
Qed.

Lemma checkFieldsFilled_spec (dag : DAGSpec) :
  checkFieldsFilled dag = None ↔
  (∀ t, t ∈ ds_Task dag → field_ok t) ∧ NoDup (inline_names (ds_Task dag)).
Proof.
  unfold checkFieldsFilled. rewrite check_fields_loop_spec. set_solver.
Qed.

Lemma checkRunAfterTasksExist_spec (dag : DAGSpec) :
  checkRunAfterTasksExist dag = None ↔
  ∀ a b, depends (ds_Task dag) a b → b ∈ task_names (ds_Task dag).
Proof.
  unfold checkRunAfterTasksExist.
  set (names := list_to_set (task_names (ds_Task dag)) : gset string).
  assert (∀ tasks, check_tasks_exist names tasks = None ↔
    ∀ t b, t ∈ tasks → b ∈ ts_RunAfter t → b ∈ names) as H.
  { assert (∀ n deps, check_deps_exist names n deps = None ↔ ∀ b, b ∈ deps → b ∈ names) as Hd.
    { intros n deps. induction deps as [|d deps IH]; simpl; [set_solver|].
      setoid_rewrite elem_of_cons. case_bool_decide; [rewrite IH|]; naive_solver. }
    induction tasks as [|t tasks IH]; simpl; [set_solver|].
    setoid_rewrite elem_of_cons.
    destruct (check_deps_exist _ _ _) eqn:E; [|rewrite IH; pose proof (proj1 (Hd _ _) E); naive_solver].
    split; [done|]. intros Hall. rewrite (proj2 (Hd _ _)) in E; naive_solver. }
  rewrite H. unfold depends, names. setoid_rewrite elem_of_list_to_set. naive_solver.
Qed.

Lemma check_param_specs_cons p ps acc :
  (param_ok p → check_param_specs (p :: ps) acc = check_param_specs ps ({[dp_Name p]} ∪ acc)) ∧
  (¬ param_ok p → ∃ e, check_param_specs (p :: ps) acc = inl e).
Proof.
  simpl. unfold param_ok.
  destruct (bool_decide_reflect (dp_Name p = ""));
    destruct (bool_decide_reflect (dp_DefaultValue p = ""));
    destruct (bool_decide_reflect (dp_DefaultFromSecret p = "")); simpl;
    (split; [tauto|]); intros; try (by eexists); exfalso; tauto.
Qed.

Lemma check_param_specs_spec ps acc :
  match check_param_specs ps acc with
  | inl _ => ∃ p, p ∈ ps ∧ ¬ param_ok p
  | inr m => (∀ p, p ∈ ps → param_ok p) ∧ m = acc ∪ list_to_set (dp_Name <$> ps)
  end.
Proof.
  revert acc. induction ps as [|p ps IH]; intros acc.
  - simpl. split; [by intros p ?%elem_of_nil|set_solver].
  - destruct (check_param_specs_cons p ps acc) as [Hyes Hno].
    destruct (decide (param_ok p)) as [Hok|Hbad].
    + rewrite Hyes by done. specialize (IH ({[dp_Name p]} ∪ acc)).
      destruct (check_param_specs ps _).
      * destruct IH as (q & ? & ?). exists q. split; [by right|done].
      * destruct IH as [Hall ->]. split; [by intros q [->|?]%elem_of_cons; auto|].
        rewrite fmap_cons, list_to_set_cons. clear. set_solver.
    + destruct (Hno Hbad) as [e ->]. exists p. split; [left|done].
Qed.

Lemma checkParameters_spec refParams (dag : DAGSpec) :
  checkParameters refParams dag = None ↔
  (∀ p, p ∈ ds_Parameters dag → param_ok p) ∧
  (∀ t v, t ∈ ds_Task dag → v ∈ wanted_params refParams t →
    v ∈ dp_Name <$> ds_Parameters dag).
Proof.
  unfold checkParameters. pose proof (check_param_specs_spec (ds_Parameters dag) ∅) as Hps.
  destruct (check_param_specs _ _) as [e|m].
  - split; [done|]. intros [Hp _]. destruct Hps as (p & Hin & Hno). by apply Hp in Hin.
  - destruct Hps as [Hok ->]. rewrite (left_id_L ∅ (∪)).
    set (names := dp_Name <$> ds_Parameters dag).
    assert (∀ l, forallb (λ v, bool_decide (v ∈ (list_to_set names : gset string))) l = true ↔
      ∀ v, v ∈ l → v ∈ names) as Hall.
    { intros l. rewrite forallb_forall. setoid_rewrite <- list_elem_of_In.
      setoid_rewrite bool_decide_eq_true. setoid_rewrite elem_of_list_to_set. done. }
    assert (∀ t, check_task_params refParams (list_to_set names) t = true ↔
      ∀ v, v ∈ wanted_params refParams t → v ∈ names) as Ht.
    { intros t. unfold check_task_params, wanted_params.
      destruct (ts_TaskRef t) as [ref|]; [|apply Hall].
      destruct (refParams !! ref); [|split; [|done]; intros _ v ?%elem_of_nil; done].
      rewrite andb_true_iff, !Hall. setoid_rewrite elem_of_app. naive_solver. }
    destruct (forallb (check_task_params _ _) _) eqn:E.
    + rewrite forallb_forall in E. setoid_rewrite <- list_elem_of_In in E.
      setoid_rewrite Ht in E. naive_solver.
    + split; [done|]. intros [_ Hv]. exfalso. apply not_true_iff_false in E. apply E.
      rewrite forallb_forall. setoid_rewrite <- list_elem_of_In. setoid_rewrite Ht. eauto.
Qed.

Lemma checkStartingTask_spec (dag : DAGSpec) :
  checkStartingTask dag = None ↔ ∃ t, t ∈ ds_Task dag ∧ ts_RunAfter t = [].
Proof.
  unfold checkStartingTask. destruct (existsb _ _) eqn:E.
  - apply existsb_exists in E as (t & Ht & Hr%bool_decide_eq_true).
    apply list_elem_of_In in Ht. naive_solver.
  - split; [done|]. intros (t & Ht & Hr). exfalso. apply not_true_iff_false in E. apply E.
    apply existsb_exists. exists t. rewrite <- list_elem_of_In. by rewrite bool_decide_eq_true_2.
Qed.

(** In an acyclic spec whose dependencies all exist, a task has no
    dependency. *)
Lemma acyclic_start (tasks : list TaskSpec) :
  tasks ≠ [] → acyclic (depends tasks) → (∀ a b, depends tasks a b → b ∈ task_names tasks) →
  ∃ t, t ∈ tasks ∧ ts_RunAfter t = [].
Proof.
  intros Hne Hac Hex.
  destruct (acyclic_has_sink (depends tasks) (list_to_set (task_names tasks)))
    as (a & Ha & Hsink); [|set_solver|done| |].
  - destruct tasks as [|t ?]; [done|]. unfold task_names. simpl. set_solver.
  - intros a _. destruct (run_after_of tasks a) as [|b ?] eqn:E.
    + right. intros [b Hb%elem_of_run_after]. rewrite E in Hb. by apply elem_of_nil in Hb.
    + left. exists b. apply elem_of_run_after. rewrite E. left.
  - apply elem_of_list_to_set in Ha. apply list_elem_of_fmap in Ha as (t & -> & Ht).
    exists t. split; [done|]. destruct (ts_RunAfter t) as [|b ?] eqn:E; [done|].
    exfalso. apply (Hsink b). exists t. rewrite E. split_and!; [done..|left].
Qed.

Lemma or_else_None e k : or_else e k = None ↔ e = None ∧ k = None.
Proof. destruct e; simpl; naive_solver. Qed.

(** ** Theorems *)

Lemma first_key_in (X : gset string) : X ≠ ∅ → first_key X ∈ X.
Proof.
  intros HX. unfold first_key. destruct (elements X) as [|x l] eqn:E.
  - exfalso. apply HX, leibniz_equiv. by apply elements_empty_inv.
  - simpl. apply elem_of_elements. rewrite E. left.
Qed.


(** C39: the two recursive searches of the validation terminate on every spec,
    cyclic or not: one more call than there are names is enough. *)
Theorem validation_searches_terminate (dag : DAGSpec) (start : string) :
  (∃ cyclic visited recStack,
     visit_deps (visit (ds_Task dag) (visit_fuel (ds_Task dag)))
       (task_names (ds_Task dag)) (∅, ∅) = Some (cyclic, (visited, recStack))) ∧
  (∃ visited, dfs (adjacency (ds_Task dag)) (dfs_fuel (ds_Task dag)) start ∅ = Some visited).
Proof.
  split; [apply no_cycles_result|].
  set (tasks := ds_Task dag).
  destruct (dfs_spec (adjacency tasks) (universe tasks ∪ {[start]})
    ltac:(intros a b Ha Hb; apply elem_of_adjacency in Hb;
          destruct Hb as [Hb|Hb]; apply depends_universe in Hb; set_solver)
    (dfs_fuel tasks) start ∅ ltac:(set_solver) ltac:(set_solver)) as (v & Hv & _).
  - unfold dfs_fuel.
    replace ((universe tasks ∪ {[start]}) ∖ ∅) with (universe tasks ∪ {[start]}) by set_solver.
    rewrite size_union_alt.
    pose proof (subseteq_size (({[start]} : gset string) ∖ universe tasks) {[start]}
      ltac:(set_solver)) as H1. rewrite size_singleton in H1. lia.
  - by exists v.
Qed.

(** Among specs whose fields and parameters are in order, the error
    "cyclic dependency detected" is returned exactly for those whose dependency
    relation has a cycle. *)
Theorem ValidateDAG_cycle_error (pick : gset string → string) refParams (dag : DAGSpec)
  (Hfields : checkFieldsFilled dag = None) (Hparams : checkParameters refParams dag = None) :
  ValidateDAG pick refParams dag = Some (EErrorf "cyclic dependency detected") ↔
  ¬ acyclic (depends (ds_Task dag)).
Proof.
  unfold ValidateDAG. rewrite Hfields, Hparams. simpl. rewrite <- checkNoCycles_spec.
  destruct (checkNoCycles dag) as [e|] eqn:E; simpl.
  - split; [done|]. intros _. unfold checkNoCycles in E. repeat case_match; by simplify_eq.
  - split; [|done]. intros H.
    destruct (checkRunAfterTasksExist dag) as [e|] eqn:E1; simpl in H.
    { exfalso. simplify_eq. unfold checkRunAfterTasksExist in E1. revert E1.
      generalize (list_to_set (C := gset string) (task_names (ds_Task dag))) as names.
      intros names. induction (ds_Task dag) as [|t ts IH]; simpl; [done|].
      destruct (check_deps_exist names (ts_Name t) (ts_RunAfter t)) as [e|] eqn:E2; [|done].
      intros [= ->]. revert E2. induction (ts_RunAfter t); simpl; [done|].
      case_bool_decide; done. }
    unfold checkAllTasksConnected, checkStartingTask in H.
    repeat case_match; simplify_eq.
Qed.


(** Two tasks that refer to reusable tasks may share a name: the check for
    duplicates is never reached for a task with a [taskRef]. *)
Theorem duplicate_ref_names_accepted (pick : gset string → string)
  (Hpick : ∀ X : gset string, X ≠ ∅ → pick X ∈ X) :
  ValidateDAG pick ∅ (spec_of [ref_task "a" []; ref_task "a" []]) = None ∧
  ¬ NoDup (task_names (ds_Task (spec_of [ref_task "a" []; ref_task "a" []]))).
Proof.
  split.
  - set (dag := spec_of _).
    assert (pick (list_to_set (task_names (ds_Task dag))) = "a") as Hp.
    { assert (pick (list_to_set (task_names (ds_Task dag))) ∈ ({["a"]} : gset string)) as H;
        [by apply Hpick|by apply elem_of_singleton in H]. }
    unfold ValidateDAG, checkAllTasksConnected, startNode. rewrite Hp. reflexivity.
  - simpl. intros Hnd. apply NoDup_cons in Hnd as [Hn _]. apply Hn. left.
Qed.

(** ** Witnesses *)


Lemma ValidateDAG_cycle_error_witness :
  ¬ acyclic (depends (ds_Task looping)).
Proof.
  apply (ValidateDAG_cycle_error first_key ∅ looping); reflexivity.
Defined.

Lemma diamond_valid : ValidDAG ∅ diamond.
Proof.
  split.
  - apply (checkFieldsFilled_spec diamond). reflexivity.
  - apply (checkFieldsFilled_spec diamond). reflexivity.
  - apply (checkParameters_spec ∅ diamond). reflexivity.
  - apply (checkParameters_spec ∅ diamond). reflexivity.
  - apply (checkNoCycles_spec diamond). reflexivity.
  - apply (checkRunAfterTasksExist_spec diamond). reflexivity.
  - apply (checkAllTasksConnected_spec first_key first_key_in diamond). reflexivity.
  - done.
Qed.


Lemma duplicate_ref_names_accepted_witness :
  ValidateDAG first_key ∅ (spec_of [ref_task "a" []; ref_task "a" []]) = None ∧
  ¬ NoDup (task_names (ds_Task (spec_of [ref_task "a" []; ref_task "a" []]))).
Proof. apply (duplicate_ref_names_accepted first_key first_key_in). Defined.
