(* ===== verification/DagDsl.v ===== *)
(** * The DAG language (internal/dagdsl/parser.go)

    The syntax tree the grammar yields and its conversion to a [DAGSpec].  The
    lexer and the parser are built by the participle library from the grammar
    in the struct tags: the parse function is a parameter of [ParseDSL].  A
    numeral is read digit by digit into a Go [int], so it wraps around. *)

From S2P Require Import Prelude Api.

(** ** The syntax tree *)

Record ScheduleField := mkScheduleField { sf_Schedule : string }.

Record ParameterDef := mkParameterDef {
  pd_Name : string;
  pd_DefaultValue : option string;
  pd_DefaultFromSecret : option string
}.

Record ParametersBlock := mkParametersBlock { pb_Parameters : list ParameterDef }.

Record TargetSet := mkTargetSet {
  tgt_Single : option string;
  tgt_Multiple : option (list string)
}.

Record EdgeDef := mkEdgeDef {
  ed_From : string;
  ed_To : TargetSet
}.

Record GraphBlock := mkGraphBlock { gb_Edges : list EdgeDef }.

Record StringArray := mkStringArray { sa_Values : list string }.
Record IntArray := mkIntArray { ia_Values : list string }.

Record TaskField := mkTaskField {
  tf_Image : option string;
  tf_Command : option StringArray;
  tf_Args : option StringArray;
  tf_Script : option string;
  tf_Parameters : option StringArray;
  tf_Retry : option IntArray;
  tf_Backoff : option string
}.

Record TaskDef := mkTaskDef {
  td_Name : string;
  td_Fields : list TaskField
}.

Record DAGItem := mkDAGItem {
  di_Schedule : option ScheduleField;
  di_Parameters : option ParametersBlock;
  di_Graph : option GraphBlock;
  di_Task : option TaskDef
}.

Record DSLRoot := mkDSLRoot { dr_Items : list DAGItem }.

(** ** Literals *)

Module Convert.

Definition byte_at (i : nat) (s : string) : option Ascii.ascii := String.get i s.

Definition is_quote (c : option Ascii.ascii) : bool :=
  bool_decide (c = Some (Ascii.ascii_of_nat 34)).

Definition cleanString (s : string) : string :=
  let len := String.length s in
  if bool_decide (2 <= len) && is_quote (byte_at 0 s) && is_quote (byte_at (len - 1) s)
  then String.substring 1 (len - 2) s
  else s.

Definition triple_quote : string := dquote +:+ dquote +:+ dquote.

Definition cleanScriptString (s : string) : string :=
  let len := String.length s in
  if bool_decide (6 <= len)
     && bool_decide (String.substring 0 3 s = triple_quote)
     && bool_decide (String.substring (len - 3) 3 s = triple_quote)
  then String.substring 3 (len - 6) s
  else cleanString s.

Definition cleanStringArray (arr : list string) : list string := cleanString <$> arr.

(** [for _, char := range s]: a byte that is no digit belongs to a rune that
    is no digit. *)
Fixpoint int_loop (s : string) (val : Z) : option Z :=
  match s with
  | EmptyString => Some val
  | String c rest =>
      match digit_of c with
      | Some d => int_loop rest (wrap64 (wrap64 (val * 10) + d))
      | None => None
      end
  end.

Definition convertIntString (s : string) : result Z :=
  match int_loop s 0 with
  | Some val => Ok val
  | None => Err (EErrorf ("invalid integer: " +:+ s))
  end.

Fixpoint convertIntArray (arr : list string) : result (list Z) :=
  match arr with
  | [] => Ok []
  | s :: rest =>
      match int_loop s 0 with
      | None => Err (EErrorf ("invalid integer: " +:+ s))
      | Some val =>
          match convertIntArray rest with
          | Ok vals => Ok (val :: vals)
          | Err e => Err e
          end
      end
  end.

(** ** Conversion *)

Definition getTargets (targetSet : TargetSet) : list string :=
  match tgt_Single targetSet with
  | Some t => [t]
  | None => match tgt_Multiple targetSet with Some ts => ts | None => [] end
  end.

(** [dependencies[target] = append(dependencies[target], edge.From)] *)
Definition add_dependency (from : string) (deps : gmap string (list string)) (target : string)
    : gmap string (list string) :=
  <[target := default [] (deps !! target) ++ [from]]> deps.

Definition buildDependencyMap (graph : option GraphBlock) : gmap string (list string) :=
  match graph with
  | None => ∅
  | Some g =>
      foldl (λ deps edge, foldl (add_dependency (ed_From edge)) deps (getTargets (ed_To edge)))
        ∅ (gb_Edges g)
  end.

Definition convertParameters (parametersBlock : ParametersBlock) : list DagParameterSpec :=
  (λ param, mkDagParameterSpec (pd_Name param)
     (match pd_DefaultValue param with Some v => cleanString v | None => "" end)
     (match pd_DefaultFromSecret param with Some v => cleanString v | None => "" end))
  <$> pb_Parameters parametersBlock.

(** One iteration of the field loop of [createTaskSpec]. *)
Definition apply_field (t : TaskSpec) (field : TaskField) : TaskSpec :=
  let '(mkTaskSpec name command args image runAfter backoff cond params pt script inj ref) := t in
  match field with
  | mkTaskField (Some i) _ _ _ _ _ _ =>
      mkTaskSpec name command args (cleanString i) runAfter backoff cond params pt script inj ref
  | mkTaskField None (Some c) _ _ _ _ _ =>
      mkTaskSpec name (cleanStringArray (sa_Values c)) args image runAfter backoff cond params
        pt script inj ref
  | mkTaskField None None (Some a) _ _ _ _ =>
      mkTaskSpec name command (cleanStringArray (sa_Values a)) image runAfter backoff cond params
        pt script inj ref
  | mkTaskField None None None (Some s) _ _ _ =>
      mkTaskSpec name command args image runAfter backoff cond params pt
        (cleanScriptString s) inj ref
  | mkTaskField None None None None (Some p) _ _ =>
      mkTaskSpec name command args image runAfter backoff cond
        (cleanStringArray (sa_Values p)) pt script inj ref
  | mkTaskField None None None None None (Some r) _ =>
      match convertIntArray (ia_Values r) with
      | Err _ => t
      | Ok retryCodes =>
          mkTaskSpec name command args image runAfter backoff
            (mkConditional (bool_decide (0 < length retryCodes)) retryCodes)
            params pt script inj ref
      end
  | mkTaskField None None None None None None (Some b) =>
      match convertIntString b with
      | Ok limit =>
          mkTaskSpec name command args image runAfter (mkBackoff limit) cond params pt script
            inj ref
      | Err _ => t
      end
  | mkTaskField None None None None None None None => t
  end.

Definition default_task (name : string) : TaskSpec :=
  mkTaskSpec name [] [] "" [] (mkBackoff 3) (mkConditional false []) [] None "" "" None.

Definition with_RunAfter (t : TaskSpec) (deps : list string) : TaskSpec :=
  mkTaskSpec (ts_Name t) (ts_Command t) (ts_Args t) (ts_Image t) deps (ts_Backoff t)
    (ts_Conditional t) (ts_Parameters t) (ts_PodTemplate t) (ts_Script t)
    (ts_ScriptInjectorImage t) (ts_TaskRef t).

Definition createTaskSpec (task : TaskDef) (dependencies : gmap string (list string)) : TaskSpec :=
  let taskSpec := foldl apply_field (default_task (td_Name task)) (td_Fields task) in
  match dependencies !! td_Name task with
  | Some deps => with_RunAfter taskSpec deps
  | None => taskSpec
  end.

(** What the item loop of [convertToDAGSpec] collects. *)
Record Items := mkItems {
  it_schedule : string;
  it_parameters : option ParametersBlock;
  it_graph : option GraphBlock;
  it_tasks : list TaskDef
}.

Definition collect_item (acc : Items) (item : DAGItem) : Items :=
  let '(mkItems schedule parameters graph tasks) := acc in
  match item with
  | mkDAGItem (Some s) _ _ _ => mkItems (cleanString (sf_Schedule s)) parameters graph tasks
  | mkDAGItem None (Some p) _ _ => mkItems schedule (Some p) graph tasks
  | mkDAGItem None None (Some g) _ => mkItems schedule parameters (Some g) tasks
  | mkDAGItem None None None (Some t) => mkItems schedule parameters graph (tasks ++ [t])
  | mkDAGItem None None None None => acc
  end.

Definition collect (root : DSLRoot) : Items :=
  foldl collect_item (mkItems "" None None []) (dr_Items root).

Definition convertToDAGSpec (root : DSLRoot) : DAGSpec :=
  let items := collect root in
  mkDAGSpec (it_schedule items)
    ((λ task, createTaskSpec task (buildDependencyMap (it_graph items))) <$> it_tasks items)
    (match it_parameters items with Some p => convertParameters p | None => [] end)
    (mkWebhook "" false) (mkWorkspace false emptyPVC) false "".

Definition ParseDSL (parseString : string → GoError + DSLRoot) (input : string)
    : result DAGSpec :=
  match parseString input with
  | inl err => Err (EWrap "failed to parse DSL" err)
  | inr root => Ok (convertToDAGSpec root)
  end.

End Convert.
Import Convert.

(** ** Specification *)

(** The sources of the edges into [name], in the order of the graph. *)
Definition sources_of (edges : list EdgeDef) (name : string) : list string :=
  flat_map (λ e, (λ _, ed_From e) <$> where_ (λ t, bool_decide (t = name)) (getTargets (ed_To e)))
    edges.

Definition graph_edges (graph : option GraphBlock) : list EdgeDef :=
  match graph with Some g => gb_Edges g | None => [] end.

(** The task definitions of a program in order, and its last graph: an item is
    read as the first of its alternatives that is set. *)
Definition item_task (item : DAGItem) : option TaskDef :=
  match item with mkDAGItem None None None t => t | _ => None end.
Definition item_graph (item : DAGItem) : option GraphBlock :=
  match item with mkDAGItem None None g _ => g | _ => None end.

Definition task_defs (root : DSLRoot) : list TaskDef := omap item_task (dr_Items root).
Definition last_graph (root : DSLRoot) : option GraphBlock :=
  last (omap item_graph (dr_Items root)).
Definition root_edges (root : DSLRoot) : list EdgeDef := graph_edges (last_graph root).

(** A text without a double quote: what the lexer accepts between two. *)
Fixpoint quote_free (s : string) : bool :=
  match s with
  | EmptyString => true
  | String c rest => negb (is_quote (Some c)) && quote_free rest
  end.

Definition quoted (s : string) : string := dquote +:+ s +:+ dquote.

(** The tree of [graph { a -> b  a -> { b, c } } task a {..} task b {..}],
    which the examples use. *)
Definition command_field (cmd : string) : TaskField :=
  mkTaskField None (Some (mkStringArray [quoted cmd])) None None None None None.
Definition image_field (image : string) : TaskField :=
  mkTaskField (Some (quoted image)) None None None None None None.
Definition backoff_field (n : string) : TaskField :=
  mkTaskField None None None None None None (Some n).

Definition task_item (name : string) (fields : list TaskField) : DAGItem :=
  mkDAGItem None None None (Some (mkTaskDef name fields)).

Definition two_tasks : DSLRoot := mkDSLRoot
  [ mkDAGItem (Some (mkScheduleField (quoted "0 0 * * *"))) None None None;
    mkDAGItem None None (Some (mkGraphBlock
      [ mkEdgeDef "a" (mkTargetSet (Some "b") None);
        mkEdgeDef "a" (mkTargetSet None (Some ["b"; "c"])) ])) None;
    task_item "a" [image_field "alpine"; command_field "sh"];
    task_item "b" [image_field "alpine"; command_field "sh"; backoff_field "7"] ].

(** ** Numerals *)

Lemma wrap64_absorb a d : wrap64 (wrap64 a + d) = wrap64 (a + d).
Proof.
  unfold wrap64. f_equal.
  replace ((a + 2 ^ 63) mod 2 ^ 64 - 2 ^ 63 + d + 2 ^ 63)%Z
    with ((a + 2 ^ 63) mod 2 ^ 64 + d)%Z by lia.
  rewrite Zplus_mod_idemp_l. f_equal. lia.
Qed.

Lemma wrap64_mul10 a : wrap64 (wrap64 a * 10) = wrap64 (a * 10).
Proof.
  unfold wrap64. f_equal.
  replace (((a + 2 ^ 63) mod 2 ^ 64 - 2 ^ 63) * 10 + 2 ^ 63)%Z
    with ((a + 2 ^ 63) mod 2 ^ 64 * 10 + (2 ^ 63 - 2 ^ 63 * 10))%Z by lia.
  rewrite <- Zplus_mod_idemp_l, Zmult_mod_idemp_l, Zplus_mod_idemp_l. f_equal. lia.
Qed.

Lemma int_loop_spec s : ∀ val,
  int_loop s (wrap64 val) = if all_digits s then Some (wrap64 (decimal s val)) else None.
Proof.
  induction s as [|c s IH]; intros val; simpl; [done|].
  destruct (digit_of c) as [d|] eqn:Hd; simpl.
  - rewrite wrap64_mul10, wrap64_absorb. apply IH.
  - done.
Qed.

(** ** The dependency map *)

Lemma add_dependency_at from deps targets name :
  default [] (foldl (add_dependency from) deps targets !! name) =
  default [] (deps !! name) ++
    ((λ _, from) <$> where_ (λ t, bool_decide (t = name)) targets).
Proof.
  revert deps. induction targets as [|t targets IH]; intros deps; simpl.
  - by rewrite app_nil_r.
  - rewrite IH. unfold add_dependency at 1.
    case_bool_decide as Hn; simpl.
    + subst. rewrite lookup_insert_eq. simpl. by rewrite <- app_assoc.
    + by rewrite lookup_insert_ne by done.
Qed.

Lemma buildDependencyMap_at graph name :
  default [] (buildDependencyMap graph !! name) = sources_of (graph_edges graph) name.
Proof.
  destruct graph as [[edges]|]; simpl; [|done].
  enough (∀ deps,
    default [] (foldl (λ deps edge, foldl (add_dependency (ed_From edge)) deps
                                      (getTargets (ed_To edge))) deps edges !! name) =
    default [] (deps !! name) ++ sources_of edges name) as ->; [done|].
  induction edges as [|e edges IH]; intros deps; simpl; [by rewrite app_nil_r|].
  rewrite IH, add_dependency_at. by rewrite <- app_assoc.
Qed.

Lemma apply_field_keeps fields : ∀ t,
  ts_Name (foldl apply_field t fields) = ts_Name t ∧
  ts_RunAfter (foldl apply_field t fields) = ts_RunAfter t ∧
  ts_TaskRef (foldl apply_field t fields) = ts_TaskRef t.
Proof.
  induction fields as [|f fields IH]; intros t; simpl; [done|].
  destruct (IH (apply_field t f)) as (-> & -> & ->).
  destruct t, f; simpl. by repeat case_match.
Qed.

Lemma createTaskSpec_deps task deps :
  ts_Name (createTaskSpec task deps) = td_Name task ∧
  ts_RunAfter (createTaskSpec task deps) = default [] (deps !! td_Name task) ∧
  ts_TaskRef (createTaskSpec task deps) = None.
Proof.
  unfold createTaskSpec.
  destruct (apply_field_keeps (td_Fields task) (default_task (td_Name task))) as (H1 & H2 & H3).
  destruct (deps !! td_Name task); simpl; by rewrite ?H1, ?H2, ?H3.
Qed.

Lemma elem_of_sources edges name a :
  a ∈ sources_of edges name ↔
  ∃ e, e ∈ edges ∧ ed_From e = a ∧ name ∈ getTargets (ed_To e).
Proof.
  unfold sources_of. rewrite list_elem_of_In, in_flat_map.
  split; intros (e & He & Hx); exists e; rewrite <- !list_elem_of_In in *.
  - apply list_elem_of_fmap in Hx as (t & -> & [Ht ?]%elem_of_where).
    by apply bool_decide_eq_true_1 in Ht as ->.
  - destruct Hx as [<- Ht]. split; [done|].
    apply list_elem_of_fmap. exists name. split; [done|].
    apply elem_of_where. by rewrite bool_decide_eq_true_2.
Qed.

(** ** Text literals *)

Lemma cleanString_quoted s : cleanString (quoted s) = s.
Proof.
  unfold cleanString, quoted, byte_at.
  replace (String.length (dquote +:+ s +:+ dquote)) with (S (S (String.length s)))
    by (rewrite !string_length_app; simpl; lia).
  replace (String.get (S (S (String.length s)) - 1) (dquote +:+ s +:+ dquote))
    with (String.get 0 dquote).
  - rewrite bool_decide_eq_true_2 by lia.
    replace (S (S (String.length s)) - 2)%nat with (String.length s) by lia.
    change (String.substring (String.length dquote) (String.length s)
              (dquote +:+ s +:+ dquote) = s).
    rewrite substring_skip. apply substring_app.
  - replace (S (S (String.length s)) - 1)%nat with (S (String.length s)) by lia.
    change (String.get 0 dquote = String.get (String.length s) (s +:+ dquote)).
    by rewrite string_app_get.
Qed.

Lemma cleanScriptString_multiline s :
  cleanScriptString (triple_quote +:+ s +:+ triple_quote) = s.
Proof.
  unfold cleanScriptString.
  replace (String.length (triple_quote +:+ s +:+ triple_quote))
    with (3 + (String.length s + 3))%nat by (by rewrite !string_length_app).
  rewrite bool_decide_eq_true_2 by lia.
  rewrite (bool_decide_eq_true_2 (String.substring 0 3 _ = _))
    by (exact (substring_app triple_quote _)).
  replace (3 + (String.length s + 3) - 3)%nat with (3 + String.length s)%nat by lia.
  rewrite (bool_decide_eq_true_2 (String.substring _ 3 _ = _)).
  - replace (3 + (String.length s + 3) - 6)%nat with (String.length s) by lia.
    change (String.substring (String.length triple_quote) (String.length s)
              (triple_quote +:+ s +:+ triple_quote) = s).
    rewrite substring_skip. apply substring_app.
  - change (String.substring (String.length s) 3 (s +:+ triple_quote) = triple_quote).
    by rewrite substring_skip.
Qed.

Lemma cleanScriptString_single s :
  quote_free s = true → cleanScriptString (quoted s) = s.
Proof.
  intros Hq. rewrite <- (cleanString_quoted s) at 2. unfold cleanScriptString.
  destruct s as [|c s]; [done|]. simpl in Hq. apply andb_true_iff in Hq as [Hc _].
  rewrite (bool_decide_eq_false_2 (String.substring 0 3 _ = _)); [by rewrite andb_false_r|].
  intros H. apply (f_equal (String.get 1)) in H.
  assert (Some c = Some (Ascii.ascii_of_nat 34)) as Hc'.
  { refine (eq_trans _ H). destruct s; [|destruct s]; reflexivity. }
  unfold is_quote in Hc. by rewrite bool_decide_eq_true_2 in Hc.
Qed.

(** ** The collected items *)

Lemma collect_spec root :
  it_tasks (collect root) = task_defs root ∧ it_graph (collect root) = last_graph root.
Proof.
  unfold collect, task_defs, last_graph. destruct root as [items]; simpl.
  enough (∀ acc, it_tasks (foldl collect_item acc items) = it_tasks acc ++ omap item_task items ∧
    it_graph (foldl collect_item acc items) =
      match last (omap item_graph items) with Some g => Some g | None => it_graph acc end) as H.
  { destruct (H (mkItems "" None None [])) as [-> ->]. split; [done|]. by destruct (last _). }
  induction items as [|i items IH]; intros acc; simpl; [by rewrite app_nil_r|].
  destruct (IH (collect_item acc i)) as [-> ->]. destruct acc as [sch ps g ts].
  destruct i as [[s|] [p|] [g'|] [t|]]; simpl; rewrite ?last_cons, <- ?app_assoc;
    split; try done; by destruct (last _).
Qed.

Lemma convert_tasks root :
  ds_Task (convertToDAGSpec root) =
    (λ td, createTaskSpec td (buildDependencyMap (last_graph root))) <$> task_defs root.
Proof. unfold convertToDAGSpec. destruct (collect_spec root) as [<- <-]. done. Qed.

(** ** Properties *)

(** A DSL program compiles to one task per task definition, in order and
    under its name, without a task reference, and the dependencies of a task
    are the sources of the edges into it, in the order the last graph block
    lists them. *)
Theorem convertToDAGSpec_spec (root : DSLRoot) :
  task_names (ds_Task (convertToDAGSpec root)) = td_Name <$> task_defs root ∧
  ∀ t, t ∈ ds_Task (convertToDAGSpec root) →
    ts_RunAfter t = sources_of (root_edges root) (ts_Name t) ∧ ts_TaskRef t = None.
Proof.
  rewrite convert_tasks. split.
  - unfold task_names. rewrite <- list_fmap_compose. apply list_fmap_ext.
    intros i td _. apply createTaskSpec_deps.
  - intros t (td & -> & _)%list_elem_of_fmap.
    destruct (createTaskSpec_deps td (buildDependencyMap (last_graph root))) as (-> & -> & ->).
    by rewrite buildDependencyMap_at.
Qed.

(** A numeral is read as its decimal value wrapped to 64 bits, any other
    text is an error; so every [int] that is not negative reads back from its
    decimal text. *)
Theorem convertIntString_spec (s : string) (n : N) (Hn : (n < 2 ^ 63)%N) :
  (convertIntString s =
     if all_digits s then Ok (wrap64 (decimal s 0))
     else Err (EErrorf ("invalid integer: " +:+ s))) ∧
  convertIntString (pretty n) = Ok (Z.of_N n).
Proof.
  assert (∀ s, convertIntString s =
     if all_digits s then Ok (wrap64 (decimal s 0))
     else Err (EErrorf ("invalid integer: " +:+ s))) as H.
  { intros s'. unfold convertIntString. change 0%Z with (wrap64 0) at 1.
    rewrite int_loop_spec. by destruct (all_digits s'). }
  split; [apply H|]. rewrite H. destruct (decimal_pretty n) as [-> ->].
  rewrite wrap64_id; [done|]. unfold is_int64. lia.
Qed.

Lemma convertIntString_spec_witness :
  convertIntString (pretty 2024%N) = Ok 2024%Z ∧ is_ok (convertIntString "12a") = false ∧
  convertIntString "9223372036854775808" = Ok (- 2 ^ 63)%Z.
Proof.
  split; [apply (convertIntString_spec "" 2024%N); lia|].
  rewrite (proj1 (convertIntString_spec "12a" 0%N ltac:(lia))).
  rewrite (proj1 (convertIntString_spec "9223372036854775808" 0%N ltac:(lia))).
  split; reflexivity.
Defined.

(** Unquoting undoes quoting: a string literal, a triple-quoted script and
    a script given as a plain literal all yield the text between the
    quotes. *)
Theorem unquote_roundtrip (s : string) :
  cleanString (quoted s) = s ∧
  cleanScriptString (triple_quote +:+ s +:+ triple_quote) = s ∧
  (quote_free s = true → cleanScriptString (quoted s) = s).
Proof.
  split; [apply cleanString_quoted|].
  split; [apply cleanScriptString_multiline | apply cleanScriptString_single].
Qed.

Lemma unquote_roundtrip_witness :
  cleanScriptString (quoted "echo hello") = "echo hello".
Proof. apply (unquote_roundtrip "echo hello"). reflexivity. Defined.
