(* ===== verification/DslValidator.v ===== *)
(** * Validation of a compiled DSL program (internal/dagdsl/validator.go) and
    its merge into a DAG object ([processDSL] of controller/dag_controller.go).

    [errors] is the accumulated [ValidationResult.Errors]; the [details] map of
    [ValidateAndParseDetails] is a record with a field per key. *)

From S2P Require Import Prelude Api Graph DagDsl DagValidation.
Import DagDsl.Convert.

(** ** The validator *)

Module Validator.

Record ValidationError := mkValidationError {
  ve_Message : string;
  ve_Field : string
}.

Definition ValidationError_Error (e : ValidationError) : string :=
  if bool_decide (ve_Field e = "") then "validation error: " +:+ ve_Message e
  else "validation error in " +:+ ve_Field e +:+ ": " +:+ ve_Message e.

Record ValidationResult := mkValidationResult {
  vr_Valid : bool;
  vr_Errors : list ValidationError
}.

Definition addError (field message : string) (r : ValidationResult) : ValidationResult :=
  mkValidationResult false (vr_Errors r ++ [mkValidationError message field]).

Definition hasGraph (spec : DAGSpec) : bool :=
  existsb (λ task, bool_decide (0 < length (ts_RunAfter task))) (ds_Task spec).

Definition missing_tasks (spec : DAGSpec) : list string :=
  let definedTasks : gset string := list_to_set (task_names (ds_Task spec)) in
  flat_map (λ task, where_ (λ d, negb (bool_decide (d ∈ definedTasks))) (ts_RunAfter task))
    (ds_Task spec).

Definition validateGraphTaskReferences (spec : DAGSpec) : option string :=
  let missingTasks := missing_tasks spec in
  if bool_decide (0 < length missingTasks)
  then Some ("tasks referenced in graph but not defined: " +:+ join ", " missingTasks)
  else None.

Fixpoint validate_params (ps : list DagParameterSpec) : option string :=
  match ps with
  | [] => None
  | param :: rest =>
      if bool_decide (dp_Name param = "") then Some "parameter missing name"
      else
        let hasDefault := negb (bool_decide (dp_DefaultValue param = "")) in
        let hasSecret := negb (bool_decide (dp_DefaultFromSecret param = "")) in
        if hasDefault && hasSecret
        then Some ("parameter '" +:+ dp_Name param
                   +:+ "' cannot have both default value and defaultFromSecret")
        else if negb hasDefault && negb hasSecret
        then Some ("parameter '" +:+ dp_Name param
                   +:+ "' must have either default value or defaultFromSecret")
        else validate_params rest
  end.

Definition validateParameters (spec : DAGSpec) : option string :=
  validate_params (ds_Parameters spec).

Definition missing_params (spec : DAGSpec) : list string :=
  let definedParams : gset string := list_to_set (dp_Name <$> ds_Parameters spec) in
  flat_map (λ task,
    (λ p, "'" +:+ p +:+ "' in task '" +:+ ts_Name task +:+ "'")
    <$> where_ (λ p, negb (bool_decide (p ∈ definedParams))) (ts_Parameters task))
    (ds_Task spec).

Definition validateTaskParameterReferences (spec : DAGSpec) : option string :=
  let missingParams := missing_params spec in
  if bool_decide (0 < length missingParams)
  then Some ("parameters referenced in tasks but not defined: " +:+ join ", " missingParams)
  else None.

(** [if err := check(spec); err != nil { result.addError(field, err.Error()) }] *)
Definition add_if (field : string) (err : option string) (r : ValidationResult)
    : ValidationResult :=
  match err with Some m => addError field m r | None => r end.

Definition no_graph_message : string :=
  "no graph definition provided - DAG must include a graph block with task dependencies".

Definition ValidateDAGSpec (spec : DAGSpec) : ValidationResult :=
  let result := mkValidationResult true [] in
  let result :=
    if negb (hasGraph spec) then addError "graph" no_graph_message result
    else add_if "graph" (validateGraphTaskReferences spec) result in
  let result := add_if "parameters" (validateParameters spec) result in
  add_if "parameters" (validateTaskParameterReferences spec) result.

(** ** Details *)

Definition getTaskNames (spec : DAGSpec) : list string := ts_Name <$> ds_Task spec.

Definition getDependencyMap (spec : DAGSpec) : gmap string (list string) :=
  foldl (λ deps task,
    if bool_decide (0 < length (ts_RunAfter task))
    then <[ts_Name task := ts_RunAfter task]> deps else deps) ∅ (ds_Task spec).

Definition getRootTasks (spec : DAGSpec) : list string :=
  ts_Name <$> where_ (λ task, bool_decide (length (ts_RunAfter task) = 0)) (ds_Task spec).

Definition getLeafTasks (spec : DAGSpec) : list string :=
  let isDependency : gset string := list_to_set (flat_map ts_RunAfter (ds_Task spec)) in
  ts_Name <$> where_ (λ task, negb (bool_decide (ts_Name task ∈ isDependency))) (ds_Task spec).

Record Details := mkDetails {
  de_taskCount : Z;
  de_hasSchedule : bool;
  de_schedule : string;
  de_taskNames : list string;
  de_dependencies : gmap string (list string);
  de_rootTasks : list string;
  de_leafTasks : list string
}.

Definition ValidateAndParseDetails (spec : DAGSpec) : ValidationResult * Details :=
  (ValidateDAGSpec spec,
   mkDetails (Z.of_nat (length (ds_Task spec))) (negb (bool_decide (ds_Schedule spec = "")))
     (ds_Schedule spec) (getTaskNames spec) (getDependencyMap spec) (getRootTasks spec)
     (getLeafTasks spec)).

(** ** The merge into the DAG object *)

Definition with_Spec (dag : DAG) (spec : DAGSpec) : DAG :=
  mkDAG (dag_Name dag) (dag_Annotations dag) (dag_Finalizers dag) (dag_Deleting dag) spec
    (dag_Status dag).

Definition merge_spec (old parsed : DAGSpec) : DAGSpec :=
  mkDAGSpec
    (if bool_decide (ds_Schedule parsed = "") then ds_Schedule old else ds_Schedule parsed)
    (if bool_decide (0 < length (ds_Task parsed)) then ds_Task parsed else ds_Task old)
    (if bool_decide (0 < length (ds_Parameters parsed)) then ds_Parameters parsed
     else ds_Parameters old)
    (ds_Webhook old) (ds_Workspace old) (ds_Suspended old) (ds_DSL old).

Definition processDSL (parseString : string → GoError + DSLRoot) : M DAG unit :=
  dag ← gets id;
  match ParseDSL parseString (ds_DSL (dag_Spec dag)) with
  | Err err => throw (EWrap "failed to parse DSL" err)
  | Ok parsedSpec =>
      let validationResult := ValidateDAGSpec parsedSpec in
      if negb (vr_Valid validationResult)
      then throw (EErrorf (foldl (λ msg e, msg +:+ " " +:+ ValidationError_Error e)
                             "DSL validation failed:" (vr_Errors validationResult)))
      else modify (λ dag, with_Spec dag (merge_spec (dag_Spec dag) parsedSpec))
  end.

End Validator.
Import Validator.

(** ** Specification *)

(** A compiled program the validator accepts. *)
Record ValidProgram (spec : DAGSpec) : Prop := {
  vp_graph : ∃ t d, t ∈ ds_Task spec ∧ d ∈ ts_RunAfter t;
  vp_exist : ∀ a b, depends (ds_Task spec) a b → b ∈ task_names (ds_Task spec);
  vp_params : ∀ p, p ∈ ds_Parameters spec → param_ok p;
  vp_refs : ∀ t v, t ∈ ds_Task spec → v ∈ ts_Parameters t → v ∈ dp_Name <$> ds_Parameters spec
}.

(** A program made of one graph block and its task definitions. *)
Definition program (edges : list EdgeDef) (tds : list TaskDef) : DSLRoot :=
  mkDSLRoot (mkDAGItem None None (Some (mkGraphBlock edges)) None
             :: ((λ td, mkDAGItem None None None (Some td)) <$> tds)).

Definition sh_task (name : string) : TaskDef :=
  mkTaskDef name [image_field "alpine"; command_field "sh"].

Definition edge (a b : string) : EdgeDef := mkEdgeDef a (mkTargetSet (Some b) None).

Definition dsl_dag (dsl : string) : DAG :=
  mkDAG "etl" ∅ [] false
    (mkDAGSpec "" [] [] (mkWebhook "" false) (mkWorkspace false emptyPVC) false dsl)
    (mkDAGStatus "" "").

(** ** Lemmas *)

Lemma hasGraph_spec spec :
  hasGraph spec = true ↔ ∃ t d, t ∈ ds_Task spec ∧ d ∈ ts_RunAfter t.
Proof.
  unfold hasGraph. rewrite existsb_exists. split.
  - intros (t & Ht & Hl). apply bool_decide_eq_true_1 in Hl.
    destruct (ts_RunAfter t) as [|d ds] eqn:E; simpl in Hl; [lia|].
    exists t, d. rewrite list_elem_of_In, E. split; [done|left].
  - intros (t & d & Ht & Hd). exists t. rewrite <- list_elem_of_In. split; [done|].
    apply bool_decide_eq_true_2, length_pos_nil. intros E. rewrite E in Hd.
    by apply elem_of_nil in Hd.
Qed.

Lemma missing_tasks_nil spec :
  missing_tasks spec = [] ↔
  ∀ a b, depends (ds_Task spec) a b → b ∈ task_names (ds_Task spec).
Proof.
  unfold missing_tasks. rewrite flat_map_nil. split.
  - intros H a b (t & Ht & _ & Hb). specialize (H t Ht). rewrite where_nil in H.
    specialize (H b Hb). apply negb_false_iff, bool_decide_eq_true_1 in H.
    by apply elem_of_list_to_set in H.
  - intros H t Ht. apply where_nil. intros b Hb.
    apply negb_false_iff, bool_decide_eq_true_2, elem_of_list_to_set.
    apply (H (ts_Name t)). by exists t.
Qed.

Lemma missing_params_nil spec :
  missing_params spec = [] ↔
  ∀ t v, t ∈ ds_Task spec → v ∈ ts_Parameters t → v ∈ dp_Name <$> ds_Parameters spec.
Proof.
  unfold missing_params. rewrite flat_map_nil. split.
  - intros H t v Ht Hv. specialize (H t Ht). apply fmap_nil_inv in H.
    rewrite where_nil in H. specialize (H v Hv).
    apply negb_false_iff, bool_decide_eq_true_1 in H. by apply elem_of_list_to_set in H.
  - intros H t Ht. rewrite (proj2 (where_nil _ _)); [done|]. intros v Hv.
    apply negb_false_iff, bool_decide_eq_true_2, elem_of_list_to_set. eauto.
Qed.

Lemma validate_params_None ps :
  validate_params ps = None ↔ ∀ p, p ∈ ps → param_ok p.
Proof.
  induction ps as [|p ps IH]; simpl.
  - split; [|done]. intros _ p Hp. by apply elem_of_nil in Hp.
  - rewrite forall_elem_cons. unfold param_ok at 1.
    destruct (decide (dp_Name p = "")), (decide (dp_DefaultValue p = "")),
      (decide (dp_DefaultFromSecret p = ""));
      rewrite ?(bool_decide_eq_true_2 (dp_Name p = "")),
        ?(bool_decide_eq_false_2 (dp_Name p = "")),
        ?(bool_decide_eq_true_2 (dp_DefaultValue p = "")),
        ?(bool_decide_eq_false_2 (dp_DefaultValue p = "")),
        ?(bool_decide_eq_true_2 (dp_DefaultFromSecret p = "")),
        ?(bool_decide_eq_false_2 (dp_DefaultFromSecret p = "")) by done;
      simpl; rewrite ?IH; split; intros H; try done; tauto.
Qed.

Lemma addError_invalid field m r : vr_Valid (addError field m r) = false.
Proof. done. Qed.

Lemma add_if_valid field e r :
  vr_Valid (add_if field e r) = true ↔ e = None ∧ vr_Valid r = true.
Proof. destruct e; simpl; split; [done|by intros []|done|by intros []]. Qed.

Lemma add_if_sound field e r :
  (vr_Valid r = true ↔ vr_Errors r = []) →
  (vr_Valid (add_if field e r) = true ↔ vr_Errors (add_if field e r) = []).
Proof.
  destruct e; simpl; [|done]. intros _. split; [done|].
  intros H. by apply app_nil in H as [_ ?].
Qed.

Lemma guarded_None (l : list string) (m : string) :
  (if bool_decide (0 < length l) then Some m else None) = None ↔ l = [].
Proof. destruct l; by simpl. Qed.

Lemma ValidateDAGSpec_valid spec :
  vr_Valid (ValidateDAGSpec spec) = true ↔ ValidProgram spec.
Proof.
  unfold ValidateDAGSpec. rewrite !add_if_valid.
  unfold validateTaskParameterReferences, validateParameters.
  rewrite guarded_None, missing_params_nil, validate_params_None.
  destruct (hasGraph spec) eqn:Hg; simpl.
  - rewrite add_if_valid. unfold validateGraphTaskReferences.
    rewrite guarded_None, missing_tasks_nil. apply hasGraph_spec in Hg.
    split; [intros (? & ? & ? & _); by constructor|]. intros [? ? ? ?]. by split_and!.
  - split; [by intros (? & ? & ?)|]. intros [Hx _ _ _].
    apply hasGraph_spec in Hx. congruence.
Qed.

Lemma program_parts edges tds :
  task_defs (program edges tds) = tds ∧ root_edges (program edges tds) = edges.
Proof.
  unfold task_defs, root_edges, last_graph, program; simpl. split.
  - induction tds; simpl; [done|]. by f_equal.
  - enough (∀ g : GraphBlock, last (g :: omap item_graph
      (fmap (M:=list) (λ td, mkDAGItem None None None (Some td)) tds)) = Some g) as H.
    { exact (f_equal graph_edges (H (mkGraphBlock edges))). }
    by induction tds.
Qed.

Lemma program_rest edges tds :
  it_schedule (collect (program edges tds)) = "" ∧
  it_parameters (collect (program edges tds)) = None.
Proof.
  unfold collect, program. simpl. generalize (@nil TaskDef) as acc.
  induction tds as [|td tds IH]; intros acc; simpl; [done|]. apply IH.
Qed.

Lemma sources_of_app es1 es2 name :
  sources_of (es1 ++ es2) name = sources_of es1 name ++ sources_of es2 name.
Proof. apply flat_map_app. Qed.

Lemma createTaskSpec_ext td deps deps' :
  deps !! td_Name td = deps' !! td_Name td → createTaskSpec td deps = createTaskSpec td deps'.
Proof. unfold createTaskSpec. by intros ->. Qed.

Lemma with_RunAfter_same t deps :
  ts_RunAfter t = deps → with_RunAfter t deps = t.
Proof. intros <-. by destruct t. Qed.

(** The compiled task depends on the map only through the dependency list. *)
Lemma createTaskSpec_default td deps deps' :
  default [] (deps !! td_Name td) = default [] (deps' !! td_Name td) →
  createTaskSpec td deps = createTaskSpec td deps'.
Proof.
  unfold createTaskSpec. intros H.
  destruct (apply_field_keeps (td_Fields td) (default_task (td_Name td))) as (_ & Ha & _).
  destruct (deps !! td_Name td), (deps' !! td_Name td); simpl in H; subst; try done;
    by rewrite with_RunAfter_same.
Qed.

Lemma convert_drop_edge es1 e es2 tds :
  (∀ target, target ∈ getTargets (ed_To e) → target ∉ td_Name <$> tds) →
  convertToDAGSpec (program (es1 ++ e :: es2) tds) = convertToDAGSpec (program (es1 ++ es2) tds).
Proof.
  intros Hfresh. unfold convertToDAGSpec.
  destruct (program_parts (es1 ++ e :: es2) tds) as [Ht He].
  destruct (program_parts (es1 ++ es2) tds) as [Ht' He'].
  destruct (collect_spec (program (es1 ++ e :: es2) tds)) as [Hc Hg].
  destruct (collect_spec (program (es1 ++ es2) tds)) as [Hc' Hg'].
  rewrite Hc, Hc', Hg, Hg', Ht, Ht'.
  destruct (program_rest (es1 ++ e :: es2) tds) as [-> ->],
    (program_rest (es1 ++ es2) tds) as [-> ->].
  f_equal. apply list_fmap_ext. intros i td Htd.
  apply createTaskSpec_default. rewrite !buildDependencyMap_at.
  change (graph_edges (last_graph ?r)) with (root_edges r). rewrite He, He'.
  rewrite !sources_of_app. f_equal. simpl.
  rewrite (proj2 (where_nil _ _)); [done|]. intros t Ht0.
  apply bool_decide_eq_false_2. intros ->. apply (Hfresh _ Ht0).
  apply list_elem_of_fmap. exists td. split; [done|]. by eapply list_elem_of_lookup_2.
Qed.

(** The dependencies of a compiled program are its edges into defined tasks. *)
Lemma convert_depends root a b :
  depends (ds_Task (convertToDAGSpec root)) a b ↔
  a ∈ td_Name <$> task_defs root ∧
  ∃ e, e ∈ root_edges root ∧ ed_From e = b ∧ a ∈ getTargets (ed_To e).
Proof.
  rewrite convert_tasks, <- elem_of_sources. unfold depends.
  assert (∀ td, ts_RunAfter (createTaskSpec td (buildDependencyMap (last_graph root))) =
    sources_of (root_edges root) (td_Name td)) as Hr.
  { intros td. destruct (createTaskSpec_deps td (buildDependencyMap (last_graph root)))
      as (_ & -> & _). by rewrite buildDependencyMap_at. }
  split.
  - intros (t & (td & -> & Htd)%list_elem_of_fmap & <- & Hb).
    rewrite Hr in Hb. rewrite (proj1 (createTaskSpec_deps td _)).
    split; [by apply list_elem_of_fmap_2|done].
  - intros ((td & -> & Htd)%list_elem_of_fmap & He).
    exists (createTaskSpec td (buildDependencyMap (last_graph root))).
    rewrite Hr, (proj1 (createTaskSpec_deps td _)).
    split; [|done]. by apply (list_elem_of_fmap_2 (λ td, createTaskSpec td _)).
Qed.

(** ** Properties *)

(** The validator's verdict: a compiled program is valid exactly when
    it has a dependency, every dependency and every parameter a task names is
    declared, and every parameter has a name and one default; and the verdict
    agrees with the list of errors. *)
Theorem ValidateDAGSpec_correct (spec : DAGSpec) :
  (vr_Valid (ValidateDAGSpec spec) = true ↔ ValidProgram spec) ∧
  (vr_Valid (ValidateDAGSpec spec) = true ↔ vr_Errors (ValidateDAGSpec spec) = []).
Proof.
  split; [apply ValidateDAGSpec_valid|].
  unfold ValidateDAGSpec. apply add_if_sound, add_if_sound.
  destruct (hasGraph spec); simpl; [by apply add_if_sound | done].
Qed.

(** An edge none of whose targets is defined is dropped without an error:
    the program with the edge compiles to the same spec, and is accepted
    whenever the program without it is. *)
Theorem undefined_target_accepted (es1 es2 : list EdgeDef) (e : EdgeDef) (tds : list TaskDef)
    (Hfresh : ∀ target, target ∈ getTargets (ed_To e) → target ∉ td_Name <$> tds) :
  convertToDAGSpec (program (es1 ++ e :: es2) tds) = convertToDAGSpec (program (es1 ++ es2) tds) ∧
  vr_Valid (ValidateDAGSpec (convertToDAGSpec (program (es1 ++ e :: es2) tds))) =
  vr_Valid (ValidateDAGSpec (convertToDAGSpec (program (es1 ++ es2) tds))).
Proof. by rewrite (convert_drop_edge es1 e es2 tds Hfresh). Qed.

Lemma missing_not_defined target :
  target ∈ getTargets (ed_To (edge "a" "missing")) →
  target ∉ td_Name <$> [sh_task "a"; sh_task "b"].
Proof.
  intros [->|Ht]%elem_of_cons; [|by apply elem_of_nil in Ht].
  apply (bool_decide_eq_false_1 (_ ∈ _)). vm_compute. reflexivity.
Qed.

Lemma undefined_target_accepted_witness :
  vr_Valid (ValidateDAGSpec (convertToDAGSpec
    (program [edge "a" "b"; edge "a" "missing"] [sh_task "a"; sh_task "b"]))) = true.
Proof.
  refine (eq_trans (proj2 (undefined_target_accepted [edge "a" "b"] [] (edge "a" "missing")
    [sh_task "a"; sh_task "b"] missing_not_defined)) _).
  vm_compute. reflexivity.
Defined.

(** C37: Processing the DSL of a DAG object either fails and leaves the object
    as it was, or leaves the compiled tasks in its spec: an accepted, non-empty
    program whose dependencies are the edges of the graph into the tasks it
    defines; the webhook, the workspace, the suspension and the DSL text are
    kept. *)
Theorem processDSL_spec (parseString : string → GoError + DSLRoot) (dag : DAG) :
  match processDSL parseString dag with
  | (Err _, dag') => dag' = dag
  | (Ok _, dag') =>
      ∃ root, parseString (ds_DSL (dag_Spec dag)) = inr root ∧
        ValidProgram (convertToDAGSpec root) ∧
        ds_Task (dag_Spec dag') = ds_Task (convertToDAGSpec root) ∧
        (∀ a b, depends (ds_Task (dag_Spec dag')) a b ↔
           a ∈ td_Name <$> task_defs root ∧
           ∃ e, e ∈ root_edges root ∧ ed_From e = b ∧ a ∈ getTargets (ed_To e)) ∧
        ds_Webhook (dag_Spec dag') = ds_Webhook (dag_Spec dag) ∧
        ds_Workspace (dag_Spec dag') = ds_Workspace (dag_Spec dag) ∧
        ds_Suspended (dag_Spec dag') = ds_Suspended (dag_Spec dag) ∧
        ds_DSL (dag_Spec dag') = ds_DSL (dag_Spec dag)
  end.
Proof.
  unfold processDSL, ParseDSL, gets, throw, modify, mbind, M_bind, id.
  destruct (parseString _) as [err|root] eqn:Hp; [done|].
  destruct (vr_Valid _) eqn:Hv; [|done]. simpl.
  apply ValidateDAGSpec_valid in Hv. exists root. split; [done|]. split; [done|].
  assert (0 < length (ds_Task (convertToDAGSpec root))) as Hlen.
  { apply length_pos_nil. intros E. destruct Hv as [(t & d & Ht & _) _ _ _].
    rewrite E in Ht. by apply elem_of_nil in Ht. }
  rewrite bool_decide_eq_true_2 by done.
  split; [done|]. split; [|done]. exact (convert_depends root).
Qed.
