(* ===== verification/Queue.v ===== *)
(** * The queue interface (internal/queue/queue.go)

    The event type, the operations the two queues share and the laws a client
    relies on: a queue is a FIFO list of the events it accepts.  A pop is split
    where the code blocks: one attempt under the mutex either takes events or
    says that the caller has to wait ([Waits]). *)

From S2P Require Import Prelude.

(** The pod is an object of the Kubernetes API: its type is a parameter. *)
Record PodEvent (Pod : Type) := mkPodEvent {
  pe_Pod : option Pod;
  pe_Event : string;
  pe_EventTime : option Z
}.
Arguments mkPodEvent {Pod}.
Arguments pe_Pod {Pod}.
Arguments pe_Event {Pod}.
Arguments pe_EventTime {Pod}.

Definition ErrQueueIsEmpty : GoError := EErrorf "queue is empty".

Inductive PopResult (A : Type) :=
| Popped (values : list A)
| Failed (values : list A) (e : GoError)
| Waits
| Panics.
Arguments Popped {A}.
Arguments Failed {A}.
Arguments Waits {A}.
Arguments Panics {A}.

Class Queue (Q A : Type) := {
  PushBatch : list A → M Q unit;
  PopBatch : Z → Q → PopResult A * Q;
  Size : M Q Z
}.

Definition Push {Q A} `{Queue Q A} (value : A) : M Q unit := PushBatch [value].

(** [PopWithContext]: a batch of one; [vals[0]] panics on an empty batch. *)
Definition Pop {Q A} `{Queue Q A} (q : Q) : PopResult A * Q :=
  match PopBatch 1 q with
  | (Popped [], q') => (Panics, q')
  | (Popped (v :: _), q') => (Popped [v], q')
  | (Failed _ e, q') => (Failed [] e, q')
  | r => r
  end.

(** What a queue promises.  [qu_room q k]: the counters of [q] leave room for
    [k] more events. *)
Class QueueLaws (Q A : Type) `{!Queue Q A} := {
  qu_inv : Q → Prop;
  qu_valid : A → Prop;
  qu_room : Q → nat → Prop;
  contents : Q → list A;
  push_law q vs k : qu_inv q → Forall qu_valid vs → qu_room q (length vs + k) →
    wp (PushBatch vs) q (λ r q', r = Ok tt ∧ qu_inv q' ∧ contents q' = contents q ++ vs ∧
                                 qu_room q' k);
  pop_law q n k : qu_inv q → qu_room q k → (0 < n)%Z →
    qu_inv (PopBatch n q).2 ∧ qu_room (PopBatch n q).2 k ∧
    match contents q with
    | [] => (PopBatch n q).1 = Waits ∧ contents (PopBatch n q).2 = []
    | vs => (PopBatch n q).1 = Popped (take (Z.to_nat n) vs) ∧
            contents (PopBatch n q).2 = drop (Z.to_nat n) vs
    end;
  size_law q : qu_inv q → qu_room q 0 →
    (Size q).1 = Ok (Z.of_nat (length (contents q))) ∧ contents (Size q).2 = contents q
}.

(** ** A client: any sequence of calls *)

Inductive QueueOp (A : Type) :=
| OPush (values : list A)
| OPop (count : Z).
Arguments OPush {A}.
Arguments OPop {A}.

Section client.
Context {Q A : Type} `{QueueLaws Q A}.

(** The events a sequence of calls pops, in order, and the queue it leaves. *)
Fixpoint run_ops (ops : list (QueueOp A)) (q : Q) : list A * Q :=
  match ops with
  | [] => ([], q)
  | OPush vs :: rest => run_ops rest (PushBatch vs q).2
  | OPop n :: rest =>
      let '(r, q') := PopBatch n q in
      let '(out, q'') := run_ops rest q' in
      (match r with Popped vs => vs ++ out | _ => out end, q'')
  end.

Definition pushed (ops : list (QueueOp A)) : list A :=
  flat_map (λ op, match op with OPush vs => vs | OPop _ => [] end) ops.

Definition op_ok (op : QueueOp A) : Prop :=
  match op with OPush vs => Forall qu_valid vs | OPop n => (0 < n)%Z end.

Lemma run_ops_fifo ops : ∀ q k,
  qu_inv q → qu_room q (length (pushed ops) + k) → Forall op_ok ops →
  qu_inv (run_ops ops q).2 ∧ qu_room (run_ops ops q).2 k ∧
  (run_ops ops q).1 ++ contents (run_ops ops q).2 = contents q ++ pushed ops.
Proof.
  induction ops as [|op ops IH]; intros q k Hi Hr Hok; simpl.
  { by rewrite app_nil_r. }
  apply Forall_cons in Hok as [Hop Hok]. destruct op as [vs|n]; simpl in *.
  - rewrite length_app, <- Nat.add_assoc in Hr.
    destruct (push_law q vs _ Hi Hop Hr) as (_ & Hi' & Hc & Hr').
    destruct (IH _ k Hi' Hr' Hok) as (? & ? & ->). split_and!; try done.
    by rewrite Hc, <- app_assoc.
  - destruct (pop_law q n _ Hi Hr Hop) as (Hi' & Hr' & Hc).
    destruct (PopBatch n q) as [r q']; simpl in *.
    destruct (IH _ k Hi' Hr' Hok) as (? & ? & Heq).
    destruct (run_ops ops q') as [out q'']; simpl in *. split_and!; try done.
    destruct (contents q) as [|v vs]; destruct Hc as [-> Hc]; rewrite Hc in Heq; [done|].
    rewrite <- app_assoc, Heq, app_assoc. by rewrite take_drop.
Qed.

End client.
