(* ===== verification/MemoryQueue.v ===== *)
(** * The in-memory queue (internal/queue/memory.go)

    A slice with a head index.  A slot below the head has been set to [nil]
    ([None] here); a pop past the threshold copies the live slots to a fresh
    slice.  The notify channel has capacity one: a boolean token.  The second
    half is the concurrent system of producers and consumers around one queue,
    with the steps the mutex and the channel make atomic. *)

From S2P Require Import Prelude Queue.

(** ** Operations *)

Module Memory.

Record MemoryQueue (E : Type) := mkMemoryQueue {
  mq_data : list (option E);
  mq_head : nat;
  mq_notify : bool;
  mq_cancelled : bool
}.
Arguments mkMemoryQueue {E}.
Arguments mq_data {E}.
Arguments mq_head {E}.
Arguments mq_notify {E}.
Arguments mq_cancelled {E}.

Definition NewMemoryQueue {E} : MemoryQueue E := mkMemoryQueue [] 0 false false.

(** Appends and leaves a token in the channel; a full channel keeps its one. *)
Definition PushBatch {E} (values : list (option E)) : M (MemoryQueue E) unit := λ q,
  (Ok tt, mkMemoryQueue (mq_data q ++ values) (mq_head q) true (mq_cancelled q)).

(** [q.data[i+j] = nil] for [j < count]. *)
Fixpoint nil_out {E} (i count : nat) (data : list (option E)) : list (option E) :=
  match count with
  | O => data
  | S n => nil_out (S i) n (<[i := None]> data)
  end.

Definition compact {E} (q : MemoryQueue E) : MemoryQueue E :=
  if bool_decide (1024 < mq_head q)
     && bool_decide (length (mq_data q) < mq_head q * 2)
  then mkMemoryQueue (drop (mq_head q) (mq_data q)) 0 (mq_notify q) (mq_cancelled q)
  else q.

(** One round of the loop of [PopBatchWithContext], under the mutex. *)
Definition PopBatch {E} (count : Z) (q : MemoryQueue E)
    : PopResult (option E) * MemoryQueue E :=
  let available := length (mq_data q) - mq_head q in
  if bool_decide (available = 0) then (Waits, q)
  else if bool_decide (count < 0)%Z then (Panics, q)
  else
    let count := if bool_decide (Z.of_nat available < count)%Z then available
                 else Z.to_nat count in
    let res := take count (drop (mq_head q) (mq_data q)) in
    (Popped res,
     compact (mkMemoryQueue (nil_out (mq_head q) count (mq_data q)) (mq_head q + count)
                (mq_notify q) (mq_cancelled q))).

Definition Size {E} : M (MemoryQueue E) Z := λ q,
  (Ok (Z.of_nat (length (mq_data q)) - Z.of_nat (mq_head q))%Z, q).

Definition Close {E} : M (MemoryQueue E) unit := λ q,
  (Ok tt, mkMemoryQueue (mq_data q) (mq_head q) true true).

#[export] Instance memory_queue {E} : Queue (MemoryQueue E) (option E) := {
  Queue.PushBatch := PushBatch;
  Queue.PopBatch := PopBatch;
  Queue.Size := Size
}.

(** ** Producers and consumers *)

(** Where a consumer is: about to take the mutex, in the [select], returned. *)
Inductive Consumer (E : Type) :=
| CTry (count : Z)
| CSelect (count : Z)
| CReturned (r : result (list (option E))).
Arguments CTry {E}.
Arguments CSelect {E}.
Arguments CReturned {E}.

Record System (E : Type) := mkSystem {
  sy_queue : MemoryQueue E;
  sy_consumers : list (Consumer E);
  sy_pushed : list (option E);
  sy_popped : list (option E)
}.
Arguments mkSystem {E}.
Arguments sy_queue {E}.
Arguments sy_consumers {E}.
Arguments sy_pushed {E}.
Arguments sy_popped {E}.

Inductive step {E} : System E → System E → Prop :=
| step_push vs q cs pu po :
    step (mkSystem q cs pu po) (mkSystem (PushBatch vs q).2 cs (pu ++ vs) po)
| step_pop i count vs q q' cs pu po :
    cs !! i = Some (CTry count) → PopBatch count q = (Popped vs, q') →
    step (mkSystem q cs pu po)
         (mkSystem q' (<[i := CReturned (Ok vs)]> cs) pu (po ++ vs))
| step_block i count q q' cs pu po :
    cs !! i = Some (CTry count) → PopBatch count q = (Waits, q') →
    step (mkSystem q cs pu po) (mkSystem q' (<[i := CSelect count]> cs) pu po)
| step_notified i count q cs pu po :
    cs !! i = Some (CSelect count) → mq_notify q = true →
    step (mkSystem q cs pu po)
         (mkSystem (mkMemoryQueue (mq_data q) (mq_head q) false (mq_cancelled q))
            (<[i := CTry count]> cs) pu po)
| step_ctx_done i count e q cs pu po :
    cs !! i = Some (CSelect count) →
    step (mkSystem q cs pu po) (mkSystem q (<[i := CReturned (Err e)]> cs) pu po)
| step_closed i count q cs pu po :
    cs !! i = Some (CSelect count) → mq_cancelled q = true →
    step (mkSystem q cs pu po)
         (mkSystem q (<[i := CReturned (Err ErrQueueIsEmpty)]> cs) pu po)
| step_again i r count q cs pu po :
    cs !! i = Some (CReturned r) → (0 < count)%Z →
    step (mkSystem q cs pu po) (mkSystem q (<[i := CTry count]> cs) pu po)
| step_close q cs pu po :
    step (mkSystem q cs pu po) (mkSystem (Close q).2 cs pu po).

(** Consumers that have not called the queue yet. *)
Definition start {E} (n : nat) : System E :=
  mkSystem NewMemoryQueue (replicate n (CReturned (Ok []))) [] [].

Definition reachable {E} (n : nat) (s : System E) : Prop := rtc step (start n) s.

End Memory.
Import Memory.

(** ** Specification *)

Definition live {E} (q : MemoryQueue E) : list (option E) := drop (mq_head q) (mq_data q).

Definition is_select {E} (c : Consumer E) : bool :=
  match c with CSelect _ => true | _ => false end.

(** Slots below the head hold nothing, and the dead part of the slice is at
    most the threshold or the live part. *)
Record mq_inv {E} (q : MemoryQueue E) : Prop := {
  mi_head : mq_head q <= length (mq_data q);
  mi_freed : ∀ i, i < mq_head q → mq_data q !! i = Some None;
  mi_bound : mq_head q <= 1024 ∨ mq_head q * 2 <= length (mq_data q)
}.

(** ** Slots *)

Lemma nil_out_spec {E} count : ∀ i (data : list (option E)),
  length (nil_out i count data) = length data ∧
  (∀ j, j < i ∨ i + count <= j → nil_out i count data !! j = data !! j) ∧
  (∀ j, i <= j < i + count → j < length data → nil_out i count data !! j = Some None).
Proof.
  induction count as [|n IH]; intros i data; simpl.
  { split_and!; [done|done|intros; lia]. }
  destruct (IH (S i) (<[i := None]> data)) as (Hl & Ho & Hi).
  rewrite length_insert in Hl, Hi. split_and!; [done| |].
  - intros j Hj. rewrite Ho by lia. apply list_lookup_insert_ne. lia.
  - intros j Hj Hd. destruct (decide (j = i)) as [->|]; [|apply Hi; lia].
    rewrite Ho by lia. by apply list_lookup_insert_eq.
Qed.

Lemma nil_out_drop {E} i count (data : list (option E)) :
  drop (i + count) (nil_out i count data) = drop (i + count) data.
Proof.
  apply list_eq. intros j. rewrite !lookup_drop.
  apply (proj1 (proj2 (nil_out_spec count i data))). lia.
Qed.

Lemma compact_live {E} (q : MemoryQueue E) : live (compact q) = live q.
Proof. unfold compact, live. destruct (_ && _); [|done]. simpl. by rewrite drop_0. Qed.

Lemma compact_inv {E} (q : MemoryQueue E) :
  mq_head q <= length (mq_data q) → (∀ i, i < mq_head q → mq_data q !! i = Some None) →
  mq_inv (compact q).
Proof.
  intros Hh Hf. unfold compact.
  case_bool_decide; case_bool_decide; simpl; constructor; simpl; try done; try lia.
Qed.

(** ** Operations *)

Lemma PushBatch_spec {E} (q : MemoryQueue E) vs :
  mq_inv q → mq_inv (PushBatch vs q).2 ∧ live (PushBatch vs q).2 = live q ++ vs.
Proof.
  intros [Hh Hf Hb]. unfold live, PushBatch; simpl. split.
  - constructor; simpl; rewrite ?length_app; [lia| |lia].
    intros i Hi. rewrite lookup_app_l by lia. auto.
  - rewrite drop_app_le by done. done.
Qed.

Lemma live_nil {E} (q : MemoryQueue E) :
  live q = [] ↔ length (mq_data q) - mq_head q = 0.
Proof.
  unfold live. split.
  - intros H. apply (f_equal length) in H. by rewrite length_drop in H.
  - intros H. apply nil_length_inv. by rewrite length_drop.
Qed.

Lemma PopBatch_empty {E} count (q : MemoryQueue E) :
  live q = [] → PopBatch count q = (Waits, q).
Proof. intros ?%live_nil. unfold PopBatch. by rewrite bool_decide_eq_true_2. Qed.

Lemma PopBatch_live {E} count (q : MemoryQueue E) :
  mq_inv q → live q ≠ [] → (0 <= count)%Z →
  ∃ q', PopBatch count q = (Popped (take (Z.to_nat count) (live q)), q') ∧
    mq_inv q' ∧ live q' = drop (Z.to_nat count) (live q) ∧ mq_notify q' = mq_notify q.
Proof.
  intros [Hh Hf _] Hne Hc. rewrite live_nil in Hne. unfold PopBatch.
  rewrite bool_decide_eq_false_2, bool_decide_eq_false_2 by lia.
  set (n := if bool_decide _ then _ else _).
  assert (n <= length (mq_data q) - mq_head q ∧
    take n (live q) = take (Z.to_nat count) (live q) ∧
    drop n (live q) = drop (Z.to_nat count) (live q)) as (Hn & Ht & Hd).
  { assert (length (live q) = length (mq_data q) - mq_head q) as Hl by apply length_drop.
    unfold n. case_bool_decide; split_and!; try lia; try done.
    - rewrite !take_ge by lia. done.
    - rewrite !drop_ge by lia. done. }
  destruct (nil_out_spec n (mq_head q) (mq_data q)) as (Hlen & Hout & Hin).
  eexists. split; [unfold live in Ht; by rewrite Ht|]. split_and!.
  - apply compact_inv; simpl; [lia|]. intros i Hi.
    destruct (decide (i < mq_head q)); [rewrite Hout by lia; auto | apply Hin; lia].
  - rewrite compact_live. unfold live; simpl. rewrite nil_out_drop, <- drop_drop. exact Hd.
  - unfold compact. by destruct (_ && _).
Qed.

(** The queue keeps its promise, for events that may be [nil]. *)
#[export] Program Instance memory_queue_laws {E} : QueueLaws (MemoryQueue E) (option E) := {
  qu_inv := mq_inv;
  qu_valid := λ _, True;
  qu_room := λ _ _, True;
  contents := live
}.
Next Obligation.
  intros E q vs k Hi _ _. unfold wp. destruct (PushBatch_spec q vs Hi) as [? ?].
  split_and!; done.
Qed.
Next Obligation.
  intros E q n k Hi _ Hn. cbn [Queue.PopBatch memory_queue].
  destruct (decide (live q = [])) as [He|Hne].
  - rewrite PopBatch_empty by done. simpl. by rewrite He.
  - destruct (PopBatch_live n q) as (q' & -> & Hi' & Hl & _); [done|done|lia|].
    simpl. split; [done|]. split; [done|]. by destruct (live q).
Qed.
Next Obligation.
  intros E q [Hh _ _] _. split; [|done]. simpl. f_equal. unfold live.
  rewrite length_drop. lia.
Qed.

(** ** The concurrent system *)

Definition system_inv {E} (s : System E) : Prop :=
  mq_inv (sy_queue s) ∧ sy_popped s ++ live (sy_queue s) = sy_pushed s ∧
  Forall (λ c, match c with CTry n | CSelect n => (0 < n)%Z | _ => True end) (sy_consumers s).

Lemma PopBatch_outcome {E} count (q : MemoryQueue E) r q' :
  mq_inv q → (0 < count)%Z → PopBatch count q = (r, q') →
  mq_inv q' ∧ mq_notify q' = mq_notify q ∧
  match r with
  | Popped vs => vs ++ live q' = live q
  | Waits => q' = q ∧ live q = []
  | _ => False
  end.
Proof.
  intros Hi Hc Hp. destruct (decide (live q = [])) as [He|Hne].
  - rewrite PopBatch_empty in Hp by done. by simplify_eq.
  - destruct (PopBatch_live count q) as (q2 & Hp' & Hi' & Hl & Ht); [done|done|lia|].
    rewrite Hp in Hp'. simplify_eq. by rewrite Hl, take_drop.
Qed.

Lemma system_inv_step {E} (s s' : System E) : step s s' → system_inv s → system_inv s'.
Proof.
  intros Hs (Hi & Hf & Hc). inversion Hs; subst; simpl in *; unfold system_inv; simpl.
  - destruct (PushBatch_spec q vs Hi) as [? Hl]. simpl in Hl.
    split_and!; [done| |done]. by rewrite Hl, app_assoc, Hf.
  - pose proof (Forall_lookup_1 _ _ _ _ Hc H) as Hpos. simpl in Hpos.
    destruct (PopBatch_outcome _ _ _ _ Hi Hpos H0) as (? & _ & Hl).
    rewrite <- app_assoc, Hl. split_and!; [done|done|]. by apply Forall_insert.
  - pose proof (Forall_lookup_1 _ _ _ _ Hc H) as Hpos. simpl in Hpos.
    destruct (PopBatch_outcome _ _ _ _ Hi Hpos H0) as (? & _ & -> & _).
    split_and!; [done|done|]. by apply Forall_insert.
  - pose proof (Forall_lookup_1 _ _ _ _ Hc H) as Hpos.
    split_and!; [by destruct Hi|done|]. by apply Forall_insert.
  - split_and!; [done|done|]. by apply Forall_insert.
  - split_and!; [done|done|]. by apply Forall_insert.
  - split_and!; [done|done|]. by apply Forall_insert.
  - split_and!; [by destruct Hi|done|done].
Qed.

Lemma system_inv_start {E} n : system_inv (@start E n).
Proof.
  split_and!; simpl; [|done|].
  - constructor; simpl; [done|intros; lia|lia].
  - by apply Forall_replicate.
Qed.

Lemma reachable_inv {E} n (s : System E) : reachable n s → system_inv s.
Proof.
  unfold reachable. intros H. pose proof (system_inv_start (E:=E) n) as H0. revert H0.
  induction H as [|s1 s2 s3 Hs _ IH]; [done|]. intros H0. apply IH.
  by eapply system_inv_step.
Qed.

(** With one consumer a token covers every event it could miss. *)
Definition covered {E} (s : System E) : Prop :=
  length (sy_consumers s) = 1 ∧
  ∀ c, sy_consumers s !! 0 = Some c → is_select c = true →
    live (sy_queue s) ≠ [] → mq_notify (sy_queue s) = true.

Lemma covered_step {E} (s s' : System E) :
  step s s' → system_inv s → covered s → covered s'.
Proof.
  intros Hs (Hi & _ & Hc) [Hl Hcov].
  inversion Hs; subst; simpl in *; unfold covered; simpl; rewrite ?length_insert;
    (split; [done|]); intros c0 Hc0 Hsel Hne;
    try (assert (i = 0) as -> by (apply lookup_lt_Some in H; lia);
         rewrite list_lookup_insert_eq in Hc0 by lia; simplify_eq; done).
  - done.
  - assert (i = 0) as -> by (apply lookup_lt_Some in H; lia).
    pose proof (Forall_lookup_1 _ _ _ _ Hc H) as Hpos. simpl in Hpos.
    by destruct (PopBatch_outcome _ _ _ _ Hi Hpos H0) as (_ & _ & -> & ?).
  - done.
Qed.

Lemma reachable_covered {E} (s : System E) : reachable 1 s → covered s.
Proof.
  unfold reachable. intros H.
  assert (system_inv (@start E 1) ∧ covered (@start E 1)) as H0.
  { split; [apply system_inv_start|]. split; [done|]. by intros c [= <-]. }
  revert H0. induction H as [|s1 s2 s3 Hs _ IH]; [by intros []|].
  intros [Hi Hc]. apply IH. split; [by eapply system_inv_step | by eapply covered_step].
Qed.

(** ** Properties *)

(** C31: A queue behind the interface is FIFO: whatever sequence of pushes and
    pops a client makes, the events it popped followed by the events left are
    the events that were there followed by the events pushed, so none is lost,
    repeated or reordered. *)
Theorem memory_queue_fifo {E} (ops : list (QueueOp (option E))) (q : MemoryQueue E)
    (Hq : mq_inv q) (Hops : Forall op_ok ops) :
  (run_ops ops q).1 ++ live (run_ops ops q).2 = live q ++ pushed ops.
Proof. exact (proj2 (proj2 (run_ops_fifo ops q 0 Hq I Hops))). Qed.

Lemma memory_queue_fifo_witness :
  (run_ops [OPush [Some 1; Some 2]; OPop 1; OPush [None; Some 3]; OPop 5]
     (@NewMemoryQueue nat)).1 = [Some 1; Some 2; None; Some 3].
Proof.
  assert (mq_inv (@NewMemoryQueue nat)) as Hq by exact (proj1 (system_inv_start 0)).
  refine (eq_trans (eq_trans (eq_sym (app_nil_r _))
    (memory_queue_fifo [OPush [Some 1; Some 2]; OPop 1; OPush [None; Some 3]; OPop 5] _ Hq _)) _);
    [|reflexivity].
  by repeat constructor.
Defined.

(** The slice never holds more than twice the live events and 1024 slots,
    every slot before the head is freed, and a pop never panics, in every
    state that any number of producers and consumers can reach. *)
Theorem memory_bound {E} (n : nat) (s : System E) (Hs : reachable n s) :
  length (mq_data (sy_queue s)) <= 2 * length (live (sy_queue s)) + 1024 ∧
  (∀ i, i < mq_head (sy_queue s) → mq_data (sy_queue s) !! i = Some None) ∧
  sy_popped s ++ live (sy_queue s) = sy_pushed s ∧
  (∀ count, (0 < count)%Z → (PopBatch count (sy_queue s)).1 ≠ Panics).
Proof.
  destruct (reachable_inv n s Hs) as (Hi & Hf & _). pose proof Hi as [Hh Hfree Hb].
  split_and!; [|done|done|].
  - unfold live. rewrite length_drop. lia.
  - intros count Hc. destruct (PopBatch count (sy_queue s)) as [r q'] eqn:E1.
    pose proof (PopBatch_outcome _ _ _ _ Hi Hc E1) as (_ & _ & Hr). by destruct r.
Qed.

Lemma reachable_example :
  reachable 1 (mkSystem (mkMemoryQueue [Some 7] 0 true false) [CSelect 3%Z] [Some 7] []).
Proof.
  eapply rtc_l; [by apply (step_again 0 (Ok []) 3%Z)|].
  eapply rtc_l; [by apply (step_block 0 3%Z)|].
  apply rtc_once. by apply (step_push [Some 7]).
Qed.

Lemma memory_bound_witness :
  length (mq_data (mkMemoryQueue [Some 7] 0 true false)) <=
  2 * length (live (mkMemoryQueue [Some 7] 0 true false)) + 1024.
Proof. exact (proj1 (memory_bound 1 _ reachable_example)). Defined.

(** A single consumer misses no event: whenever it is blocked while the
    queue holds an event, the notify channel holds a token, and it can wake up
    and take the event. *)
Theorem no_lost_wakeup {E} (s : System E) (Hs : reachable 1 s) (count : Z)
    (Hsel : sy_consumers s !! 0 = Some (CSelect count)) (Hne : live (sy_queue s) ≠ []) :
  ∃ s1 s2 v vs, step s s1 ∧ step s1 s2 ∧
    sy_consumers s2 !! 0 = Some (CReturned (Ok (v :: vs))) ∧
    live (sy_queue s) = v :: vs ++ live (sy_queue s2).
Proof.
  destruct (reachable_covered s Hs) as [Hl Hcov].
  destruct (reachable_inv 1 s Hs) as (Hi & Hf & Hc).
  specialize (Hcov _ Hsel eq_refl Hne). destruct s as [q cs pu po]; simpl in *.
  pose proof (Forall_lookup_1 _ _ _ _ Hc Hsel) as Hpos. simpl in Hpos.
  set (q1 := mkMemoryQueue (mq_data q) (mq_head q) false (mq_cancelled q)).
  assert (mq_inv q1) as Hi1 by (by destruct Hi).
  destruct (PopBatch_live count q1 Hi1 Hne ltac:(lia)) as (q2 & Hp & _ & Hl2 & _).
  change (live q1) with (live q) in *.
  destruct (live q) as [|v vs] eqn:Hlive; [done|].
  destruct (Z.to_nat count) as [|n] eqn:Hn; [lia|]. simpl in Hp, Hl2.
  exists (mkSystem q1 (<[0 := CTry count]> cs) pu po).
  eexists (mkSystem q2 _ pu _), v, (take n vs).
  split; [by apply (step_notified 0)|]. split.
  { eapply step_pop; [|exact Hp]. rewrite list_lookup_insert_eq; [done|lia]. }
  simpl. rewrite list_lookup_insert_eq by (rewrite length_insert; lia).
  split; [done|]. by rewrite Hl2, take_drop.
Qed.

Lemma no_lost_wakeup_witness :
  ∃ s1 s2 v vs, step (mkSystem (mkMemoryQueue [Some 7] 0 true false) [CSelect 3%Z] [Some 7] []) s1 ∧
    step s1 s2 ∧ sy_consumers s2 !! 0 = Some (CReturned (Ok (v :: vs))) ∧
    live (mkMemoryQueue [Some 7] 0 true false) = v :: vs ++ live (sy_queue s2).
Proof. exact (no_lost_wakeup _ reachable_example 3%Z eq_refl ltac:(discriminate)). Defined.

(** With two consumers a batch can leave one of them asleep: the push of
    two events leaves one token, and a state is reachable where an event is in
    the queue, no token is left, and the second consumer sleeps until another
    push, a close or its own cancellation. *)
Theorem batch_wakes_one :
  ∃ s : System nat, reachable 2 s ∧ live (sy_queue s) = [Some 2] ∧
    mq_notify (sy_queue s) = false ∧
    sy_consumers s = [CReturned (Ok [Some 1]); CSelect 1%Z] ∧
    mq_cancelled (sy_queue s) = false.
Proof.
  eexists. split; [|split; [|split; [|split]]].
  - unfold reachable, start. simpl.
    eapply rtc_l; [by apply (step_again 0 (Ok []) 1%Z)|].
    eapply rtc_l; [by apply (step_block 0 1%Z)|].
    eapply rtc_l; [by apply (step_again 1 (Ok []) 1%Z)|].
    eapply rtc_l; [by apply (step_block 1 1%Z)|].
    eapply rtc_l; [by apply (step_push [Some 1; Some 2])|].
    eapply rtc_l; [by apply (step_notified 0 1%Z)|].
    apply rtc_once. by apply (step_pop 0 1%Z).
  - reflexivity.
  - reflexivity.
  - reflexivity.
  - reflexivity.
Qed.
