(* ===== verification/PebbleQueue.v ===== *)
(** * The persistent queue (internal/queue/pebble.go)

    Events are stored as JSON under the keys [topic:00000001], ...; the
    counters of the first and the last event under [topic:head] and
    [topic:tail].  The Pebble database is a [KVStore]: its operations with the
    laws of its documentation (a batch is atomic, a read sees the committed
    writes), and JSON is a pair of functions; both are arguments.  A database
    call may fail, as the code allows for. *)

From S2P Require Import Prelude Queue.

(** ** The database interface *)

Inductive KVWrite :=
| KVSet (key value : string)
| KVDelete (key : string).

Definition apply_write (m : gmap string string) (w : KVWrite) : gmap string string :=
  match w with
  | KVSet k v => <[k := v]> m
  | KVDelete k => delete k m
  end.

(** [KVNotFound] is [pebble.ErrNotFound]. *)
Inductive KVRead :=
| KVFound (value : string)
| KVNotFound
| KVError (e : GoError).

Class KVStore (DB : Type) := {
  kv_Get : string → DB → KVRead * DB;
  kv_Commit : list KVWrite → M DB unit;
  kv_view : DB → gmap string string;
  kv_healthy : DB → Prop;
  kv_Get_view k d : kv_view (kv_Get k d).2 = kv_view d;
  kv_Get_found k d v : (kv_Get k d).1 = KVFound v → kv_view d !! k = Some v;
  kv_Get_missing k d : (kv_Get k d).1 = KVNotFound → kv_view d !! k = None;
  kv_Commit_ok ws d : (kv_Commit ws d).1 = Ok tt →
    kv_view (kv_Commit ws d).2 = foldl apply_write (kv_view d) ws;
  kv_Commit_err ws d e : (kv_Commit ws d).1 = Err e → kv_view (kv_Commit ws d).2 = kv_view d;
  kv_Get_healthy k d e : kv_healthy d → kv_healthy (kv_Get k d).2 ∧ (kv_Get k d).1 ≠ KVError e;
  kv_Commit_healthy ws d : kv_healthy d →
    kv_healthy (kv_Commit ws d).2 ∧ (kv_Commit ws d).1 = Ok tt
}.

(** ** Standard library functions *)

(** [fmt.Sprintf("%08d", n)] and [strconv.FormatUint(n, 10)]. *)
Definition zeros (n : nat) : string := Nat.iter n (String (Ascii.ascii_of_nat 48)) "".
Definition pad08 (s : string) : string := zeros (8 - String.length s) +:+ s.
Definition FormatUint (n : Z) : string := pretty (Z.to_N n).

(** [strconv.ParseUint(s, 10, 64)] returns a value beside its error. *)
Definition ParseUint (s : string) : Z * option GoError :=
  if bool_decide (s = "") || negb (all_digits s)
  then (0%Z, Some (EErrorf ("parsing " +:+ s +:+ ": invalid syntax")))
  else if bool_decide (2 ^ 64 <= decimal s 0)%Z
  then ((2 ^ 64 - 1)%Z, Some (EErrorf ("parsing " +:+ s +:+ ": value out of range")))
  else (decimal s 0, None).

(** ** Operations *)

Module Pebble.

Section operations.
Context {DB : Type} `{KVStore DB} {Ev : Type}.
Context (marshal : option Ev → result string) (unmarshal : string → result Ev).

Record PebbleQueue := mkPebbleQueue {
  pq_db : DB;
  pq_topic : string;
  pq_headKey : string;
  pq_tailKey : string;
  pq_notify : bool;
  pq_cancelled : bool;
  pq_lastCommittedHead : Z
}.

Definition with_db (q : PebbleQueue) (db : DB) : PebbleQueue :=
  mkPebbleQueue db (pq_topic q) (pq_headKey q) (pq_tailKey q) (pq_notify q) (pq_cancelled q)
    (pq_lastCommittedHead q).

Definition on_db {A} (f : DB → A * DB) (q : PebbleQueue) : A * PebbleQueue :=
  let '(a, db) := f (pq_db q) in (a, with_db q db).

Definition event_key (topic : string) (n : Z) : string :=
  topic +:+ ":" +:+ pad08 (FormatUint n).

(** The value and the error: a caller may look at either. *)
Definition getCounter (key : string) (q : PebbleQueue) : (Z * option GoError) * PebbleQueue :=
  match on_db (kv_Get key) q with
  | (KVNotFound, q') => ((0%Z, None), q')
  | (KVError e, q') => ((0%Z, Some e), q')
  | (KVFound value, q') => (ParseUint value, q')
  end.

Definition updateCounter (key : string) (value : Z) : M PebbleQueue unit :=
  on_db (kv_Commit [KVSet key (FormatUint value)]).

(** The marshalling loop of [PushBatch]: the last counter and the batch. *)
Fixpoint push_batch (topic : string) (tail : Z) (values : list (option Ev))
    : result (Z * list KVWrite) :=
  match values with
  | [] => Ok (tail, [])
  | value :: rest =>
      let tail := wrap_u64 (tail + 1) in
      match marshal value with
      | Err e => Err e
      | Ok data =>
          match push_batch topic tail rest with
          | Err e => Err e
          | Ok (last, ws) => Ok (last, KVSet (event_key topic tail) data :: ws)
          end
      end
  end.

Definition set_notify (b : bool) (q : PebbleQueue) : PebbleQueue :=
  mkPebbleQueue (pq_db q) (pq_topic q) (pq_headKey q) (pq_tailKey q) b (pq_cancelled q)
    (pq_lastCommittedHead q).

Definition PushBatch (values : list (option Ev)) : M PebbleQueue unit := λ q,
  let '((tail, _), q) := getCounter (pq_tailKey q) q in
  match push_batch (pq_topic q) tail values with
  | Err e => (Err e, q)
  | Ok (tail, batch) =>
      match on_db (kv_Commit (batch ++ [KVSet (pq_tailKey q) (FormatUint tail)])) q with
      | (Err e, q) => (Err e, q)
      | (Ok _, q) => (Ok tt, set_notify true q)
      end
  end.

(** The reading loop of a pop: the events read, the last counter, the batch,
    and the error that stopped it. *)
Fixpoint pop_batch (count : nat) (head : Z) (q : PebbleQueue)
    : (list (option Ev) * Z * list KVWrite * option GoError) * PebbleQueue :=
  match count with
  | O => (([], head, [], None), q)
  | S n =>
      let head := wrap_u64 (head + 1) in
      let key := event_key (pq_topic q) head in
      match on_db (kv_Get key) q with
      | (KVNotFound, q) => (([], head, [], Some (EErrorf "pebble: not found")), q)
      | (KVError e, q) => (([], head, [], Some e), q)
      | (KVFound value, q) =>
          match unmarshal value with
          | Err e => (([], head, [], Some e), q)
          | Ok event =>
              let '((results, last, batch, err), q) := pop_batch n head q in
              ((Some event :: results, last, KVDelete key :: batch, err), q)
          end
      end
  end.

Definition set_lastCommittedHead (head : Z) (q : PebbleQueue) : PebbleQueue :=
  mkPebbleQueue (pq_db q) (pq_topic q) (pq_headKey q) (pq_tailKey q) (pq_notify q)
    (pq_cancelled q) head.

(** One round of the loop of [PopBatchWithContext], under the mutex. *)
Definition PopBatch (count : Z) (q : PebbleQueue) : PopResult (option Ev) * PebbleQueue :=
  let '((head, _), q) := getCounter (pq_headKey q) q in
  let '((tail, _), q) := getCounter (pq_tailKey q) q in
  let available := wrap64 (tail - head) in
  if bool_decide (available <= 0)%Z then (Waits, q)
  else if bool_decide (count < 0)%Z then (Panics, q)
  else
    let count := if bool_decide (available < count)%Z then available else count in
    let '((results, head, batch, err), q) := pop_batch (Z.to_nat count) head q in
    match err with
    | Some e => (Failed results e, q)
    | None =>
        match on_db (kv_Commit (batch ++ [KVSet (pq_headKey q) (FormatUint head)])) q with
        | (Err e, q) => (Failed results e, q)
        | (Ok _, q) => (Popped results, set_lastCommittedHead head q)
        end
    end.

Definition Size : M PebbleQueue Z := λ q,
  match getCounter (pq_headKey q) q with
  | ((_, Some e), q) => (Err e, q)
  | ((head, None), q) =>
      match getCounter (pq_tailKey q) q with
      | ((_, Some e), q) => (Err e, q)
      | ((tail, None), q) => (Ok (wrap_u64 (tail - head)), q)
      end
  end.

(** [db] is what [pebble.Open] returned. *)
Definition NewPebbleQueue (db : DB) (topic : string) : result unit * PebbleQueue :=
  let q := mkPebbleQueue db topic (topic +:+ ":head") (topic +:+ ":tail") false false 0 in
  match getCounter (pq_headKey q) q with
  | ((_, Some e), q) => (Err e, q)
  | ((head, None), q) =>
      match getCounter (pq_tailKey q) q with
      | ((_, Some e), q) => (Err e, q)
      | ((tail, None), q) =>
          if bool_decide (tail < head)%Z then
            match updateCounter (pq_tailKey q) head q with
            | (Err e, q) => (Err e, q)
            | (Ok _, q) => (Ok tt, set_lastCommittedHead head q)
            end
          else (Ok tt, set_lastCommittedHead head q)
      end
  end.

#[export] Instance pebble_queue : Queue PebbleQueue (option Ev) := {
  Queue.PushBatch := PushBatch;
  Queue.PopBatch := PopBatch;
  Queue.Size := Size
}.

End operations.

Arguments PebbleQueue DB : clear implicits.
Arguments mkPebbleQueue {DB}.

End Pebble.
Import Pebble.

(** ** Specification *)

(** Events [from+1 .. from+n] are stored under their keys. *)
Definition stored {Ev} (unmarshal : string → result Ev) (m : gmap string string)
    (topic : string) (from : Z) (events : list (option Ev)) : Prop :=
  ∀ i ev, events !! i = Some ev →
    ∃ d e, m !! event_key topic (from + 1 + Z.of_nat i) = Some d ∧
      unmarshal d = Ok e ∧ ev = Some e.

(** A queue holds [events] between its counters. *)
Record holds {DB} `{KVStore DB} {Ev} (unmarshal : string → result Ev) (q : PebbleQueue DB)
    (head : Z) (events : list (option Ev)) : Prop := {
  ho_headKey : pq_headKey q = pq_topic q +:+ ":head";
  ho_tailKey : pq_tailKey q = pq_topic q +:+ ":tail";
  ho_head_pos : (0 <= head)%Z;
  ho_small : (head + Z.of_nat (length events) < 2 ^ 63)%Z;
  ho_head : match kv_view (pq_db q) !! pq_headKey q with
            | Some s => s = FormatUint head | None => head = 0%Z end;
  ho_tail : match kv_view (pq_db q) !! pq_tailKey q with
            | Some s => s = FormatUint (head + Z.of_nat (length events))
            | None => (head + Z.of_nat (length events))%Z = 0%Z end;
  ho_events : stored unmarshal (kv_view (pq_db q)) (pq_topic q) head events
}.

(** A map in memory whose calls fail as a list of booleans says; past its end
    no call fails. *)
Record FaultyMap := mkFaultyMap {
  fm_map : gmap string string;
  fm_faults : list bool
}.

Definition next_fault (d : FaultyMap) : bool * FaultyMap :=
  (default false (head (fm_faults d)), mkFaultyMap (fm_map d) (tail (fm_faults d))).

Definition fm_Get (k : string) (d : FaultyMap) : KVRead * FaultyMap :=
  let '(b, d') := next_fault d in
  (if b then KVError EDriver
   else match fm_map d !! k with Some v => KVFound v | None => KVNotFound end, d').

Definition fm_Commit (ws : list KVWrite) : M FaultyMap unit := λ d,
  let '(b, d') := next_fault d in
  if b then (Err EDriver, d')
  else (Ok tt, mkFaultyMap (foldl apply_write (fm_map d) ws) (fm_faults d')).

(** Events that are their own JSON text. *)
Definition text_marshal (v : option string) : result string :=
  Ok (default "null" v).
Definition text_unmarshal (d : string) : result string := Ok d.

#[export] Program Instance FaultyMap_KVStore : KVStore FaultyMap := {
  kv_Get := fm_Get;
  kv_Commit := fm_Commit;
  kv_view := fm_map;
  kv_healthy := λ d, Forall (eq false) (fm_faults d)
}.
Next Obligation. done. Qed.
Next Obligation.
  intros k d v. unfold fm_Get; simpl.
  destruct (default false _); [done|]. by destruct (fm_map d !! k); intros [= ->].
Qed.
Next Obligation.
  intros k d. unfold fm_Get; simpl.
  destruct (default false _); [done|]. by destruct (fm_map d !! k).
Qed.
Next Obligation. intros ws d. unfold fm_Commit; simpl. by destruct (default false _). Qed.
Next Obligation. intros ws d e. unfold fm_Commit; simpl. by destruct (default false _). Qed.
Next Obligation.
  intros k [m fs] e Hh; simpl in *. unfold fm_Get; simpl. split.
  - by destruct Hh.
  - destruct Hh as [|? ? <-]; simpl; by destruct (m !! k).
Qed.
Next Obligation.
  intros ws [m fs] Hh; simpl in *. unfold fm_Commit; simpl.
  by destruct Hh as [|? ? <-]; simpl.
Qed.

(** The counter stored under a key, and the events between the counters. *)
Definition counter_at (m : gmap string string) (key : string) : Z :=
  match m !! key with Some s => (ParseUint s).1 | None => 0%Z end.

Definition pebble_contents {DB} `{KVStore DB} {Ev} (unmarshal : string → result Ev)
    (q : PebbleQueue DB) : list (option Ev) :=
  let m := kv_view (pq_db q) in
  let head := counter_at m (pq_headKey q) in
  let tail := counter_at m (pq_tailKey q) in
  (λ i, match m !! event_key (pq_topic q) (head + 1 + Z.of_nat i) with
        | Some d => match unmarshal d with Ok e => Some e | Err _ => None end
        | None => None
        end) <$> seq 0 (Z.to_nat (tail - head)).

(** An event that JSON can carry: it is not [nil] and reads back. *)
Definition carried {Ev} (marshal : option Ev → result string) (unmarshal : string → result Ev)
    (v : option Ev) : Prop :=
  ∃ e d, v = Some e ∧ marshal v = Ok d ∧ unmarshal d = Ok e.

(** A queue of topic [events] on an empty, healthy map. *)
Definition fresh_queue : PebbleQueue FaultyMap :=
  mkPebbleQueue (mkFaultyMap ∅ []) "events" "events:head" "events:tail" false false 0.

Definition with_faults (fs : list bool) (q : PebbleQueue FaultyMap) : PebbleQueue FaultyMap :=
  with_db q (mkFaultyMap (fm_map (pq_db q)) fs).

(** ** Keys and counters *)

Lemma decimal_zeros n s : decimal (zeros n +:+ s) 0 = decimal s 0.
Proof. induction n as [|n IH]; [done|]. exact IH. Qed.

Lemma all_digits_zeros n s : all_digits (zeros n +:+ s) = all_digits s.
Proof. induction n as [|n IH]; [done|]. exact IH. Qed.

Lemma pad08_decimal n : (0 <= n)%Z →
  decimal (pad08 (FormatUint n)) 0 = n ∧ all_digits (pad08 (FormatUint n)) = true.
Proof.
  intros Hn. unfold pad08. rewrite decimal_zeros, all_digits_zeros. unfold FormatUint.
  destruct (decimal_pretty (Z.to_N n)) as [-> ->]. split; [lia|done].
Qed.

Lemma event_key_inj topic i j : (0 <= i)%Z → (0 <= j)%Z →
  event_key topic i = event_key topic j → i = j.
Proof.
  intros Hi Hj Heq. unfold event_key in Heq. apply (inj (String.append topic)) in Heq.
  apply (inj (String.append ":")) in Heq.
  destruct (pad08_decimal i Hi) as [Ei _], (pad08_decimal j Hj) as [Ej _].
  rewrite <- Ei, <- Ej. by rewrite Heq.
Qed.

Lemma event_key_name topic i name : (0 <= i)%Z → all_digits name = false →
  event_key topic i ≠ topic +:+ ":" +:+ name.
Proof.
  intros Hi Hname Heq. unfold event_key in Heq. apply (inj (String.append topic)) in Heq.
  apply (inj (String.append ":")) in Heq.
  destruct (pad08_decimal i Hi) as [_ Hd]. rewrite Heq in Hd. congruence.
Qed.

Lemma ParseUint_FormatUint n : (0 <= n < 2 ^ 64)%Z → ParseUint (FormatUint n) = (n, None).
Proof.
  intros Hn. unfold ParseUint, FormatUint.
  destruct (decimal_pretty (Z.to_N n)) as [Hd Ha]. rewrite Hd, Ha.
  rewrite bool_decide_eq_false_2.
  - simpl. rewrite bool_decide_eq_false_2 by lia. f_equal. lia.
  - unfold pretty, pretty_N. case_decide; [done|].
    intros Hnil. assert (decimal (pretty_N_go (Z.to_N n) "") 0 = 0%Z) as H0 by by rewrite Hnil.
    destruct (decimal_pretty_go (Z.to_N n) "") as [H1 _]. rewrite H0 in H1. simpl in H1. lia.
Qed.

Lemma wrap_u64_id n : (0 <= n < 2 ^ 64)%Z → wrap_u64 n = n.
Proof. apply Z.mod_small. Qed.

Section laws.
Context {DB : Type} `{KVStore DB} {Ev : Type}.
Context (marshal : option Ev → result string) (unmarshal : string → result Ev).
Notation carried := (carried marshal unmarshal).

(** What a call that only reads leaves behind. *)
Definition same_view (q q' : PebbleQueue DB) : Prop :=
  ∃ db, q' = with_db q db ∧ kv_view db = kv_view (pq_db q) ∧ kv_healthy db.

Lemma same_view_trans q1 q2 q3 : same_view q1 q2 → same_view q2 q3 → same_view q1 q3.
Proof.
  intros (d1 & -> & Hv1 & _) (d2 & -> & Hv2 & Hh). exists d2. simpl in *.
  split; [done|]. split; [congruence|done].
Qed.

Lemma get_spec key q : kv_healthy (pq_db q) →
  ∃ q', on_db (kv_Get key) q =
    (match kv_view (pq_db q) !! key with Some v => KVFound v | None => KVNotFound end, q') ∧
    same_view q q'.
Proof.
  intros Hh. unfold on_db.
  pose proof (kv_Get_view key (pq_db q)) as Hv.
  pose proof (kv_Get_found key (pq_db q)) as Hf.
  pose proof (kv_Get_missing key (pq_db q)) as Hm.
  pose proof (λ e, kv_Get_healthy key (pq_db q) e Hh) as He.
  destruct (kv_Get key (pq_db q)) as [[v| |e] db]; simpl in *.
  - rewrite (Hf v eq_refl). eexists; split; [done|]. exists db. by destruct (He EDriver).
  - rewrite (Hm eq_refl). eexists; split; [done|]. exists db. by destruct (He EDriver).
  - by destruct (He e).
Qed.

Lemma getCounter_spec key q n : kv_healthy (pq_db q) → (0 <= n < 2 ^ 64)%Z →
  match kv_view (pq_db q) !! key with Some s => s = FormatUint n | None => n = 0%Z end →
  ∃ q', getCounter key q = ((n, None), q') ∧ same_view q q'.
Proof.
  intros Hh Hn Hk. unfold getCounter.
  destruct (get_spec key q Hh) as (q' & -> & Hs).
  destruct (kv_view (pq_db q) !! key) as [s|]; subst;
    rewrite ?ParseUint_FormatUint by done; eauto.
Qed.

Lemma commit_spec ws q : kv_healthy (pq_db q) →
  ∃ db, on_db (kv_Commit ws) q = (Ok tt, with_db q db) ∧ kv_healthy db ∧
    kv_view db = foldl apply_write (kv_view (pq_db q)) ws.
Proof.
  intros Hh. unfold on_db. destruct (kv_Commit_healthy ws (pq_db q) Hh) as [Hh' Hok].
  pose proof (kv_Commit_ok ws (pq_db q) Hok) as Hv.
  destruct (kv_Commit ws (pq_db q)) as [r db]; simpl in *; subst. by exists db.
Qed.

Lemma push_batch_spec topic vs : ∀ tail,
  Forall carried vs → (0 <= tail)%Z → (tail + Z.of_nat (length vs) < 2 ^ 64)%Z →
  ∃ ws, push_batch marshal topic tail vs = Ok ((tail + Z.of_nat (length vs))%Z, ws) ∧
    ∀ m, stored unmarshal (foldl apply_write m ws) topic tail vs ∧
      ∀ k, (∀ i, (tail < i <= tail + Z.of_nat (length vs))%Z → k ≠ event_key topic i) →
        foldl apply_write m ws !! k = m !! k.
Proof.
  induction vs as [|v vs IH]; intros tail Hc Ht Hb; simpl.
  { exists []. split; [do 2 f_equal; lia|]. intros m. split; [by intros i ev|done]. }
  apply Forall_cons in Hc as [(e & d & -> & Hm & Hu) Hc].
  simpl in Hb. rewrite wrap_u64_id by lia.
  destruct (IH (tail + 1)%Z Hc) as (ws & -> & Hws); [lia|lia|].
  rewrite Hm. eexists. split; [do 2 f_equal; lia|].
  intros m. simpl. destruct (Hws (<[event_key topic (tail + 1) := d]> m)) as [Hst Hk]. split.
  - intros [|i] ev Hev; simpl in Hev.
    + simplify_eq. exists d, e. split; [|done].
      replace (tail + 1 + Z.of_nat 0)%Z with (tail + 1)%Z by lia.
      rewrite Hk; [by rewrite lookup_insert_eq|].
      intros j Hj Heq%event_key_inj; lia.
    + destruct (Hst i ev Hev) as (d' & e' & Hd & ?). exists d', e'. split; [|done].
      rewrite <- Hd. do 2 f_equal. lia.
  - intros k Hfresh. rewrite Hk; [|intros i Hi; apply Hfresh; lia].
    rewrite lookup_insert_ne; [done|]. intros Heq. apply (Hfresh (tail + 1)%Z); [lia|done].
Qed.

Lemma pop_batch_spec n : ∀ head q events,
  kv_healthy (pq_db q) → stored unmarshal (kv_view (pq_db q)) (pq_topic q) head events →
  n <= length events → (0 <= head)%Z → (head + Z.of_nat n < 2 ^ 64)%Z →
  ∃ ws q', pop_batch unmarshal n head q =
      ((take n events, (head + Z.of_nat n)%Z, ws, None), q') ∧
    same_view q q' ∧
    ∀ m k, (∀ i, (head < i <= head + Z.of_nat n)%Z → k ≠ event_key (pq_topic q) i) →
      foldl apply_write m ws !! k = m !! k.
Proof.
  induction n as [|n IH]; intros head q events Hh Hst Hn Hp Hb; simpl.
  { exists [], q. split; [do 4 f_equal; lia|]. split; [|done].
    exists (pq_db q). by destruct q. }
  destruct events as [|ev events]; simpl in Hn; [lia|].
  rewrite wrap_u64_id by lia.
  destruct (get_spec (event_key (pq_topic q) (head + 1)) q Hh) as (q1 & -> & Hs1).
  destruct (Hst 0 ev eq_refl) as (d & e & Hd & Hu & ->).
  replace (head + 1 + Z.of_nat 0)%Z with (head + 1)%Z in Hd by lia.
  rewrite Hd, Hu. destruct Hs1 as (db1 & -> & Hv1 & Hh1).
  destruct (IH (head + 1)%Z (with_db q db1) events) as (ws & q' & -> & Hs' & Hws);
    [done| |lia|lia|lia|].
  { simpl. rewrite Hv1. intros i ev' Hev. destruct (Hst (S i) ev' Hev) as (d' & e' & Hd' & ?).
    exists d', e'. split; [|done]. rewrite <- Hd'. do 2 f_equal. lia. }
  do 2 eexists. split; [simpl; do 4 f_equal; lia|]. split.
  - eapply same_view_trans; [|exact Hs']. by exists db1.
  - intros m k Hfresh. simpl in *. rewrite Hws by (intros i Hi; apply Hfresh; lia).
    rewrite lookup_delete_ne; [done|]. intros Heq.
    apply (Hfresh (head + 1)%Z); [lia|done].
Qed.

Lemma foldl_apply_app m ws k v : foldl apply_write m (ws ++ [KVSet k v]) =
  <[k := v]> (foldl apply_write m ws).
Proof. by rewrite foldl_app. Qed.

Lemma counters_differ topic : topic +:+ ":head" ≠ topic +:+ ":tail".
Proof. intros Heq. by apply (inj (String.append topic)) in Heq. Qed.

Lemma event_key_head topic i : (0 <= i)%Z → topic +:+ ":head" ≠ event_key topic i.
Proof. intros Hi Heq. by apply (event_key_name topic i "head" Hi eq_refl). Qed.

Lemma event_key_tail topic i : (0 <= i)%Z → topic +:+ ":tail" ≠ event_key topic i.
Proof. intros Hi Heq. by apply (event_key_name topic i "tail" Hi eq_refl). Qed.

(** Reading keeps what a queue holds. *)
Lemma holds_same_view q q' head events :
  holds unmarshal q head events → same_view q q' → holds unmarshal q' head events.
Proof.
  intros [] (db & -> & Hv & _). constructor; simpl in *; rewrite ?Hv; done.
Qed.

Lemma counters_spec q head events :
  kv_healthy (pq_db q) → holds unmarshal q head events →
  ∃ q1 q2, getCounter (pq_headKey q) q = ((head, None), q1) ∧
    getCounter (pq_tailKey q1) q1 = (((head + Z.of_nat (length events))%Z, None), q2) ∧
    pq_tailKey q1 = pq_tailKey q ∧ same_view q q1 ∧ same_view q q2.
Proof.
  intros Hh Hq. pose proof Hq as [Hk1 Hk2 Hp Hs Hhd Htl Hev].
  destruct (getCounter_spec (pq_headKey q) q head Hh ltac:(lia) Hhd) as (q1 & E1 & Hs1).
  pose proof Hs1 as (db1 & Hq1 & Hv1 & Hh1).
  destruct (getCounter_spec (pq_tailKey q1) q1 (head + Z.of_nat (length events))%Z)
    as (q2 & E2 & Hs2).
  { by rewrite Hq1. }
  { lia. }
  { rewrite Hq1. simpl. rewrite Hv1. exact Htl. }
  exists q1, q2. split_and!; try done; [by rewrite Hq1|]. by eapply same_view_trans.
Qed.

Lemma stored_app m topic from evs1 evs2 :
  stored unmarshal m topic from evs1 →
  stored unmarshal m topic (from + Z.of_nat (length evs1)) evs2 →
  stored unmarshal m topic from (evs1 ++ evs2).
Proof.
  intros H1 H2 i ev Hev. apply lookup_app_Some in Hev as [Hev|[Hge Hev]]; [by apply H1|].
  destruct (H2 _ _ Hev) as (d & e & Hd & ?). exists d, e. split; [|done].
  rewrite <- Hd. do 2 f_equal. lia.
Qed.

Lemma stored_frame m m' topic from evs :
  (0 <= from)%Z →
  (∀ i, (from < i <= from + Z.of_nat (length evs))%Z →
    m' !! event_key topic i = m !! event_key topic i) →
  stored unmarshal m topic from evs → stored unmarshal m' topic from evs.
Proof.
  intros Hp Hm Hst i ev Hev. destruct (Hst i ev Hev) as (d & e & Hd & ?).
  exists d, e. split; [|done]. rewrite Hm; [done|].
  apply lookup_lt_Some in Hev. lia.
Qed.

Lemma stored_drop m topic from evs n :
  stored unmarshal m topic from evs →
  stored unmarshal m topic (from + Z.of_nat n) (drop n evs).
Proof.
  intros Hst i ev Hev. rewrite lookup_drop in Hev.
  destruct (Hst _ _ Hev) as (d & e & Hd & ?). exists d, e. split; [|done].
  rewrite <- Hd. do 2 f_equal. lia.
Qed.

Lemma PushBatch_holds q head events vs :
  kv_healthy (pq_db q) → holds unmarshal q head events → Forall carried vs →
  (head + Z.of_nat (length events) + Z.of_nat (length vs) < 2 ^ 63)%Z →
  ∃ q', PushBatch marshal vs q = (Ok tt, q') ∧ kv_healthy (pq_db q') ∧
    holds unmarshal q' head (events ++ vs).
Proof.
  intros Hh Hq Hc Hroom. unfold PushBatch.
  pose proof Hq as [Hk1 Hk2 Hp Hs Hhd Htl Hev].
  destruct (getCounter_spec (pq_tailKey q) q (head + Z.of_nat (length events)) Hh
              ltac:(lia) Htl) as (q1 & -> & db1 & -> & Hv1 & Hh1).
  destruct (push_batch_spec (pq_topic q) vs (head + Z.of_nat (length events)) Hc)
    as (ws & E1 & Hws); [lia|lia|]. simpl. rewrite E1.
  destruct (commit_spec (ws ++ [KVSet (pq_tailKey q)
    (FormatUint (head + Z.of_nat (length events) + Z.of_nat (length vs)))])
    (with_db q db1) Hh1) as (db2 & -> & Hh2 & Hv2).
  simpl in Hv2. rewrite Hv1, foldl_apply_app in Hv2.
  destruct (Hws (kv_view (pq_db q))) as [Hst Hfr].
  eexists. split; [done|]. split; [done|]. constructor; simpl; rewrite ?Hv2; try done.
  - rewrite length_app. lia.
  - rewrite lookup_insert_ne by (rewrite Hk1, Hk2; apply not_eq_sym, counters_differ).
    rewrite Hfr; [done|]. intros i Hi. rewrite Hk1. apply event_key_head. lia.
  - rewrite lookup_insert_eq, length_app. f_equal. lia.
  - apply stored_app; (eapply stored_frame; [lia| |]); [| exact Hev | | exact Hst];
      intros i Hi; rewrite lookup_insert_ne by (rewrite Hk2; apply event_key_tail; lia).
    + apply Hfr. intros j Hj Heq%event_key_inj; lia.
    + done.
Qed.

Lemma PopBatch_empty_holds q head n :
  kv_healthy (pq_db q) → holds unmarshal q head [] →
  ∃ q', PopBatch unmarshal n q = (Waits, q') ∧ kv_healthy (pq_db q') ∧ holds unmarshal q' head [].
Proof.
  intros Hh Hq. unfold PopBatch.
  destruct (counters_spec q head [] Hh Hq) as (q1 & q2 & -> & -> & _ & _ & Hs).
  replace (head + Z.of_nat (length []) - head)%Z with 0%Z by (simpl; lia).
  rewrite wrap64_id by (unfold is_int64; lia). rewrite bool_decide_eq_true_2 by lia.
  exists q2. split; [done|]. split; [|by eapply holds_same_view].
  by destruct Hs as (db & -> & _ & ?).
Qed.

Lemma PopBatch_holds q head events n :
  kv_healthy (pq_db q) → holds unmarshal q head events → events ≠ [] → (0 < n)%Z →
  let k := Nat.min (Z.to_nat n) (length events) in
  ∃ q', PopBatch unmarshal n q = (Popped (take (Z.to_nat n) events), q') ∧
    kv_healthy (pq_db q') ∧
    holds unmarshal q' (head + Z.of_nat k) (drop (Z.to_nat n) events).
Proof.
  intros Hh Hq Hne Hn k. unfold PopBatch. pose proof Hq as [Hk1 Hk2 Hp Hs Hhd Htl Hev].
  destruct (counters_spec q head events Hh Hq) as (q1 & q2 & -> & -> & _ & _ & Hs2).
  assert (0 < length events) as Hlen by (destruct events; simpl; [done|lia]).
  replace (head + Z.of_nat (length events) - head)%Z with (Z.of_nat (length events)) by lia.
  rewrite wrap64_id by (unfold is_int64; lia).
  rewrite bool_decide_eq_false_2, bool_decide_eq_false_2 by lia.
  assert (Z.to_nat (if bool_decide (Z.of_nat (length events) < n)%Z
                    then Z.of_nat (length events) else n) = k) as ->
    by (unfold k; case_bool_decide; lia).
  destruct Hs2 as (db2 & -> & Hv2 & Hh2).
  destruct (pop_batch_spec k head (with_db q db2) events)
    as (ws & q3 & -> & (db3 & -> & Hv3 & Hh3) & Hws);
    [done|simpl; by rewrite Hv2|unfold k; lia|lia|unfold k; lia|].
  simpl in Hv3. rewrite Hv2 in Hv3.
  destruct (commit_spec (ws ++ [KVSet (pq_headKey q) (FormatUint (head + Z.of_nat k))])
    (with_db (with_db q db2) db3) Hh3) as (db4 & E4 & Hh4 & Hv4).
  simpl in E4, Hv4 |- *. rewrite E4. rewrite Hv3, foldl_apply_app in Hv4.
  assert (take k events = take (Z.to_nat n) events ∧ drop k events = drop (Z.to_nat n) events)
    as [<- <-].
  { unfold k. destruct (Nat.min_dec (Z.to_nat n) (length events)) as [E|E]; rewrite E;
      [done|]. rewrite !take_ge, !drop_ge by lia. done. }
  simpl in Hws. eexists. split; [done|]. split; [done|].
  assert (length (drop k events) = length events - k) as Hld by apply length_drop.
  constructor; simpl; rewrite ?Hv4; try done; try lia.
  - by rewrite lookup_insert_eq.
  - rewrite lookup_insert_ne by (rewrite Hk1, Hk2; apply counters_differ).
    rewrite Hws by (intros i Hi; rewrite Hk2; apply event_key_tail; lia).
    replace (head + Z.of_nat k + Z.of_nat (length (drop k events)))%Z
      with (head + Z.of_nat (length events))%Z by (unfold k in *; lia).
    exact Htl.
  - eapply stored_frame; [lia| |exact (stored_drop _ _ _ _ k Hev)].
    intros i Hi. rewrite lookup_insert_ne by (rewrite Hk1; apply event_key_head; lia).
    apply Hws. intros j Hj Heq%event_key_inj; lia.
Qed.

Lemma Size_holds q head events :
  kv_healthy (pq_db q) → holds unmarshal q head events →
  (Size q).1 = Ok (Z.of_nat (length events)) ∧ holds unmarshal (Size q).2 head events.
Proof.
  intros Hh Hq. unfold Size.
  destruct (counters_spec q head events Hh Hq) as (q1 & q2 & -> & -> & _ & _ & Hs2).
  destruct Hq as [] eqn:E. simpl. split.
  - f_equal. rewrite wrap_u64_id; lia.
  - by eapply holds_same_view.
Qed.

Lemma counter_at_holds m key n : (0 <= n < 2 ^ 64)%Z →
  match m !! key with Some s => s = FormatUint n | None => n = 0%Z end →
  counter_at m key = n.
Proof.
  intros Hn. unfold counter_at. destruct (m !! key); intros ->; [|done].
  by rewrite ParseUint_FormatUint.
Qed.

Lemma contents_holds q head events :
  holds unmarshal q head events → pebble_contents unmarshal q = events.
Proof.
  intros [Hk1 Hk2 Hp Hs Hhd Htl Hev]. unfold pebble_contents.
  rewrite (counter_at_holds _ _ head), (counter_at_holds _ _ (head + Z.of_nat (length events)))
    by (done || lia).
  replace (Z.to_nat (head + Z.of_nat (length events) - head)) with (length events) by lia.
  apply list_eq. intros i. rewrite list_lookup_fmap.
  destruct (decide (i < length events)) as [Hi|Hi].
  - rewrite lookup_seq_lt by done. simpl.
    destruct (lookup_lt_is_Some_2 events i Hi) as [ev Hx].
    destruct (Hev i ev Hx) as (d & e & Hd & Hu & ->). by rewrite Hd, Hu, Hx.
  - rewrite lookup_seq_ge by lia. simpl. symmetry. apply lookup_ge_None_2. lia.
Qed.

(** The persistent queue keeps the promise of the interface as long as its
    database is healthy and the counters stay below 2^63. *)
#[export] Program Instance pebble_queue_laws :
    QueueLaws (PebbleQueue DB) (option Ev) (Queue0 := pebble_queue marshal unmarshal) := {
  qu_inv := λ q, kv_healthy (pq_db q) ∧ ∃ head events, holds unmarshal q head events;
  qu_valid := carried;
  qu_room := λ q k, (counter_at (kv_view (pq_db q)) (pq_tailKey q) + Z.of_nat k < 2 ^ 63)%Z;
  contents := pebble_contents unmarshal
}.
Next Obligation.
  intros q vs k [Hh (head & events & Hq)] Hc Hroom. unfold wp.
  pose proof Hq as [_ _ Hp Hs _ Htl _].
  rewrite (counter_at_holds _ _ (head + Z.of_nat (length events))) in Hroom by (done || lia).
  destruct (PushBatch_holds q head events vs Hh Hq Hc ltac:(lia)) as (q' & E1 & Hh' & Hq').
  cbn [Queue.PushBatch pebble_queue]. rewrite E1. simpl.
  rewrite (contents_holds _ _ _ Hq), (contents_holds _ _ _ Hq'). split_and!; eauto.
  destruct Hq' as [_ _ _ Hs' _ Htl' _]. rewrite length_app in *.
  rewrite (counter_at_holds _ _ (head + Z.of_nat (length events + length vs))); lia || done.
Qed.
Next Obligation.
  intros q n k [Hh (head & events & Hq)] Hroom Hn. cbn [Queue.PopBatch pebble_queue].
  pose proof Hq as [_ _ Hp Hs _ Htl _].
  rewrite (counter_at_holds _ _ (head + Z.of_nat (length events))) in Hroom by (done || lia).
  rewrite (contents_holds _ _ _ Hq).
  destruct (decide (events = [])) as [->|Hne].
  - destruct (PopBatch_empty_holds q head n Hh Hq) as (q' & -> & Hh' & Hq'). simpl.
    rewrite (contents_holds _ _ _ Hq'). split_and!; eauto.
    destruct Hq' as [_ _ _ _ _ Htl' _].
    by rewrite (counter_at_holds _ _ (head + Z.of_nat (@length (option Ev) []))) by (done || lia).
  - destruct (PopBatch_holds q head events n Hh Hq Hne Hn) as (q' & -> & Hh' & Hq'). simpl.
    rewrite (contents_holds _ _ _ Hq'). split_and!; eauto.
    + destruct Hq' as [_ _ _ Hs' _ Htl' _]. rewrite length_drop in *.
      erewrite (counter_at_holds _ (pq_tailKey q')); [| |exact Htl']; lia.
    + by destruct events.
Qed.
Next Obligation.
  intros q [Hh (head & events & Hq)] _. cbn [Queue.Size pebble_queue].
  destruct (Size_holds q head events Hh Hq) as [-> Hq'].
  by rewrite (contents_holds _ _ _ Hq), (contents_holds _ _ _ Hq').
Qed.

End laws.

(** ** Failures *)

Section failures.
Context {DB : Type} `{KVStore DB} {Ev : Type}.
Context (marshal : option Ev → result string) (unmarshal : string → result Ev).

Notation view q := (kv_view (pq_db q)).

Lemma on_db_get_view key (q : PebbleQueue DB) : view (on_db (kv_Get key) q).2 = view q.
Proof.
  unfold on_db. pose proof (kv_Get_view key (pq_db q)) as Hv.
  by destruct (kv_Get key (pq_db q)).
Qed.

Lemma getCounter_view key (q : PebbleQueue DB) : view (getCounter key q).2 = view q.
Proof.
  unfold getCounter. pose proof (on_db_get_view key q) as Hv.
  by destruct (on_db (kv_Get key) q) as [[] q'].
Qed.

Lemma pop_batch_view n : ∀ head (q : PebbleQueue DB),
  view (pop_batch unmarshal n head q).2 = view q.
Proof.
  induction n as [|n IH]; intros head q; simpl; [done|].
  pose proof (on_db_get_view (event_key (pq_topic q) (wrap_u64 (head + 1))) q) as Hv.
  destruct (on_db _ q) as [[v| |e] q1]; [|done|done].
  destruct (unmarshal v) as [e|e]; [|done].
  pose proof (IH (wrap_u64 (head + 1)) q1) as Hv1.
  by destruct (pop_batch unmarshal n _ q1) as [[[[? ?] ?] ?] q2]; simpl in *; rewrite Hv1.
Qed.

Lemma on_db_commit_view ws (q : PebbleQueue DB) :
  match on_db (kv_Commit ws) q with
  | (Err _, q') => view q' = view q
  | (Ok _, q') => view q' = foldl apply_write (view q) ws
  end.
Proof.
  unfold on_db. pose proof (kv_Commit_ok ws (pq_db q)) as Ho.
  pose proof (λ e, kv_Commit_err ws (pq_db q) e) as He.
  destruct (kv_Commit ws (pq_db q)) as [[[]|e] db]; simpl in *; eauto.
Qed.

Lemma PushBatch_atomic vs (q q' : PebbleQueue DB) e :
  PushBatch marshal vs q = (Err e, q') → view q' = view q.
Proof.
  unfold PushBatch. pose proof (getCounter_view (pq_tailKey q) q) as Hv.
  destruct (getCounter _ q) as [[t oe] q1]; simpl in Hv.
  destruct (push_batch _ _ _ _) as [[t' ws]|e']; [|by intros [= <- <-]].
  pose proof (on_db_commit_view (ws ++ [KVSet (pq_tailKey q1) (FormatUint t')]) q1) as Hc.
  destruct (on_db _ q1) as [[[]|e'] q2]; [done|]. intros [= <- <-]. by rewrite Hc.
Qed.

Lemma PopBatch_atomic n (q q' : PebbleQueue DB) r :
  PopBatch unmarshal n q = (r, q') → (∀ vs, r ≠ Popped vs) → view q' = view q.
Proof.
  unfold PopBatch. pose proof (getCounter_view (pq_headKey q) q) as Hv1.
  destruct (getCounter _ q) as [[h oe] q1]; simpl in Hv1.
  pose proof (getCounter_view (pq_tailKey q1) q1) as Hv2.
  destruct (getCounter _ q1) as [[t oe'] q2]; simpl in Hv2. rewrite Hv1 in Hv2.
  case_bool_decide; [by intros [= <- <-]|]. case_bool_decide; [by intros [= <- <-]|].
  set (k := Z.to_nat _). pose proof (pop_batch_view k h q2) as Hv3.
  destruct (pop_batch _ _ _ q2) as [[[[res hd] ws] err] q3]; simpl in Hv3. rewrite Hv2 in Hv3.
  destruct err as [e|]; [by intros [= <- <-]|].
  pose proof (on_db_commit_view (ws ++ [KVSet (pq_headKey q3) (FormatUint hd)]) q3) as Hc.
  destruct (on_db _ q3) as [[[]|e'] q4]; intros [= <- <-] Hne; [by destruct (Hne res)|].
  by rewrite Hc.
Qed.

End failures.

(** An example queue. *)
Lemma fresh_holds : holds text_unmarshal fresh_queue 0 [].
Proof. by constructor. Qed.

Lemma text_carried v : carried text_marshal text_unmarshal (Some v).
Proof. by exists v, v. Qed.

(** ** Properties *)

(** C32: The persistent queue is FIFO as well: on a healthy database, for
    events JSON can carry and counters below 2^63, the events popped followed
    by the events left are the events that were there followed by the events
    pushed. *)
Theorem pebble_queue_fifo {DB} `{KVStore DB} {Ev} (marshal : option Ev → result string)
    (unmarshal : string → result Ev) (ops : list (QueueOp (option Ev))) (q : PebbleQueue DB)
    (head : Z) (events : list (option Ev))
    (Hh : kv_healthy (pq_db q)) (Hq : holds unmarshal q head events)
    (Hv : Forall (λ op, match op with
                        | OPush vs => Forall (carried marshal unmarshal) vs
                        | OPop n => (0 < n)%Z end) ops)
    (Hroom : (head + Z.of_nat (length events) + Z.of_nat (length (pushed ops)) < 2 ^ 63)%Z) :
  ∃ head' left, holds unmarshal (run_ops (Queue0 := pebble_queue marshal unmarshal) ops q).2 head' left ∧
    (run_ops (Queue0 := pebble_queue marshal unmarshal) ops q).1 ++ left = events ++ pushed ops.
Proof.
  destruct (run_ops_fifo (Q := PebbleQueue DB) (H := pebble_queue_laws marshal unmarshal)
    ops q 0) as ([_ (head' & left & Hq')] & _ & Heq).
  - split; [done|]. by exists head, events.
  - pose proof Hq as [_ _ Hp Hs _ Htl _]. cbn [qu_room pebble_queue_laws].
    rewrite (counter_at_holds _ _ (head + Z.of_nat (length events))); [lia|lia|done].
  - exact Hv.
  - exists head', left. split; [done|]. cbn [contents pebble_queue_laws] in Heq.
    by rewrite (contents_holds _ _ _ _ Hq), (contents_holds _ _ _ _ Hq') in Heq.
Qed.

Lemma pebble_queue_fifo_witness :
  ∃ head' left,
    holds text_unmarshal (run_ops (Queue0 := pebble_queue text_marshal text_unmarshal)
      [OPush [Some "a"; Some "b"]; OPop 1] fresh_queue).2 head' left ∧
    (run_ops (Queue0 := pebble_queue text_marshal text_unmarshal)
      [OPush [Some "a"; Some "b"]; OPop 1] fresh_queue).1 ++ left = [Some "a"; Some "b"].
Proof.
  refine (pebble_queue_fifo text_marshal text_unmarshal [OPush [Some "a"; Some "b"]; OPop 1]
    fresh_queue 0 [] _ fresh_holds _ _).
  - by apply Forall_nil.
  - repeat constructor; apply text_carried.
  - simpl. lia.
Defined.

(** The queue survives a restart: opening the database of a queue again
    under its topic yields a queue with the same events. *)
Theorem reopen_keeps_events {DB} `{KVStore DB} {Ev} (unmarshal : string → result Ev)
    (q : PebbleQueue DB) (head : Z) (events : list (option Ev))
    (Hh : kv_healthy (pq_db q)) (Hq : holds unmarshal q head events) :
  ∃ q', NewPebbleQueue (pq_db q) (pq_topic q) = (Ok tt, q') ∧ kv_healthy (pq_db q') ∧
    holds unmarshal q' head events ∧ pq_lastCommittedHead q' = head.
Proof.
  unfold NewPebbleQueue.
  set (q0 := mkPebbleQueue (pq_db q) (pq_topic q) _ _ _ _ _).
  assert (holds unmarshal q0 head events) as Hq0.
  { destruct Hq as [Hk1 Hk2 Hp Hs Hhd Htl Hev]. rewrite Hk1 in Hhd. rewrite Hk2 in Htl.
    by constructor. }
  destruct (counters_spec unmarshal q0 head events Hh Hq0) as (q1 & q2 & E1 & E2 & _ & _ & Hs).
  rewrite E1, E2, bool_decide_eq_false_2 by lia.
  pose proof (holds_same_view _ _ _ _ _ Hq0 Hs) as Hq2.
  destruct Hs as (db & -> & _ & Hdb).
  eexists. split; [done|]. split; [done|]. split; [|done]. by destruct Hq2; constructor.
Qed.

Lemma reopen_keeps_events_witness :
  ∃ q', NewPebbleQueue (mkFaultyMap ∅ []) "events" = (Ok tt, q') ∧ kv_healthy (pq_db q') ∧
    holds text_unmarshal q' 0 [] ∧ pq_lastCommittedHead q' = 0%Z.
Proof.
  exact (reopen_keeps_events text_unmarshal fresh_queue 0 [] (Forall_nil_2 _) fresh_holds).
Defined.

(** A failure loses nothing: a push that returns an error and a pop that
    does not return events leave the database as it was, whatever calls to it
    failed. *)
Theorem failures_keep_events {DB} `{KVStore DB} {Ev} (marshal : option Ev → result string)
    (unmarshal : string → result Ev) (q : PebbleQueue DB) (vs : list (option Ev)) (n : Z) :
  (is_ok (PushBatch marshal vs q).1 = false →
    kv_view (pq_db (PushBatch marshal vs q).2) = kv_view (pq_db q)) ∧
  match (PopBatch unmarshal n q).1 with
  | Popped _ => True
  | _ => kv_view (pq_db (PopBatch unmarshal n q).2) = kv_view (pq_db q)
  end.
Proof.
  split.
  - pose proof (PushBatch_atomic marshal vs q) as Ha.
    destruct (PushBatch marshal vs q) as [[[]|e] q']; simpl; [done|eauto].
  - pose proof (PopBatch_atomic unmarshal n q) as Ha.
    destruct (PopBatch unmarshal n q) as [[] q']; simpl; [done|..]; by eapply Ha.
Qed.

Lemma failures_keep_events_witness :
  kv_view (pq_db (PushBatch text_marshal [Some "a"] (with_faults [false; true] fresh_queue)).2)
  = ∅.
Proof.
  exact (proj1 (failures_keep_events text_marshal text_unmarshal
    (with_faults [false; true] fresh_queue) [Some "a"] 0%Z) eq_refl).
Defined.

(** A push goes on after the tail counter could not be read, as if the
    queue were empty: it succeeds, stores its event under the first key again
    and resets the tail, so that both stored events are gone. *)
Theorem push_after_failed_read_overwrites :
  let q := (PushBatch text_marshal [Some "a"; Some "b"] fresh_queue).2 in
  let q' := (PushBatch text_marshal [Some "c"] (with_faults [true] q)).2 in
  pebble_contents text_unmarshal q = [Some "a"; Some "b"] ∧
  (PushBatch text_marshal [Some "c"] (with_faults [true] q)).1 = Ok tt ∧
  pebble_contents text_unmarshal q' = [Some "c"].
Proof. vm_compute. done. Qed.
