(* ===== verification/Store.v ===== *)
(** * The database (internal/db, migrations/sqlite)

    The tables of the SQLite schema as lists of rows in insertion order, with
    the counters of the AUTOINCREMENT keys, and the statement level of
    database/sql: one call runs one statement, which may fail, and a
    transaction that does not commit restores the tables.

    - A JSON column holds the value whose text it would be; decoding is the
      identity where the types agree.
    - Foreign keys are declared but SQLite does not enforce them unless it is
      told to, and it is not; the UNIQUE constraints are enforced.
    - A query without ORDER BY yields rows in insertion order, a join nests its
      loops in the order of its FROM clause.
    - A time is a number of seconds; text in the format the code uses compares
      like the number.  [st_zone] is the offset of local time. *)

From S2P Require Import Prelude Api.

(** ** Rows *)

Record DagRow := mkDagRow {
  d_dag_id : Z;
  d_name : string;
  d_version : Z;
  d_hash : string;
  d_schedule : string;
  d_namespace : string;
  d_active : bool;
  d_taskCount : Z;
  d_nexttime : option Z;
  d_webhookUrl : string;
  d_sslVerification : bool;
  d_workspaceEnabled : option bool;
  d_suspended : bool
}.

Record WorkspaceRow := mkWorkspaceRow {
  wk_id : Z;
  wk_dag_id : Z;
  wk_pvc : PVC
}.

Record DagParameterRow := mkDagParameterRow {
  dpr_parameter_id : Z;
  dpr_dag_id : Z;
  dpr_name : string;
  dpr_isSecret : bool;
  dpr_defaultValue : string
}.

Record TaskRow := mkTaskRow {
  tk_task_id : Z;
  tk_name : string;
  tk_command : list string;
  tk_args : list string;
  tk_image : string;
  tk_parameters : list string;
  tk_backoffLimit : Z;
  tk_isConditional : bool;
  tk_podTemplate : option PodTemplateSpec;
  tk_retryCodes : list Z;
  tk_script : string;
  tk_scriptInjectorImage : string;
  tk_inline : bool;
  tk_namespace : string;
  tk_version : Z;
  tk_hash : option string
}.

Record DagTaskRow := mkDagTaskRow {
  dt_dag_task_id : Z;
  dt_dag_id : Z;
  dt_task_id : Z;
  dt_name : string;
  dt_version : Z
}.

Record DependencyRow := mkDependencyRow {
  dep_task_id : Z;
  dep_depends_on : Z
}.

Record RunRow := mkRunRow {
  r_run_id : Z;
  r_name : string;
  r_dag_id : Z;
  r_status : string;
  r_successfulCount : Z;
  r_failedCount : Z;
  r_suspendedCount : Z;
  r_run_time : Z;
  r_pvcName : option string
}.

Record RunParameterRow := mkRunParameterRow {
  rpr_param_id : Z;
  rpr_run_id : Z;
  rpr_name : string;
  rpr_value : string;
  rpr_isSecret : bool
}.

Record TaskRunRow := mkTaskRunRow {
  trn_task_run_id : Z;
  trn_run_id : Z;
  trn_task_id : Z;
  trn_status : string;
  trn_attempts : Z;
  trn_claimed_by : option string;
  trn_claimed_at : option Z;
  trn_lease_expires_at : option Z;
  trn_scheduled_start : option Z;
  trn_retry_env : option string
}.

Record PodRow := mkPodRow {
  pod_Pod_UID : string;
  pod_task_run_id : Z;
  pod_exitCode : option Z;
  pod_name : string;
  pod_status : string;
  pod_namespace : string;
  pod_updated_at : Z;
  pod_duration : option Z
}.

Record Tables := mkTables {
  tb_IdTable : list string;
  tb_DAGs : list DagRow;
  tb_DAG_Workspaces : list WorkspaceRow;
  tb_DAG_Parameters : list DagParameterRow;
  tb_Tasks : list TaskRow;
  tb_DAG_Tasks : list DagTaskRow;
  tb_Dependencies : list DependencyRow;
  tb_DAG_Runs : list RunRow;
  tb_DAG_Run_Parameters : list RunParameterRow;
  tb_Task_Runs : list TaskRunRow;
  tb_Task_Pods : list PodRow;
  (** the last key given out, per table *)
  sq_DAGs : Z;
  sq_DAG_Workspaces : Z;
  sq_DAG_Parameters : Z;
  sq_Tasks : Z;
  sq_DAG_Tasks : Z;
  sq_DAG_Runs : Z;
  sq_DAG_Run_Parameters : Z;
  sq_Task_Runs : Z
}.

Definition emptyTables : Tables :=
  mkTables [] [] [] [] [] [] [] [] [] [] [] 0 0 0 0 0 0 0 0.

(** Setters, one per table, and the new row with its key. *)
Definition set_IdTable l t := mkTables l (tb_DAGs t) (tb_DAG_Workspaces t)
  (tb_DAG_Parameters t) (tb_Tasks t) (tb_DAG_Tasks t) (tb_Dependencies t) (tb_DAG_Runs t)
  (tb_DAG_Run_Parameters t) (tb_Task_Runs t) (tb_Task_Pods t) (sq_DAGs t) (sq_DAG_Workspaces t)
  (sq_DAG_Parameters t) (sq_Tasks t) (sq_DAG_Tasks t) (sq_DAG_Runs t) (sq_DAG_Run_Parameters t)
  (sq_Task_Runs t).
Definition set_DAGs l n t := mkTables (tb_IdTable t) l (tb_DAG_Workspaces t)
  (tb_DAG_Parameters t) (tb_Tasks t) (tb_DAG_Tasks t) (tb_Dependencies t) (tb_DAG_Runs t)
  (tb_DAG_Run_Parameters t) (tb_Task_Runs t) (tb_Task_Pods t) n (sq_DAG_Workspaces t)
  (sq_DAG_Parameters t) (sq_Tasks t) (sq_DAG_Tasks t) (sq_DAG_Runs t) (sq_DAG_Run_Parameters t)
  (sq_Task_Runs t).
Definition set_DAG_Workspaces l n t := mkTables (tb_IdTable t) (tb_DAGs t) l
  (tb_DAG_Parameters t) (tb_Tasks t) (tb_DAG_Tasks t) (tb_Dependencies t) (tb_DAG_Runs t)
  (tb_DAG_Run_Parameters t) (tb_Task_Runs t) (tb_Task_Pods t) (sq_DAGs t) n
  (sq_DAG_Parameters t) (sq_Tasks t) (sq_DAG_Tasks t) (sq_DAG_Runs t) (sq_DAG_Run_Parameters t)
  (sq_Task_Runs t).
Definition set_DAG_Parameters l n t := mkTables (tb_IdTable t) (tb_DAGs t)
  (tb_DAG_Workspaces t) l (tb_Tasks t) (tb_DAG_Tasks t) (tb_Dependencies t) (tb_DAG_Runs t)
  (tb_DAG_Run_Parameters t) (tb_Task_Runs t) (tb_Task_Pods t) (sq_DAGs t) (sq_DAG_Workspaces t)
  n (sq_Tasks t) (sq_DAG_Tasks t) (sq_DAG_Runs t) (sq_DAG_Run_Parameters t) (sq_Task_Runs t).
Definition set_Tasks l n t := mkTables (tb_IdTable t) (tb_DAGs t) (tb_DAG_Workspaces t)
  (tb_DAG_Parameters t) l (tb_DAG_Tasks t) (tb_Dependencies t) (tb_DAG_Runs t)
  (tb_DAG_Run_Parameters t) (tb_Task_Runs t) (tb_Task_Pods t) (sq_DAGs t) (sq_DAG_Workspaces t)
  (sq_DAG_Parameters t) n (sq_DAG_Tasks t) (sq_DAG_Runs t) (sq_DAG_Run_Parameters t)
  (sq_Task_Runs t).
Definition set_DAG_Tasks l n t := mkTables (tb_IdTable t) (tb_DAGs t) (tb_DAG_Workspaces t)
  (tb_DAG_Parameters t) (tb_Tasks t) l (tb_Dependencies t) (tb_DAG_Runs t)
  (tb_DAG_Run_Parameters t) (tb_Task_Runs t) (tb_Task_Pods t) (sq_DAGs t) (sq_DAG_Workspaces t)
  (sq_DAG_Parameters t) (sq_Tasks t) n (sq_DAG_Runs t) (sq_DAG_Run_Parameters t)
  (sq_Task_Runs t).
Definition set_Dependencies l t := mkTables (tb_IdTable t) (tb_DAGs t) (tb_DAG_Workspaces t)
  (tb_DAG_Parameters t) (tb_Tasks t) (tb_DAG_Tasks t) l (tb_DAG_Runs t)
  (tb_DAG_Run_Parameters t) (tb_Task_Runs t) (tb_Task_Pods t) (sq_DAGs t) (sq_DAG_Workspaces t)
  (sq_DAG_Parameters t) (sq_Tasks t) (sq_DAG_Tasks t) (sq_DAG_Runs t) (sq_DAG_Run_Parameters t)
  (sq_Task_Runs t).
Definition set_DAG_Runs l n t := mkTables (tb_IdTable t) (tb_DAGs t) (tb_DAG_Workspaces t)
  (tb_DAG_Parameters t) (tb_Tasks t) (tb_DAG_Tasks t) (tb_Dependencies t) l
  (tb_DAG_Run_Parameters t) (tb_Task_Runs t) (tb_Task_Pods t) (sq_DAGs t) (sq_DAG_Workspaces t)
  (sq_DAG_Parameters t) (sq_Tasks t) (sq_DAG_Tasks t) n (sq_DAG_Run_Parameters t)
  (sq_Task_Runs t).
Definition set_DAG_Run_Parameters l n t := mkTables (tb_IdTable t) (tb_DAGs t)
  (tb_DAG_Workspaces t) (tb_DAG_Parameters t) (tb_Tasks t) (tb_DAG_Tasks t) (tb_Dependencies t)
  (tb_DAG_Runs t) l (tb_Task_Runs t) (tb_Task_Pods t) (sq_DAGs t) (sq_DAG_Workspaces t)
  (sq_DAG_Parameters t) (sq_Tasks t) (sq_DAG_Tasks t) (sq_DAG_Runs t) n (sq_Task_Runs t).
Definition set_Task_Runs l n t := mkTables (tb_IdTable t) (tb_DAGs t) (tb_DAG_Workspaces t)
  (tb_DAG_Parameters t) (tb_Tasks t) (tb_DAG_Tasks t) (tb_Dependencies t) (tb_DAG_Runs t)
  (tb_DAG_Run_Parameters t) l (tb_Task_Pods t) (sq_DAGs t) (sq_DAG_Workspaces t)
  (sq_DAG_Parameters t) (sq_Tasks t) (sq_DAG_Tasks t) (sq_DAG_Runs t) (sq_DAG_Run_Parameters t)
  n.
Definition set_Task_Pods l t := mkTables (tb_IdTable t) (tb_DAGs t) (tb_DAG_Workspaces t)
  (tb_DAG_Parameters t) (tb_Tasks t) (tb_DAG_Tasks t) (tb_Dependencies t) (tb_DAG_Runs t)
  (tb_DAG_Run_Parameters t) (tb_Task_Runs t) l (sq_DAGs t) (sq_DAG_Workspaces t)
  (sq_DAG_Parameters t) (sq_Tasks t) (sq_DAG_Tasks t) (sq_DAG_Runs t) (sq_DAG_Run_Parameters t)
  (sq_Task_Runs t).

(** A new row under the next key. *)
Definition add_DAG (r : Z → DagRow) t :=
  set_DAGs (tb_DAGs t ++ [r (sq_DAGs t + 1)%Z]) (sq_DAGs t + 1) t.
Definition add_DAG_Workspace (r : Z → WorkspaceRow) t :=
  set_DAG_Workspaces (tb_DAG_Workspaces t ++ [r (sq_DAG_Workspaces t + 1)%Z])
    (sq_DAG_Workspaces t + 1) t.
Definition add_DAG_Parameter (r : Z → DagParameterRow) t :=
  set_DAG_Parameters (tb_DAG_Parameters t ++ [r (sq_DAG_Parameters t + 1)%Z])
    (sq_DAG_Parameters t + 1) t.
Definition add_Task (r : Z → TaskRow) t :=
  set_Tasks (tb_Tasks t ++ [r (sq_Tasks t + 1)%Z]) (sq_Tasks t + 1) t.
Definition add_DAG_Task (r : Z → DagTaskRow) t :=
  set_DAG_Tasks (tb_DAG_Tasks t ++ [r (sq_DAG_Tasks t + 1)%Z]) (sq_DAG_Tasks t + 1) t.
Definition add_Dependency (r : DependencyRow) t :=
  set_Dependencies (tb_Dependencies t ++ [r]) t.
Definition add_DAG_Run (r : Z → RunRow) t :=
  set_DAG_Runs (tb_DAG_Runs t ++ [r (sq_DAG_Runs t + 1)%Z]) (sq_DAG_Runs t + 1) t.
Definition add_DAG_Run_Parameter (r : Z → RunParameterRow) t :=
  set_DAG_Run_Parameters (tb_DAG_Run_Parameters t ++ [r (sq_DAG_Run_Parameters t + 1)%Z])
    (sq_DAG_Run_Parameters t + 1) t.
Definition add_Task_Run (r : Z → TaskRunRow) t :=
  set_Task_Runs (tb_Task_Runs t ++ [r (sq_Task_Runs t + 1)%Z]) (sq_Task_Runs t + 1) t.
Definition add_Task_Pod (r : PodRow) t := set_Task_Pods (tb_Task_Pods t ++ [r]) t.

(** Updates in place keep the counter. *)
Definition upd_DAGs (p : DagRow → bool) f t := set_DAGs (update_where p f (tb_DAGs t)) (sq_DAGs t) t.
Definition upd_DAG_Runs (p : RunRow → bool) f t :=
  set_DAG_Runs (update_where p f (tb_DAG_Runs t)) (sq_DAG_Runs t) t.
Definition upd_Task_Runs (p : TaskRunRow → bool) f t :=
  set_Task_Runs (update_where p f (tb_Task_Runs t)) (sq_Task_Runs t) t.
Definition upd_Task_Pods (p : PodRow → bool) f t :=
  set_Task_Pods (update_where p f (tb_Task_Pods t)) t.

(** [DELETE FROM]: the rows that satisfy the test go. *)
Definition except {A} (p : A → bool) (l : list A) : list A := where_ (λ x, negb (p x)) l.

(** ** Statements *)

Record Store := mkStore {
  st_tables : Tables;
  st_faults : list bool;
  st_now : Z;
  st_zone : Z;
  st_uuids : nat
}.

Definition set_tables (t : Tables) (s : Store) : Store :=
  mkStore t (st_faults s) (st_now s) (st_zone s) (st_uuids s).

(** A statement consumes one entry of the fault schedule; past its end none
    fails. *)
Definition stmt : M Store unit := λ s,
  let s' := mkStore (st_tables s) (tail (st_faults s)) (st_now s) (st_zone s) (st_uuids s) in
  if default false (head (st_faults s)) then (Err EDriver, s') else (Ok tt, s').

Definition query {A} (f : Tables → A) : M Store A :=
  stmt ≫= λ _, gets (λ s, f (st_tables s)).

(** [QueryRow(...).Scan(...)]: the first row, or [sql.ErrNoRows]. *)
Definition query_row {A} (f : Tables → list A) : M Store A :=
  query f ≫= λ rows, match rows with [] => throw ENoRows | x :: _ => mret x end.

Definition exec (f : Tables → Tables) : M Store unit :=
  stmt ≫= λ _, modify (λ s, set_tables (f (st_tables s)) s).

(** An INSERT: it fails when a row with the same unique key is there. *)
Definition insert (table : string) (clash : Tables → bool) (f : Tables → Tables)
    : M Store unit :=
  stmt ≫= λ _, gets (λ s, clash (st_tables s)) ≫= λ b,
  if b : bool then throw (EConstraint table) else modify (λ s, set_tables (f (st_tables s)) s).

(** An INSERT that returns the key it gave out ([RETURNING]). *)
Definition insert_ret (table : string) (clash : Tables → bool) (f : Tables → Tables)
    (key : Tables → Z) : M Store Z :=
  insert table clash f ≫= λ _, gets (λ s, key (st_tables s)).

(** An INSERT into a table without a unique key of its own. *)
Definition never : Tables → bool := λ _, false.

(** [Exec] with its [RowsAffected]. *)
Definition exec_count (n : Tables → Z) (f : Tables → Tables) : M Store Z :=
  stmt ≫= λ _, gets (λ s, n (st_tables s)) ≫= λ k,
  modify (λ s, set_tables (f (st_tables s)) s) ≫= λ _, mret k.

(** [BeginTx], the body, [Commit]; the deferred [Rollback] restores the tables
    when the body or the commit fails. *)
Definition in_tx {A} (onBegin onCommit : GoError → GoError) (body : M Store A) : M Store A := λ s,
  match stmt s with
  | (Err e, s0) => (Err (onBegin e), s0)
  | (Ok _, s0) =>
      match body s0 with
      | (Err e, s1) => (Err e, set_tables (st_tables s0) s1)
      | (Ok a, s1) =>
          match stmt s1 with
          | (Err e, s2) => (Err (onCommit e), set_tables (st_tables s0) s2)
          | (Ok _, s2) => (Ok a, s2)
          end
      end
  end.

Definition plain_tx {A} : M Store A → M Store A := in_tx id id.

(** [withTx] wraps the errors of begin and commit. *)
Definition withTx {A} : M Store A → M Store A :=
  in_tx (EWrap "begin transaction") (EWrap "commit transaction").

(** [uuid.New().String()] yields the texts of a given sequence. *)
Definition new_uuid (uuid : nat → string) : M Store string := λ s,
  (Ok (uuid (st_uuids s)),
   mkStore (st_tables s) (st_faults s) (st_now s) (st_zone s) (S (st_uuids s))).

(** ** What a computation may do to the tables *)

Definition keeps (I : Tables → Prop) {A} (m : M Store A) : Prop :=
  ∀ s, I (st_tables s) → I (st_tables (m s).2).

Definition reads {A} (m : M Store A) : Prop := ∀ s, st_tables (m s).2 = st_tables s.

(** An error leaves the tables as they were. *)
Definition atomic {A} (m : M Store A) : Prop :=
  ∀ s, is_ok (m s).1 = false → st_tables (m s).2 = st_tables s.

Definition nofault (s : Store) : Prop := st_faults s = [].

Create HintDb store.

Section logic.
Context {A B : Type}.

Lemma stmt_tables s : st_tables (stmt s).2 = st_tables s.
Proof. unfold stmt. by destruct (default _ _). Qed.

Lemma reads_stmt : reads stmt.
Proof. exact stmt_tables. Qed.

Lemma reads_ret (a : A) : reads (mret a).
Proof. done. Qed.

Lemma reads_throw e : reads (throw e : M Store A).
Proof. done. Qed.

Lemma reads_gets (f : Store → A) : reads (gets f).
Proof. done. Qed.

Lemma reads_bind (m : M Store A) (f : A → M Store B) :
  reads m → (∀ a, reads (f a)) → reads (m ≫= f).
Proof.
  intros Hm Hf s. unfold mbind, M_bind. specialize (Hm s).
  destruct (m s) as [[a|e] s']; simpl in *; [|done]. by rewrite (Hf a s').
Qed.

Lemma reads_try (m : M Store A) : reads m → reads (try m).
Proof. intros Hm s. specialize (Hm s). unfold try. by destruct (m s). Qed.

Lemma reads_uuid u : reads (new_uuid u).
Proof. done. Qed.

Lemma keeps_reads I (m : M Store A) : reads m → keeps I m.
Proof. intros Hm s. by rewrite (Hm s). Qed.

Lemma keeps_bind I (m : M Store A) (f : A → M Store B) :
  keeps I m → (∀ a, keeps I (f a)) → keeps I (m ≫= f).
Proof.
  intros Hm Hf s HI. unfold mbind, M_bind. specialize (Hm s HI).
  destruct (m s) as [[a|e] s']; simpl in *; [|done]. by apply Hf.
Qed.

Lemma keeps_try I (m : M Store A) : keeps I m → keeps I (try m).
Proof. intros Hm s HI. specialize (Hm s HI). unfold try. by destruct (m s). Qed.

Lemma keeps_in_tx I ob oc (m : M Store A) : keeps I m → keeps I (in_tx ob oc m).
Proof.
  intros Hm s HI. unfold in_tx. pose proof (stmt_tables s) as Hs.
  destruct (stmt s) as [[[]|e] s0]; simpl in *; [|by rewrite Hs].
  rewrite <- Hs in HI. specialize (Hm s0 HI).
  destruct (m s0) as [[a|e] s1]; simpl in *; [|done].
  pose proof (stmt_tables s1) as Hs1.
  destruct (stmt s1) as [[[]|e] s2]; simpl in *; [by rewrite Hs1|done].
Qed.

Lemma atomic_reads (m : M Store A) : reads m → atomic m.
Proof. intros Hm s _. apply Hm. Qed.

Lemma atomic_in_tx ob oc (m : M Store A) : atomic (in_tx ob oc m).
Proof.
  intros s. unfold in_tx. pose proof (stmt_tables s) as Hs.
  destruct (stmt s) as [[[]|e] s0]; simpl in *; [|by rewrite Hs].
  destruct (m s0) as [[a|e] s1]; simpl in *; [|by rewrite Hs].
  destruct (stmt s1) as [[[]|e] s2]; simpl in *; [done|by rewrite Hs].
Qed.

(** Reading first keeps a computation atomic. *)
Lemma atomic_bind_read (m : M Store A) (f : A → M Store B) :
  reads m → (∀ a, atomic (f a)) → atomic (m ≫= f).
Proof.
  intros Hm Hf s. unfold mbind, M_bind. specialize (Hm s).
  destruct (m s) as [[a|e] s']; simpl in *; [|done]. rewrite <- Hm. apply Hf.
Qed.

(** So does computing a value after the last write. *)
Lemma atomic_bind_ret (m : M Store A) (f : A → B) : atomic m → atomic (m ≫= λ a, mret (f a)).
Proof.
  intros Hm s. unfold mbind, M_bind. specialize (Hm s).
  by destruct (m s) as [[a|e] s'].
Qed.

End logic.

Lemma keeps_foreach {B} I (f : B → M Store unit) l :
  (∀ x, keeps I (f x)) → keeps I (foreach f l).
Proof.
  intros Hf. induction l as [|x l IH]; simpl; [by intros s|].
  apply (keeps_bind I (f x)); [done|]. intros _. exact IH.
Qed.

Lemma reads_query {A} (f : Tables → A) : reads (query f).
Proof. apply reads_bind; [apply reads_stmt|]. intros _. apply reads_gets. Qed.

Lemma reads_query_row {A} (f : Tables → list A) : reads (query_row f).
Proof. apply reads_bind; [apply reads_query|]. intros []; done. Qed.

Lemma keeps_exec (I : Tables → Prop) f : (∀ t, I t → I (f t)) → keeps I (exec f).
Proof.
  intros Hf. apply keeps_bind; [apply keeps_reads, reads_stmt|].
  intros _ s HI. simpl. auto.
Qed.

Lemma keeps_exec_count (I : Tables → Prop) n f : (∀ t, I t → I (f t)) → keeps I (exec_count n f).
Proof.
  intros Hf. apply keeps_bind; [apply keeps_reads, reads_stmt|].
  intros _ s HI. simpl. auto.
Qed.

Lemma keeps_insert (I : Tables → Prop) table clash f :
  (∀ t, I t → clash t = false → I (f t)) → keeps I (insert table clash f).
Proof.
  intros Hf. apply keeps_bind; [apply keeps_reads, reads_stmt|].
  intros _ s HI. unfold mbind, M_bind, gets. destruct (clash (st_tables s)) eqn:E; simpl; auto.
Qed.

Lemma atomic_exec f : atomic (exec f).
Proof. apply atomic_bind_read; [apply reads_stmt|]. by intros _ s. Qed.

Lemma atomic_exec_count n f : atomic (exec_count n f).
Proof. apply atomic_bind_read; [apply reads_stmt|]. by intros _ s. Qed.

Lemma atomic_insert table clash f : atomic (insert table clash f).
Proof.
  apply atomic_bind_read; [apply reads_stmt|].
  intros _ s. unfold mbind, M_bind, gets. by destruct (clash (st_tables s)).
Qed.

#[export] Hint Resolve reads_stmt reads_ret reads_throw reads_gets reads_try reads_uuid
  reads_query reads_query_row keeps_reads keeps_try keeps_in_tx keeps_foreach atomic_reads
  atomic_in_tx atomic_exec atomic_exec_count atomic_insert : store.

(** ** Triples on the tables, under any faults *)

Definition triple {A} (P : Tables → Prop) (m : M Store A) (Q : result A → Tables → Prop) : Prop :=
  ∀ s, P (st_tables s) → Q (m s).1 (st_tables (m s).2).

(** A postcondition for success only: a transaction undoes the rest. *)
Definition on_ok {A} (Q : A → Tables → Prop) (r : result A) (t : Tables) : Prop :=
  match r with Ok a => Q a t | Err _ => True end.

Section triples.
Context {A B : Type}.

Lemma triple_ret P (a : A) (Q : A → Tables → Prop) :
  (∀ t, P t → Q a t) → triple P (mret a) (on_ok Q).
Proof. intros H s HP. simpl. auto. Qed.

Lemma triple_throw P e (Q : A → Tables → Prop) : triple P (throw e) (on_ok Q).
Proof. done. Qed.

Lemma triple_bind P (m : M Store A) (f : A → M Store B) (R : A → Tables → Prop)
    (Q : B → Tables → Prop) :
  triple P m (on_ok R) → (∀ a, triple (R a) (f a) (on_ok Q)) → triple P (m ≫= f) (on_ok Q).
Proof.
  intros Hm Hf s HP. unfold mbind, M_bind. specialize (Hm s HP).
  destruct (m s) as [[a|e] s']; simpl in *; [|done]. by apply Hf.
Qed.

Lemma triple_weaken P P' (m : M Store A) (Q Q' : A → Tables → Prop) :
  triple P m (on_ok Q) → (∀ t, P' t → P t) → (∀ a t, Q a t → Q' a t) →
  triple P' m (on_ok Q').
Proof.
  intros Hm HP HQ s HP'. specialize (Hm s (HP _ HP')).
  destruct (m s) as [[a|e] s']; simpl in *; auto.
Qed.

Lemma triple_reads P (m : M Store A) : reads m → triple P m (on_ok (λ _ t, P t)).
Proof.
  intros Hm s HP. specialize (Hm s). destruct (m s) as [[a|e] s']; simpl in *; [|done].
  by rewrite Hm.
Qed.

Lemma triple_keeps P (m : M Store A) : keeps P m → triple P m (on_ok (λ _ t, P t)).
Proof.
  intros Hm s HP. specialize (Hm s HP). by destruct (m s) as [[a|e] s'].
Qed.

(** A caller that looks at the error of a read. *)
Lemma triple_try_read P (m : M Store A) (Q : A → Tables → Prop) :
  reads m → triple P m (on_ok Q) →
  triple P (try m) (on_ok (λ r t, match r with Ok a => Q a t | Err _ => P t end)).
Proof.
  intros Hr Hm s HP. specialize (Hr s). specialize (Hm s HP). unfold try.
  destruct (m s) as [[a|e] s']; simpl in *; [done|]. by rewrite Hr.
Qed.

Lemma triple_in_tx ob oc (m : M Store A) P (Q : A → Tables → Prop) :
  triple P m (on_ok Q) → triple P (in_tx ob oc m) (on_ok Q).
Proof.
  intros Hm s HP. unfold in_tx. pose proof (stmt_tables s) as Hs.
  destruct (stmt s) as [[[]|e] s0]; simpl in *; [|done].
  rewrite <- Hs in HP. specialize (Hm s0 HP).
  destruct (m s0) as [[a|e] s1]; simpl in *; [|done].
  pose proof (stmt_tables s1) as Hs1.
  destruct (stmt s1) as [[[]|e] s2]; simpl in *; [by rewrite Hs1|done].
Qed.

(** Success keeps the invariant, failure keeps the tables. *)
Lemma keeps_tx I ob oc (m : M Store A) :
  triple I m (on_ok (λ _ t, I t)) → keeps I (in_tx ob oc m).
Proof.
  intros Hm s HI. pose proof (triple_in_tx ob oc m _ _ Hm s HI) as H.
  pose proof (atomic_in_tx ob oc m s) as Ha.
  destruct (in_tx ob oc m s) as [[a|e] s']; simpl in *; [done|]. by rewrite Ha.
Qed.

End triples.

Lemma triple_query {A} P (f : Tables → A) (Q : A → Tables → Prop) :
  (∀ t, P t → Q (f t) t) → triple P (query f) (on_ok Q).
Proof.
  intros HQ s HP. unfold query, mbind, M_bind. pose proof (stmt_tables s) as Hs.
  destruct (stmt s) as [[[]|e] s']; simpl in *; [|done]. rewrite Hs. auto.
Qed.

Lemma triple_query_row {A} P (f : Tables → list A) (Q : A → Tables → Prop) :
  (∀ t x l, P t → f t = x :: l → Q x t) → triple P (query_row f) (on_ok Q).
Proof.
  intros HQ. unfold query_row.
  apply (triple_bind _ _ _ (λ rows t, P t ∧ f t = rows)); [by apply triple_query|].
  intros [|x l]; [apply triple_throw|]. apply triple_ret. intros t [HP Hf]. eauto.
Qed.

Lemma triple_exec P (f : Tables → Tables) (Q : unit → Tables → Prop) :
  (∀ t, P t → Q tt (f t)) → triple P (exec f) (on_ok Q).
Proof.
  intros HQ s HP. unfold exec, mbind, M_bind. pose proof (stmt_tables s) as Hs.
  destruct (stmt s) as [[[]|e] s']; simpl in *; [|done]. rewrite Hs. auto.
Qed.

Lemma triple_insert P table (clash : Tables → bool) (f : Tables → Tables)
    (Q : unit → Tables → Prop) :
  (∀ t, P t → clash t = false → Q tt (f t)) → triple P (insert table clash f) (on_ok Q).
Proof.
  intros HQ s HP. unfold insert, mbind, M_bind, gets. pose proof (stmt_tables s) as Hs.
  destruct (stmt s) as [[[]|e] s']; simpl in *; [|done]. rewrite Hs.
  destruct (clash (st_tables s)) eqn:E; simpl; [done|]. rewrite Hs. auto.
Qed.

Lemma triple_insert_ret P table (clash : Tables → bool) (f : Tables → Tables) (key : Tables → Z)
    (Q : Z → Tables → Prop) :
  (∀ t, P t → clash t = false → Q (key (f t)) (f t)) →
  triple P (insert_ret table clash f key) (on_ok Q).
Proof.
  intros HQ. unfold insert_ret.
  apply (triple_bind _ _ _ (λ _ t', ∃ t, P t ∧ clash t = false ∧ t' = f t)).
  - apply triple_insert. intros t HP Hc. by exists t.
  - intros _ s (t & HP & Hc & Hs). simpl. rewrite Hs. auto.
Qed.

(** A loop whose invariant talks about what is left. *)
Lemma triple_foreach {B} (I : list B → Tables → Prop) (f : B → M Store unit) l :
  (∀ x rest, x ∈ l → triple (I (x :: rest)) (f x) (on_ok (λ _ t, I rest t))) →
  triple (I l) (foreach f l) (on_ok (λ _ t, I [] t)).
Proof.
  induction l as [|x l IH]; intros Hf; simpl; [by apply triple_ret|].
  eapply triple_bind; [apply Hf; left|]. intros []. apply IH.
  intros y rest Hy. apply Hf. by right.
Qed.

(** ** Without faults *)

Lemma wp_stmt_nofault s (Q : result unit → Store → Prop) :
  nofault s → Q (Ok tt) s → wp stmt s Q.
Proof. unfold nofault, wp, stmt. destruct s; simpl. by intros ->. Qed.

Lemma wp_query_nofault {A} (f : Tables → A) s (Q : result A → Store → Prop) :
  nofault s → Q (Ok (f (st_tables s))) s → wp (query f) s Q.
Proof. intros Hn HQ. apply wp_bind, wp_stmt_nofault; done. Qed.

Lemma wp_query_row_nofault {A} (f : Tables → list A) s (Q : result A → Store → Prop) :
  nofault s →
  match f (st_tables s) with [] => Q (Err ENoRows) s | x :: _ => Q (Ok x) s end →
  wp (query_row f) s Q.
Proof.
  intros Hn HQ. apply wp_bind, wp_query_nofault; [done|]. simpl.
  destruct (f (st_tables s)); [by apply wp_throw | by apply wp_ret].
Qed.

Lemma wp_exec_nofault (f : Tables → Tables) s (Q : result unit → Store → Prop) :
  nofault s → Q (Ok tt) (set_tables (f (st_tables s)) s) → wp (exec f) s Q.
Proof. intros Hn HQ. apply wp_bind, wp_stmt_nofault; done. Qed.

Lemma wp_exec_count_nofault (n : Tables → Z) (f : Tables → Tables) s (Q : result Z → Store → Prop) :
  nofault s → Q (Ok (n (st_tables s))) (set_tables (f (st_tables s)) s) →
  wp (exec_count n f) s Q.
Proof. intros Hn HQ. apply wp_bind, wp_stmt_nofault; done. Qed.

Lemma wp_insert_nofault table (clash : Tables → bool) (f : Tables → Tables) s (Q : result unit → Store → Prop) :
  nofault s →
  (if clash (st_tables s) then Q (Err (EConstraint table)) s
   else Q (Ok tt) (set_tables (f (st_tables s)) s)) →
  wp (insert table clash f) s Q.
Proof.
  intros Hn HQ. apply wp_bind, wp_stmt_nofault; [done|]. unfold wp, mbind, M_bind, gets.
  by destruct (clash (st_tables s)).
Qed.

Lemma wp_in_tx_nofault {A} ob oc (m : M Store A) s (Q : result A → Store → Prop) :
  nofault s →
  wp m s (λ r s', match r with
                  | Ok a => nofault s' ∧ Q (Ok a) s'
                  | Err e => Q (Err e) (set_tables (st_tables s) s')
                  end) →
  wp (in_tx ob oc m) s Q.
Proof.
  intros Hn. unfold wp, in_tx. assert (stmt s = (Ok tt, s)) as ->.
  { unfold stmt, nofault in *. destruct s; simpl in *. by subst. }
  destruct (m s) as [[a|e] s']; simpl; [|done]. intros [Hn' HQ].
  assert (stmt s' = (Ok tt, s')) as ->; [|done].
  unfold stmt, nofault in *. destruct s'; simpl in *. by subst.
Qed.

Lemma nofault_set_tables t s : nofault (set_tables t s) ↔ nofault s.
Proof. done. Qed.

#[export] Hint Resolve wp_query_nofault wp_query_row_nofault wp_exec_nofault
  wp_exec_count_nofault wp_insert_nofault wp_in_tx_nofault : wp.

(** Step through the reads and the control flow of a database operation. *)
Ltac db_keeps :=
  repeat first
    [ apply keeps_in_tx | apply keeps_foreach; intros ? | apply keeps_exec
    | apply keeps_exec_count | apply keeps_insert
    | apply keeps_bind; [|intros ?]
    | solve [auto with store]
    | progress case_match ].
