(* ===== verification/SqliteDag.v ===== *)
(** * DAG definitions in the database (internal/db/sqliteManager.go)

    The operations of [sqliteDAGManager] that read and write DAGs, tasks and
    their dependencies.  The cron library, the digest of a spec (JSON and
    SHA-256), the UUIDs and the comparison of a stored start time with the
    clock belong to libraries: they are the fields of [DbEnv]. *)

From S2P Require Import Prelude Api Store DagValidation.
Local Open Scope kontroler_scope.

Record DbEnv := mkDbEnv {
  (** [cron.Parser.Parse], and [Schedule.Next] of its result *)
  cron_Parse : string → result (Z → Z);
  (** the hexadecimal SHA-256 of the JSON text *)
  digest_dag : DAGSpec → result string;
  digest_task : DagTaskSpec → result string;
  uuid_New : nat → string;
  (** [nexttime <= ?]: the stored time against the argument's text *)
  is_due : Z → Z → bool
}.

(** The error [pgx.ErrNoRows]: not the value [sql.ErrNoRows] that database/sql
    returns. *)
Definition pgx_ErrNoRows : GoError := EErrorf "no rows in result set".

Record DagInfo := mkDagInfo {
  di_DagId : Z;
  di_DagName : string;
  di_Namespace : string;
  di_WorkspaceEnabled : bool;
  di_WebhookUrl : string;
  di_SSLVerification : bool
}.

Module DagDb.

(** [if err == sql.ErrNoRows] on a [QueryRow]: the variables keep their zero
    values. *)
Definition row_or {A} (dflt : A) (m : M Store A) : M Store A :=
  try m ≫= λ r, match r with
                | Ok a => mret a
                | Err ENoRows => mret dflt
                | Err e => throw e
                end.

(** [if err != nil { return err }] of a pure call. *)
Definition lift {A} (r : result A) : M Store A :=
  match r with Ok a => mret a | Err e => throw e end.

Section operations.
Context (env : DbEnv).

(** ** Identity *)

Definition GetID : M Store string :=
  try (query_row tb_IdTable) ≫= λ r,
  match r with
  | Ok uniqueID => mret uniqueID
  | Err ENoRows =>
      newUUID ← new_uuid (uuid_New env);
      try (insert "IdTable" (λ t, bool_decide (newUUID ∈ tb_IdTable t))
             (λ t, set_IdTable (tb_IdTable t ++ [newUUID]) t)) ≫= λ r,
      match r with
      | Ok _ => mret newUUID
      | Err e => throw (EWrap "failed to insert new unique_id" e)
      end
  | Err e => throw (EWrap "failed to query IdTable" e)
  end.

(** ** Helpers (helpers.go) *)

Definition getTaskVersion (task : TaskSpec) : Z :=
  match ts_TaskRef task with Some ref => tr_Version ref | None => 1%Z end.

Definition hashDagSpec (s : DAGSpec) : result string :=
  digest_dag env (mkDAGSpec (ds_Schedule s) (ds_Task s) (ds_Parameters s) (ds_Webhook s)
                    (ds_Workspace s) false (ds_DSL s)).

(** ** Starting the DAGs that are due *)

Definition set_nexttime (n : Z) (d : DagRow) : DagRow :=
  mkDagRow (d_dag_id d) (d_name d) (d_version d) (d_hash d) (d_schedule d) (d_namespace d)
    (d_active d) (d_taskCount d) (Some n) (d_webhookUrl d) (d_sslVerification d)
    (d_workspaceEnabled d) (d_suspended d).

Definition dag_due (tm : Z) (d : DagRow) : bool :=
  match d_nexttime d with Some n => is_due env n tm | None => false end
  && negb (d_schedule d =b "") && d_active d && negb (d_suspended d).

(** The other fields keep their zero values. *)
Definition dag_info (d : DagRow) : DagInfo :=
  mkDagInfo 0 (d_name d) (d_namespace d) (default false (d_workspaceEnabled d)) "" false.

Definition GetDAGsToStartAndUpdate (tm : Z) : M Store (list DagInfo) :=
  plain_tx (
    rows ← query (λ t, where_ (dag_due tm) (tb_DAGs t));
    foreach (λ d : DagRow,
      sched ← lift (cron_Parse env (d_schedule d));
      now ← gets st_now;
      exec (upd_DAGs (λ d', d_dag_id d' =b d_dag_id d) (set_nexttime (sched now)))) rows ≫= λ _,
    mret (dag_info <$> rows)).

(** ** Inserting a DAG *)

Definition set_active (b : bool) (d : DagRow) : DagRow :=
  mkDagRow (d_dag_id d) (d_name d) (d_version d) (d_hash d) (d_schedule d) (d_namespace d)
    b (d_taskCount d) (d_nexttime d) (d_webhookUrl d) (d_sslVerification d)
    (d_workspaceEnabled d) (d_suspended d).

Definition set_suspended (b : bool) (d : DagRow) : DagRow :=
  mkDagRow (d_dag_id d) (d_name d) (d_version d) (d_hash d) (d_schedule d) (d_namespace d)
    (d_active d) (d_taskCount d) (d_nexttime d) (d_webhookUrl d) (d_sslVerification d)
    (d_workspaceEnabled d) b.

(** [name = ? AND namespace = ?] *)
Definition is_dag (name namespace : string) (d : DagRow) : bool :=
  (d_name d =b name) && (d_namespace d =b namespace).

Definition setSuspended (dagName namespace : string) (suspended : bool) : M Store unit :=
  try (exec (upd_DAGs (is_dag dagName namespace) (set_suspended suspended))) ≫= λ r,
  match r with Ok _ => mret tt | Err e => throw (EWrap "failed to set suspended" e) end.

Definition setInactive (name namespace : string) (prevVersion : Z) : M Store unit :=
  exec (upd_DAGs (λ d, is_dag name namespace d && (d_version d =b prevVersion))
          (set_active false)).

Definition insertWorkspace (dagID : Z) (workspace : PVC) : M Store unit :=
  insert "DAG_Workspaces" never (add_DAG_Workspace (λ k, mkWorkspaceRow k dagID workspace)).

(** UNIQUE(name, version, namespace) of Tasks. *)
Definition task_clash (name : string) (version : Z) (namespace : string) (t : Tables) : bool :=
  existsb (λ k, (tk_name k =b name) && (tk_version k =b version)
                && (tk_namespace k =b namespace)) (tb_Tasks t).

Definition insertTask (dagID : Z) (task : TaskSpec) (namespace : string) (version : Z)
    : M Store unit :=
  taskId ←
    match ts_TaskRef task with
    | Some ref =>
        query_row (λ t, tk_task_id <$>
          where_ (λ k, (tk_name k =b tr_Name ref) && negb (tk_inline k)
                       && (tk_version k =b tr_Version ref)) (tb_Tasks t))
    | None =>
        newUUID ← new_uuid (uuid_New env);
        insert_ret "Tasks" (task_clash newUUID version namespace)
          (add_Task (λ k, mkTaskRow k newUUID (ts_Command task) (ts_Args task) (ts_Image task)
             (ts_Parameters task) (bo_Limit (ts_Backoff task)) (co_Enabled (ts_Conditional task))
             (ts_PodTemplate task) (co_RetryCodes (ts_Conditional task)) (ts_Script task)
             (ts_ScriptInjectorImage task) true namespace version None))
          sq_Tasks
    end;
  insert "DAG_Tasks" never
    (add_DAG_Task (λ k, mkDagTaskRow k dagID taskId (ts_Name task) version)).

Definition find_dag_task (dagID : Z) (name : string) (t : Tables) : list DagTaskRow :=
  where_ (λ dt, (dt_dag_id dt =b dagID) && (dt_name dt =b name)) (tb_DAG_Tasks t).

Definition connect_dependency (dagID : Z) (task : TaskSpec) (version : Z) (dependency : string)
    : M Store unit :=
  r ← try (query_row (λ t, where_ (λ dt, dt_version dt =b version)
                             (find_dag_task dagID (ts_Name task) t)));
  match r with
  | Err _ => throw (EErrorf ("task: " +:+ ts_Name task +:+ " not found for version "
                             +:+ pretty version))
  | Ok taskRow =>
      r ← try (query_row (λ t, option_list (first_max dt_version
                                              (find_dag_task dagID dependency t))));
      match r with
      | Err e =>
          if e =b pgx_ErrNoRows
          then throw (EErrorf ("dependency task " +:+ dependency +:+ " not found for version "
                               +:+ pretty version))
          else throw e
      | Ok depRow =>
          insert "Dependencies" never
            (add_Dependency (mkDependencyRow (dt_dag_task_id taskRow) (dt_dag_task_id depRow)))
      end
  end.

Definition createDependencyConnection (dagID : Z) (task : TaskSpec) (version : Z)
    : M Store unit :=
  foreach (connect_dependency dagID task version) (ts_RunAfter task).

Definition insertParameter (dagID : Z) (parameter : DagParameterSpec) : M Store unit :=
  let isSecret := dp_DefaultValue parameter =b "" in
  let value := if negb isSecret then dp_DefaultValue parameter
               else dp_DefaultFromSecret parameter in
  insert "DAG_Parameters" never
    (add_DAG_Parameter (λ k, mkDagParameterRow k dagID (dp_Name parameter) isSecret value)).

(** UNIQUE(name, version, namespace) of DAGs. *)
Definition dag_clash (name : string) (version : Z) (namespace : string) (t : Tables) : bool :=
  existsb (λ d, is_dag name namespace d && (d_version d =b version)) (tb_DAGs t).

Definition insertDAG (dag : DAG) (version : Z) (namespace hash : string) : M Store unit :=
  let spec := dag_Spec dag in
  nextTime ←
    (if negb (ds_Schedule spec =b "") then
       sched ← lift (cron_Parse env (ds_Schedule spec));
       now ← gets st_now;
       mret (Some (sched now))
     else mret None);
  dagID ← insert_ret "DAGs" (dag_clash (dag_Name dag) version namespace)
    (add_DAG (λ k, mkDagRow k (dag_Name dag) version hash (ds_Schedule spec) namespace true
       (Z.of_nat (length (ds_Task spec))) nextTime (wh_URL (ds_Webhook spec))
       (wh_VerifySSL (ds_Webhook spec)) None (ds_Suspended spec)))
    sq_DAGs;
  (if ws_Enabled (ds_Workspace spec) then
     try (insertWorkspace dagID (ws_PvcSpec (ds_Workspace spec))) ≫= λ r,
     match r with Ok _ => mret tt | Err e => throw (EWrap "failed to insert workspace" e) end
   else mret tt) ≫= λ _,
  foreach (λ task, insertTask dagID task namespace (getTaskVersion task)) (ds_Task spec) ≫= λ _,
  foreach (λ task, createDependencyConnection dagID task (getTaskVersion task)) (ds_Task spec)
    ≫= λ _,
  foreach (insertParameter dagID) (ds_Parameters spec).

(** The latest version of a DAG, with the zero values when there is none. *)
Definition latest_dag (name namespace : string) (t : Tables) : option DagRow :=
  first_max d_version (where_ (is_dag name namespace) (tb_DAGs t)).

Definition same_dag_error : GoError := EErrorf "applying the same dag".

Definition InsertDAG (dag : DAG) (namespace : string) : M Store unit :=
  withTx (
    existing ← row_or None
      (row ← query_row (λ t, option_list (latest_dag (dag_Name dag) namespace t));
       mret (Some row));
    let '(existingDAGID, version, hash, suspended) :=
      match existing with
      | Some d => (d_dag_id d, d_version d, d_hash d, d_suspended d)
      | None => (0, 0, "", false)%Z
      end in
    hashValue ← lift (hashDagSpec (dag_Spec dag));
    if hash =b hashValue then
      if negb (suspended =b ds_Suspended (dag_Spec dag))
      then setSuspended (dag_Name dag) namespace (ds_Suspended (dag_Spec dag))
      else throw same_dag_error
    else
      let version := if negb (existingDAGID =b 0%Z) then (version + 1)%Z else version in
      insertDAG dag version namespace hashValue ≫= λ _,
      setInactive (dag_Name dag) namespace (version - 1)).

(** ** Reading DAGs *)

Definition latest_by_name (dagName : string) (t : Tables) : option DagRow :=
  first_max d_version (where_ (λ d, d_name d =b dagName) (tb_DAGs t)).

Definition dagNameToDagId (dagName : string) : M Store Z :=
  dagId ← query_row (λ t, d_dag_id <$> option_list (latest_by_name dagName t));
  if dagId =b (-1)%Z then throw (EErrorf "could not find dag") else mret dagId.

Definition GetDagParameters (dagName : string) : M Store (gmap string DbParameter) :=
  rows ← query (λ t, where_ (λ p, bool_decide (dpr_dag_id p ∈
            d_dag_id <$> option_list (latest_by_name dagName t))) (tb_DAG_Parameters t));
  mret (foldl (λ m p, <[dpr_name p :=
          mkDbParameter (dpr_name p) (dpr_isSecret p) (dpr_defaultValue p)]> m) ∅ rows).

Definition DagExists (dagName : string) : M Store (bool * Z) :=
  dagId ← row_or (-1)%Z (query_row (λ t,
            d_dag_id <$> where_ (λ d, d_name d =b dagName) (tb_DAGs t)));
  mret (negb (dagId =b (-1)%Z), dagId).

Definition GetWebhookDetails (dagRunID : Z) : M Store Webhook :=
  query_row (λ t, (λ d, mkWebhook (d_webhookUrl d) (d_sslVerification d)) <$>
    where_ (λ d, bool_decide (Some (d_dag_id d) =
              (r_dag_id <$> head (where_ (λ r, r_run_id r =b dagRunID) (tb_DAG_Runs t)))))
      (tb_DAGs t)).

(** No workspace row is not an error. *)
Definition GetWorkspacePVCTemplate (dagId : Z) : M Store (option PVC) :=
  row_or None (query_row (λ t,
    (λ w, Some (wk_pvc w)) <$> where_ (λ w, wk_dag_id w =b dagId) (tb_DAG_Workspaces t))).

(** ** Reusable tasks *)

Definition same_task_error : GoError := EErrorf "applying the same task".

Definition latest_task (name namespace : string) (t : Tables) : option TaskRow :=
  first_max tk_version
    (where_ (λ k, (tk_name k =b name) && (tk_namespace k =b namespace)) (tb_Tasks t)).

Definition AddTask (task : DagTask) (namespace : string) : M Store unit :=
  let spec := dgt_Spec task in
  plain_tx (
    existing ← row_or None
      (row ← query_row (λ t, option_list (latest_task (dgt_Name task) namespace t));
       mret (Some row));
    let version := match existing with Some k => tk_version k | None => 0%Z end in
    let hash := existing ≫= tk_hash in
    hashValue ← lift (digest_task env spec);
    if hash =b Some hashValue then throw same_task_error
    else
      let newVersion := (version + 1)%Z in
      insert "Tasks" (task_clash (dgt_Name task) newVersion namespace)
        (add_Task (λ k, mkTaskRow k (dgt_Name task) (dts_Command spec) (dts_Args spec)
           (dts_Image spec) (dts_Parameters spec) (bo_Limit (dts_Backoff spec))
           (co_Enabled (dts_Conditional spec)) (dts_PodTemplate spec)
           (co_RetryCodes (dts_Conditional spec)) (dts_Script spec)
           (dts_ScriptInjectorImage spec) false namespace newVersion (Some hashValue)))).

Definition task_ref_params (val : TaskRef) : M Store (list string) :=
  query_row (λ t, tk_parameters <$>
    where_ (λ k, (tk_name k =b tr_Name val) && (tk_version k =b tr_Version val)
                 && negb (tk_inline k)) (tb_Tasks t)).

Fixpoint GetTaskRefsParameters (taskRefs : list TaskRef) : M Store (gmap TaskRef (list string)) :=
  match taskRefs with
  | [] => mret ∅
  | val :: rest =>
      parameters ← task_ref_params val;
      taskMp ← GetTaskRefsParameters rest;
      mret (match (taskMp : gmap TaskRef (list string)) !! val with
            | Some _ => taskMp
            | None => <[val := parameters]> taskMp
            end)
  end.

Definition DeleteTask (taskName namespace : string) : M Store unit :=
  plain_tx (exec (λ t, set_Tasks
    (except (λ k, (tk_name k =b taskName) && (tk_namespace k =b namespace)
                  && negb (tk_inline k)) (tb_Tasks t)) (sq_Tasks t) t)).

Definition GetTaskScriptAndInjectorImage (taskId : Z) : M Store (string * string) :=
  query_row (λ t, (λ k, (tk_script k, tk_scriptInjectorImage k)) <$>
    where_ (λ k, bool_decide (Some (tk_task_id k) =
              (dt_task_id <$> head (where_ (λ dt, dt_dag_task_id dt =b taskId)
                                     (tb_DAG_Tasks t))))) (tb_Tasks t)).

(** ** Deleting a DAG *)

Record taskData := mkTaskData {
  td_TaskID : Z;
  td_TaskName : string;
  td_TaskNamespace : string
}.

#[export] Instance taskData_eq_dec : EqDecision taskData.
Proof. solve_decision. Defined.

Definition getTaskDeletionData (name namespace : string) : M Store (list taskData) :=
  query (λ t, dedup (
    flat_map (λ k, flat_map (λ dt, flat_map (λ d,
      if (dt_task_id dt =b tk_task_id k) && (d_dag_id d =b dt_dag_id dt)
         && is_dag name namespace d && negb (tk_inline k)
      then [mkTaskData (tk_task_id k) (tk_name k) (tk_namespace k)] else [])
      (tb_DAGs t)) (tb_DAG_Tasks t)) (tb_Tasks t))).

(** The other DAGs that use a task of this name in this namespace. *)
Definition other_users (taskName name namespace : string) (t : Tables) : list (string * string) :=
  dedup (flat_map (λ dt, flat_map (λ d,
    if (d_dag_id d =b dt_dag_id dt)
       && bool_decide (dt_task_id dt ∈ tk_task_id <$>
            where_ (λ k, (tk_name k =b taskName) && (tk_namespace k =b namespace)) (tb_Tasks t))
       && negb (is_dag name namespace d)
    then [(d_name d, d_namespace d)] else []) (tb_DAGs t)) (tb_DAG_Tasks t)).

Definition dag_ids (name namespace : string) (t : Tables) : list Z :=
  d_dag_id <$> where_ (is_dag name namespace) (tb_DAGs t).

Definition run_ids (name namespace : string) (t : Tables) : list Z :=
  r_run_id <$> where_ (λ r, bool_decide (r_dag_id r ∈ dag_ids name namespace t)) (tb_DAG_Runs t).

(** The inline tasks of the DAGs of this name, in any namespace. *)
Definition inline_task_ids (name : string) (t : Tables) : list Z :=
  flat_map (λ k, flat_map (λ dt, flat_map (λ d,
    if (dt_task_id dt =b tk_task_id k) && (dt_dag_id dt =b d_dag_id d)
       && (d_name d =b name) && tk_inline k
    then [tk_task_id k] else []) (tb_DAGs t)) (tb_DAG_Tasks t)) (tb_Tasks t).

Definition delete_run_parameters (name namespace : string) (t : Tables) : Tables :=
  set_DAG_Run_Parameters
    (except (λ p, bool_decide (rpr_run_id p ∈ run_ids name namespace t)) (tb_DAG_Run_Parameters t))
    (sq_DAG_Run_Parameters t) t.

Definition delete_task_runs (name namespace : string) (t : Tables) : Tables :=
  set_Task_Runs
    (except (λ r, bool_decide (trn_run_id r ∈ run_ids name namespace t)) (tb_Task_Runs t))
    (sq_Task_Runs t) t.

Definition delete_runs (name namespace : string) (t : Tables) : Tables :=
  set_DAG_Runs
    (except (λ r, bool_decide (r_dag_id r ∈ dag_ids name namespace t)) (tb_DAG_Runs t))
    (sq_DAG_Runs t) t.

Definition delete_dag_tasks (name namespace : string) (t : Tables) : Tables :=
  set_DAG_Tasks
    (except (λ dt, bool_decide (dt_dag_id dt ∈ dag_ids name namespace t)) (tb_DAG_Tasks t))
    (sq_DAG_Tasks t) t.

Definition delete_dags (name namespace : string) (t : Tables) : Tables :=
  set_DAGs (except (is_dag name namespace) (tb_DAGs t)) (sq_DAGs t) t.

Definition delete_tasks (ids : list Z) (t : Tables) : Tables :=
  set_Tasks (except (λ k, bool_decide (tk_task_id k ∈ ids)) (tb_Tasks t)) (sq_Tasks t) t.

Definition DeleteDAG (name namespace : string) : M Store (list string) :=
  plain_tx (
    taskDatas ← getTaskDeletionData name namespace;
    counts ← mapMM (λ task : taskData,
      query (λ t, length (other_users (td_TaskName task) name namespace t))) taskDatas;
    let unusedTaskNames :=
      (λ p, td_TaskName p.1) <$> where_ (λ p, p.2 =b 0) (zip taskDatas counts) in
    exec (delete_run_parameters name namespace) ≫= λ _,
    exec (delete_task_runs name namespace) ≫= λ _,
    taskIds ← query (inline_task_ids name);
    exec (delete_runs name namespace) ≫= λ _,
    exec (delete_dag_tasks name namespace) ≫= λ _,
    exec (delete_dags name namespace) ≫= λ _,
    (if bool_decide (0 < length taskIds) then exec (delete_tasks taskIds) else mret tt) ≫= λ _,
    mret unusedTaskNames).

End operations.
End DagDb.
Import DagDb.

(** ** An example *)

(** An environment for the examples: every schedule but ["never"] fires a
    minute later, a spec's digest is its schedule and its task names. *)
Definition demo_env : DbEnv := mkDbEnv
  (λ schedule, if schedule =b "never" then Err (EErrorf "expected exactly 5 fields")
               else Ok (λ now, now + 60)%Z)
  (λ spec, Ok (join "," (ds_Schedule spec :: task_names (ds_Task spec))))
  (λ spec, Ok (dts_Image spec))
  (λ n, "uuid-" +:+ pretty n)
  (λ next now, next <=b now).

Definition demo_dag : DAG := mkDAG "etl" ∅ [] false diamond (mkDAGStatus "" "").

(** The database after the example DAG was inserted once, and its run. *)
Definition demo_store : Store := mkStore emptyTables [] 1000 0 0.
Definition demo_inserted : Store := (InsertDAG demo_env demo_dag "default" demo_store).2.
