(* ===== verification/SqliteRun.v ===== *)
(** * DAG runs in the database (internal/db/sqliteManager.go)

    The operations of [sqliteDAGManager] that create runs, record what happens
    to tasks and pods, and find the tasks to run next. *)

From S2P Require Import Prelude Api Store SqliteDag.
Import DagDb.
Local Open Scope kontroler_scope.

Definition ErrTaskRunNotFound : GoError := EErrorf "task run not found".

Module RunDb.

(** [if err != nil { return fmt.Errorf("...: %w", err) }] *)
Definition wrap_err {A} (msg : string) (m : M Store A) : M Store A :=
  try m ≫= λ r, match r with Ok a => mret a | Err e => throw (EWrap msg e) end.

(** An [UPDATE ... RETURNING] scanned by [QueryRow]. *)
Definition update_returning {A} (rows : Tables → list A) (f : Tables → Tables) : M Store A :=
  stmt ≫= λ _, gets (λ s, rows (st_tables s)) ≫= λ l,
  modify (λ s, set_tables (f (st_tables s)) s) ≫= λ _,
  match l with [] => throw ENoRows | x :: _ => mret x end.

(** ** Runs *)

Definition insert_run_param (dagRunID : Z) (param : ParameterSpec) : M Store unit :=
  let value := if negb (ps_FromSecret param =b "") then ps_FromSecret param else ps_Value param in
  insert "DAG_Run_Parameters" never
    (add_DAG_Run_Parameter (λ k, mkRunParameterRow k dagRunID (ps_Name param) value
       (negb (ps_FromSecret param =b "")))).

Definition run_clash (name : string) (t : Tables) : bool :=
  existsb (λ r, r_name r =b name) (tb_DAG_Runs t).

Definition CreateDAGRun (name : string) (dag : DagRunSpec)
    (parameters : gmap string ParameterSpec) (pvcName : option string) : M Store Z :=
  dagId ← dagNameToDagId (drs_DagName dag);
  r ← try (query_row (λ t, r_run_id <$> where_ (λ r, r_name r =b name) (tb_DAG_Runs t)));
  match r with
  | Ok existingRunID => mret existingRunID
  | Err ENoRows =>
      plain_tx (
        now ← gets st_now;
        dagRunID ← insert_ret "DAG_Runs" (run_clash name)
          (add_DAG_Run (λ k, mkRunRow k name dagId "running" 0 0 0 now pvcName)) sq_DAG_Runs;
        foreach (insert_run_param dagRunID) (map_to_list parameters).*2 ≫= λ _,
        mret dagRunID)
  | Err e => throw e
  end.

Definition set_status (status : string) (r : RunRow) : RunRow :=
  mkRunRow (r_run_id r) (r_name r) (r_dag_id r) status (r_successfulCount r)
    (r_failedCount r) (r_suspendedCount r) (r_run_time r) (r_pvcName r).

Definition is_run (runId : Z) (r : RunRow) : bool := r_run_id r =b runId.

Definition MarkDAGRunOutcome (dagRunId : Z) (outcome : string) : M Store unit :=
  plain_tx (exec (upd_DAG_Runs (is_run dagRunId) (set_status outcome))).

Definition FindExistingDAGRun (name : string) : M Store bool := query (run_clash name).

Definition DagrunExists (dagrunId : Z) : M Store bool :=
  wrap_err "failed to check dagrun existence"
    (query (λ t, existsb (is_run dagrunId) (tb_DAG_Runs t))).

Definition DeleteDagRun (dagRunId : Z) : M Store unit :=
  let in_run r := trn_run_id r =b dagRunId in
  let failed stmt := "failed to execute statement '" +:+ stmt +:+ "'" in
  withTx (
    wrap_err (failed "DELETE FROM Task_Pods WHERE task_run_id IN (SELECT task_run_id FROM Task_Runs WHERE run_id = ?);")
      (exec (λ t, set_Task_Pods (except (λ p, bool_decide (pod_task_run_id p ∈
         trn_task_run_id <$> where_ in_run (tb_Task_Runs t))) (tb_Task_Pods t)) t)) ≫= λ _,
    wrap_err (failed "DELETE FROM Task_Runs WHERE run_id = ?;")
      (exec (λ t, set_Task_Runs (except in_run (tb_Task_Runs t)) (sq_Task_Runs t) t)) ≫= λ _,
    wrap_err (failed "DELETE FROM DAG_Run_Parameters WHERE run_id = ?;")
      (exec (λ t, set_DAG_Run_Parameters (except (λ p, rpr_run_id p =b dagRunId)
         (tb_DAG_Run_Parameters t)) (sq_DAG_Run_Parameters t) t)) ≫= λ _,
    wrap_err (failed "DELETE FROM DAG_Runs WHERE run_id = ?;")
      (exec (λ t, set_DAG_Runs (except (is_run dagRunId) (tb_DAG_Runs t)) (sq_DAG_Runs t) t))).

Definition SuspendDagRun (dagRunId : Z) : M Store (list RunningPodInfo) :=
  withTx (
    pods ← wrap_err "failed to query running pods" (query (λ t,
      flat_map (λ p, flat_map (λ tr,
        if (pod_task_run_id p =b trn_task_run_id tr) && (trn_run_id tr =b dagRunId)
           && (trn_status tr =b "running")
        then [mkRunningPodInfo (pod_name p) (pod_namespace p)] else [])
        (tb_Task_Runs t)) (tb_Task_Pods t)));
    wrap_err "failed to suspend dag run"
      (exec (upd_DAG_Runs (is_run dagRunId) (set_status "suspended"))) ≫= λ _,
    mret pods).

(** All tasks of the run's DAG are counted as done, one way or another. *)
Definition CheckIfAllTasksDone (dagRunID : Z) : M Store bool :=
  row ← query_row (λ t,
    (λ r, (Z.of_nat (length (where_ (λ dt, dt_dag_id dt =b r_dag_id r) (tb_DAG_Tasks t))),
           r_successfulCount r, r_failedCount r, r_suspendedCount r))
    <$> where_ (is_run dagRunID) (tb_DAG_Runs t));
  let '(taskCount, successCount, failedCount, suspendedCount) := row in
  mret (taskCount =b wrap64 (wrap64 (successCount + failedCount) + suspendedCount)).

(** ** Tasks to run *)

Definition workspace_volume (pvcName : string) : Volume :=
  mkVolume "workspace" None (Some (mkPVCVolumeSource pvcName)).
Definition workspace_mount : VolumeMount := mkVolumeMount "workspace" "/workspace" false.

(** The pod template of a task, with the workspace of the run mounted. *)
Definition mount_workspace (pvcName : option string) (pt : PodTemplateSpec) : PodTemplateSpec :=
  match pvcName with
  | None => pt
  | Some pvc =>
      mkPodTemplateSpec (pt_Volumes pt ++ [workspace_volume pvc])
        (pt_VolumeMounts pt ++ [workspace_mount]) (pt_ImagePullSecrets pt)
        (pt_SecurityContext pt) (pt_NodeSelector pt) (pt_Tolerations pt) (pt_Affinity pt)
        (pt_ServiceAccountName pt) (pt_ActiveDeadlineSeconds pt)
        (pt_AutomountServiceAccountToken pt) (pt_Resources pt)
  end.

Definition pod_template (k : TaskRow) (r : RunRow) : PodTemplateSpec :=
  mount_workspace (r_pvcName r) (default emptyPodTemplate (tk_podTemplate k)).

Definition row_param (p : DagParameterRow) : DbParameter :=
  mkDbParameter (dpr_name p) (dpr_isSecret p) (dpr_defaultValue p).

(** The parameters of a DAG with a name in the list. *)
Definition dag_params (dagId : Z) (names : list string) (t : Tables) : list DagParameterRow :=
  where_ (λ p, (dpr_dag_id p =b dagId) && bool_decide (dpr_name p ∈ names)) (tb_DAG_Parameters t).

Definition with_Parameters (ps : list DbParameter) (task : Task) : Task :=
  mkTask (t_Id task) (t_Name task) (t_Image task) (t_Command task) (t_Args task) ps
    (t_PodTemplate task) (t_Script task) (t_ScriptInjectorImage task).

(** The rows of [GetStartingTasks]: the task, the names of its parameters, its
    DAG. *)
Definition starting_rows (dagName : string) (dagrun : Z) (t : Tables)
    : list (Task * list string * Z) :=
  flat_map (λ k, flat_map (λ dt, flat_map (λ r,
    if (tk_task_id k =b dt_task_id dt) && (dt_dag_id dt =b r_dag_id r)
       && negb (existsb (λ d, dep_task_id d =b dt_dag_task_id dt) (tb_Dependencies t))
       && bool_decide (dt_dag_id dt ∈ d_dag_id <$> option_list (latest_by_name dagName t))
       && is_run dagrun r
    then [(mkTask (dt_dag_task_id dt) (dt_name dt) (tk_image k) (tk_command k) (tk_args k) []
             (Some (pod_template k r)) (tk_script k) "",
           tk_parameters k, dt_dag_id dt)] else [])
    (tb_DAG_Runs t)) (tb_DAG_Tasks t)) (tb_Tasks t).

Definition GetStartingTasks (dagName : string) (dagrun : Z) : M Store (list Task) :=
  rows ← wrap_err "failed to get tasks" (query (starting_rows dagName dagrun));
  let paramsForTasks := (λ row : Task * list string * Z, row.1.2) <$> rows in
  let dagIDForParams := default (-1)%Z (snd <$> last rows) in
  if bool_decide (0 < length paramsForTasks) then
    let flattened := dedup (mjoin paramsForTasks) in
    rowsParams ← query (dag_params dagIDForParams flattened);
    let paramMap : gmap string DbParameter :=
      foldl (λ m p, <[dpr_name p := row_param p]> m) ∅ rowsParams in
    match where_ (λ name, paramMap !! name =b None) flattened with
    | name :: _ => throw (EErrorf ("failed to get parameter '" +:+ name +:+ "'"))
    | [] =>
        mret ((λ row : Task * list string * Z,
          with_Parameters (omap (λ pname, paramMap !! pname) row.1.2) row.1.1) <$> rows)
    end
  else mret [].

Definition new_task_run (runId taskId : Z) (status : string) (attempts : Z) (k : Z) : TaskRunRow :=
  mkTaskRunRow k runId taskId status attempts None None None None None.

Definition add_run (runId taskId : Z) (status : string) (attempts : Z) : M Store Z :=
  insert_ret "Task_Runs" never (add_Task_Run (new_task_run runId taskId status attempts))
    sq_Task_Runs.

Definition MarkTaskAsStarted (runId taskId : Z) : M Store Z := add_run runId taskId "running" 1.

Definition AddPendingTaskRun (runId dagTaskId : Z) : M Store Z :=
  add_run runId dagTaskId "pending" 0.

Definition TaskRunExists (runId dagTaskId : Z) : M Store bool :=
  query (λ t, existsb (λ tr, (trn_run_id tr =b runId) && (trn_task_id tr =b dagTaskId))
                (tb_Task_Runs t)).

(** ** Updates of task runs *)

Definition set_trn_status (status : string) (r : TaskRunRow) : TaskRunRow :=
  mkTaskRunRow (trn_task_run_id r) (trn_run_id r) (trn_task_id r) status (trn_attempts r)
    (trn_claimed_by r) (trn_claimed_at r) (trn_lease_expires_at r) (trn_scheduled_start r)
    (trn_retry_env r).

Definition set_trn_attempts (f : Z → Z) (r : TaskRunRow) : TaskRunRow :=
  mkTaskRunRow (trn_task_run_id r) (trn_run_id r) (trn_task_id r) (trn_status r)
    (f (trn_attempts r)) (trn_claimed_by r) (trn_claimed_at r) (trn_lease_expires_at r)
    (trn_scheduled_start r) (trn_retry_env r).

Definition set_trn_retry_env (env : string) (r : TaskRunRow) : TaskRunRow :=
  mkTaskRunRow (trn_task_run_id r) (trn_run_id r) (trn_task_id r) (trn_status r)
    (trn_attempts r) (trn_claimed_by r) (trn_claimed_at r) (trn_lease_expires_at r)
    (trn_scheduled_start r) (Some env).

Definition is_task_run (taskRunId : Z) (r : TaskRunRow) : bool := trn_task_run_id r =b taskRunId.

Definition IncrementAttempts (taskRunId : Z) : M Store unit :=
  plain_tx (exec (upd_Task_Runs (is_task_run taskRunId) (set_trn_attempts (λ n, n + 1)%Z))).

Definition SaveRetryEnv (taskRunId : Z) (envJSON : string) : M Store unit :=
  exec (upd_Task_Runs (is_task_run taskRunId) (set_trn_retry_env envJSON)).

Definition GetTaskRunStatus (taskRunId : Z) : M Store string :=
  r ← try (query_row (λ t, trn_status <$> where_ (is_task_run taskRunId) (tb_Task_Runs t)));
  match r with
  | Ok status => mret status
  | Err ENoRows => throw ErrTaskRunNotFound
  | Err e => throw e
  end.

Definition add_success (r : RunRow) : RunRow :=
  mkRunRow (r_run_id r) (r_name r) (r_dag_id r) (r_status r) (r_successfulCount r + 1)
    (r_failedCount r) (r_suspendedCount r) (r_run_time r) (r_pvcName r).

Definition add_failure (r : RunRow) : RunRow :=
  mkRunRow (r_run_id r) (r_name r) (r_dag_id r) "failed" (r_successfulCount r)
    (r_failedCount r + 1) (r_suspendedCount r) (r_run_time r) (r_pvcName r).

Definition add_suspended (n : Z) (r : RunRow) : RunRow :=
  mkRunRow (r_run_id r) (r_name r) (r_dag_id r) (r_status r) (r_successfulCount r)
    (r_failedCount r) (r_suspendedCount r + n) (r_run_time r) (r_pvcName r).

Definition MarkTaskAsFailed (taskRunId : Z) : M Store unit :=
  plain_tx (
    exec (upd_Task_Runs (is_task_run taskRunId) (set_trn_status "failed")) ≫= λ _,
    exec (λ t, upd_DAG_Runs (λ r, bool_decide (r_run_id r ∈
            trn_run_id <$> where_ (is_task_run taskRunId) (tb_Task_Runs t))) add_failure t)).

(** ** Success and the tasks it releases *)

(** [COUNT( * ) ... GROUP BY]: how often each key occurs. *)
Definition count_map (l : list Z) : gmap Z Z :=
  foldl (λ m k, <[k := default 0 (m !! k) + 1]> m)%Z ∅ l.

Definition getDAGIdFromRun (runId : Z) : M Store Z :=
  query_row (λ t, r_dag_id <$> where_ (is_run runId) (tb_DAG_Runs t)).

Definition dependency_keys (dagId : Z) (t : Tables) : list Z :=
  flat_map (λ d, flat_map (λ dt,
    if (dep_task_id d =b dt_dag_task_id dt) && (dt_dag_id dt =b dagId)
    then [dep_task_id d] else []) (tb_DAG_Tasks t)) (tb_Dependencies t).

Definition getDependencyCounts (dagId : Z) : M Store (gmap Z Z) :=
  query (λ t, count_map (dependency_keys dagId t)).

Definition started (runId taskId : Z) (t : Tables) : bool :=
  existsb (λ tr, bool_decide (trn_status tr ∈ ["running"; "success"; "failed"])
                 && (trn_run_id tr =b runId) && (trn_task_id tr =b taskId)) (tb_Task_Runs t).

Definition met_keys (dagId runID : Z) (t : Tables) : list Z :=
  flat_map (λ d, flat_map (λ tr,
    if (dep_depends_on d =b trn_task_id tr) && (trn_status tr =b "success")
       && bool_decide (dep_task_id d ∈
            dt_dag_task_id <$> where_ (λ dt, dt_dag_id dt =b dagId) (tb_DAG_Tasks t))
       && negb (started runID (dep_task_id d) t) && (trn_run_id tr =b runID)
    then [dep_task_id d] else []) (tb_Task_Runs t)) (tb_Dependencies t).

Definition getMetDependencies (dagId runID : Z) : M Store (gmap Z Z) :=
  query (λ t, count_map (met_keys dagId runID t)).

(** The loop over [dependencyCounts]; the query compares run_id with the id of
    the task run, as the source does. *)
Fixpoint runnable_loop (counts : list (Z * Z)) (metDependencies : gmap Z Z) (taskRunId : Z)
    : M Store (list Z) :=
  match counts with
  | [] => mret []
  | (taskId, totalDeps) :: rest =>
      let metDeps := default 0%Z (metDependencies !! taskId) in
      if negb (totalDeps =b metDeps) then runnable_loop rest metDependencies taskRunId
      else
        r ← try (query_row (λ t, trn_status <$>
              where_ (λ tr, (trn_task_id tr =b taskId) && (trn_run_id tr =b taskRunId))
                (tb_Task_Runs t)));
        match r with
        | Err ENoRows =>
            ids ← runnable_loop rest metDependencies taskRunId; mret (taskId :: ids)
        | Err e => throw e
        | Ok _ => runnable_loop rest metDependencies taskRunId
        end
  end.

Definition getRunnableTasks (dependencyCounts metDependencies : gmap Z Z) (taskRunId : Z)
    : M Store (list Z) :=
  runnable_loop (map_to_list dependencyCounts) metDependencies taskRunId.

Definition task_rows (taskIds : list Z) (runId : Z) (t : Tables) : list (Task * list string) :=
  flat_map (λ k, flat_map (λ dat, flat_map (λ dr,
    if (dt_task_id dat =b tk_task_id k) && (dt_dag_id dat =b r_dag_id dr) && is_run runId dr
       && bool_decide (dt_dag_task_id dat ∈ taskIds)
    then [(mkTask (dt_dag_task_id dat) (dt_name dat) (tk_image k) (tk_command k) (tk_args k) []
             (Some (pod_template k dr)) (tk_script k) (tk_scriptInjectorImage k),
           tk_parameters k)] else [])
    (tb_DAG_Runs t)) (tb_DAG_Tasks t)) (tb_Tasks t).

Definition getTasksByIds (taskIds : list Z) (runId : Z) : M Store (list Task * list (list string)) :=
  rows ← query (task_rows taskIds runId); mret (rows.*1, rows.*2).

Definition getNextRunnableTasks (taskRunId runId dagId : Z)
    : M Store (list Task * list (list string)) :=
  dependencyCounts ← getDependencyCounts dagId;
  metDependencies ← getMetDependencies dagId runId;
  runnableTasks ← getRunnableTasks dependencyCounts metDependencies taskRunId;
  getTasksByIds runnableTasks runId.

(** Each row is appended to the tasks that list its name, once per mention. *)
Definition params_of (rows : list DagParameterRow) (names : list string) : list DbParameter :=
  flat_map (λ row, (λ _, row_param row) <$> where_ (λ p, p =b dpr_name row) names) rows.

Definition fetchTaskParameters (dagId : Z) (tasks : list Task) (parameters : list (list string))
    : M Store (list Task) :=
  let flattened := dedup (mjoin parameters) in
  if flattened =b [] then mret (with_Parameters [] <$> tasks)
  else
    rows ← query (dag_params dagId flattened);
    mret (zip_with (λ task names, with_Parameters (params_of rows names) task) tasks parameters).

(** [DAGs.taskCount = DAG_Runs.successfulCount] for the run. *)
Definition run_complete (runId : Z) (t : Tables) (r : RunRow) : bool :=
  is_run runId r &&
  existsb (λ d, (r_dag_id r =b d_dag_id d) && (d_taskCount d =b r_successfulCount r)) (tb_DAGs t).

Definition MarkSuccessAndGetNextTasks (taskRunId : Z) : M Store (list Task) :=
  plain_tx (
    r ← try (update_returning (λ t, trn_run_id <$> where_ (is_task_run taskRunId) (tb_Task_Runs t))
               (upd_Task_Runs (is_task_run taskRunId) (set_trn_status "success")));
    runId ← match r with
            | Ok runId => mret runId
            | Err e => if e =b pgx_ErrNoRows then mret 0%Z else throw e
            end;
    exec (upd_DAG_Runs (is_run runId) add_success) ≫= λ _,
    status ← row_or "" (update_returning
      (λ t, (λ _, "success") <$> where_ (run_complete runId t) (tb_DAG_Runs t))
      (λ t, upd_DAG_Runs (run_complete runId t) (set_status "success") t));
    if status =b "success" then mret []
    else
      dagId ← getDAGIdFromRun runId;
      next ← getNextRunnableTasks taskRunId runId dagId;
      fetchTaskParameters dagId next.1 next.2).

(** ** Retries *)

(** [json.Unmarshal] into a [[]int32]. *)
Definition unmarshal_int32s (codes : list Z) : result (list Z) :=
  if forallb is_int32 codes then Ok codes
  else Err (EErrorf "json: cannot unmarshal number into Go value of type int32").

Definition rerun_rows (taskRunID : Z) (t : Tables) : list (Z * bool * list Z * Z) :=
  flat_map (λ k, flat_map (λ dt, flat_map (λ r,
    if (tk_task_id k =b dt_task_id dt) && (dt_dag_task_id dt =b trn_task_id r)
       && is_task_run taskRunID r
    then [(tk_backoffLimit k, tk_isConditional k, tk_retryCodes k, trn_attempts r)] else [])
    (tb_Task_Runs t)) (tb_DAG_Tasks t)) (tb_Tasks t).

Definition ShouldRerun (taskRunID exitCode : Z) : M Store bool :=
  r ← try (query_row (rerun_rows taskRunID));
  match r with
  | Err ENoRows => mret false
  | Err e => throw (EWrap "failed to execute query" e)
  | Ok (backoffLimit, isConditional, retryCodes, attempts) =>
      if bool_decide (backoffLimit < attempts)%Z then mret false
      else if isConditional : bool then
        match unmarshal_int32s retryCodes with
        | Err e => throw (EWrap "failed to parse retry codes" e)
        | Ok codes => mret (existsb (λ code, code =b exitCode) codes)
        end
      else mret true
  end.

(** ** Pods *)

Definition is_pod (podUid : string) (taskRunID : Z) (p : PodRow) : bool :=
  (pod_Pod_UID p =b podUid) && (pod_task_run_id p =b taskRunID).

Definition set_pod_status (status : string) (tStamp : Z) (exitCode : option Z) (p : PodRow)
    : PodRow :=
  mkPodRow (pod_Pod_UID p) (pod_task_run_id p) exitCode (pod_name p) status (pod_namespace p)
    tStamp (pod_duration p).

Definition pod_clash (podUid : string) (t : Tables) : bool :=
  existsb (λ p, pod_Pod_UID p =b podUid) (tb_Task_Pods t).

Definition MarkPodStatus (podUid name : string) (taskRunID : Z) (status : string) (tStamp : Z)
    (exitCode : option Z) (namespace : string) : M Store unit :=
  plain_tx (
    r ← try (query_row (λ t, pod_updated_at <$> where_ (is_pod podUid taskRunID) (tb_Task_Pods t)));
    match r with
    | Err ENoRows =>
        insert "Task_Pods" (pod_clash podUid) (add_Task_Pod
          (mkPodRow podUid taskRunID exitCode name status namespace tStamp None))
    | Err e => throw e
    | Ok _ =>
        exec (upd_Task_Pods (is_pod podUid taskRunID) (set_pod_status status tStamp exitCode))
    end).

Definition set_pod_duration (durationSec : Z) (p : PodRow) : PodRow :=
  mkPodRow (pod_Pod_UID p) (pod_task_run_id p) (pod_exitCode p) (pod_name p) (pod_status p)
    (pod_namespace p) (pod_updated_at p) (Some durationSec).

Definition AddPodDuration (taskRunId durationSec : Z) : M Store unit :=
  plain_tx (exec (upd_Task_Pods (λ p, pod_task_run_id p =b taskRunId)
                    (set_pod_duration durationSec))).

(** ** Suspending what a failed task holds back *)

(** The children of each task of the run's DAG, in row order. *)
Definition children_of (rows : list (Z * Z)) (parent : Z) : list Z :=
  snd <$> where_ (λ row, row.1 =b parent) rows.

(** The loop over the dependents of one task: the stack, and the ids to
    suspend. *)
Fixpoint suspend_children (existing : list Z) (children : list Z) (acc : list Z * list Z)
    : list Z * list Z :=
  match children with
  | [] => acc
  | taskID :: rest =>
      let '(stack, suspended) := acc in
      if bool_decide (taskID ∈ existing) || bool_decide (taskID ∈ suspended)
      then suspend_children existing rest acc
      else suspend_children existing rest (taskID :: stack, suspended ++ [taskID])
  end.

(** The search with its stack, top first. *)
Fixpoint suspend_search (fuel : nat) (rows : list (Z * Z)) (existing : list Z)
    (stack seen suspended : list Z) : option (list Z) :=
  match fuel with
  | O => None
  | S fuel' =>
      match stack with
      | [] => Some suspended
      | current :: stack' =>
          if bool_decide (current ∈ seen)
          then suspend_search fuel' rows existing stack' seen suspended
          else
            let '(stack'', suspended') :=
              suspend_children existing (children_of rows current) (stack', suspended) in
            suspend_search fuel' rows existing stack'' (current :: seen) suspended'
      end
  end.

(** Every push adds a new id to the ids to suspend, each of them the second
    column of a row. *)
Definition suspend_fuel (rows : list (Z * Z)) : nat := S (S (length rows)).

Definition child_rows (dagRunId : Z) (t : Tables) : list (Z * Z) :=
  flat_map (λ d, flat_map (λ dt,
    if (dep_depends_on d =b dt_dag_task_id dt)
       && bool_decide (Some (dt_dag_id dt) =
            (r_dag_id <$> head (where_ (is_run dagRunId) (tb_DAG_Runs t))))
    then [(dep_depends_on d, dep_task_id d)] else []) (tb_DAG_Tasks t)) (tb_Dependencies t).

Definition MarkConnectingTasksAsSuspended (dagRunId taskRunId : Z) : M Store (list string) :=
  plain_tx (
    existing ← wrap_err "failed to fetch existing task runs" (query (λ t,
      trn_task_id <$> where_ (λ r, trn_run_id r =b dagRunId) (tb_Task_Runs t)));
    rows ← wrap_err "failed to fetch dependencies" (query (child_rows dagRunId));
    startingTaskID ← wrap_err "failed to get task id" (query_row (λ t,
      trn_task_id <$> where_ (is_task_run taskRunId) (tb_Task_Runs t)));
    let suspended :=
      default [] (suspend_search (suspend_fuel rows) rows existing [startingTaskID] [] []) in
    (if bool_decide (0 < length suspended) then
       wrap_err "failed to prepare statement" stmt ≫= λ _,
       foreach (λ taskID, wrap_err "failed to insert task run"
         (insert "Task_Runs" never
            (add_Task_Run (new_task_run dagRunId taskID "suspended" 0)))) suspended
     else mret tt) ≫= λ _,
    wrap_err "failed to update DAG runs" (exec (upd_DAG_Runs (is_run dagRunId)
      (add_suspended (Z.of_nat (length suspended))))) ≫= λ _,
    mapMM (λ taskID, wrap_err "failed to get task name" (query_row (λ t,
      dt_name <$> where_ (λ dt, dt_dag_task_id dt =b taskID) (tb_DAG_Tasks t)))) suspended).

(** ** Reading a task of a run *)

Definition GetTaskRunInfo (taskRunId : Z) : M Store (string * string * string) :=
  wrap_err "failed to get task run info" (query_row (λ t,
    flat_map (λ tr, flat_map (λ dr, flat_map (λ d, flat_map (λ dt,
      if (trn_run_id tr =b r_run_id dr) && (r_dag_id dr =b d_dag_id d)
         && (trn_task_id tr =b dt_dag_task_id dt) && is_task_run taskRunId tr
      then [(d_name d, dt_name dt, d_namespace d)] else [])
      (tb_DAG_Tasks t)) (tb_DAGs t)) (tb_DAG_Runs t)) (tb_Task_Runs t))).

(** [Rows.Scan] of a text or blob column into a [*[]string]: database/sql
    supports no such destination and returns an error for every value. *)
Definition scan_into_slice (column : string) (v : list string) : result (list string) :=
  Err (EScan column).

(** The joined row: the rows, and the retry environment of the task run, if
    there is one. *)
Definition task_for_run_rows (runId dagTaskId : Z) (t : Tables)
    : list (TaskRow * DagTaskRow * RunRow * DagRow * option string) :=
  flat_map (λ k, flat_map (λ dat, flat_map (λ dr, flat_map (λ d,
    if (dt_task_id dat =b tk_task_id k) && (dt_dag_id dat =b r_dag_id dr)
       && (r_dag_id dr =b d_dag_id d) && is_run runId dr && (dt_dag_task_id dat =b dagTaskId)
    then
      match where_ (λ tr, (trn_run_id tr =b r_run_id dr) && (trn_task_id tr =b dt_dag_task_id dat))
              (tb_Task_Runs t) with
      | [] => [(k, dat, dr, d, None)]
      | trs => (λ tr, (k, dat, dr, d, trn_retry_env tr)) <$> trs
      end
    else []) (tb_DAGs t)) (tb_DAG_Runs t)) (tb_DAG_Tasks t)) (tb_Tasks t).

Definition GetTaskForRun (runId dagTaskId : Z) : M Store (Task * string * string) :=
  row ← query_row (task_for_run_rows runId dagTaskId);
  let '(k, dat, dr, d, retryEnv) := row in
  command ← lift (scan_into_slice "command" (tk_command k));
  args ← lift (scan_into_slice "args" (tk_args k));
  let task := mkTask (dt_dag_task_id dat) (dt_name dat) (tk_image k) command args []
                (Some (pod_template k dr)) (tk_script k) (tk_scriptInjectorImage k) in
  plain_tx (
    tasks ← fetchTaskParameters (r_dag_id dr) [task] [tk_parameters k];
    mret (default task (head tasks), d_namespace d, default "" retryEnv)).

End RunDb.
Import RunDb.
