(* ===== verification/SqliteClaim.v ===== *)
(** * Claims and leases (internal/db/sqliteManager.go)

    A worker claims pending task runs under a lease, renews it, and finalizes
    the claim when the pod is created.  A lease is written in local time
    ([time.Now().Add(ttl).Format(...)]) and compared with the UTC clock of
    SQLite ([datetime('now')]), so the offset of local time is part of it. *)

From S2P Require Import Prelude Api Store SqliteDag SqliteRun.
Import RunDb.
Local Open Scope kontroler_scope.

Module ClaimDb.

Definition set_claim (by_ : option string) (at_ lease : option Z) (r : TaskRunRow) : TaskRunRow :=
  mkTaskRunRow (trn_task_run_id r) (trn_run_id r) (trn_task_id r) (trn_status r)
    (trn_attempts r) by_ at_ lease (trn_scheduled_start r) (trn_retry_env r).

Definition set_lease (lease : Z) (r : TaskRunRow) : TaskRunRow :=
  set_claim (trn_claimed_by r) (trn_claimed_at r) (Some lease) r.

(** The text of [time.Now().Add(leaseTTL)], as seconds. *)
Definition lease_at (leaseTTL : Z) : M Store Z := gets (λ s, st_now s + st_zone s + leaseTTL)%Z.

(** [status = 'pending' AND (scheduled_start IS NULL OR scheduled_start <=
    datetime('now'))] *)
Definition claimable (now : Z) (r : TaskRunRow) : bool :=
  (trn_status r =b "pending")
  && match trn_scheduled_start r with None => true | Some at_ => at_ <=b now end.

Definition claim_of (r : TaskRunRow) : TaskClaim :=
  mkTaskClaim (trn_task_run_id r) (trn_task_id r) (trn_run_id r).

(** [LIMIT ?]: a negative limit is no limit. *)
Definition limit_rows {A} (limit : Z) (l : list A) : list A :=
  if bool_decide (limit < 0)%Z then l else take (Z.to_nat limit) l.

Definition ClaimTasks (limit : Z) (workerId : string) (leaseTTL : Z) : M Store (list TaskClaim) :=
  plain_tx (
    now ← gets st_now;
    claims ← query (λ t, claim_of <$> limit_rows limit (where_ (claimable now) (tb_Task_Runs t)));
    let ids := tc_TaskRunID <$> claims in
    if bool_decide (length ids = 0) then mret []
    else
      leaseAt ← lease_at leaseTTL;
      exec (upd_Task_Runs (λ r, bool_decide (trn_task_run_id r ∈ ids))
              (set_claim (Some workerId) (Some now) (Some leaseAt))) ≫= λ _,
      mret claims).

(** [WHERE task_run_id = ? AND claimed_by = ?] *)
Definition owned (taskRunId : Z) (workerId : string) (r : TaskRunRow) : bool :=
  is_task_run taskRunId r && (trn_claimed_by r =b Some workerId).

Definition not_owner (what : string) : GoError :=
  EErrorf ("failed to " +:+ what +:+ ": not owner or task not claimed").

Definition RenewLease (taskRunId : Z) (workerId : string) (leaseTTL : Z) : M Store unit :=
  leaseAt ← lease_at leaseTTL;
  rows ← exec_count (λ t, count_where (owned taskRunId workerId) (tb_Task_Runs t))
           (upd_Task_Runs (owned taskRunId workerId) (set_lease leaseAt));
  if rows =b 0%Z then throw (not_owner "renew lease") else mret tt.

Definition finalize (r : TaskRunRow) : TaskRunRow :=
  set_trn_status "running" (set_claim None None None r).

Definition FinalizeClaimToRunning (taskRunId : Z) (workerId podUID : string) : M Store unit :=
  rows ← exec_count (λ t, count_where (owned taskRunId workerId) (tb_Task_Runs t))
           (upd_Task_Runs (owned taskRunId workerId) finalize);
  if rows =b 0%Z then throw (not_owner "finalize claim") else mret tt.

Definition lease_expired (now : Z) (r : TaskRunRow) : bool :=
  match trn_lease_expires_at r with Some at_ => at_ <=b now | None => false end.

Definition RecoverExpiredLeases : M Store Z :=
  now ← gets st_now;
  let expired r := lease_expired now r && (trn_status r =b "pending") in
  exec_count (λ t, count_where expired (tb_Task_Runs t))
    (upd_Task_Runs expired (set_claim None None None)).

(** Pending, and free or held under an expired lease. *)
Definition free_to_claim (taskRunId now : Z) (r : TaskRunRow) : bool :=
  is_task_run taskRunId r && (trn_status r =b "pending")
  && ((trn_claimed_by r =b None) || lease_expired now r).

Definition ClaimTaskByID (taskRunId : Z) (workerId : string) (leaseTTL : Z) : M Store TaskClaim :=
  leaseAt ← lease_at leaseTTL;
  now ← gets st_now;
  rows ← exec_count (λ t, count_where (free_to_claim taskRunId now) (tb_Task_Runs t))
           (upd_Task_Runs (free_to_claim taskRunId now)
              (set_claim (Some workerId) (Some now) (Some leaseAt)));
  if rows =b 0%Z then throw (EErrorf "failed to claim task")
  else query_row (λ t, claim_of <$> where_ (is_task_run taskRunId) (tb_Task_Runs t)).

End ClaimDb.
Import ClaimDb.
