(* ===== verification/Database.v ===== *)
(** * The database under any sequence of calls

    The calls of [DBDAGManager] as data, the system of a database on which they
    run with any schedule of failing statements, the well-formedness of its
    tables, and the theorems that every call keeps it and that a call that
    fails changes nothing. *)

From S2P Require Import Prelude Api Store SqliteDag SqliteRun SqliteClaim.
Import DagDb RunDb ClaimDb.
Local Open Scope kontroler_scope.

Module Calls.

(** One constructor per method of the interface (dbManagers.go). *)
Inductive DbCall :=
| CGetID
| CGetDAGsToStartAndUpdate (tm : Z)
| CInsertDAG (dag : DAG) (namespace : string)
| CCreateDAGRun (name : string) (dag : DagRunSpec) (parameters : gmap string ParameterSpec)
    (pvcName : option string)
| CGetStartingTasks (dagName : string) (dagrun : Z)
| CTaskRunExists (runId dagTaskId : Z)
| CMarkTaskAsStarted (runId taskId : Z)
| CIncrementAttempts (taskRunId : Z)
| CMarkSuccessAndGetNextTasks (taskRunId : Z)
| CMarkDAGRunOutcome (dagRunId : Z) (outcome : string)
| CGetDagParameters (dagName : string)
| CDagExists (dagName : string)
| CShouldRerun (taskRunid exitCode : Z)
| CMarkTaskAsFailed (taskRunId : Z)
| CMarkPodStatus (podUid name : string) (taskRunID : Z) (status : string) (tStamp : Z)
    (exitCode : option Z) (namespace : string)
| CDeleteDAG (name namespace : string)
| CFindExistingDAGRun (name : string)
| CGetTaskScriptAndInjectorImage (taskId : Z)
| CAddTask (task : DagTask) (namespace : string)
| CDeleteTask (taskName namespace : string)
| CGetTaskRefsParameters (taskRefs : list TaskRef)
| CGetWebhookDetails (dagRunID : Z)
| CGetWorkspacePVCTemplate (dagId : Z)
| CCheckIfAllTasksDone (dagRunID : Z)
| CMarkConnectingTasksAsSuspended (dagRunID taskRunId : Z)
| CAddPodDuration (taskRunId durationSec : Z)
| CSuspendDagRun (dagRunId : Z)
| CDeleteDagRun (dagRunId : Z)
| CDagrunExists (dagrunId : Z)
| CGetTaskRunInfo (taskRunId : Z)
| CClaimTasks (limit : Z) (workerId : string) (leaseTTL : Z)
| CRenewLease (taskRunId : Z) (workerId : string) (leaseTTL : Z)
| CFinalizeClaimToRunning (taskRunId : Z) (workerId podUID : string)
| CRecoverExpiredLeases
| CAddPendingTaskRun (runId dagTaskId : Z)
| CGetTaskForRun (runId dagTaskId : Z)
| CClaimTaskByID (taskRunId : Z) (workerId : string) (leaseTTL : Z)
| CSaveRetryEnv (taskRunId : Z) (envJSON : string)
| CGetTaskRunStatus (taskRunId : Z).

(** The one call that writes outside a transaction and then reads. *)
Definition is_ClaimTaskByID (c : DbCall) : bool :=
  match c with CClaimTaskByID _ _ _ => true | _ => false end.

Definition done {A} (m : M Store A) : M Store unit := m ≫= λ _, mret tt.

Definition run_call (env : DbEnv) (c : DbCall) : M Store unit :=
  match c with
  | CGetID => done (GetID env)
  | CGetDAGsToStartAndUpdate tm => done (GetDAGsToStartAndUpdate env tm)
  | CInsertDAG dag ns => done (InsertDAG env dag ns)
  | CCreateDAGRun n d ps pvc => done (CreateDAGRun n d ps pvc)
  | CGetStartingTasks n r => done (GetStartingTasks n r)
  | CTaskRunExists r t => done (TaskRunExists r t)
  | CMarkTaskAsStarted r t => done (MarkTaskAsStarted r t)
  | CIncrementAttempts t => done (IncrementAttempts t)
  | CMarkSuccessAndGetNextTasks t => done (MarkSuccessAndGetNextTasks t)
  | CMarkDAGRunOutcome r o => done (MarkDAGRunOutcome r o)
  | CGetDagParameters n => done (GetDagParameters n)
  | CDagExists n => done (DagExists n)
  | CShouldRerun t c => done (ShouldRerun t c)
  | CMarkTaskAsFailed t => done (MarkTaskAsFailed t)
  | CMarkPodStatus u n t st ts c ns => done (MarkPodStatus u n t st ts c ns)
  | CDeleteDAG n ns => done (DeleteDAG n ns)
  | CFindExistingDAGRun n => done (FindExistingDAGRun n)
  | CGetTaskScriptAndInjectorImage t => done (GetTaskScriptAndInjectorImage t)
  | CAddTask t ns => done (AddTask env t ns)
  | CDeleteTask n ns => done (DeleteTask n ns)
  | CGetTaskRefsParameters rs => done (GetTaskRefsParameters rs)
  | CGetWebhookDetails r => done (GetWebhookDetails r)
  | CGetWorkspacePVCTemplate d => done (GetWorkspacePVCTemplate d)
  | CCheckIfAllTasksDone r => done (CheckIfAllTasksDone r)
  | CMarkConnectingTasksAsSuspended r t => done (MarkConnectingTasksAsSuspended r t)
  | CAddPodDuration t d => done (AddPodDuration t d)
  | CSuspendDagRun r => done (SuspendDagRun r)
  | CDeleteDagRun r => done (DeleteDagRun r)
  | CDagrunExists r => done (DagrunExists r)
  | CGetTaskRunInfo t => done (GetTaskRunInfo t)
  | CClaimTasks l w ttl => done (ClaimTasks l w ttl)
  | CRenewLease t w ttl => done (RenewLease t w ttl)
  | CFinalizeClaimToRunning t w u => done (FinalizeClaimToRunning t w u)
  | CRecoverExpiredLeases => done RecoverExpiredLeases
  | CAddPendingTaskRun r t => done (AddPendingTaskRun r t)
  | CGetTaskForRun r t => done (GetTaskForRun r t)
  | CClaimTaskByID t w ttl => done (ClaimTaskByID t w ttl)
  | CSaveRetryEnv t e => done (SaveRetryEnv t e)
  | CGetTaskRunStatus t => done (GetTaskRunStatus t)
  end.

(** A step of the system: a call, or the world outside (the clock, the faults
    to come). *)
Inductive db_step (env : DbEnv) : Store → Store → Prop :=
| db_call c s : db_step env s (run_call env c s).2
| db_world s faults now zone :
    db_step env s (mkStore (st_tables s) faults now zone (st_uuids s)).

Definition empty_store : Store := mkStore emptyTables [] 0 0 0.

(** A history of calls, one after the other. *)
Definition run_calls (env : DbEnv) (cs : list DbCall) (s : Store) : Store :=
  foldl (λ s c, (run_call env c s).2) s cs.

Definition db_reachable (env : DbEnv) (s : Store) : Prop := rtc (db_step env) empty_store s.

End Calls.
Import Calls.

(** ** Well-formed tables *)

(** The keys of a table with an AUTOINCREMENT key and its counter. *)
Definition keyed {A} (key : A → Z) (rows : list A) (seq : Z) : Prop :=
  NoDup (key <$> rows) ∧ (0 <= seq)%Z ∧ ∀ x, x ∈ rows → (0 < key x <= seq)%Z.

Definition dag_key (d : DagRow) : string * Z * string := (d_name d, d_version d, d_namespace d).
Definition task_key (k : TaskRow) : string * Z * string :=
  (tk_name k, tk_version k, tk_namespace k).

(** Only the latest version of a DAG is active. *)
Definition active_latest (dags : list DagRow) : Prop :=
  ∀ d d', d ∈ dags → d' ∈ dags → d_name d = d_name d' → d_namespace d = d_namespace d' →
    d_active d = true → (d_version d' <= d_version d)%Z.

Record tables_ok (t : Tables) : Prop := {
  wf_dags : keyed d_dag_id (tb_DAGs t) (sq_DAGs t);
  wf_workspaces : keyed wk_id (tb_DAG_Workspaces t) (sq_DAG_Workspaces t);
  wf_params : keyed dpr_parameter_id (tb_DAG_Parameters t) (sq_DAG_Parameters t);
  wf_tasks : keyed tk_task_id (tb_Tasks t) (sq_Tasks t);
  wf_dag_tasks : keyed dt_dag_task_id (tb_DAG_Tasks t) (sq_DAG_Tasks t);
  wf_runs : keyed r_run_id (tb_DAG_Runs t) (sq_DAG_Runs t);
  wf_run_params : keyed rpr_param_id (tb_DAG_Run_Parameters t) (sq_DAG_Run_Parameters t);
  wf_task_runs : keyed trn_task_run_id (tb_Task_Runs t) (sq_Task_Runs t);
  wf_dag_keys : NoDup (dag_key <$> tb_DAGs t);
  wf_task_keys : NoDup (task_key <$> tb_Tasks t);
  wf_run_names : NoDup (r_name <$> tb_DAG_Runs t);
  wf_pods : NoDup (pod_Pod_UID <$> tb_Task_Pods t);
  wf_ids : NoDup (tb_IdTable t)
}.

(** Between the insertion of version [v] of a DAG and the deactivation of the
    one before it. *)
Definition almost_latest (name ns : string) (v : Z) (dags : list DagRow) : Prop :=
  ∀ d d', d ∈ dags → d' ∈ dags → d_name d = d_name d' → d_namespace d = d_namespace d' →
    d_active d = true →
    (d_version d' <= d_version d)%Z ∨ (is_dag name ns d = true ∧ d_version d = v - 1)%Z.

(** [v - 1] is the latest version, if there is one. *)
Definition next_version (name ns : string) (v : Z) (dags : list DagRow) : Prop :=
  ∀ d, d ∈ dags → is_dag name ns d = true →
    (d_version d <= v - 1)%Z ∧
    ∃ d0, d0 ∈ dags ∧ is_dag name ns d0 = true ∧ d_version d0 = (v - 1)%Z.

(** Every call keeps the tables well-formed and only latest versions active. *)
Definition db_inv (t : Tables) : Prop := tables_ok t ∧ active_latest (tb_DAGs t).

(** A row of another table that names a DAG or a task of a DAG names a key
    that was given out. *)
Record refs_ok (t : Tables) : Prop := {
  rf_dag_tasks : ∀ dt, dt ∈ tb_DAG_Tasks t → (dt_dag_id dt <= sq_DAGs t)%Z;
  rf_params : ∀ p, p ∈ tb_DAG_Parameters t → (dpr_dag_id p <= sq_DAGs t)%Z;
  rf_deps : ∀ d, d ∈ tb_Dependencies t →
    (dep_task_id d <= sq_DAG_Tasks t)%Z ∧ (dep_depends_on d <= sq_DAG_Tasks t)%Z
}.

(** While a DAG is inserted its key is the last one given out. *)
Definition inserting (dagID : Z) (t : Tables) : Prop :=
  tables_ok t ∧ refs_ok t ∧ sq_DAGs t = dagID.

Definition db_refs (t : Tables) : Prop := tables_ok t ∧ refs_ok t.

(** ** Tables *)

Lemma keyed_add {A} (key : A → Z) rows seq x :
  keyed key rows seq → key x = (seq + 1)%Z → keyed key (rows ++ [x]) (seq + 1).
Proof.
  intros (Hn & Hp & Hb) Hx. split_and!; [|lia|].
  - rewrite fmap_app. apply NoDup_app. split; [done|]. split; [|apply NoDup_singleton].
    intros k (y & -> & Hy)%list_elem_of_fmap Hk. simpl in Hk.
    apply list_elem_of_singleton in Hk. apply Hb in Hy. lia.
  - intros y [Hy| ->%list_elem_of_singleton]%elem_of_app; [|lia]. apply Hb in Hy. lia.
Qed.

Lemma keyed_except {A} (key : A → Z) p rows seq : keyed key rows seq → keyed key (except p rows) seq.
Proof.
  intros (Hn & Hp & Hb). split_and!; [by apply NoDup_where|done|].
  intros x [_ Hx]%elem_of_where. auto.
Qed.

Lemma keyed_update {A} (key : A → Z) p f rows seq :
  (∀ x, key (f x) = key x) → keyed key rows seq → keyed key (update_where p f rows) seq.
Proof.
  intros Hf (Hn & Hp & Hb). split_and!; [by rewrite fmap_update_where|done|].
  intros x (y & Hy & ->)%elem_of_update_where. destruct (p y); rewrite ?Hf; auto.
Qed.

Lemma unique_add {A B} (key : A → B) rows x :
  NoDup (key <$> rows) → (∀ y, y ∈ rows → key y ≠ key x) → NoDup (key <$> (rows ++ [x])).
Proof.
  intros Hn Hx. rewrite fmap_app. apply NoDup_app. split; [done|]. split; [|apply NoDup_singleton].
  intros k (y & -> & Hy)%list_elem_of_fmap Hk. simpl in Hk.
  apply list_elem_of_singleton in Hk. by apply (Hx y).
Qed.

Lemma existsb_false {A} (p : A → bool) (l : list A) :
  existsb p l = false ↔ ∀ x, x ∈ l → p x = false.
Proof.
  induction l as [|x l IH]; simpl.
  - split; [|done]. intros _ x Hx. by apply elem_of_nil in Hx.
  - rewrite orb_false_iff, IH. split.
    + intros [Hx Hl] y [->|Hy]%elem_of_cons; auto.
    + intros H. split; [apply H; left|]. intros y Hy. apply H. by right.
Qed.

#[export] Hint Resolve keyed_add keyed_except keyed_update NoDup_where : db.

(** Each way a statement changes one table keeps the tables well-formed. *)
Ltac wf_table :=
  let H := fresh in
  intros H; destruct H; constructor; simpl; eauto using sublist_NoDup with db.

Lemma wf_upd_DAGs p f t :
  (∀ d, d_dag_id (f d) = d_dag_id d) → (∀ d, dag_key (f d) = dag_key d) →
  tables_ok t → tables_ok (upd_DAGs p f t).
Proof. intros H1 H2. wf_table. by rewrite fmap_update_where. Qed.

Lemma wf_upd_DAG_Runs p f t :
  (∀ r, r_run_id (f r) = r_run_id r) → (∀ r, r_name (f r) = r_name r) →
  tables_ok t → tables_ok (upd_DAG_Runs p f t).
Proof. intros H1 H2. wf_table. by rewrite fmap_update_where. Qed.

Lemma wf_upd_Task_Runs p f t :
  (∀ r, trn_task_run_id (f r) = trn_task_run_id r) → tables_ok t → tables_ok (upd_Task_Runs p f t).
Proof. intros H1. wf_table. Qed.

Lemma wf_upd_Task_Pods p f t :
  (∀ r, pod_Pod_UID (f r) = pod_Pod_UID r) → tables_ok t → tables_ok (upd_Task_Pods p f t).
Proof. intros H1. wf_table. by rewrite fmap_update_where. Qed.

Lemma wf_add_DAG r t :
  (∀ k, d_dag_id (r k) = k) →
  (∀ d k, d ∈ tb_DAGs t → dag_key d ≠ dag_key (r k)) → tables_ok t → tables_ok (add_DAG r t).
Proof. intros H1 H2. wf_table. apply unique_add; auto. Qed.

Lemma wf_add_Task r t :
  (∀ k, tk_task_id (r k) = k) →
  (∀ d k, d ∈ tb_Tasks t → task_key d ≠ task_key (r k)) → tables_ok t → tables_ok (add_Task r t).
Proof. intros H1 H2. wf_table. apply unique_add; auto. Qed.

Lemma wf_add_DAG_Run r t :
  (∀ k, r_run_id (r k) = k) →
  (∀ d k, d ∈ tb_DAG_Runs t → r_name d ≠ r_name (r k)) → tables_ok t → tables_ok (add_DAG_Run r t).
Proof. intros H1 H2. wf_table. apply unique_add; auto. Qed.

Lemma wf_add_Task_Pod r t :
  (∀ p, p ∈ tb_Task_Pods t → pod_Pod_UID p ≠ pod_Pod_UID r) → tables_ok t → tables_ok (add_Task_Pod r t).
Proof. intros H. wf_table. apply unique_add; auto. Qed.

Lemma wf_add_DAG_Workspace r t : (∀ k, wk_id (r k) = k) → tables_ok t → tables_ok (add_DAG_Workspace r t).
Proof. intros H. wf_table. Qed.
Lemma wf_add_DAG_Parameter r t :
  (∀ k, dpr_parameter_id (r k) = k) → tables_ok t → tables_ok (add_DAG_Parameter r t).
Proof. intros H. wf_table. Qed.
Lemma wf_add_DAG_Task r t : (∀ k, dt_dag_task_id (r k) = k) → tables_ok t → tables_ok (add_DAG_Task r t).
Proof. intros H. wf_table. Qed.
Lemma wf_add_DAG_Run_Parameter r t :
  (∀ k, rpr_param_id (r k) = k) → tables_ok t → tables_ok (add_DAG_Run_Parameter r t).
Proof. intros H. wf_table. Qed.
Lemma wf_add_Task_Run r t : (∀ k, trn_task_run_id (r k) = k) → tables_ok t → tables_ok (add_Task_Run r t).
Proof. intros H. wf_table. Qed.
Lemma wf_add_Dependency r t : tables_ok t → tables_ok (add_Dependency r t).
Proof. wf_table. Qed.

Lemma wf_delete_DAGs p t : tables_ok t → tables_ok (set_DAGs (except p (tb_DAGs t)) (sq_DAGs t) t).
Proof. wf_table; by apply NoDup_where. Qed.
Lemma wf_delete_Tasks p t : tables_ok t → tables_ok (set_Tasks (except p (tb_Tasks t)) (sq_Tasks t) t).
Proof. wf_table; by apply NoDup_where. Qed.
Lemma wf_delete_DAG_Tasks p t :
  tables_ok t → tables_ok (set_DAG_Tasks (except p (tb_DAG_Tasks t)) (sq_DAG_Tasks t) t).
Proof. wf_table. Qed.
Lemma wf_delete_DAG_Runs p t :
  tables_ok t → tables_ok (set_DAG_Runs (except p (tb_DAG_Runs t)) (sq_DAG_Runs t) t).
Proof. wf_table; by apply NoDup_where. Qed.
Lemma wf_delete_Task_Runs p t :
  tables_ok t → tables_ok (set_Task_Runs (except p (tb_Task_Runs t)) (sq_Task_Runs t) t).
Proof. wf_table. Qed.
Lemma wf_delete_DAG_Run_Parameters p t :
  tables_ok t → tables_ok (set_DAG_Run_Parameters (except p (tb_DAG_Run_Parameters t))
               (sq_DAG_Run_Parameters t) t).
Proof. wf_table. Qed.
Lemma wf_delete_Task_Pods p t : tables_ok t → tables_ok (set_Task_Pods (except p (tb_Task_Pods t)) t).
Proof. wf_table; by apply NoDup_where. Qed.

#[export] Hint Resolve wf_add_DAG_Workspace wf_add_DAG_Parameter wf_add_DAG_Task
  wf_add_DAG_Run_Parameter wf_add_Task_Run wf_add_Dependency wf_delete_DAGs wf_delete_Tasks
  wf_delete_DAG_Tasks wf_delete_DAG_Runs wf_delete_Task_Runs wf_delete_DAG_Run_Parameters
  wf_delete_Task_Pods : db.
#[export] Hint Extern 3 (tables_ok (upd_DAGs _ _ _)) => (apply wf_upd_DAGs; [done|done|]) : db.
#[export] Hint Extern 3 (tables_ok (upd_DAG_Runs _ _ _)) => (apply wf_upd_DAG_Runs; [done|done|]) : db.
#[export] Hint Extern 3 (tables_ok (upd_Task_Runs _ _ _)) => (apply wf_upd_Task_Runs; [done|]) : db.
#[export] Hint Extern 3 (tables_ok (upd_Task_Pods _ _ _)) => (apply wf_upd_Task_Pods; [done|]) : db.

Lemma wf_new_dag name version ns r t :
  dag_clash name version ns t = false →
  (∀ k, d_dag_id (r k) = k) → (∀ k, dag_key (r k) = (name, version, ns)) → tables_ok t → tables_ok (add_DAG r t).
Proof.
  intros Hc Hk Hkey. apply wf_add_DAG; [done|]. intros d k Hd Heq.
  unfold dag_clash, is_dag in Hc. rewrite existsb_false in Hc. specialize (Hc d Hd).
  rewrite Hkey in Heq. unfold dag_key in Heq. simplify_eq.
  by rewrite !bool_decide_eq_true_2 in Hc by done.
Qed.

Lemma wf_new_task name version ns r t :
  task_clash name version ns t = false →
  (∀ k, tk_task_id (r k) = k) → (∀ k, task_key (r k) = (name, version, ns)) → tables_ok t → tables_ok (add_Task r t).
Proof.
  intros Hc Hk Hkey. apply wf_add_Task; [done|]. intros d k Hd Heq.
  unfold task_clash in Hc. rewrite existsb_false in Hc. specialize (Hc d Hd).
  rewrite Hkey in Heq. unfold task_key in Heq. simplify_eq.
  by rewrite !bool_decide_eq_true_2 in Hc by done.
Qed.

Lemma wf_new_run name r t :
  run_clash name t = false →
  (∀ k, r_run_id (r k) = k) → (∀ k, r_name (r k) = name) → tables_ok t → tables_ok (add_DAG_Run r t).
Proof.
  intros Hc Hk Hkey. apply wf_add_DAG_Run; [done|]. intros d k Hd Heq.
  unfold run_clash in Hc. rewrite existsb_false in Hc. specialize (Hc d Hd).
  rewrite Hkey in Heq. by rewrite bool_decide_eq_true_2 in Hc.
Qed.

Lemma wf_new_pod uid r t :
  pod_clash uid t = false → pod_Pod_UID r = uid → tables_ok t → tables_ok (add_Task_Pod r t).
Proof.
  intros Hc Hk. apply wf_add_Task_Pod. intros p Hp Heq.
  unfold pod_clash in Hc. rewrite existsb_false in Hc. specialize (Hc p Hp).
  by rewrite bool_decide_eq_true_2 in Hc by congruence.
Qed.

Lemma wf_new_id u t :
  bool_decide (u ∈ tb_IdTable t) = false → tables_ok t → tables_ok (set_IdTable (tb_IdTable t ++ [u]) t).
Proof.
  intros Hu%bool_decide_eq_false_1. wf_table.
  apply NoDup_app. split; [done|]. split; [|apply NoDup_singleton].
  by intros x Hx ->%list_elem_of_singleton.
Qed.

#[export] Hint Extern 4 (tables_ok (add_DAG _ _)) =>
  (eapply wf_new_dag; [eassumption|done|done|]) : db.
#[export] Hint Extern 4 (tables_ok (add_Task _ _)) =>
  (eapply wf_new_task; [eassumption|done|done|]) : db.
#[export] Hint Extern 4 (tables_ok (add_DAG_Run _ _)) =>
  (eapply wf_new_run; [eassumption|done|done|]) : db.
#[export] Hint Extern 4 (tables_ok (add_Task_Pod _ _)) =>
  (eapply wf_new_pod; [eassumption|done|]) : db.
#[export] Hint Resolve wf_new_id : db.

(** ** Operations *)

Lemma keeps_row_or {A} I (dflt : A) m : keeps I m → keeps I (row_or dflt m).
Proof.
  intros Hm. apply keeps_bind; [by apply keeps_try|].
  intros [a|[]]; apply keeps_reads; auto with store.
Qed.

Lemma keeps_wrap_err {A} I msg (m : M Store A) : keeps I m → keeps I (wrap_err msg m).
Proof.
  intros Hm. apply keeps_bind; [by apply keeps_try|]. intros []; apply keeps_reads; auto with store.
Qed.

Lemma keeps_insert_ret I table clash f key :
  (∀ t, I t → clash t = false → I (f t)) → keeps I (insert_ret table clash f key).
Proof.
  intros H. apply keeps_bind; [by apply keeps_insert|]. intros _. apply keeps_reads. auto with store.
Qed.

Lemma keeps_mapMM {A B} I (f : A → M Store B) l :
  (∀ x, keeps I (f x)) → keeps I (mapMM f l).
Proof.
  intros Hf. induction l as [|x l IH]; simpl; [by apply keeps_reads|].
  apply keeps_bind; [done|]. intros y. apply keeps_bind; [done|]. intros ys. by apply keeps_reads.
Qed.

Lemma keeps_update_returning {A} I (rows : Tables → list A) f :
  (∀ t, I t → I (f t)) → keeps I (update_returning rows f).
Proof.
  intros Hf. apply keeps_bind; [apply keeps_reads; auto with store|]. intros _.
  apply keeps_bind; [apply keeps_reads; auto with store|]. intros l.
  apply keeps_bind; [|intros _; destruct l; apply keeps_reads; auto with store].
  intros s HI. simpl. auto.
Qed.

Lemma keeps_lift {A} I (r : result A) : keeps I (lift r).
Proof. intros s HI. by destruct r. Qed.

Lemma keeps_uuid I u : keeps I (new_uuid u).
Proof. by intros s. Qed.

Lemma keeps_gets {A} I (f : Store → A) : keeps I (gets f).
Proof. by intros s. Qed.

Lemma keeps_ret {A} I (a : A) : keeps I (mret a).
Proof. by intros s. Qed.

Lemma keeps_throw {A} I e : keeps I (throw e : M Store A).
Proof. by intros s. Qed.

Lemma keeps_query {A} I (f : Tables → A) : keeps I (query f).
Proof. apply keeps_reads, reads_query. Qed.

Lemma keeps_query_row {A} I (f : Tables → list A) : keeps I (query_row f).
Proof. apply keeps_reads, reads_query_row. Qed.

Lemma keeps_stmt I : keeps I stmt.
Proof. apply keeps_reads, reads_stmt. Qed.

(** Walk through an operation down to its statements. *)
Ltac keeps_walk :=
  repeat first
    [ apply keeps_ret | apply keeps_throw | apply keeps_gets | apply keeps_query
    | apply keeps_query_row | apply keeps_lift | apply keeps_uuid | apply keeps_stmt
    | apply keeps_in_tx | apply keeps_row_or | apply keeps_wrap_err | apply keeps_try
    | apply keeps_foreach; intros ? | apply keeps_mapMM; intros ?
    | apply keeps_exec; intros ? ? | apply keeps_exec_count; intros ? ?
    | apply keeps_insert; intros ? ? ? | apply keeps_insert_ret; intros ? ? ?
    | apply keeps_update_returning; intros ? ?
    | apply keeps_bind; [|intros ?]
    | progress case_match ].

#[export] Hint Unfold done GetID GetDAGsToStartAndUpdate InsertDAG insertDAG setSuspended
  setInactive insertWorkspace insertTask createDependencyConnection connect_dependency
  insertParameter dagNameToDagId GetDagParameters DagExists GetWebhookDetails
  GetWorkspacePVCTemplate AddTask task_ref_params DeleteTask
  GetTaskScriptAndInjectorImage getTaskDeletionData DeleteDAG CreateDAGRun insert_run_param
  MarkDAGRunOutcome FindExistingDAGRun DagrunExists DeleteDagRun SuspendDagRun
  CheckIfAllTasksDone GetStartingTasks add_run MarkTaskAsStarted AddPendingTaskRun TaskRunExists
  IncrementAttempts SaveRetryEnv GetTaskRunStatus MarkTaskAsFailed getDAGIdFromRun
  getDependencyCounts getMetDependencies getRunnableTasks getTasksByIds getNextRunnableTasks
  fetchTaskParameters MarkSuccessAndGetNextTasks ShouldRerun MarkPodStatus AddPodDuration
  MarkConnectingTasksAsSuspended GetTaskRunInfo GetTaskForRun
  ClaimTasks lease_at RenewLease FinalizeClaimToRunning RecoverExpiredLeases ClaimTaskByID : db_ops.

Lemma keeps_runnable_loop I counts met tr : keeps I (runnable_loop counts met tr).
Proof.
  induction counts as [|[k n] counts IH]; simpl; keeps_walk; done.
Qed.

Lemma keeps_GetTaskRefsParameters I rs : keeps I (GetTaskRefsParameters rs).
Proof.
  induction rs as [|r rs IH]; simpl; [apply keeps_ret|].
  unfold task_ref_params. keeps_walk; done.
Qed.

Lemma wf_delete_tasks ids t : tables_ok t → tables_ok (delete_tasks ids t).
Proof. apply wf_delete_Tasks. Qed.

Lemma wf_deletes name ns t :
  tables_ok t → tables_ok (delete_run_parameters name ns t) ∧ tables_ok (delete_task_runs name ns t) ∧
         tables_ok (delete_runs name ns t) ∧ tables_ok (delete_dag_tasks name ns t) ∧
         tables_ok (delete_dags name ns t).
Proof. intros H. split_and!; unfold delete_run_parameters, delete_task_runs, delete_runs,
  delete_dag_tasks, delete_dags; auto with db. Qed.

Lemma keeps_wf_call env c : keeps tables_ok (run_call env c).
Proof.
  destruct c; simpl; autounfold with db_ops; keeps_walk;
    try (apply keeps_runnable_loop || apply keeps_GetTaskRefsParameters); eauto 4 using wf_delete_tasks with db;
    by eapply wf_deletes.
Qed.

(** ** The active version *)

Lemma active_latest_except p dags : active_latest dags → active_latest (except p dags).
Proof. intros H d d' [_ Hd]%elem_of_where [_ Hd']%elem_of_where. by apply H. Qed.

Lemma active_latest_update p f dags :
  (∀ d, dag_key (f d) = dag_key d) → (∀ d, d_active (f d) = d_active d) →
  active_latest dags → active_latest (update_where p f dags).
Proof.
  intros Hk Ha H d d' (x & Hx & ->)%elem_of_update_where (x' & Hx' & ->)%elem_of_update_where.
  assert (∀ y, d_name (if p y then f y else y) = d_name y ∧
    d_namespace (if p y then f y else y) = d_namespace y ∧
    d_version (if p y then f y else y) = d_version y ∧
    d_active (if p y then f y else y) = d_active y) as E.
  { intros y. destruct (p y); [|done]. specialize (Hk y). unfold dag_key in Hk.
    rewrite Ha. by simplify_eq. }
  destruct (E x) as (-> & -> & -> & ->), (E x') as (-> & -> & -> & _). by apply H.
Qed.

Lemma is_dag_true name ns d : is_dag name ns d = true ↔ d_name d = name ∧ d_namespace d = ns.
Proof.
  unfold is_dag. rewrite andb_true_iff. by rewrite !bool_decide_eq_true.
Qed.

Lemma almost_add name ns v r dags :
  is_dag name ns r = true → d_version r = v → active_latest dags → next_version name ns v dags →
  almost_latest name ns v (dags ++ [r]).
Proof.
  intros [Hn Hs]%is_dag_true Hv Ha Hb d d' Hd Hd' Hnm Hns Hact.
  apply elem_of_app in Hd as [Hd|Hd]; apply elem_of_app in Hd' as [Hd'|Hd'];
    try apply list_elem_of_singleton in Hd as ->;
    try apply list_elem_of_singleton in Hd' as ->; [by left; apply Ha| | |by left].
  - assert (is_dag name ns d = true) as Hd2 by (apply is_dag_true; split; congruence).
    destruct (Hb d Hd Hd2) as (Hle & d0 & Hd0 & [Hn0 Hs0]%is_dag_true & Hv0).
    right. split; [done|]. apply is_dag_true in Hd2 as [Hn2 Hs2].
    assert (d_version d0 <= d_version d)%Z by (apply Ha; congruence). lia.
  - left. assert (is_dag name ns d' = true) as Hd2 by (apply is_dag_true; split; congruence).
    destruct (Hb d' Hd' Hd2). lia.
Qed.

Lemma almost_deactivate name ns v dags :
  almost_latest name ns v dags →
  active_latest (update_where (λ d, is_dag name ns d && (d_version d =b (v - 1)%Z))
                   (set_active false) dags).
Proof.
  intros H d d' (x & Hx & ->)%elem_of_update_where (x' & Hx' & ->)%elem_of_update_where.
  assert (∀ b y, d_version (if b : bool then set_active false y else y) = d_version y ∧
    d_name (if b then set_active false y else y) = d_name y ∧
    d_namespace (if b then set_active false y else y) = d_namespace y) as E by by intros [].
  destruct (E (is_dag name ns x && (d_version x =b (v - 1)%Z)) x) as (-> & -> & ->).
  destruct (E (is_dag name ns x' && (d_version x' =b (v - 1)%Z)) x') as (-> & -> & ->).
  intros Hn Hs Ha. destruct (is_dag name ns x && (d_version x =b (v - 1)%Z)) eqn:Eb; [done|].
  destruct (H x x' Hx Hx' Hn Hs Ha) as [?|[Hd Hv]]; [done|].
  by rewrite Hd, bool_decide_eq_true_2 in Eb.
Qed.

(** The latest version is the one the query finds. *)
Lemma latest_next name ns t :
  next_version name ns
    (match latest_dag name ns t with Some d => d_version d + 1 | None => 0 end)%Z (tb_DAGs t).
Proof.
  intros d Hd Hname.
  assert (d ∈ where_ (is_dag name ns) (tb_DAGs t)) as Hw by by apply elem_of_where.
  unfold latest_dag. destruct (first_max d_version _) as [d0|] eqn:E.
  - pose proof (first_max_ge _ _ _ _ E Hw). split; [lia|].
    apply first_max_elem, elem_of_where in E as [? ?]. exists d0. split_and!; [done|done|lia].
  - apply first_max_None in E. rewrite E in Hw. by apply elem_of_nil in Hw.
Qed.

Lemma latest_id name ns t d :
  tables_ok t → latest_dag name ns t = Some d → d_dag_id d ≠ 0%Z.
Proof.
  intros Hok Hd. apply first_max_elem, elem_of_where in Hd as [_ Hd].
  destruct Hok as [(_ & _ & Hb) _ _ _ _ _ _ _ _ _ _ _ _]. apply Hb in Hd. lia.
Qed.

(** Reading the row a query selects, or nothing. *)
Lemma triple_row_or_None {A} P (f : Tables → option A) :
  triple P (row_or None (row ← query_row (λ t, option_list (f t)); mret (Some row)))
    (on_ok (λ o t, P t ∧ o = f t)).
Proof.
  intros s HP. unfold row_or, query_row, query, try, mbind, M_bind, gets, stmt.
  destruct (default false _); simpl; [done|].
  by destruct (f (st_tables s)) eqn:E; simpl; rewrite ?E.
Qed.

Lemma triple_and {A} P (m : M Store A) (Q1 Q2 : A → Tables → Prop) :
  triple P m (on_ok Q1) → triple P m (on_ok Q2) →
  triple P m (on_ok (λ a t, Q1 a t ∧ Q2 a t)).
Proof.
  intros H1 H2 s HP. specialize (H1 s HP). specialize (H2 s HP).
  by destruct (m s) as [[a|e] s'].
Qed.

Lemma insertDAG_almost env dag v ns h :
  triple (λ t, active_latest (tb_DAGs t) ∧ next_version (dag_Name dag) ns v (tb_DAGs t))
    (insertDAG env dag v ns h)
    (on_ok (λ _ t, almost_latest (dag_Name dag) ns v (tb_DAGs t))).
Proof.
  unfold insertDAG.
  eapply triple_bind; [apply triple_keeps; keeps_walk|]. intros nextTime.
  eapply triple_bind.
  { apply (triple_insert_ret _ _ _ _ _
      (λ _ t, almost_latest (dag_Name dag) ns v (tb_DAGs t))).
    intros t [Ha Hn] _. simpl. apply almost_add; [|done|done|done].
    by apply is_dag_true. }
  intros dagID. apply triple_keeps.
  autounfold with db_ops; keeps_walk; assumption.
Qed.

Lemma keeps_active_InsertDAG env dag ns :
  keeps (λ t, tables_ok t ∧ active_latest (tb_DAGs t)) (InsertDAG env dag ns).
Proof.
  apply keeps_tx, triple_and.
  { apply (triple_weaken tables_ok _ _ (λ _ t, tables_ok t)); [|by intros t []|done].
    apply triple_keeps. autounfold with db_ops; keeps_walk; eauto 4 with db. }
  eapply triple_bind; [apply triple_row_or_None|]. intros existing.
  destruct (match existing with Some d => _ | None => _ end) as [[[id version] hash] susp] eqn:E.
  eapply triple_bind; [apply triple_keeps, keeps_lift|]. intros hashValue.
  destruct (hash =b hashValue); [destruct (negb (susp =b _))|].
  - apply triple_weaken with (P := λ t, active_latest (tb_DAGs t))
      (Q := λ _ t, active_latest (tb_DAGs t)); [|by intros t [[] ?]|done].
    apply triple_keeps. unfold setSuspended. keeps_walk; by apply active_latest_update.
  - apply triple_throw.
  - eapply triple_bind.
    + eapply triple_weaken; [apply insertDAG_almost| |by intros a t Hx; exact Hx].
      intros t [[Hok Ha] ->]. split; [done|]. pose proof (latest_next (dag_Name dag) ns t) as Hn.
      destruct (latest_dag (dag_Name dag) ns t) as [d|] eqn:Ed; simplify_eq.
      * rewrite bool_decide_eq_false_2 by (by eapply latest_id). done.
      * done.
    + intros []. unfold setInactive. apply triple_exec. intros t Ht. by apply almost_deactivate.
Qed.

Lemma keeps_active_other env c :
  match c with
  | CInsertDAG _ _ => True
  | _ => keeps (λ t, active_latest (tb_DAGs t)) (run_call env c)
  end.
Proof.
  destruct c; simpl; try done; autounfold with db_ops; keeps_walk;
    try (apply keeps_runnable_loop || apply keeps_GetTaskRefsParameters); try assumption;
    (by apply active_latest_update) || (by apply active_latest_except).
Qed.

Lemma keeps_inv_call env c : keeps db_inv (run_call env c).
Proof.
  intros s HI. pose proof (keeps_wf_call env c s (proj1 HI)) as Hok.
  pose proof (keeps_active_other env c) as Ho.
  destruct c; try (split; [exact Hok | exact (Ho s (proj2 HI))]).
  assert (keeps db_inv (run_call env (CInsertDAG dag namespace))) as H; [|by apply H].
  apply keeps_bind; [apply keeps_active_InsertDAG | intros; apply keeps_ret].
Qed.

Lemma reachable_db_inv env s : db_reachable env s → db_inv (st_tables s).
Proof.
  assert (db_inv (st_tables empty_store)) as H0.
  { split; [constructor; simpl; (apply NoDup_nil_2 || (split_and!; [apply NoDup_nil_2|lia|];
      intros x Hx; by apply elem_of_nil in Hx))|].
    intros d d' Hd. by apply elem_of_nil in Hd. }
  unfold db_reachable. intros H. revert H0.
  induction H as [|s1 s2 s3 Hstep _ IH]; [done|]. intros H1. apply IH.
  destruct Hstep; [by apply keeps_inv_call | done].
Qed.

(** ** References *)

Lemma refs_add_DAG r t : refs_ok t → refs_ok (add_DAG r t).
Proof.
  intros [H1 H2 H3]. constructor; simpl; [| |done].
  - intros dt Hdt. apply H1 in Hdt. lia.
  - intros p Hp. apply H2 in Hp. lia.
Qed.

Lemma refs_add_DAG_Task r t :
  (∀ k, dt_dag_id (r k) <= sq_DAGs t)%Z → refs_ok t → refs_ok (add_DAG_Task r t).
Proof.
  intros Hr [H1 H2 H3]. constructor; simpl; [|done|].
  - intros dt [Hdt| ->%list_elem_of_singleton]%elem_of_app; auto.
  - intros d Hd. apply H3 in Hd. lia.
Qed.

Lemma refs_add_DAG_Parameter r t :
  (∀ k, dpr_dag_id (r k) <= sq_DAGs t)%Z → refs_ok t → refs_ok (add_DAG_Parameter r t).
Proof.
  intros Hr [H1 H2 H3]. constructor; simpl; [done| |done].
  intros dt [Hdt| ->%list_elem_of_singleton]%elem_of_app; auto.
Qed.

Lemma refs_add_Dependency d t :
  (dep_task_id d <= sq_DAG_Tasks t)%Z → (dep_depends_on d <= sq_DAG_Tasks t)%Z →
  refs_ok t → refs_ok (add_Dependency d t).
Proof.
  intros Hd1 Hd2 [H1 H2 H3]. constructor; simpl; [done|done|].
  intros d' [Hd| ->%list_elem_of_singleton]%elem_of_app; auto.
Qed.

Lemma refs_delete_dag_tasks name ns t : refs_ok t → refs_ok (delete_dag_tasks name ns t).
Proof. intros [H1 H2 H3]. constructor; simpl; [|done|done]. intros dt [_ Hdt]%elem_of_where. auto. Qed.

Lemma refs_same t t' :
  refs_ok t → tb_DAG_Tasks t' = tb_DAG_Tasks t → tb_DAG_Parameters t' = tb_DAG_Parameters t →
  tb_Dependencies t' = tb_Dependencies t → sq_DAGs t' = sq_DAGs t →
  sq_DAG_Tasks t' = sq_DAG_Tasks t → refs_ok t'.
Proof. intros [H1 H2 H3] E1 E2 E3 E4 E5. constructor; rewrite ?E1, ?E2, ?E3, ?E4, ?E5; done. Qed.

(** A query row that comes from a table. *)
Lemma triple_found {A} P (f : Tables → list A) (R : A → Tables → Prop) :
  (∀ t x, P t → x ∈ f t → R x t) →
  triple P (try (query_row f))
    (on_ok (λ r t, match r with Ok x => P t ∧ R x t | Err _ => P t end)).
Proof.
  intros HR. apply triple_try_read; [apply reads_query_row|].
  apply triple_query_row. intros t x l HP Hx. split; [done|].
  apply HR; [done|]. rewrite Hx. left.
Qed.

Lemma find_dag_task_elem dagID name dt t :
  dt ∈ find_dag_task dagID name t ↔
  dt_dag_id dt = dagID ∧ dt_name dt = name ∧ dt ∈ tb_DAG_Tasks t.
Proof.
  unfold find_dag_task. rewrite elem_of_where, andb_true_iff, !bool_decide_eq_true. tauto.
Qed.

Lemma dag_task_le t dt : tables_ok t → dt ∈ tb_DAG_Tasks t → (dt_dag_task_id dt <= sq_DAG_Tasks t)%Z.
Proof. intros Hok Hdt. destruct (wf_dag_tasks _ Hok) as (_ & _ & Hb). apply Hb in Hdt. lia. Qed.

Lemma connect_inserting dagID task v dep :
  triple (inserting dagID) (connect_dependency dagID task v dep)
    (on_ok (λ _ t, inserting dagID t)).
Proof.
  unfold connect_dependency. eapply triple_bind.
  { apply (triple_found _ _ (λ dt t, dt ∈ tb_DAG_Tasks t)).
    intros t x _ [_ Hx]%elem_of_where. by apply find_dag_task_elem in Hx as (_ & _ & ?). }
  intros [dt|e]; [|apply triple_throw]. eapply triple_bind.
  { apply (triple_found _ _ (λ dt t, dt ∈ tb_DAG_Tasks t)).
    intros t x _ Hx. destruct (first_max _ _) eqn:E; simpl in Hx;
      [apply list_elem_of_singleton in Hx as ->|by apply elem_of_nil in Hx].
    apply first_max_elem in E. by apply find_dag_task_elem in E as (_ & _ & ?). }
  intros [dt'|e]; [|case_match; apply triple_throw].
  apply triple_insert. intros t [[(Hok & Hr & Hs) Hdt] Hdt'] _.
  split; [by apply wf_add_Dependency|]. split; [|done].
  apply refs_add_Dependency; [by apply dag_task_le..|done].
Qed.

Lemma insertTask_inserting env dagID task ns v :
  triple (inserting dagID) (insertTask env dagID task ns v) (on_ok (λ _ t, inserting dagID t)).
Proof.
  unfold insertTask. eapply triple_bind.
  { apply (triple_keeps (inserting dagID)). keeps_walk;
      match goal with H : inserting _ _ |- _ => destruct H as (? & ? & ?) end;
      split; [eauto 4 with db|split; [by eapply refs_same|done]]. }
  intros taskId. apply triple_insert. intros t (Hok & Hr & Hs) _.
  split; [by apply wf_add_DAG_Task|]. split; [|done]. apply refs_add_DAG_Task; [|done].
  intros k. simpl. lia.
Qed.

Lemma insertDAG_refs env dag v ns h :
  triple (λ t, tables_ok t ∧ refs_ok t) (insertDAG env dag v ns h) (on_ok (λ _ t, refs_ok t)).
Proof.
  unfold insertDAG. eapply triple_bind; [apply triple_keeps; keeps_walk|]. intros nextTime.
  eapply triple_bind.
  { apply (triple_insert_ret _ _ _ _ _ inserting). intros t [Hok Hr] Hc.
    split; [eauto 4 with db|]. split; [by apply refs_add_DAG|done]. }
  intros dagID. eapply triple_bind.
  { apply (triple_keeps (inserting dagID)). unfold insertWorkspace. keeps_walk;
      match goal with H : inserting _ _ |- _ => destruct H as (? & ? & ?) end;
      split; [eauto 4 with db|split; [by eapply refs_same|done]]. }
  intros []. eapply triple_bind.
  { apply (triple_foreach (λ _, inserting dagID)). intros. apply insertTask_inserting. }
  intros []. eapply triple_bind.
  { apply (triple_foreach (λ _, inserting dagID)). intros task rest _.
    apply (triple_foreach (λ _, inserting dagID)). intros. apply connect_inserting. }
  intros []. apply triple_weaken with (P := inserting dagID) (Q := λ _, inserting dagID);
    [|done|by intros ? t (? & ? & ?)].
  apply (triple_foreach (λ _, inserting dagID)). intros p rest _. apply triple_insert.
  intros t (Hok & Hr & Hs) _. split; [eauto 4 with db|]. split; [|done].
  apply refs_add_DAG_Parameter; [|done]. intros k. simpl. lia.
Qed.

Lemma keeps_refs_InsertDAG env dag ns : keeps db_refs (InsertDAG env dag ns).
Proof.
  apply keeps_tx, triple_and.
  { apply (triple_weaken tables_ok _ _ (λ _ t, tables_ok t)); [|by intros t []|done].
    apply triple_keeps. autounfold with db_ops; keeps_walk; eauto 4 with db. }
  eapply triple_bind; [apply triple_row_or_None|]. intros existing.
  destruct (match existing with Some d => _ | None => _ end) as [[[id version] hash] susp] eqn:E.
  eapply triple_bind; [apply triple_keeps, keeps_lift|]. intros hashValue.
  destruct (hash =b hashValue); [destruct (negb (susp =b _))|].
  - apply triple_weaken with (P := refs_ok) (Q := λ _, refs_ok); [|by intros t [[] ?]|done].
    apply triple_keeps. unfold setSuspended. keeps_walk; by eapply refs_same.
  - apply triple_throw.
  - eapply triple_bind.
    + eapply triple_weaken; [apply insertDAG_refs|by intros t [? _]|by intros a t Hx; exact Hx].
    + intros []. unfold setInactive. apply triple_exec. intros t Ht. by eapply refs_same.
Qed.

Lemma keeps_refs_other env c :
  match c with CInsertDAG _ _ => True | _ => keeps refs_ok (run_call env c) end.
Proof.
  destruct c; simpl; try done; autounfold with db_ops; keeps_walk;
    try (apply keeps_runnable_loop || apply keeps_GetTaskRefsParameters);
    (by apply refs_delete_dag_tasks) || (by eapply refs_same).
Qed.

Lemma keeps_refs_call env c : keeps db_refs (run_call env c).
Proof.
  intros s HI. pose proof (keeps_wf_call env c s (proj1 HI)) as Hok.
  pose proof (keeps_refs_other env c) as Ho.
  destruct c; try (split; [exact Hok | exact (Ho s (proj2 HI))]).
  assert (keeps db_refs (run_call env (CInsertDAG dag namespace))) as H; [|by apply H].
  apply keeps_bind; [apply keeps_refs_InsertDAG | intros; apply keeps_ret].
Qed.

Lemma reachable_refs env s : db_reachable env s → refs_ok (st_tables s).
Proof.
  unfold db_reachable. intros H.
  assert (db_refs (st_tables empty_store)) as H0.
  { split; [apply (reachable_db_inv env empty_store), rtc_refl|].
    constructor; simpl; intros x Hx; by apply elem_of_nil in Hx. }
  revert H0. induction H as [|s1 s2 s3 Hstep _ IH]; [by intros []|]. intros H1. apply IH.
  destruct Hstep; [by apply keeps_refs_call | done].
Qed.

Lemma run_calls_reachable env cs s : db_reachable env s → db_reachable env (run_calls env cs s).
Proof.
  revert s. induction cs as [|c cs IH]; intros s Hs; [done|]. apply IH.
  eapply rtc_r; [exact Hs|apply db_call].
Qed.

(** An empty database at a given time. *)
Lemma fresh_reachable env faults now zone : db_reachable env (mkStore emptyTables faults now zone 0).
Proof. apply rtc_once, (db_world env empty_store). Qed.

(** ** Calls under a quiet schedule *)

(** When no statement fails now, none will fail afterwards. *)
Definition quiet {A} (m : M Store A) : Prop := ∀ s, nofault s → nofault (m s).2.

Lemma quiet_ret {A} (a : A) : quiet (mret a).
Proof. by intros s. Qed.
Lemma quiet_throw {A} e : quiet (throw (A := A) e).
Proof. by intros s. Qed.
Lemma quiet_gets {A} (f : Store → A) : quiet (gets f).
Proof. by intros s. Qed.
Lemma quiet_modify f : quiet (modify (λ s, set_tables (f s) s)).
Proof. by intros s. Qed.
Lemma quiet_bind {A B} (m : M Store A) (f : A → M Store B) :
  quiet m → (∀ a, quiet (f a)) → quiet (m ≫= f).
Proof.
  intros Hm Hf s Hs. specialize (Hm s Hs). unfold mbind, M_bind.
  destruct (m s) as [[a|e] s']; simpl in *; [by apply Hf|done].
Qed.
Lemma quiet_try {A} (m : M Store A) : quiet m → quiet (try m).
Proof. intros Hm s Hs. specialize (Hm s Hs). unfold try. by destruct (m s). Qed.
Lemma quiet_stmt : quiet stmt.
Proof. intros [t f n z u] Hf. unfold nofault in Hf. simpl in Hf. by subst. Qed.
Lemma quiet_foreach {A} (f : A → M Store unit) l : (∀ a, quiet (f a)) → quiet (foreach f l).
Proof. intros Hf. induction l; [apply quiet_ret|]. by apply quiet_bind. Qed.
Lemma quiet_in_tx {A} ob oc (m : M Store A) : quiet m → quiet (in_tx ob oc m).
Proof.
  intros Hm s Hs. unfold in_tx. pose proof (quiet_stmt s Hs) as H0.
  destruct (stmt s) as [[[]|e] s0]; simpl in *; [|done].
  specialize (Hm s0 H0). destruct (m s0) as [[a|e] s1]; simpl in *; [|done].
  pose proof (quiet_stmt s1 Hm) as H1. by destruct (stmt s1) as [[[]|e] s2].
Qed.

(** Decompose an operation into statements. *)
Ltac quiet_walk :=
  repeat first
    [ apply quiet_ret | apply quiet_throw | apply quiet_gets | apply quiet_modify | apply quiet_stmt
    | apply quiet_in_tx | apply quiet_try | apply quiet_foreach; intros ?
    | apply quiet_bind; [|intros ?] | progress case_match
    | progress unfold query_row, query, exec, insert, insert_ret, wrap_err ].

(** ** Failing calls *)

Lemma reads_row_or {A} (dflt : A) m : reads m → reads (row_or dflt m).
Proof.
  intros Hm. apply reads_bind; [by apply reads_try|]. intros [a|[]]; auto with store.
Qed.

Lemma reads_wrap_err {A} msg (m : M Store A) : reads m → reads (wrap_err msg m).
Proof. intros Hm. apply reads_bind; [by apply reads_try|]. intros []; auto with store. Qed.

Lemma reads_lift {A} (r : result A) : reads (lift r).
Proof. intros s. by destruct r. Qed.

Ltac reads_walk :=
  repeat first
    [ apply reads_ret | apply reads_throw | apply reads_gets | apply reads_query
    | apply reads_query_row | apply reads_lift | apply reads_uuid
    | apply reads_row_or | apply reads_wrap_err | apply reads_try
    | apply reads_bind; [|intros ?]
    | progress case_match ].

Lemma reads_GetTaskRefsParameters rs : reads (GetTaskRefsParameters rs).
Proof.
  induction rs as [|r rs IH]; simpl; [apply reads_ret|].
  unfold task_ref_params. reads_walk; done.
Qed.

Lemma atomic_done {A} (m : M Store A) : atomic m → atomic (done m).
Proof. apply (atomic_bind_ret m (λ _, tt)). Qed.

Lemma atomic_insert_ret table clash f key : atomic (insert_ret table clash f key).
Proof.
  intros s. pose proof (atomic_insert table clash f s) as H.
  unfold insert_ret, mbind, M_bind. by destruct (insert table clash f s) as [[[]|e] s'].
Qed.

(** A call that reports an update of no row has changed nothing. *)
Lemma update_where_none {A} (p : A → bool) f l :
  count_where p l = 0%Z → update_where p f l = l.
Proof.
  unfold count_where, update_where, where_. intros H.
  assert (List.filter p l = []) as Hn by (apply nil_length_inv; lia). clear H.
  induction l as [|x l IH]; simpl in *; [done|].
  destruct (p x); [done|]. f_equal. by apply IH.
Qed.

Lemma set_Task_Runs_same t : set_Task_Runs (tb_Task_Runs t) (sq_Task_Runs t) t = t.
Proof. by destruct t. Qed.

Lemma atomic_counted (p : TaskRunRow → bool) f e :
  atomic (rows ← exec_count (λ t, count_where p (tb_Task_Runs t)) (upd_Task_Runs p f);
          if rows =b 0%Z then throw e else mret tt).
Proof.
  intros s. unfold exec_count, mbind, M_bind, gets, modify. pose proof (stmt_tables s) as Hs.
  destruct (stmt s) as [[[]|e'] s']; simpl in *; [|done].
  case_bool_decide as Hc; [|done]. simpl. intros _. unfold upd_Task_Runs.
  by rewrite update_where_none, set_Task_Runs_same.
Qed.

Lemma atomic_try_map {A B} (m : M Store A) (f : A → B) (g : GoError → GoError) :
  atomic m →
  atomic (try m ≫= λ r, match r with Ok a => mret (f a) | Err e => throw (g e) end).
Proof.
  intros Hm s. specialize (Hm s). unfold try, mbind, M_bind.
  by destruct (m s) as [[a|e] s'].
Qed.

Lemma atomic_call env c : is_ClaimTaskByID c = false → atomic (run_call env c).
Proof.
  intros Hc. destruct c; try done; apply atomic_done;
    try apply atomic_in_tx; try apply atomic_insert_ret; try apply atomic_exec;
    try (apply atomic_reads; autounfold with db_ops; reads_walk;
         try apply reads_GetTaskRefsParameters; done).
  - apply atomic_bind_read; [apply reads_try, reads_query_row|].
    intros [u|[]]; try (apply atomic_reads; solve [auto with store]).
    apply atomic_bind_read; [apply reads_uuid|]. intros u.
    apply (atomic_try_map _ (λ _, u)), atomic_insert.
  - apply atomic_bind_read; [unfold dagNameToDagId; reads_walk|]. intros dagId.
    apply atomic_bind_read; [reads_walk|].
    intros [u|[]]; try (apply atomic_reads; solve [auto with store]). apply atomic_in_tx.
  - apply atomic_bind_read; [apply reads_gets|]. intros lease. apply atomic_counted.
  - apply atomic_counted.
  - apply atomic_bind_read; [apply reads_gets|]. intros now. apply atomic_exec_count.
Qed.

(** ** Properties *)

(** C29: In every state the database can reach, through any calls with any of
    their statements failing, the keys of every table are unique and below the
    counters, the UNIQUE constraints hold, no row refers to the key of a DAG or
    a task that was never given out, and a DAG has at most one active version,
    which is its latest. *)
Theorem database_invariant (env : DbEnv) (s : Store) (Hs : db_reachable env s) :
  tables_ok (st_tables s) ∧ refs_ok (st_tables s) ∧
  ∀ d d', d ∈ tb_DAGs (st_tables s) → d' ∈ tb_DAGs (st_tables s) →
    d_name d = d_name d' → d_namespace d = d_namespace d' → d_active d = true →
    (d_version d' <= d_version d)%Z ∧ (d_active d' = true → d' = d).
Proof.
  destruct (reachable_db_inv env s Hs) as [Hok Ha]. split; [done|].
  split; [by eapply reachable_refs|].
  intros d d' Hd Hd' Hn Hns Hact. split; [by apply Ha|]. intros Hact'.
  assert (dag_key d' = dag_key d) as Hk.
  { unfold dag_key. rewrite Hn, Hns. do 2 f_equal.
    apply Z.le_antisymm; by apply Ha. }
  pose proof (wf_dag_keys _ Hok) as tb_unique.
  apply list_elem_of_lookup in Hd as [i Hi], Hd' as [j Hj].
  assert (i = j) as ->; [|congruence].
  eapply NoDup_lookup; [exact tb_unique| |]; rewrite list_lookup_fmap.
  - rewrite Hi. reflexivity.
  - rewrite Hj. simpl. by rewrite Hk.
Qed.

Lemma demo_reachable :
  db_reachable demo_env (run_call demo_env (CInsertDAG demo_dag "default") empty_store).2.
Proof. apply rtc_once, db_call. Qed.

Lemma database_invariant_witness :
  tables_ok (st_tables (run_call demo_env (CInsertDAG demo_dag "default") empty_store).2).
Proof. exact (proj1 (database_invariant demo_env _ demo_reachable)). Defined.

(** C36: A call that fails leaves the tables as they were, whichever of its
    statements failed; claiming a task by its id, which updates and then reads
    outside a transaction, is the exception. *)
Theorem failed_calls_change_nothing (env : DbEnv) (c : DbCall) (s : Store)
    (Hc : is_ClaimTaskByID c = false) (Hf : is_ok (run_call env c s).1 = false) :
  st_tables (run_call env c s).2 = st_tables s.
Proof. by apply atomic_call. Qed.

(** The fifth statement, the insertion of a task, fails. *)
Lemma failed_calls_change_nothing_witness :
  st_tables (run_call demo_env (CInsertDAG demo_dag "default")
    (mkStore emptyTables [false; false; false; false; true] 0 0 0)).2 = emptyTables.
Proof.
  apply (failed_calls_change_nothing demo_env (CInsertDAG demo_dag "default")
    (mkStore emptyTables [false; false; false; false; true] 0 0 0)); vm_compute; reflexivity.
Defined.
