(* ===== verification/StoredDag.v ===== *)
(** * What [InsertDAG] stores (internal/db/sqliteManager.go)

    The functional specification of the insertion of a DAG: the rows of a new
    version carry its tasks and exactly its dependency relation, the previous
    version is deactivated, and nothing else changes. *)

From S2P Require Import Prelude Api Graph DagValidation Store SqliteDag Database.
Import DagDb Calls.
Local Open Scope kontroler_scope.

(** ** Specification *)

(** In DAG [id], task [a] is recorded to run after task [b]. *)
Definition stored_edge (t : Tables) (id : Z) (a b : string) : Prop :=
  ∃ d dta dtb, d ∈ tb_Dependencies t ∧ dta ∈ tb_DAG_Tasks t ∧ dtb ∈ tb_DAG_Tasks t ∧
    dt_dag_id dta = id ∧ dt_dag_id dtb = id ∧ dt_name dta = a ∧ dt_name dtb = b ∧
    dep_task_id d = dt_dag_task_id dta ∧ dep_depends_on d = dt_dag_task_id dtb.

Definition dag_task_rows (t : Tables) (id : Z) : list DagTaskRow :=
  where_ (λ dt, dt_dag_id dt =b id) (tb_DAG_Tasks t).

(** The row of Tasks a task of the spec stands for. *)
Definition task_matches (task : TaskSpec) (k : TaskRow) : Prop :=
  match ts_TaskRef task with
  | Some ref => tk_name k = tr_Name ref ∧ tk_version k = tr_Version ref ∧ tk_inline k = false
  | None =>
      tk_inline k = true ∧ tk_command k = ts_Command task ∧ tk_args k = ts_Args task ∧
      tk_image k = ts_Image task ∧ tk_parameters k = ts_Parameters task ∧
      tk_backoffLimit k = bo_Limit (ts_Backoff task) ∧
      tk_isConditional k = co_Enabled (ts_Conditional task) ∧
      tk_retryCodes k = co_RetryCodes (ts_Conditional task) ∧
      tk_podTemplate k = ts_PodTemplate task ∧ tk_script k = ts_Script task ∧
      tk_scriptInjectorImage k = ts_ScriptInjectorImage task
  end.

(** A row of DAG_Tasks for a task of DAG [id]. *)
Definition row_for (t : Tables) (id : Z) (task : TaskSpec) (dt : DagTaskRow) : Prop :=
  dt_dag_id dt = id ∧ dt_name dt = ts_Name task ∧ dt_version dt = getTaskVersion task ∧
  ∃ k, k ∈ tb_Tasks t ∧ tk_task_id k = dt_task_id dt ∧ task_matches task k.

Definition param_row_for (id : Z) (p : DagParameterSpec) (row : DagParameterRow) : Prop :=
  dpr_dag_id row = id ∧ dpr_name row = dp_Name p ∧
  (dp_DefaultValue p ≠ "" → dpr_isSecret row = false ∧ dpr_defaultValue row = dp_DefaultValue p) ∧
  (dp_DefaultValue p = "" →
   dpr_isSecret row = true ∧ dpr_defaultValue row = dp_DefaultFromSecret p).

(** The version a DAG gets: the next one after the latest, 0 for the first. *)
Definition version_after (o : option DagRow) : Z :=
  match o with Some d => d_version d + 1 | None => 0 end%Z.

Definition hash_of (o : option DagRow) : string :=
  match o with Some d => d_hash d | None => "" end.

(** What the insertion needs of the spec, of the library calls and of the
    database: no statement fails, the digest is new and the schedule parses,
    task names are unique, dependencies and references exist, UUIDs are
    fresh. *)
Record insertable (env : DbEnv) (dag : DAG) (ns h : string) (s : Store) : Prop := {
  in_nofault : nofault s;
  in_ok : tables_ok (st_tables s);
  in_refs : refs_ok (st_tables s);
  in_digest : hashDagSpec env (dag_Spec dag) = Ok h;
  in_new : hash_of (latest_dag (dag_Name dag) ns (st_tables s)) ≠ h;
  in_cron : ds_Schedule (dag_Spec dag) = "" ∨
    ∃ f, cron_Parse env (ds_Schedule (dag_Spec dag)) = Ok f;
  in_names : NoDup (task_names (ds_Task (dag_Spec dag)));
  in_exist : ∀ a b, depends (ds_Task (dag_Spec dag)) a b →
    b ∈ task_names (ds_Task (dag_Spec dag));
  in_taskrefs : ∀ task ref, task ∈ ds_Task (dag_Spec dag) → ts_TaskRef task = Some ref →
    ∃ k, k ∈ tb_Tasks (st_tables s) ∧ task_matches task k;
  in_uuid_inj : ∀ m n, uuid_New env m = uuid_New env n → m = n;
  in_uuid_fresh : ∀ n k, st_uuids s <= n → k ∈ tb_Tasks (st_tables s) →
    tk_name k ≠ uuid_New env n
}.

(** The tables the task loop leaves, for the tasks it went through. *)
Record tasks_stored (env : DbEnv) (t0 : Tables) (id : Z) (pre : list TaskSpec)
    (new : list DagTaskRow) (s : Store) : Prop := {
  ts_nofault : nofault s;
  ts_tables_ok : tables_ok (st_tables s);
  ts_dags : tb_DAGs (st_tables s) = tb_DAGs t0 ∧ sq_DAGs (st_tables s) = sq_DAGs t0;
  ts_deps : tb_Dependencies (st_tables s) = tb_Dependencies t0;
  ts_params : tb_DAG_Parameters (st_tables s) = tb_DAG_Parameters t0;
  ts_rows : tb_DAG_Tasks (st_tables s) = tb_DAG_Tasks t0 ++ new;
  ts_seq : (sq_DAG_Tasks t0 <= sq_DAG_Tasks (st_tables s))%Z;
  ts_ids : ∀ dt, dt ∈ new → (sq_DAG_Tasks t0 < dt_dag_task_id dt)%Z;
  ts_for : Forall2 (row_for (st_tables s) id) pre new;
  ts_old : ∀ k, k ∈ tb_Tasks t0 → k ∈ tb_Tasks (st_tables s);
  ts_fresh : ∀ n k, st_uuids s <= n → k ∈ tb_Tasks (st_tables s) → tk_name k ≠ uuid_New env n
}.

(** What the tables hold after the insertion of version [v] of a DAG. *)
Record dag_stored (dag : DAG) (ns h : string) (v : Z) (t0 t' : Tables) : Prop := {
  sd_dags : ∃ d,
    tb_DAGs t' = update_where (λ d, is_dag (dag_Name dag) ns d && (d_version d =b (v - 1)%Z))
                   (set_active false) (tb_DAGs t0) ++ [d] ∧
    d_dag_id d = (sq_DAGs t0 + 1)%Z ∧ d_name d = dag_Name dag ∧ d_namespace d = ns ∧
    d_version d = v ∧ d_hash d = h ∧ d_active d = true ∧
    d_schedule d = ds_Schedule (dag_Spec dag) ∧ d_suspended d = ds_Suspended (dag_Spec dag) ∧
    d_taskCount d = Z.of_nat (length (ds_Task (dag_Spec dag))) ∧
    (is_Some (d_nexttime d) ↔ ds_Schedule (dag_Spec dag) ≠ "");
  sd_tasks : Forall2 (row_for t' (sq_DAGs t0 + 1)) (ds_Task (dag_Spec dag))
               (dag_task_rows t' (sq_DAGs t0 + 1));
  sd_edges : ∀ a b, stored_edge t' (sq_DAGs t0 + 1) a b ↔ depends (ds_Task (dag_Spec dag)) a b;
  sd_params : Forall2 (param_row_for (sq_DAGs t0 + 1)) (ds_Parameters (dag_Spec dag))
    (where_ (λ p, dpr_dag_id p =b (sq_DAGs t0 + 1)%Z) (tb_DAG_Parameters t'));
  sd_others : ∀ id a b, id ≠ (sq_DAGs t0 + 1)%Z →
    dag_task_rows t' id = dag_task_rows t0 id ∧ (stored_edge t' id a b ↔ stored_edge t0 id a b)
}.

(** The row [insertDAG] adds. *)
Definition new_dag_row (dag : DAG) (v : Z) (ns h : string) (nt : option Z) (k : Z) : DagRow :=
  mkDagRow k (dag_Name dag) v h (ds_Schedule (dag_Spec dag)) ns true
    (Z.of_nat (length (ds_Task (dag_Spec dag)))) nt (wh_URL (ds_Webhook (dag_Spec dag)))
    (wh_VerifySSL (ds_Webhook (dag_Spec dag))) None (ds_Suspended (dag_Spec dag)).

(** The tables once the row of the DAG, and its workspace, are there. *)
Definition started_insert (t0 : Tables) (d : DagRow) (t1 : Tables) : Prop :=
  tb_DAGs t1 = tb_DAGs t0 ++ [d] ∧ sq_DAGs t1 = (sq_DAGs t0 + 1)%Z ∧
  tb_DAG_Tasks t1 = tb_DAG_Tasks t0 ∧ sq_DAG_Tasks t1 = sq_DAG_Tasks t0 ∧
  tb_Tasks t1 = tb_Tasks t0 ∧ tb_Dependencies t1 = tb_Dependencies t0 ∧
  tb_DAG_Parameters t1 = tb_DAG_Parameters t0 ∧ tables_ok t1.

Definition id_of (new : list DagTaskRow) (name : string) : Z :=
  default 0%Z (dt_dag_task_id <$> head (where_ (λ dt, dt_name dt =b name) new)).

Definition edge_rows (new : list DagTaskRow) (task : TaskSpec) : list DependencyRow :=
  (λ dep, mkDependencyRow (id_of new (ts_Name task)) (id_of new dep)) <$> ts_RunAfter task.

(** ** Steps *)

(** A loop whose body succeeds: the invariant follows what it went through. *)
Lemma wp_foreach_ok {B} (I : list B → Store → Prop) (f : B → M Store unit) l s :
  (∀ pre x post s', l = pre ++ x :: post → I pre s' →
     wp (f x) s' (λ r s'', r = Ok tt ∧ I (pre ++ [x]) s'')) →
  I [] s → wp (foreach f l) s (λ r s', r = Ok tt ∧ I l s').
Proof.
  enough (∀ pre s, (∀ pre' x post s', pre ++ l = pre' ++ x :: post → I pre' s' →
      wp (f x) s' (λ r s'', r = Ok tt ∧ I (pre' ++ [x]) s'')) →
    I pre s → wp (foreach f l) s (λ r s', r = Ok tt ∧ I (pre ++ l) s')) as H
    by (intros Hf HI; exact (H [] s Hf HI)).
  clear s. induction l as [|x l IH]; intros pre s Hf HI; simpl.
  - apply wp_ret. by rewrite app_nil_r.
  - apply wp_bind. eapply wp_mono; [by apply (Hf pre x l)|].
    intros r s' [-> HI'].
    assert (pre ++ x :: l = (pre ++ [x]) ++ l) as E by by rewrite <- app_assoc.
    rewrite E in Hf |- *. by apply IH.
Qed.

Lemma wp_row_or_None {A} (f : Tables → option A) s (Q : result (option A) → Store → Prop) :
  nofault s → Q (Ok (f (st_tables s))) s →
  wp (row_or None (row ← query_row (λ t, option_list (f t)); mret (Some row))) s Q.
Proof.
  intros Hn HQ. unfold row_or. apply wp_bind, wp_try, wp_bind, wp_query_row_nofault; [done|].
  destruct (f (st_tables s)); simpl; by apply wp_ret.
Qed.

Lemma wp_lift_ok {A} (r : result A) a s (Q : result A → Store → Prop) :
  r = Ok a → Q (Ok a) s → wp (lift r) s Q.
Proof. by intros ->. Qed.

Lemma wp_insert_ret table clash f key s (Q : result Z → Store → Prop) :
  nofault s → clash (st_tables s) = false →
  Q (Ok (key (f (st_tables s)))) (set_tables (f (st_tables s)) s) →
  wp (insert_ret table clash f key) s Q.
Proof.
  intros Hn Hc HQ. unfold insert_ret. apply wp_bind, wp_insert_nofault; [done|].
  rewrite Hc. by apply wp_gets.
Qed.

Lemma row_for_mono t t' id task dt :
  (∀ k, k ∈ tb_Tasks t → k ∈ tb_Tasks t') → row_for t id task dt → row_for t' id task dt.
Proof. intros H (? & ? & ? & k & Hk & ?). split_and!; try done. exists k. eauto. Qed.

Lemma clash_free env ns version t n :
  (∀ k, k ∈ tb_Tasks t → tk_name k ≠ uuid_New env n) →
  task_clash (uuid_New env n) version ns t = false.
Proof.
  intros H. unfold task_clash. apply existsb_false. intros k Hk.
  rewrite bool_decide_eq_false_2; [done|]. by apply H.
Qed.

(** One round of the task loop. *)
Lemma insertTask_stored env ns t0 id pre new task s :
  (∀ m n, uuid_New env m = uuid_New env n → m = n) →
  (∀ ref, ts_TaskRef task = Some ref → ∃ k, k ∈ tb_Tasks t0 ∧ task_matches task k) →
  tasks_stored env t0 id pre new s →
  wp (insertTask env id task ns (getTaskVersion task)) s
    (λ r s', r = Ok tt ∧ ∃ dt, tasks_stored env t0 id (pre ++ [task]) (new ++ [dt]) s').
Proof.
  intros Hinj Href [Hn Hok [Hd1 Hd2] Hdep Hpar Hrows Hseq Hids Hfor Hold Hfr]. unfold insertTask.
  apply wp_bind. destruct (ts_TaskRef task) as [ref|] eqn:Eref.
  - destruct (Href ref eq_refl) as (k & Hk & Hm).
    apply wp_query_row_nofault; [done|].
    destruct (where_ _ (tb_Tasks (st_tables s))) as [|k' l] eqn:Ew; simpl.
    { exfalso. rewrite where_nil in Ew. specialize (Ew k (Hold k Hk)).
      unfold task_matches in Hm. rewrite Eref in Hm. destruct Hm as (E1 & E2 & E3).
      by rewrite E1, E2, E3, !bool_decide_eq_true_2 in Ew by done. }
    assert (k' ∈ where_ (λ k, (tk_name k =b tr_Name ref) && negb (tk_inline k)
                       && (tk_version k =b tr_Version ref)) (tb_Tasks (st_tables s)))
      as [Hp Hk']%elem_of_where by (rewrite Ew; left).
    apply wp_insert_nofault; [done|]. split; [done|].
    eexists. split; simpl; try done.
    + by apply wf_add_DAG_Task.
    + by rewrite Hrows, <- app_assoc.
    + lia.
    + intros dt [Hdt| ->%list_elem_of_singleton]%elem_of_app; simpl; [by apply Hids|lia].
    + apply Forall2_app; [eapply Forall2_impl; [exact Hfor|];
        intros; eapply row_for_mono; [|eassumption]; done|].
      constructor; [|done]. split_and!; try done. exists k'. split_and!; [done|done|].
      unfold task_matches. rewrite Eref.
      rewrite !andb_true_iff, !bool_decide_eq_true, negb_true_iff in Hp. tauto.
  - apply wp_bind. unfold wp at 1, new_uuid; simpl.
    apply wp_insert_ret; [done|apply clash_free; intros; by apply Hfr|]. simpl.
    apply wp_insert_nofault; [done|]. split; [done|]. eexists. split; simpl; try done.
    + apply wf_add_DAG_Task; [done|].
      apply (wf_new_task (uuid_New env (st_uuids s)) (getTaskVersion task) ns); [|done|done|done].
      apply clash_free. intros; by apply Hfr.
    + by rewrite Hrows, <- app_assoc.
    + lia.
    + intros dt [Hdt| ->%list_elem_of_singleton]%elem_of_app; simpl; [by apply Hids|lia].
    + apply Forall2_app.
      * eapply Forall2_impl; [exact Hfor|]. intros; eapply row_for_mono; [|eassumption].
        simpl. intros; apply elem_of_app; by left.
      * constructor; [|done]. split_and!; try done.
        eexists. split; [apply elem_of_app; right; by apply list_elem_of_singleton|].
        split; [done|]. unfold task_matches. by rewrite Eref.
    + intros k Hk. apply elem_of_app. left. auto.
    + intros n k Hle [Hk| ->%list_elem_of_singleton]%elem_of_app; [apply Hfr; [lia|done]|].
      simpl. intros Heq%Hinj. lia.
Qed.

(** The task loop. *)
Lemma insertTasks_stored env ns t0 id tasks s :
  (∀ m n, uuid_New env m = uuid_New env n → m = n) →
  (∀ task ref, task ∈ tasks → ts_TaskRef task = Some ref →
    ∃ k, k ∈ tb_Tasks t0 ∧ task_matches task k) →
  tasks_stored env t0 id [] [] s →
  wp (foreach (λ task, insertTask env id task ns (getTaskVersion task)) tasks) s
    (λ r s', r = Ok tt ∧ ∃ new, tasks_stored env t0 id tasks new s').
Proof.
  intros Hinj Href H0.
  apply (wp_foreach_ok (λ pre s', ∃ new, tasks_stored env t0 id pre new s')); [|by exists []].
  intros pre task post s' -> [new Hnew].
  eapply wp_mono; [apply insertTask_stored; [done| |exact Hnew]|].
  - intros ref. apply Href. apply elem_of_app. right. left.
  - intros r s'' [-> [dt Hdt]]. split; [done|]. by exists (new ++ [dt]).
Qed.

(** ** Looking up the new rows *)

Section lookups.
Context (t0 : Tables) (id : Z) (tasks : list TaskSpec) (new : list DagTaskRow) (t : Tables).
Context (Hrows : tb_DAG_Tasks t = tb_DAG_Tasks t0 ++ new).
Context (Hold : ∀ dt, dt ∈ tb_DAG_Tasks t0 → dt_dag_id dt ≠ id).
Context (Hfor : Forall2 (row_for t id) tasks new).
Context (Hnames : NoDup (task_names tasks)).

Lemma new_names : dt_name <$> new = task_names tasks.
Proof.
  clear -Hfor. induction Hfor as [|task dt tasks' new' (_ & Hn & _) Htl IH]; [done|].
  unfold task_names in *. simpl. f_equal; [exact Hn|exact (IH Htl)].
Qed.

Lemma new_ids dt : dt ∈ new → dt_dag_id dt = id.
Proof.
  intros Hdt. apply list_elem_of_lookup in Hdt as [i Hi].
  destruct (Forall2_lookup_r _ _ _ _ _ Hfor Hi) as (task & _ & Hd & _). done.
Qed.

Lemma dag_task_rows_new : dag_task_rows t id = new.
Proof.
  unfold dag_task_rows, where_. rewrite Hrows, List.filter_app.
  rewrite (proj2 (where_nil _ (tb_DAG_Tasks t0))).
  - simpl. clear -Hfor. induction Hfor as [|task dt tasks' new' (Hd & _) Htl IH]; simpl; [done|].
    rewrite bool_decide_eq_true_2 by done. by rewrite IH.
  - intros dt Hdt. apply bool_decide_eq_false_2. by apply Hold.
Qed.

(** The row of a task of the spec, and the only one of its name. *)
Lemma find_new task :
  task ∈ tasks →
  ∃ dt, find_dag_task id (ts_Name task) t = [dt] ∧ dt ∈ new ∧ row_for t id task dt ∧
    id_of new (ts_Name task) = dt_dag_task_id dt.
Proof.
  intros Htask. pose proof Hfor as Hfor'. apply list_elem_of_lookup in Htask as [i Hi].
  destruct (Forall2_lookup_l _ _ _ _ _ Hfor' Hi) as (dt & Hdt & Hrow).
  assert (dt ∈ new) as Hin by by eapply list_elem_of_lookup_2.
  assert (where_ (λ dt, dt_name dt =b ts_Name task) new = [dt]) as Hw.
  { destruct Hrow as (_ & Hn & _). rewrite <- Hn. apply where_key; [|done].
    by rewrite new_names. }
  exists dt. split_and!; try done.
  - unfold find_dag_task, where_. rewrite Hrows, List.filter_app.
    rewrite (proj2 (where_nil _ (tb_DAG_Tasks t0))).
    + simpl. rewrite <- Hw. clear -Hfor.
      induction Hfor as [|task' dt' tasks' new' (Hd & _) Htl IH]; simpl; [done|].
      rewrite (bool_decide_eq_true_2 (dt_dag_id dt' = id)) by done. simpl. by rewrite IH.
    + intros y Hy. rewrite bool_decide_eq_false_2; [done|]. by apply Hold.
  - unfold id_of. by rewrite Hw.
Qed.

Lemma find_new_name name :
  name ∈ task_names tasks →
  ∃ dt, find_dag_task id name t = [dt] ∧ dt ∈ new ∧ dt_name dt = name ∧
    id_of new name = dt_dag_task_id dt.
Proof.
  intros (task & -> & Ht)%list_elem_of_fmap.
  destruct (find_new task Ht) as (dt & ? & ? & (_ & ? & _) & ?). by exists dt.
Qed.

(** The dependency loop, for one task and for all of them. *)
Lemma connect_stored task s :
  nofault s → task ∈ tasks →
  (∀ b, b ∈ ts_RunAfter task → b ∈ task_names tasks) →
  tb_DAG_Tasks (st_tables s) = tb_DAG_Tasks t →
  wp (createDependencyConnection id task (getTaskVersion task)) s
    (λ r s', r = Ok tt ∧ nofault s' ∧
       st_tables s' = set_Dependencies (tb_Dependencies (st_tables s) ++ edge_rows new task)
                        (st_tables s)).
Proof.
  intros Hn Htask Hdeps Hsame. unfold createDependencyConnection, edge_rows.
  apply (wp_foreach_ok (λ pre s', nofault s' ∧
       st_tables s' = set_Dependencies (tb_Dependencies (st_tables s) ++
         ((λ dep, mkDependencyRow (id_of new (ts_Name task)) (id_of new dep)) <$> pre))
                        (st_tables s))).
  2: { split; [done|]. simpl. rewrite app_nil_r. by destruct (st_tables s). }
  intros pre dep post s' Heq [Hn' Ht']. unfold connect_dependency.
  assert (∀ name, find_dag_task id name (st_tables s') = find_dag_task id name t) as Hfind.
  { intros name. unfold find_dag_task. by rewrite Ht'; simpl; rewrite Hsame. }
  destruct (find_new task Htask) as (dt & Hf & _ & (_ & _ & Hv & _) & Hid).
  destruct (find_new_name dep) as (dt' & Hf' & _ & _ & Hid').
  { apply Hdeps. rewrite Heq. apply elem_of_app. right. left. }
  apply wp_bind, wp_try, wp_query_row_nofault; [done|]. rewrite Hfind, Hf. simpl.
  rewrite bool_decide_eq_true_2 by done. simpl.
  apply wp_bind, wp_try, wp_query_row_nofault; [done|]. rewrite Hfind, Hf'. simpl.
  apply wp_insert_nofault; [done|]. simpl. split; [done|]. split; [done|].
  unfold add_Dependency. rewrite Ht'. simpl. rewrite fmap_app, app_assoc. simpl.
  by rewrite Hid, Hid'.
Qed.

Lemma connect_all_stored s :
  nofault s →
  (∀ a b, depends tasks a b → b ∈ task_names tasks) →
  tb_DAG_Tasks (st_tables s) = tb_DAG_Tasks t →
  wp (foreach (λ task, createDependencyConnection id task (getTaskVersion task)) tasks) s
    (λ r s', r = Ok tt ∧ nofault s' ∧
       st_tables s' = set_Dependencies (tb_Dependencies (st_tables s)
                        ++ flat_map (edge_rows new) tasks) (st_tables s)).
Proof.
  intros Hn Hdeps Hsame.
  apply (wp_foreach_ok (λ pre s', nofault s' ∧
    st_tables s' = set_Dependencies (tb_Dependencies (st_tables s)
                        ++ flat_map (edge_rows new) pre) (st_tables s))).
  2: { split; [done|]. simpl. rewrite app_nil_r. by destruct (st_tables s). }
  intros pre task post s' Heq [Hn' Ht'].
  assert (task ∈ tasks) as Htask by (rewrite Heq; apply elem_of_app; right; left).
  eapply wp_mono; [apply connect_stored; [done|done| |]|].
  - intros b Hb. apply (Hdeps (ts_Name task)). by exists task.
  - rewrite Ht'. done.
  - intros r s'' (-> & Hn'' & Ht''). split; [done|]. split; [done|].
    rewrite Ht'', Ht'. simpl. rewrite flat_map_app. simpl. by rewrite app_nil_r, app_assoc.
Qed.

End lookups.

(** ** The stored relation *)

Section edges.
Context (t0 : Tables) (id : Z) (tasks : list TaskSpec) (new : list DagTaskRow) (t : Tables).
Context (Hrows : tb_DAG_Tasks t = tb_DAG_Tasks t0 ++ new).
Context (Hold : ∀ dt, dt ∈ tb_DAG_Tasks t0 → dt_dag_id dt ≠ id).
Context (Hfor : Forall2 (row_for t id) tasks new).
Context (Hnames : NoDup (task_names tasks)).
Context (Hexist : ∀ a b, depends tasks a b → b ∈ task_names tasks).
Context (Hids : ∀ dt, dt ∈ new → (sq_DAG_Tasks t0 < dt_dag_task_id dt)%Z).
Context (Hok0 : tables_ok t0) (Href0 : refs_ok t0).
Context (Hkeys : NoDup (dt_dag_task_id <$> tb_DAG_Tasks t)).
Context (Hdeps : tb_Dependencies t = tb_Dependencies t0 ++ flat_map (edge_rows new) tasks).

Lemma same_id_same_row dt dt' :
  dt ∈ tb_DAG_Tasks t → dt' ∈ tb_DAG_Tasks t → dt_dag_task_id dt = dt_dag_task_id dt' → dt = dt'.
Proof.
  intros Hdt Hdt' Heq.
  apply list_elem_of_lookup in Hdt as [i Hi], Hdt' as [j Hj].
  assert (i = j) as ->; [|congruence].
  eapply NoDup_lookup; [exact Hkeys| |]; rewrite list_lookup_fmap.
  - by rewrite Hi.
  - rewrite Hj. simpl. by rewrite Heq.
Qed.

Lemma new_in_t dt : dt ∈ new → dt ∈ tb_DAG_Tasks t.
Proof. intros H. rewrite Hrows. apply elem_of_app. by right. Qed.

Lemma row_in_new dt : dt ∈ tb_DAG_Tasks t → dt_dag_id dt = id → dt ∈ new.
Proof. rewrite Hrows. intros [Hdt|Hdt]%elem_of_app Hid; [by destruct (Hold dt)|done]. Qed.

Lemma elem_of_edge_rows d :
  d ∈ flat_map (edge_rows new) tasks ↔
  ∃ task dep, task ∈ tasks ∧ dep ∈ ts_RunAfter task ∧
    d = mkDependencyRow (id_of new (ts_Name task)) (id_of new dep).
Proof.
  rewrite list_elem_of_In, in_flat_map. unfold edge_rows. split.
  - intros (task & Ht & Hd). rewrite <- !list_elem_of_In in *.
    apply list_elem_of_fmap in Hd as (dep & -> & Hdep). by exists task, dep.
  - intros (task & dep & Ht & Hdep & ->). exists task. rewrite <- !list_elem_of_In.
    split; [done|]. apply list_elem_of_fmap. by exists dep.
Qed.

Lemma edges_new a b : stored_edge t id a b ↔ depends tasks a b.
Proof.
  split.
  - intros (d & dta & dtb & Hd & Ha & Hb & Hia & Hib & <- & <- & Eda & Edb).
    pose proof (row_in_new _ Ha Hia) as Hna. pose proof (row_in_new _ Hb Hib) as Hnb.
    rewrite Hdeps in Hd. apply elem_of_app in Hd as [Hd|Hd].
    { apply (rf_deps _ Href0) in Hd as [Hle _]. apply Hids in Hna. lia. }
    apply elem_of_edge_rows in Hd as (task & dep & Ht & Hdep & ->). simpl in Eda, Edb.
    destruct (find_new t0 id tasks new t Hrows Hold Hfor Hnames task Ht)
      as (dt & _ & Hdt & (_ & Hn & _) & Eid).
    destruct (find_new_name t0 id tasks new t Hrows Hold Hfor Hnames dep)
      as (dt' & _ & Hdt' & Hn' & Eid').
    { apply (Hexist (ts_Name task)). by exists task. }
    assert (dt = dta) as -> by (apply same_id_same_row; [by apply new_in_t|done|congruence]).
    assert (dt' = dtb) as -> by (apply same_id_same_row; [by apply new_in_t|done|congruence]).
    exists task. split_and!; congruence.
  - intros (task & Ht & <- & Hb).
    destruct (find_new t0 id tasks new t Hrows Hold Hfor Hnames task Ht)
      as (dt & _ & Hdt & (Hid & Hn & _) & Eid).
    destruct (find_new_name t0 id tasks new t Hrows Hold Hfor Hnames b)
      as (dt' & _ & Hdt' & Hn' & Eid').
    { apply (Hexist (ts_Name task)). by exists task. }
    exists (mkDependencyRow (id_of new (ts_Name task)) (id_of new b)), dt, dt'.
    rewrite Hdeps, elem_of_app, elem_of_edge_rows. simpl.
    split_and!; try done; try by apply new_in_t.
    + right. by exists task, b.
    + eapply new_ids; [exact Hfor|done].
Qed.

Lemma edges_old id' a b : id' ≠ id →
  dag_task_rows t id' = dag_task_rows t0 id' ∧ (stored_edge t id' a b ↔ stored_edge t0 id' a b).
Proof.
  intros Hne.
  assert (∀ dt, dt ∈ tb_DAG_Tasks t → dt_dag_id dt = id' → dt ∈ tb_DAG_Tasks t0) as Hback.
  { intros dt. rewrite Hrows. intros [?|Hdt]%elem_of_app Hid; [done|].
    apply (new_ids id tasks new t Hfor) in Hdt. congruence. }
  split; [|split].
  - unfold dag_task_rows, where_. rewrite Hrows, List.filter_app.
    rewrite (proj2 (where_nil _ new)); [by rewrite app_nil_r|].
    intros dt Hdt. apply bool_decide_eq_false_2.
    apply (new_ids id tasks new t Hfor) in Hdt. congruence.
  - intros (d & dta & dtb & Hd & Ha & Hb & Hia & Hib & Hna & Hnb & Eda & Edb).
    exists d, dta, dtb. pose proof (Hback _ Ha Hia) as Ha0. split_and!; auto.
    rewrite Hdeps in Hd. apply elem_of_app in Hd as [Hd|Hd]; [done|].
    apply elem_of_edge_rows in Hd as (task & dep & Ht & Hdep & ->). simpl in Eda.
    destruct (find_new t0 id tasks new t Hrows Hold Hfor Hnames task Ht)
      as (dt & _ & Hdt & _ & Eid).
    apply Hids in Hdt. apply (dag_task_le _ _ Hok0) in Ha0. lia.
  - intros (d & dta & dtb & Hd & Ha & Hb & ?). exists d, dta, dtb.
    rewrite Hdeps, Hrows, !elem_of_app. tauto.
Qed.

End edges.

(** The parameter loop. *)
Lemma insertParameters_stored id ps s :
  nofault s → (∀ p, p ∈ tb_DAG_Parameters (st_tables s) → dpr_dag_id p ≠ id) →
  wp (foreach (insertParameter id) ps) s (λ r s', r = Ok tt ∧ nofault s' ∧
    ∃ rows n, Forall2 (param_row_for id) ps rows ∧
      st_tables s' = set_DAG_Parameters (tb_DAG_Parameters (st_tables s) ++ rows) n (st_tables s)).
Proof.
  intros Hn Hfresh.
  apply (wp_foreach_ok (λ pre s', nofault s' ∧ ∃ rows n, Forall2 (param_row_for id) pre rows ∧
    st_tables s' = set_DAG_Parameters (tb_DAG_Parameters (st_tables s) ++ rows) n (st_tables s))).
  2: { split; [done|]. exists [], (sq_DAG_Parameters (st_tables s)). split; [done|].
       rewrite app_nil_r. by destruct (st_tables s). }
  intros pre p post s' _ [Hn' (rows & n & Hrows & Ht)]. unfold insertParameter.
  apply wp_insert_nofault; [done|]. simpl. split; [done|]. split; [done|].
  eexists (rows ++ [mkDagParameterRow (sq_DAG_Parameters (st_tables s') + 1) id (dp_Name p)
    (dp_DefaultValue p =b "")
    (if negb (dp_DefaultValue p =b "") then dp_DefaultValue p else dp_DefaultFromSecret p)]), _.
  split.
  - apply Forall2_app; [done|]. constructor; [|done]. unfold param_row_for. simpl.
    split_and!; [reflexivity|reflexivity| |].
    + intros Hd. rewrite bool_decide_eq_false_2 by done. done.
    + intros Hd. rewrite bool_decide_eq_true_2 by done. done.
  - unfold add_DAG_Parameter. rewrite Ht. simpl. by rewrite <- app_assoc.
Qed.

(** ** The insertion *)

Lemma dag_clash_free name ns t v :
  next_version name ns v (tb_DAGs t) → dag_clash name v ns t = false.
Proof.
  intros Hv. unfold dag_clash. apply existsb_false. intros d Hd.
  destruct (is_dag name ns d) eqn:E; [|done]. simpl.
  apply bool_decide_eq_false_2. destruct (Hv d Hd E). lia.
Qed.

(** The time of the next start, and the row of the workspace. *)
Lemma wp_next_time env dag s (Q : result (option Z) → Store → Prop) :
  ds_Schedule (dag_Spec dag) = "" ∨ (∃ f, cron_Parse env (ds_Schedule (dag_Spec dag)) = Ok f) →
  (∀ nt, (is_Some nt ↔ ds_Schedule (dag_Spec dag) ≠ "") → Q (Ok nt) s) →
  wp (if negb (ds_Schedule (dag_Spec dag) =b "") then
       sched ← lift (cron_Parse env (ds_Schedule (dag_Spec dag)));
       now ← gets st_now;
       mret (Some (sched now))
     else mret None) s Q.
Proof.
  intros Hcron HQ. destruct (decide (ds_Schedule (dag_Spec dag) = "")) as [He|He].
  - rewrite bool_decide_eq_true_2 by done. apply wp_ret, HQ. split; [by intros []|done].
  - rewrite bool_decide_eq_false_2 by done. destruct Hcron as [?|[f Hf]]; [done|]. simpl.
    apply wp_bind. eapply wp_lift_ok; [exact Hf|]. apply wp_bind, wp_gets, wp_ret, HQ. done.
Qed.

Lemma wp_workspace dag id t0 d s :
  nofault s → started_insert t0 d (st_tables s) →
  wp (if ws_Enabled (ds_Workspace (dag_Spec dag)) then
     try (insertWorkspace id (ws_PvcSpec (ds_Workspace (dag_Spec dag)))) ≫= λ r,
     match r with Ok _ => mret tt | Err e => throw (EWrap "failed to insert workspace" e) end
   else mret tt) s
    (λ r s', r = Ok tt ∧ nofault s' ∧ st_uuids s' = st_uuids s ∧
             started_insert t0 d (st_tables s')).
Proof.
  intros Hn (Hd & Hs & Ht & Hst & Hk & Hdep & Hpar & Hok). destruct (ws_Enabled _).
  - apply wp_bind, wp_try, wp_insert_nofault; [done|]. simpl. apply wp_ret.
    unfold started_insert. split_and!; try done. by apply wf_add_DAG_Workspace.
  - apply wp_ret. unfold started_insert. by split_and!.
Qed.

Lemma started_refs t0 d t1 : refs_ok t0 → started_insert t0 d t1 → refs_ok t1.
Proof.
  intros [H1 H2 H3] (_ & Hs & Ht & Hst & _ & Hdep & Hpar & _).
  constructor; rewrite ?Ht, ?Hs, ?Hpar, ?Hdep, ?Hst; [| |done].
  - intros dt Hdt. apply H1 in Hdt. lia.
  - intros p Hp. apply H2 in Hp. lia.
Qed.

Lemma param_rows_new id t0 ps rows :
  (∀ p, p ∈ tb_DAG_Parameters t0 → dpr_dag_id p ≠ id) → Forall2 (param_row_for id) ps rows →
  Forall2 (param_row_for id) ps
    (where_ (λ p, dpr_dag_id p =b id) (tb_DAG_Parameters t0 ++ rows)).
Proof.
  intros Hold Hrows. unfold where_. rewrite List.filter_app, (proj2 (where_nil _ _)).
  - simpl. replace (List.filter _ rows) with rows; [done|]. clear -Hrows.
    induction Hrows as [|p row ps rows (Hid & _) _ IH]; simpl; [done|].
    rewrite bool_decide_eq_true_2 by done. by f_equal.
  - intros p Hp. by apply bool_decide_eq_false_2, Hold.
Qed.

(** The tables after the loops, with the previous version deactivated. *)
Lemma assemble dag ns h v nt t0 t1 t2 t' new rows :
  let id := (sq_DAGs t0 + 1)%Z in
  refs_ok t0 → (is_Some nt ↔ ds_Schedule (dag_Spec dag) ≠ "") →
  NoDup (task_names (ds_Task (dag_Spec dag))) →
  (∀ a b, depends (ds_Task (dag_Spec dag)) a b → b ∈ task_names (ds_Task (dag_Spec dag))) →
  started_insert t0 (new_dag_row dag v ns h nt id) t1 →
  tables_ok t2 → tb_DAG_Tasks t2 = tb_DAG_Tasks t1 ++ new →
  (∀ dt, dt ∈ new → (sq_DAG_Tasks t1 < dt_dag_task_id dt)%Z) →
  Forall2 (row_for t2 id) (ds_Task (dag_Spec dag)) new →
  Forall2 (param_row_for id) (ds_Parameters (dag_Spec dag)) rows →
  tb_DAGs t' = update_where (λ d, is_dag (dag_Name dag) ns d && (d_version d =b (v - 1)%Z))
                 (set_active false) (tb_DAGs t1) →
  tb_Tasks t' = tb_Tasks t2 → tb_DAG_Tasks t' = tb_DAG_Tasks t2 →
  tb_Dependencies t' = tb_Dependencies t1 ++ flat_map (edge_rows new) (ds_Task (dag_Spec dag)) →
  tb_DAG_Parameters t' = tb_DAG_Parameters t1 ++ rows →
  dag_stored dag ns h v t0 t'.
Proof.
  intros id Href Hnt Hnames Hexist Hst Hok2 Hrows2 Hids Hfor Hparams Ed Ek Et Edep Epar.
  pose proof (started_refs _ _ _ Href Hst) as Href1.
  destruct Hst as (Hd1 & Hs1 & Ht1 & _ & _ & Hdep1 & Hpar1 & Hok1).
  assert (∀ dt, dt ∈ tb_DAG_Tasks t1 → dt_dag_id dt ≠ id) as Hold.
  { intros dt Hdt. rewrite Ht1 in Hdt. apply (rf_dag_tasks _ Href) in Hdt. lia. }
  assert (Forall2 (row_for t' id) (ds_Task (dag_Spec dag)) new) as Hfor'.
  { eapply Forall2_impl; [exact Hfor|]. intros. eapply row_for_mono; [|eassumption].
    by rewrite Ek. }
  assert (tb_DAG_Tasks t' = tb_DAG_Tasks t1 ++ new) as Hrows by congruence.
  assert (NoDup (dt_dag_task_id <$> tb_DAG_Tasks t')) as Hkeys
    by (rewrite Et; apply (wf_dag_tasks _ Hok2)).
  split; change (sq_DAGs t0 + 1)%Z with id.
  - exists (new_dag_row dag v ns h nt id). split; [|by split_and!].
    rewrite Ed, Hd1. unfold update_where. rewrite fmap_app. simpl. f_equal.
    rewrite (bool_decide_eq_false_2 (v = v - 1)%Z) by lia. by rewrite andb_false_r.
  - by rewrite (dag_task_rows_new t1 id _ new t' Hrows Hold Hfor').
  - by apply (edges_new t1 id _ new t').
  - rewrite Epar, Hpar1. apply param_rows_new; [|done].
    intros p Hp. apply (rf_params _ Href) in Hp. lia.
  - intros id' a b Hne.
    destruct (edges_old t1 id _ new t' Hrows Hold Hfor' Hnames Hids Hok1 Edep id' a b Hne)
      as [E1 E2].
    unfold dag_task_rows, stored_edge in *. by rewrite Ht1, Hdep1 in *.
Qed.

Lemma insertDAG_stored env dag ns h v s :
  insertable env dag ns h s →
  next_version (dag_Name dag) ns v (tb_DAGs (st_tables s)) →
  wp (insertDAG env dag v ns h) s (λ r s', r = Ok tt ∧ nofault s' ∧
    dag_stored dag ns h v (st_tables s) (upd_DAGs (λ d, is_dag (dag_Name dag) ns d
      && (d_version d =b (v - 1)%Z)) (set_active false) (st_tables s'))).
Proof.
  intros [Hn Hok Href Hdig Hnew Hcron Hnames Hexist Hrefs Hinj Hfresh] Hv.
  set (id := (sq_DAGs (st_tables s) + 1)%Z). unfold insertDAG.
  apply wp_bind, wp_next_time; [done|]. intros nt Hnt.
  apply wp_bind, wp_insert_ret; [done|by apply dag_clash_free|]. simpl.
  apply wp_bind. eapply wp_mono.
  { apply (wp_workspace dag id (st_tables s) (new_dag_row dag v ns h nt id)); [done|].
    unfold started_insert. split_and!; try done. eapply wf_new_dag; [by apply dag_clash_free|done|done|done]. }
  intros r s1 (-> & Hn1 & Hu1 & Hst).
  pose proof Hst as (Hd1 & Hs1 & Ht1 & _ & Hk1 & Hdep1 & Hpar1 & Hok1).
  apply wp_bind. eapply wp_mono.
  { apply (insertTasks_stored env ns (st_tables s1) id); [done|by rewrite Hk1|].
    split; try done; [by rewrite app_nil_r|intros dt Hdt; by apply elem_of_nil in Hdt|].
    rewrite Hk1, Hu1. exact Hfresh. }
  intros r s2 (-> & new & [Hn2 Hok2 [Hd2 _] Hdep2 Hpar2 Hrows2 _ Hids2 Hfor2 _ _]).
  apply wp_bind. eapply wp_mono.
  { apply (connect_all_stored (st_tables s1) id _ new (st_tables s2)); try done.
    intros dt Hdt. rewrite Ht1 in Hdt. apply (rf_dag_tasks _ Href) in Hdt. unfold id. lia. }
  intros r s3 (-> & Hn3 & Ht3).
  eapply wp_mono.
  { apply (insertParameters_stored id); [done|]. rewrite Ht3. simpl. rewrite Hpar2, Hpar1.
    intros p Hp. apply (rf_params _ Href) in Hp. unfold id. lia. }
  intros r s4 (-> & Hn4 & rows & n & Hrows & Ht4). split; [done|]. split; [done|].
  apply (assemble dag ns h v nt _ (st_tables s1) (st_tables s2) _ new rows); try done;
    rewrite Ht4, Ht3; simpl; congruence.
Qed.

Lemma version_next dag ns t :
  next_version (dag_Name dag) ns (version_after (latest_dag (dag_Name dag) ns t)) (tb_DAGs t).
Proof. apply latest_next. Qed.

(** ** Properties *)


Lemma demo_insertable : insertable demo_env demo_dag "default" ",a,b,c,d" demo_store.
Proof.
  split.
  - done.
  - apply (reachable_db_inv demo_env empty_store), rtc_refl.
  - apply (reachable_refs demo_env empty_store), rtc_refl.
  - reflexivity.
  - done.
  - by left.
  - apply (bool_decide_unpack (NoDup _)). vm_compute. done.
  - intros a b (t & Ht & _ & Hb). repeat (apply elem_of_cons in Ht as [->|Ht]);
      simpl in Hb; rewrite ?elem_of_cons in Hb; unfold task_names; simpl; try set_solver.
    all: by apply elem_of_nil in Ht || by apply elem_of_nil in Hb.
  - intros task ref Ht Hr. repeat (apply elem_of_cons in Ht as [->|Ht]); try done.
    by apply elem_of_nil in Ht.
  - intros m n Heq. simpl in Heq. apply (inj (String.append "uuid-")) in Heq.
    by apply (inj pretty) in Heq.
  - intros n k _ Hk. by apply elem_of_nil in Hk.
Qed.


(** Applying a DAG whose spec is stored already adds no version: it is an
    error that changes nothing, unless only the suspension differs, which is
    then set on every version of the DAG. *)
Theorem InsertDAG_same_spec (env : DbEnv) (dag : DAG) (ns : string) (d : DagRow) (s : Store)
    (Hn : nofault s) (Hd : latest_dag (dag_Name dag) ns (st_tables s) = Some d)
    (Hh : hashDagSpec env (dag_Spec dag) = Ok (d_hash d)) :
  if d_suspended d =b ds_Suspended (dag_Spec dag)
  then (InsertDAG env dag ns s).1 = Err same_dag_error ∧
       st_tables (InsertDAG env dag ns s).2 = st_tables s
  else (InsertDAG env dag ns s).1 = Ok tt ∧
       st_tables (InsertDAG env dag ns s).2 =
         upd_DAGs (is_dag (dag_Name dag) ns) (set_suspended (ds_Suspended (dag_Spec dag))) (st_tables s).
Proof.
  set (suspended := ds_Suspended (dag_Spec dag)).
  enough (wp (InsertDAG env dag ns) s (λ r s', if d_suspended d =b suspended
    then r = Err same_dag_error ∧ st_tables s' = st_tables s
    else r = Ok tt ∧ st_tables s' =
      upd_DAGs (is_dag (dag_Name dag) ns) (set_suspended suspended) (st_tables s))) as H by exact H.
  apply wp_in_tx_nofault; [done|]. apply wp_bind, wp_row_or_None; [done|]. rewrite Hd. simpl.
  apply wp_bind. eapply wp_lift_ok; [exact Hh|]. rewrite bool_decide_eq_true_2 by done.
  destruct (d_suspended d =b suspended) eqn:E; unfold suspended in E; rewrite E; simpl.
  - by apply wp_throw.
  - apply wp_bind, wp_try, wp_exec_nofault; [done|]. by apply wp_ret.
Qed.

Lemma demo_latest :
  ∃ d, latest_dag "etl" "default" (st_tables demo_inserted) = Some d ∧
    d_hash d = ",a,b,c,d" ∧ d_suspended d = false.
Proof. eexists. split; [vm_compute; reflexivity|]. by split. Qed.

Lemma InsertDAG_same_spec_witness :
  (InsertDAG demo_env demo_dag "default" demo_inserted).1 = Err same_dag_error.
Proof.
  destruct demo_latest as (d & Hd & Hh & Hs).
  assert ((d_suspended d =b ds_Suspended (dag_Spec demo_dag)) = true) as E by (by rewrite Hs).
  assert (hashDagSpec demo_env (dag_Spec demo_dag) = Ok (d_hash d)) as Hh' by (by rewrite Hh).
  assert (nofault demo_inserted) as Hn by (vm_compute; reflexivity).
  pose proof (InsertDAG_same_spec demo_env demo_dag "default" d demo_inserted Hn Hd Hh') as H.
  rewrite E in H. exact (proj1 H).
Defined.
