(* ===== verification/TaskRelease.v ===== *)
(** * Which tasks a success releases (internal/db/sqliteManager.go)

    The specification of [MarkSuccessAndGetNextTasks]: it records the success
    and returns the tasks whose dependencies have all succeeded in the run.  The
    code counts joined rows; the lemmas here relate the counts to the relation,
    and the examples show where the counting and the relation part. *)

From S2P Require Import Prelude Api DagValidation Store SqliteDag SqliteRun Database StoredDag.
Import DagDb RunDb Calls.
Local Open Scope kontroler_scope.

(** ** Specification *)

(** The task run rows of a task in a run that succeeded. *)
Definition success_rows (t : Tables) (runId k : Z) : list TaskRunRow :=
  where_ (λ tr, (trn_run_id tr =b runId) && (trn_task_id tr =b k) && (trn_status tr =b "success"))
    (tb_Task_Runs t).

Definition succeeded (t : Tables) (runId k : Z) : Prop := success_rows t runId k ≠ [].

(** No task has succeeded twice in the run. *)
Definition success_once (t : Tables) (runId : Z) : Prop :=
  ∀ k, length (success_rows t runId k) <= 1.

Definition dependencies_of (t : Tables) (k : Z) : list DependencyRow :=
  where_ (λ d, dep_task_id d =b k) (tb_Dependencies t).

(** Task [k] may start in the run: it has dependencies, all of them succeeded,
    and it did not start. *)
Definition ready (t : Tables) (runId k : Z) : Prop :=
  dependencies_of t k ≠ [] ∧
  (∀ d, d ∈ dependencies_of t k → succeeded t runId (dep_depends_on d)) ∧
  started runId k t = false.

#[global] Instance not_nil_dec {A} (l : list A) : Decision (l ≠ []).
Proof. destruct l; [by right; intros []|by left]. Defined.
#[global] Instance succeeded_dec t runId k : Decision (succeeded t runId k) := not_nil_dec _.
#[global] Instance ready_dec t runId k : Decision (ready t runId k).
Proof.
  refine (cast_if_and3 (decide (dependencies_of t k ≠ []))
    (decide (Forall (λ d, succeeded t runId (dep_depends_on d)) (dependencies_of t k)))
    (decide (started runId k t = false))); unfold ready; rewrite <- ?Forall_forall; tauto.
Defined.

(** [k] is a task of the DAG, with its row in Tasks. *)
Definition task_of_dag (t : Tables) (dagId k : Z) : Prop :=
  ∃ dt tk, dt ∈ tb_DAG_Tasks t ∧ dt_dag_task_id dt = k ∧ dt_dag_id dt = dagId ∧
    tk ∈ tb_Tasks t ∧ tk_task_id tk = dt_task_id dt.

(** The tables once the success is recorded. *)
Definition marked (taskRunId runId : Z) (t : Tables) : Tables :=
  upd_DAG_Runs (is_run runId) add_success
    (upd_Task_Runs (is_task_run taskRunId) (set_trn_status "success") t).

Definition occurrences (k : Z) (l : list Z) : nat := length (where_ (λ x, x =b k) l).

Definition in_dag (t : Tables) (dagId k : Z) : bool :=
  existsb (λ dt, (k =b dt_dag_task_id dt) && (dt_dag_id dt =b dagId)) (tb_DAG_Tasks t).

(** The code's last filter: no row whose run_id is the id of the task run. *)
Definition shadowed (t : Tables) (taskRunId k : Z) : bool :=
  existsb (λ tr, (trn_task_id tr =b k) && (trn_run_id tr =b taskRunId)) (tb_Task_Runs t).

(** The ids the counting selects. *)
Definition released_ids (t : Tables) (dagId runId taskRunId : Z) : list Z :=
  fst <$> where_ (λ p, (p.2 =b default 0%Z (count_map (met_keys dagId runId t) !! p.1))
                       && negb (shadowed t taskRunId p.1))
            (map_to_list (count_map (dependency_keys dagId t))).

(** What a call to record a success relies on: the task run is there and so is
    its run. *)
Record success_of (taskRunId : Z) (tr : TaskRunRow) (r : RunRow) (s : Store) : Prop := {
  so_nofault : nofault s;
  so_ok : tables_ok (st_tables s);
  so_task_run : tr ∈ tb_Task_Runs (st_tables s);
  so_id : trn_task_run_id tr = taskRunId;
  so_run : r ∈ tb_DAG_Runs (st_tables s);
  so_run_id : r_run_id r = trn_run_id tr;
}.

(** The success is the last one the run waits for. *)
Definition completes (t : Tables) (r : RunRow) : Prop :=
  ∃ d, d ∈ tb_DAGs t ∧ d_dag_id d = r_dag_id r ∧ d_taskCount d = (r_successfulCount r + 1)%Z.

(** ** An example run *)

Definition etl_run : DagRunSpec := mkDagRunSpec "etl" [].

(** A run of the diamond a, b and c, d, with a waiting for a worker. *)
Definition demo_run : Store :=
  run_calls demo_env [CInsertDAG demo_dag "default"; CCreateDAGRun "run-1" etl_run ∅ None;
                      CAddPendingTaskRun 1 1] demo_store.

(** What a worker does in the database when the pod of a task run succeeds. *)
Definition demo_success (runId taskRunId : Z) : M Store unit :=
  tasks ← MarkSuccessAndGetNextTasks taskRunId;
  foreach (λ task, AddPendingTaskRun runId (t_Id task) ≫= λ _, mret tt) tasks.

(** The statuses of the task runs of a run, by task. *)
Definition run_tasks (runId : Z) (s : Store) : list (Z * string) :=
  (λ tr, (trn_task_id tr, trn_status tr)) <$>
    where_ (λ tr, trn_run_id tr =b runId) (tb_Task_Runs (st_tables s)).

Definition run_status (runId : Z) (s : Store) : list string :=
  r_status <$> where_ (is_run runId) (tb_DAG_Runs (st_tables s)).

Definition demo_a : TaskRunRow := mkTaskRunRow 1 1 1 "pending" 0 None None None None None.
Definition demo_r : RunRow := mkRunRow 1 "run-1" 1 "running" 0 0 0 1000 None.

(** The same run with a, b and c done and d on a worker. *)
Definition demo_last : Store :=
  run_calls demo_env [CMarkSuccessAndGetNextTasks 1; CAddPendingTaskRun 1 2;
    CMarkSuccessAndGetNextTasks 2; CAddPendingTaskRun 1 3; CMarkSuccessAndGetNextTasks 3;
    CAddPendingTaskRun 1 4] demo_run.
Definition demo_d : TaskRunRow := mkTaskRunRow 4 1 4 "pending" 0 None None None None None.
Definition demo_r3 : RunRow := mkRunRow 1 "run-1" 1 "running" 3 0 0 1000 None.

(** Two runs: the a of the second run has the task run 1, the a of the first run
    the task run 2. *)
Definition demo_started : Store :=
  run_calls demo_env [CInsertDAG demo_dag "default"; CCreateDAGRun "run-1" etl_run ∅ None;
    CCreateDAGRun "run-2" etl_run ∅ None; CAddPendingTaskRun 2 1; CAddPendingTaskRun 1 1]
    demo_store.

(** The second run went on first. *)
Definition demo_two_runs : Store := (demo_success 2 1 demo_started).2.

(** ** Counting *)

Lemma elem_of_flat_map {A B} (f : A → list B) l y : y ∈ flat_map f l ↔ ∃ x, x ∈ l ∧ y ∈ f x.
Proof. rewrite list_elem_of_In, in_flat_map. by setoid_rewrite list_elem_of_In. Qed.

Lemma elem_of_if {A} (b : bool) (l : list A) x : x ∈ (if b then l else []) ↔ b = true ∧ x ∈ l.
Proof. destruct b; [naive_solver|]. rewrite elem_of_nil. naive_solver. Qed.

Lemma run_unique t r r' :
  tables_ok t → r ∈ tb_DAG_Runs t → r' ∈ tb_DAG_Runs t → r_run_id r = r_run_id r' → r = r'.
Proof. intros Hok. apply NoDup_key, (wf_runs _ Hok). Qed.

Lemma occurrences_cons k x l :
  occurrences k (x :: l) = (if x =b k then S (occurrences k l) else occurrences k l).
Proof. unfold occurrences, where_. simpl. by case_bool_decide. Qed.

Lemma occurrences_app k l l' : occurrences k (l ++ l') = occurrences k l + occurrences k l'.
Proof. unfold occurrences, where_. by rewrite List.filter_app, length_app. Qed.

Lemma occurrences_zero k l : occurrences k l = 0 ↔ k ∉ l.
Proof.
  induction l as [|x l IH]; [split; [intros _ H; by apply elem_of_nil in H|done]|].
  rewrite occurrences_cons, not_elem_of_cons. case_bool_decide as E.
  - split; [done|]. intros [? _]. congruence.
  - rewrite IH. naive_solver.
Qed.

Lemma count_map_spec l k :
  count_map l !! k = if bool_decide (k ∈ l) then Some (Z.of_nat (occurrences k l)) else None.
Proof.
  unfold count_map.
  enough (∀ m : gmap Z Z, foldl (λ m k, <[k := default 0 (m !! k) + 1]> m)%Z m l !! k =
    if bool_decide (k ∈ l) then Some (default 0 (m !! k) + Z.of_nat (occurrences k l))%Z
    else m !! k) as H.
  { rewrite H, lookup_empty. by case_bool_decide. }
  induction l as [|x l IH]; intros m; [done|]. cbn [foldl].
  rewrite IH, occurrences_cons. destruct (decide (x = k)) as [->|Hne].
  - rewrite (bool_decide_eq_true_2 (k = k)), (bool_decide_eq_true_2 (k ∈ k :: l)) by (done || left).
    rewrite lookup_insert_eq. simpl. case_bool_decide as Hk; f_equal; [lia|].
    apply occurrences_zero in Hk. rewrite Hk. lia.
  - rewrite (bool_decide_eq_false_2 (x = k)), lookup_insert_ne by done.
    assert (bool_decide (k ∈ x :: l) = bool_decide (k ∈ l)) as ->; [|done].
    apply bool_decide_ext. rewrite elem_of_cons. naive_solver.
Qed.

Lemma occurrences_flat_map {A} k (f : A → list Z) l :
  occurrences k (flat_map f l) = sum_list ((λ x, occurrences k (f x)) <$> l).
Proof.
  induction l as [|x l IH]; [done|]. simpl. by rewrite occurrences_app, IH.
Qed.

(** A join with a table on its key yields one row. *)
Lemma join_key {A} (key : A → Z) (p : A → bool) (out : Z) rows k :
  NoDup (key <$> rows) → (∀ x, x ∈ rows → p x = true → key x = k) →
  occurrences out (flat_map (λ x, if p x then [out] else []) rows) =
    (if existsb p rows then 1 else 0)%nat.
Proof.
  intros Hnd Hk. induction rows as [|x rows IH]; [done|]. simpl.
  rewrite occurrences_app. rewrite fmap_cons in Hnd. apply NoDup_cons in Hnd as [Hx Hnd].
  rewrite IH; [|done|intros y Hy; apply Hk; by right].
  destruct (p x) eqn:Ep; simpl.
  - rewrite occurrences_cons, bool_decide_eq_true_2 by done. simpl.
    destruct (existsb p rows) eqn:Ee; [|done].
    apply existsb_exists in Ee as (y & Hy & Hpy). rewrite <- list_elem_of_In in Hy.
    exfalso. apply Hx. rewrite (Hk x), <- (Hk y); try done; [|by right|left].
    by apply list_elem_of_fmap_2.
  - done.
Qed.

Lemma sum_zero {A} (f : A → nat) l : (∀ x, x ∈ l → f x = 0) → sum_list (f <$> l) = 0.
Proof.
  induction l as [|x l IH]; intros H; [done|]. rewrite sum_list_cons, H by left.
  apply IH. intros. apply H. by right.
Qed.

Lemma flat_map_ext_in {A B} (f g : A → list B) l :
  (∀ x, x ∈ l → f x = g x) → flat_map f l = flat_map g l.
Proof.
  induction l as [|x l IH]; intros H; [done|]. simpl. rewrite H by left. f_equal.
  apply IH. intros. apply H. by right.
Qed.

Lemma sum_if {A} (p : A → bool) l :
  sum_list ((λ x, if p x then 1 else 0) <$> l) = length (where_ p l).
Proof.
  induction l as [|x l IH]; [done|]. rewrite sum_list_cons, IH. unfold where_. simpl.
  by destruct (p x).
Qed.

Lemma in_dag_iff t dagId k :
  in_dag t dagId k = true ↔
  ∃ dt, dt ∈ tb_DAG_Tasks t ∧ dt_dag_task_id dt = k ∧ dt_dag_id dt = dagId.
Proof.
  unfold in_dag. rewrite existsb_exists. split.
  - intros (dt & Hdt & H). rewrite <- list_elem_of_In in Hdt.
    rewrite andb_true_iff, !bool_decide_eq_true in H. exists dt. naive_solver.
  - intros (dt & Hdt & <- & <-). exists dt. rewrite <- list_elem_of_In. split; [done|].
    by rewrite !bool_decide_eq_true_2.
Qed.

Lemma sum_ext {A} (f g : A → nat) l :
  (∀ x, x ∈ l → f x = g x) → sum_list (f <$> l) = sum_list (g <$> l).
Proof.
  intros H. f_equal. apply list_fmap_ext. intros i x Hx. apply H.
  by eapply list_elem_of_lookup_2.
Qed.

Lemma dependency_count t dagId k :
  NoDup (dt_dag_task_id <$> tb_DAG_Tasks t) →
  occurrences k (dependency_keys dagId t) =
    if in_dag t dagId k then length (dependencies_of t k) else 0.
Proof.
  intros Hnd. unfold dependency_keys, dependencies_of. rewrite occurrences_flat_map.
  transitivity (sum_list ((λ d, if (dep_task_id d =b k) && in_dag t dagId k then 1 else 0)
                            <$> tb_Dependencies t)).
  - apply sum_ext. intros d _. destruct (decide (dep_task_id d = k)) as [Hk|Hne].
    + rewrite (bool_decide_eq_true_2 (dep_task_id d = k)) by done. rewrite Hk. simpl.
      apply (join_key dt_dag_task_id _ _ _ k); [done|].
      intros dt _ [E _]%andb_true_iff. by apply bool_decide_eq_true_1 in E.
    + rewrite bool_decide_eq_false_2 by done. simpl. apply occurrences_zero.
      rewrite list_elem_of_In, in_flat_map. intros (dt & _ & Hin).
      destruct (_ && _) in Hin; [|done]. destruct Hin as [E|[]]. done.
  - rewrite sum_if. destruct (in_dag t dagId k).
    + f_equal. unfold where_. apply List.filter_ext. intros d. by rewrite andb_true_r.
    + rewrite (proj2 (where_nil _ _)); [done|]. intros d _. by rewrite andb_false_r.
Qed.

Lemma met_count t dagId runId k :
  occurrences k (met_keys dagId runId t) =
    if in_dag t dagId k && negb (started runId k t)
    then sum_list ((λ d, length (success_rows t runId (dep_depends_on d)))
                     <$> dependencies_of t k)
    else 0.
Proof.
  unfold met_keys. rewrite occurrences_flat_map.
  assert (∀ d, bool_decide (dep_task_id d ∈ dt_dag_task_id <$>
      where_ (λ dt, dt_dag_id dt =b dagId) (tb_DAG_Tasks t)) = in_dag t dagId (dep_task_id d)) as Hin.
  { intros d. apply eq_true_iff_eq. rewrite bool_decide_eq_true, in_dag_iff, list_elem_of_fmap.
    split.
    - intros (dt & -> & [H Hdt]%elem_of_where). apply bool_decide_eq_true_1 in H. by exists dt.
    - intros (dt & Hdt & <- & H). exists dt. split; [done|]. apply elem_of_where.
      by rewrite bool_decide_eq_true_2. }
  transitivity (sum_list ((λ d, if dep_task_id d =b k then
    (if in_dag t dagId k && negb (started runId k t)
     then length (success_rows t runId (dep_depends_on d)) else 0) else 0) <$> tb_Dependencies t)).
  - apply sum_ext. intros d _. rewrite occurrences_flat_map.
    destruct (decide (dep_task_id d = k)) as [Hk|Hne].
    + rewrite (bool_decide_eq_true_2 (dep_task_id d = k)), Hin, Hk by done.
      destruct (in_dag t dagId k && negb (started runId k t)) eqn:E.
      * apply andb_true_iff in E as [-> ->]. unfold success_rows. rewrite <- sum_if.
        apply sum_ext. intros tr _. rewrite !andb_true_r.
        rewrite (bool_decide_ext (dep_depends_on d = trn_task_id tr)
          (trn_task_id tr = dep_depends_on d)) by done.
        destruct (trn_run_id tr =b runId), (trn_task_id tr =b dep_depends_on d),
          (trn_status tr =b "success"); simpl; try done.
        by rewrite occurrences_cons, bool_decide_eq_true_2.
      * apply sum_zero. intros tr _. rewrite <- !andb_assoc.
        rewrite (andb_assoc (in_dag t dagId k)), E. by rewrite !andb_false_r.
    + rewrite (bool_decide_eq_false_2 (dep_task_id d = k)) by done.
      apply sum_zero. intros tr _. destruct (_ && _); [|done].
      by rewrite occurrences_cons, bool_decide_eq_false_2.
  - unfold dependencies_of. generalize (in_dag t dagId k && negb (started runId k t)) as b.
    intros b. induction (tb_Dependencies t) as [|d l IH]; [by destruct b|].
    rewrite sum_list_cons, IH. unfold where_. simpl. destruct (dep_task_id d =b k), b; done.
Qed.

(** Under [success_once] the two counts agree exactly when every dependency
    has succeeded. *)
Lemma counts_agree t runId l :
  success_once t runId →
  (length l = sum_list ((λ d, length (success_rows t runId (dep_depends_on d))) <$> l) ↔
   ∀ d, d ∈ l → succeeded t runId (dep_depends_on d)).
Proof.
  intros Honce.
  assert (∀ l, sum_list ((λ d, length (success_rows t runId (dep_depends_on d))) <$> l)
               <= length l) as Hle.
  { clear l. induction l as [|d l IH]; [done|]. rewrite sum_list_cons. simpl.
    specialize (Honce (dep_depends_on d)). lia. }
  induction l as [|d l IH]; [split; [|done]; intros _ d Hd; by apply elem_of_nil in Hd|].
  rewrite forall_elem_cons, sum_list_cons. simpl.
  specialize (Hle l). pose proof (Honce (dep_depends_on d)) as Hd.
  rewrite <- IH. unfold succeeded.
  destruct (success_rows t runId (dep_depends_on d)) as [|x [|]]; simpl in *; [|..|lia].
  - split; [lia|]. by intros [? _].
  - split; [intros; split; [done|lia]|lia].
Qed.

(** ** The released tasks *)

Lemma runnable_loop_nofault counts met taskRunId s :
  nofault s →
  wp (runnable_loop counts met taskRunId) s (λ r s', s' = s ∧
    r = Ok (fst <$> where_ (λ p, (p.2 =b default 0%Z (met !! p.1))
                                 && negb (shadowed (st_tables s) taskRunId p.1)) counts)).
Proof.
  intros Hn. induction counts as [|[k n] counts IH]; [by apply wp_ret|].
  cbn [runnable_loop]. rewrite where_cons. cbn [fst snd]. case_bool_decide as Hc; simpl; [|exact IH].
  apply wp_bind, wp_try, wp_query_row_nofault; [done|].
  destruct (where_ _ (tb_Task_Runs (st_tables s))) as [|tr l] eqn:Ew; simpl.
  - assert (shadowed (st_tables s) taskRunId k = false) as ->.
    { apply existsb_false. by apply where_nil. }
    simpl. apply wp_bind. eapply wp_mono; [exact IH|]. intros r s' [-> ->]. by apply wp_ret.
  - assert (shadowed (st_tables s) taskRunId k = true) as ->; [|exact IH].
    assert (tr ∈ tr :: l) as Hin by left. rewrite <- Ew in Hin.
    apply elem_of_where in Hin as [Hp Hin]. apply existsb_exists. exists tr.
    by rewrite <- list_elem_of_In.
Qed.

Lemma released_ids_iff t dagId runId taskRunId k :
  NoDup (dt_dag_task_id <$> tb_DAG_Tasks t) → success_once t runId →
  (k ∈ released_ids t dagId runId taskRunId ↔
   in_dag t dagId k = true ∧ ready t runId k ∧ shadowed t taskRunId k = false).
Proof.
  intros Hnd Honce. unfold released_ids.
  assert (∀ l : list DependencyRow, l ≠ [] ↔ 0 < length l) as Hlen
    by (intros []; simpl; split; intros; (done || lia)).
  assert (k ∈ fst <$> where_ (λ p, (p.2 =b default 0%Z (count_map (met_keys dagId runId t) !! p.1))
              && negb (shadowed t taskRunId p.1)) (map_to_list (count_map (dependency_keys dagId t)))
    ↔ ∃ n, count_map (dependency_keys dagId t) !! k = Some n ∧
           n = default 0%Z (count_map (met_keys dagId runId t) !! k) ∧
           shadowed t taskRunId k = false) as ->.
  { rewrite list_elem_of_fmap. split.
    - intros ([k' n] & -> & [Hp Hin]%elem_of_where). apply elem_of_map_to_list in Hin.
      rewrite andb_true_iff, bool_decide_eq_true, negb_true_iff in Hp. exists n. tauto.
    - intros (n & Hk & Hn & Hs). exists (k, n). split; [done|]. apply elem_of_where.
      rewrite andb_true_iff, bool_decide_eq_true, negb_true_iff, elem_of_map_to_list. done. }
  setoid_rewrite count_map_spec.
  pose proof (dependency_count t dagId k Hnd) as Hd. pose proof (met_count t dagId runId k) as Hm.
  assert (∀ l, bool_decide (k ∈ l) = negb (occurrences k l =? 0)) as Hb.
  { intros l. apply eq_true_iff_eq. rewrite bool_decide_eq_true, negb_true_iff, Nat.eqb_neq,
      occurrences_zero. destruct (decide (k ∈ l)); tauto. }
  rewrite !Hb, Hd, Hm. destruct (in_dag t dagId k); simpl; [|naive_solver].
  unfold ready. rewrite Hlen, <- (counts_agree t runId) by done.
  destruct (started runId k t); simpl.
  { split; [|naive_solver]. intros (n & Hk & -> & _).
    destruct (length (dependencies_of t k)); simpl in Hk; by simplify_eq. }
  clear. generalize (length (dependencies_of t k)) as a. generalize (sum_list
    ((λ d, length (success_rows t runId (dep_depends_on d))) <$> dependencies_of t k)) as b.
  intros b a.
  destruct (Nat.eqb_spec a 0), (Nat.eqb_spec b 0); simpl; split; intros H;
    (destruct H as (n' & H1 & H2 & H3) || destruct H as (H1 & (H2 & H3 & _) & H4));
    simplify_eq; try lia.
  - split_and!; try done; lia.
  - eexists. by split_and!.
Qed.

(** The rows of the join [task_rows], one by one. *)
Lemma elem_of_task_rows ids runId t x :
  x ∈ task_rows ids runId t ↔
  ∃ k dat dr, k ∈ tb_Tasks t ∧ dat ∈ tb_DAG_Tasks t ∧ dr ∈ tb_DAG_Runs t ∧
    (dt_task_id dat = tk_task_id k ∧ dt_dag_id dat = r_dag_id dr ∧ r_run_id dr = runId ∧
     dt_dag_task_id dat ∈ ids) ∧
    x = (mkTask (dt_dag_task_id dat) (dt_name dat) (tk_image k) (tk_command k) (tk_args k) []
           (Some (pod_template k dr)) (tk_script k) (tk_scriptInjectorImage k), tk_parameters k).
Proof.
  unfold task_rows, is_run. rewrite elem_of_flat_map. setoid_rewrite elem_of_flat_map.
  setoid_rewrite elem_of_flat_map. setoid_rewrite elem_of_if. split.
  - intros (k & Hk & dat & Hdat & dr & Hdr & E & Hx).
    rewrite !andb_true_iff, !bool_decide_eq_true in E. apply list_elem_of_singleton in Hx.
    exists k, dat, dr. tauto.
  - intros (k & dat & dr & Hk & Hdat & Hdr & E & ->). exists k. split; [done|].
    exists dat. split; [done|]. exists dr. split; [done|].
    rewrite !andb_true_iff, !bool_decide_eq_true. split; [tauto|by left].
Qed.

(** The ids of the joined rows. *)
Lemma task_rows_ids t dagId runId ids r k :
  tables_ok t → r ∈ tb_DAG_Runs t → r_run_id r = runId → r_dag_id r = dagId →
  (k ∈ t_Id <$> (task_rows ids runId t).*1 ↔ k ∈ ids ∧ task_of_dag t dagId k).
Proof.
  intros Hok Hr Hrid Hdag. rewrite <- list_fmap_compose, list_elem_of_fmap.
  setoid_rewrite elem_of_task_rows. split.
  - intros (x & -> & tk & dt & dr & Htk & Hdt & Hdr & (E1 & E2 & E3 & E4) & ->). simpl.
    assert (dr = r) as -> by (apply (run_unique t); congruence || done).
    split; [done|]. exists dt, tk. by split_and!; congruence.
  - intros (Hk & dt & tk & Hdt & <- & Hd & Htk & Hid).
    eexists (_, _). split; [|exists tk, dt, r; split_and!; [..|reflexivity]]; try done; congruence.
Qed.

Lemma with_Parameters_ids (tasks : list Task) (params : list (list string)) rows :
  length tasks = length params →
  t_Id <$> zip_with (λ task names, with_Parameters (params_of rows names) task) tasks params =
  t_Id <$> tasks.
Proof.
  revert params. induction tasks as [|task tasks IH]; intros [|p params] Hl; try done.
  simpl. f_equal. apply IH. simpl in Hl. lia.
Qed.

Lemma fetch_ids dagId tasks params s :
  nofault s → length tasks = length params →
  wp (fetchTaskParameters dagId tasks params) s
    (λ r s', s' = s ∧ ∃ tasks', r = Ok tasks' ∧ t_Id <$> tasks' = t_Id <$> tasks).
Proof.
  intros Hn Hl. unfold fetchTaskParameters. case_bool_decide.
  - apply wp_ret. split; [done|]. eexists. split; [done|].
    rewrite <- list_fmap_compose. by apply list_fmap_ext.
  - apply wp_bind, wp_query_nofault; [done|]. apply wp_ret. split; [done|].
    eexists. split; [done|]. by apply with_Parameters_ids.
Qed.

Lemma wp_update_returning {A} (rows : Tables → list A) f x l s (Q : result A → Store → Prop) :
  nofault s → rows (st_tables s) = x :: l → Q (Ok x) (set_tables (f (st_tables s)) s) →
  wp (update_returning rows f) s Q.
Proof.
  intros Hn Hx HQ. apply wp_bind, wp_stmt_nofault; [done|]. unfold wp, mbind, M_bind, gets, modify.
  by rewrite Hx.
Qed.

Lemma wp_update_returning_none {A} (rows : Tables → list A) f s (Q : result A → Store → Prop) :
  nofault s → rows (st_tables s) = [] → Q (Err ENoRows) (set_tables (f (st_tables s)) s) →
  wp (update_returning rows f) s Q.
Proof.
  intros Hn Hx HQ. apply wp_bind, wp_stmt_nofault; [done|]. unfold wp, mbind, M_bind, gets, modify.
  by rewrite Hx.
Qed.

Lemma update_where_nop {A} (p : A → bool) f l :
  (∀ x, x ∈ l → p x = false) → update_where p f l = l.
Proof.
  induction l as [|x l IH]; intros H; [done|].
  change (update_where p f (x :: l)) with ((if p x then f x else x) :: update_where p f l).
  rewrite H by left. f_equal. apply IH. intros. apply H. by right.
Qed.

Lemma update_where_ext {A} (p q : A → bool) f l :
  (∀ x, p x = q x) → update_where p f l = update_where q f l.
Proof. intros H. apply list_fmap_ext. intros i x _. by rewrite H. Qed.

Lemma upd_DAG_Runs_nop p f t : (∀ x, x ∈ tb_DAG_Runs t → p x = false) → upd_DAG_Runs p f t = t.
Proof. intros H. unfold upd_DAG_Runs. rewrite update_where_nop by done. by destruct t. Qed.

Lemma marked_ok id runId t : tables_ok t → tables_ok (marked id runId t).
Proof. intros H. unfold marked. auto with db. Qed.

(** The row of the run after the success is recorded. *)
Lemma marked_run id runId t r :
  r ∈ tb_DAG_Runs t → r_run_id r = runId → add_success r ∈ tb_DAG_Runs (marked id runId t).
Proof.
  intros Hr Hid. simpl. apply elem_of_update_where. exists r. split; [done|].
  unfold is_run. by rewrite bool_decide_eq_true_2.
Qed.

Lemma run_rows t runId r :
  tables_ok t → r ∈ tb_DAG_Runs t → r_run_id r = runId → where_ (is_run runId) (tb_DAG_Runs t) = [r].
Proof.
  intros Hok Hr <-. destruct (wf_runs _ Hok) as [Hnd _]. by apply (where_key r_run_id).
Qed.

Lemma task_run_rows t id tr :
  tables_ok t → tr ∈ tb_Task_Runs t → trn_task_run_id tr = id →
  where_ (is_task_run id) (tb_Task_Runs t) = [tr].
Proof.
  intros Hok Hr <-. destruct (wf_task_runs _ Hok) as [Hnd _]. by apply (where_key trn_task_run_id).
Qed.

(** The common part: the success is recorded, the rest of the transaction sees
    the [marked] tables. *)
Lemma wp_mark taskRunId tr r s (Q : result (list Task) → Store → Prop) :
  success_of taskRunId tr r s →
  let t' := marked taskRunId (r_run_id r) (st_tables s) in
  wp (status ← row_or "" (update_returning
        (λ t, (λ _, "success") <$> where_ (run_complete (r_run_id r) t) (tb_DAG_Runs t))
        (λ t, upd_DAG_Runs (run_complete (r_run_id r) t) (set_status "success") t));
      if status =b "success" then mret []
      else
        dagId ← getDAGIdFromRun (r_run_id r);
        next ← getNextRunnableTasks taskRunId (r_run_id r) dagId;
        fetchTaskParameters dagId next.1 next.2) (set_tables t' s)
     (λ x s', match x with
              | Ok a => nofault s' ∧ Q (Ok a) s'
              | Err e => Q (Err e) (set_tables (st_tables s) s')
              end) →
  wp (MarkSuccessAndGetNextTasks taskRunId) s Q.
Proof.
  intros [Hn Hok Htr Hid Hr Hrid] t' HQ. apply wp_in_tx_nofault; [done|].
  apply wp_bind, wp_try. eapply wp_update_returning; [done| |].
  { by rewrite (task_run_rows _ taskRunId tr). }
  apply wp_bind, wp_ret, wp_bind, wp_exec_nofault; [done|]. rewrite <- Hrid. exact HQ.
Qed.

(** Which runs of the marked tables are complete: the one of the task run, when
    the success completes it. *)
Lemma run_complete_marked id runId t r x :
  tables_ok t → r ∈ tb_DAG_Runs t → r_run_id r = runId → x ∈ tb_DAG_Runs (marked id runId t) →
  (run_complete runId (marked id runId t) x = true ↔ x = add_success r ∧ completes t r).
Proof.
  intros Hok Hr Hid Hx. unfold run_complete, completes, is_run.
  rewrite andb_true_iff, bool_decide_eq_true, existsb_exists.
  setoid_rewrite <- list_elem_of_In. setoid_rewrite andb_true_iff.
  setoid_rewrite bool_decide_eq_true. split.
  - intros (Hxid & d & Hd & Hdag & Hn).
    assert (x = add_success r) as ->; [|split; [done|]; exists d; by split_and!].
    apply (run_unique (marked id runId t)); [by apply marked_ok|done|by apply marked_run|].
    simpl. congruence.
  - intros (-> & d & Hd & Hdag & Hn). split; [done|]. exists d. by split_and!.
Qed.

Lemma NoDup_flat_map {A B} (f : A → list B) l :
  (∀ x, x ∈ l → NoDup (f x)) →
  (∀ i j x y z, l !! i = Some x → l !! j = Some y → z ∈ f x → z ∈ f y → i = j) →
  NoDup (flat_map f l).
Proof.
  induction l as [|x l IH]; intros Hf Hd; [by apply NoDup_nil|]. simpl. apply NoDup_app. split_and!.
  - apply Hf. by left.
  - intros z Hx Hz. apply elem_of_flat_map in Hz as (y & Hy & Hz).
    apply list_elem_of_lookup in Hy as [j Hj].
    by specialize (Hd 0 (S j) x y z eq_refl Hj Hx Hz).
  - apply IH; [intros; apply Hf; by right|]. intros i j y y' z Hi Hj Hz Hz'.
    specialize (Hd (S i) (S j) y y' z Hi Hj Hz Hz'). congruence.
Qed.

(** A key column separates the contributions of the rows. *)
Lemma NoDup_flat_map_key {A B} (key : A → Z) (f : A → list B) l :
  NoDup (key <$> l) → (∀ x, x ∈ l → NoDup (f x)) →
  (∀ x y z, x ∈ l → y ∈ l → z ∈ f x → z ∈ f y → key x = key y) →
  NoDup (flat_map f l).
Proof.
  intros Hk Hf Hd. apply NoDup_flat_map; [done|]. intros i j x y z Hi Hj Hx Hy.
  eapply (NoDup_lookup (key <$> l)); [done|rewrite list_lookup_fmap, Hi; reflexivity|].
  rewrite list_lookup_fmap, Hj. simpl. f_equal. symmetry.
  apply (Hd x y z); [by eapply list_elem_of_lookup_2..|done|done].
Qed.

Lemma fmap_flat_map {A B C} (g : B → C) (f : A → list B) l :
  g <$> flat_map f l = flat_map (λ x, g <$> f x) l.
Proof. induction l as [|x l IH]; [done|]. simpl. by rewrite fmap_app, IH. Qed.

Lemma dag_task_unique t dt dt' :
  tables_ok t → dt ∈ tb_DAG_Tasks t → dt' ∈ tb_DAG_Tasks t →
  dt_dag_task_id dt = dt_dag_task_id dt' → dt = dt'.
Proof. intros Hok. apply NoDup_key, (wf_dag_tasks _ Hok). Qed.

(** No task is returned twice. *)
Lemma task_rows_nodup ids runId t :
  tables_ok t → NoDup (t_Id <$> (task_rows ids runId t).*1).
Proof.
  intros Hok. rewrite <- list_fmap_compose. unfold task_rows. rewrite fmap_flat_map.
  destruct (wf_tasks _ Hok) as [Htk _], (wf_dag_tasks _ Hok) as [Hdt _], (wf_runs _ Hok) as [Hr _].
  apply (NoDup_flat_map_key tk_task_id); [done| |].
  - intros k _. rewrite fmap_flat_map. apply (NoDup_flat_map_key dt_dag_task_id); [done| |].
    + intros dat _. rewrite fmap_flat_map. apply (NoDup_flat_map_key r_run_id); [done| |].
      * intros dr _. destruct (_ && _); [apply NoDup_singleton|apply NoDup_nil_2].
      * intros dr dr' z _ _. unfold is_run.
        rewrite !list_elem_of_fmap. setoid_rewrite elem_of_if. setoid_rewrite andb_true_iff.
        setoid_rewrite andb_true_iff. setoid_rewrite bool_decide_eq_true. naive_solver congruence.
    + intros dat dat' z _ _. rewrite !list_elem_of_fmap. setoid_rewrite elem_of_flat_map.
      setoid_rewrite elem_of_if.
      intros (x & -> & dr & _ & _ & Hx) (x' & E & dr' & _ & _ & Hx').
      apply list_elem_of_singleton in Hx, Hx'. by subst.
  - intros k k' z Hk Hk'. rewrite !list_elem_of_fmap.
    setoid_rewrite elem_of_flat_map. setoid_rewrite elem_of_flat_map. setoid_rewrite elem_of_if.
    intros (x & -> & dat & Hdat & dr & _ & E1 & Hx) (x' & E & dat' & Hdat' & dr' & _ & E2 & Hx').
    apply list_elem_of_singleton in Hx, Hx'. subst x x'. simpl in E.
    assert (dat = dat') as -> by (by apply (dag_task_unique t)).
    rewrite !andb_true_iff, !bool_decide_eq_true in E1, E2. naive_solver congruence.
Qed.

(** The tasks the search returns for tables [t]. *)
Lemma next_tasks taskRunId runId dagId s :
  nofault s →
  wp (getNextRunnableTasks taskRunId runId dagId) s (λ r s', s' = s ∧
    let rows := task_rows (released_ids (st_tables s) dagId runId taskRunId) runId (st_tables s) in
    r = Ok (rows.*1, rows.*2)).
Proof.
  intros Hn. unfold getNextRunnableTasks.
  apply wp_bind, wp_query_nofault; [done|]. apply wp_bind, wp_query_nofault; [done|].
  apply wp_bind. eapply wp_mono; [by apply runnable_loop_nofault|]. intros r s' [-> ->].
  apply wp_bind, wp_query_nofault; [done|]. by apply wp_ret.
Qed.

Lemma release_tasks t s taskRunId r :
  nofault s → tables_ok (st_tables s) → st_tables s = marked taskRunId (r_run_id r) t →
  r ∈ tb_DAG_Runs t → success_once (st_tables s) (r_run_id r) →
  wp (dagId ← getDAGIdFromRun (r_run_id r);
      next ← getNextRunnableTasks taskRunId (r_run_id r) dagId;
      fetchTaskParameters dagId next.1 next.2) s (λ x s', s' = s ∧ ∃ tasks, x = Ok tasks ∧
    NoDup (t_Id <$> tasks) ∧
    ∀ k, k ∈ t_Id <$> tasks ↔ task_of_dag (st_tables s) (r_dag_id r) k ∧
      ready (st_tables s) (r_run_id r) k ∧ shadowed (st_tables s) taskRunId k = false).
Proof.
  intros Hn Hok Ht Hr Honce.
  pose proof (marked_run taskRunId _ t r Hr eq_refl) as Hr'. rewrite <- Ht in Hr'.
  apply wp_bind, wp_query_row_nofault; [done|].
  rewrite (run_rows _ _ (add_success r)) by done. simpl.
  apply wp_bind. eapply wp_mono; [by apply next_tasks|]. intros x s' [-> ->]. simpl.
  eapply wp_mono; [apply fetch_ids; [done|by rewrite !length_fmap]|].
  intros x s' (-> & tasks & -> & Hids). split; [done|]. exists tasks. rewrite Hids.
  split_and!; [done|by apply task_rows_nodup|]. intros k.
  rewrite (task_rows_ids _ (r_dag_id r) _ _ (add_success r)) by done.
  destruct (wf_dag_tasks _ Hok) as [Hnd _]. rewrite released_ids_iff, in_dag_iff by done.
  split; [tauto|]. intros (H & H'). split_and!; try tauto.
  destruct H as (dt & tk & Hdt & Hk & Hd & _). by exists dt.
Qed.

Lemma update_where_fuse {A} (p q : A → bool) f g l :
  (∀ x, x ∈ l → p (if q x then g x else x) = q x) →
  update_where p f (update_where q g l) = update_where q (λ x, f (g x)) l.
Proof.
  intros H. unfold update_where. rewrite <- list_fmap_compose. apply list_fmap_ext.
  intros i x Hx. simpl. rewrite H by (by eapply list_elem_of_lookup_2). by destruct (q x).
Qed.

(** Marking the run complete updates the row the success was added to. *)
Lemma complete_fused taskRunId t r :
  tables_ok t → r ∈ tb_DAG_Runs t → completes t r →
  let t' := marked taskRunId (r_run_id r) t in
  upd_DAG_Runs (run_complete (r_run_id r) t') (set_status "success") t' =
    upd_DAG_Runs (is_run (r_run_id r)) (λ x, set_status "success" (add_success x))
      (upd_Task_Runs (is_task_run taskRunId) (set_trn_status "success") t).
Proof.
  intros Hok Hr Hc t'. unfold upd_DAG_Runs at 1 2.
  assert (update_where (run_complete (r_run_id r) t') (set_status "success") (tb_DAG_Runs t') =
    update_where (is_run (r_run_id r)) (λ x, set_status "success" (add_success x)) (tb_DAG_Runs t))
    as ->; [|done].
  apply update_where_fuse. intros x Hx. apply eq_true_iff_eq. unfold t'.
  rewrite (run_complete_marked taskRunId _ t r) by (done || (simpl; apply elem_of_update_where; by exists x)).
  unfold is_run. rewrite bool_decide_eq_true. split.
  - intros [E _]. case_bool_decide; [done|]. rewrite E. done.
  - intros E. rewrite bool_decide_eq_true_2 by done. split; [|done]. f_equal.
    by apply (run_unique t).
Qed.

(** The call as a step of a client: no statement fails, nor will one. *)
Lemma wp_MarkSuccess taskRunId tr r s :
  success_of taskRunId tr r s → ¬ completes (st_tables s) r →
  success_once (marked taskRunId (r_run_id r) (st_tables s)) (r_run_id r) →
  let t' := marked taskRunId (r_run_id r) (st_tables s) in
  wp (MarkSuccessAndGetNextTasks taskRunId) s (λ x s', s' = set_tables t' s ∧
    ∃ tasks, x = Ok tasks ∧ NoDup (t_Id <$> tasks) ∧ ∀ k, k ∈ t_Id <$> tasks ↔
      task_of_dag t' (r_dag_id r) k ∧ ready t' (r_run_id r) k ∧ shadowed t' taskRunId k = false).
Proof.
  intros Hs Hmore Honce t'.
  pose proof Hs as [Hn Hok Htr Hid Hr Hrid].
  assert (∀ x, x ∈ tb_DAG_Runs t' → run_complete (r_run_id r) t' x = false) as Hnone.
  { intros x Hx. apply not_true_is_false. intros Hc. by apply (run_complete_marked taskRunId _ (st_tables s) r) in Hc as [_ ?]. }
  assert (where_ (run_complete (r_run_id r) t') (tb_DAG_Runs t') = []) as Hw by (by apply where_nil).
  eapply wp_mark; [done|]. apply wp_bind, wp_bind, wp_try.
  eapply wp_update_returning_none; [done| |].
  { change (st_tables (set_tables (marked taskRunId (r_run_id r) (st_tables s)) s)) with t'.
    by rewrite Hw. }
  apply wp_ret. cbn [st_tables set_tables]. fold t'. rewrite upd_DAG_Runs_nop by done.
  eapply wp_mono; [apply (release_tasks (st_tables s)); try done; by apply marked_ok|].
  intros x s' (-> & tasks & -> & H). split; [done|]. split; [done|]. exists tasks. split; [done|exact H].
Qed.

(** ** Properties *)


Lemma demo_run_ok : tables_ok (st_tables demo_run).
Proof. apply (reachable_db_inv demo_env), run_calls_reachable, fresh_reachable. Qed.

Lemma demo_success_of : success_of 1 demo_a demo_r demo_run.
Proof.
  split; [vm_compute; reflexivity|exact demo_run_ok| |reflexivity| |reflexivity].
  - assert (tb_Task_Runs (st_tables demo_run) = [demo_a]) as -> by (vm_compute; reflexivity). left.
  - assert (tb_DAG_Runs (st_tables demo_run) = [demo_r]) as -> by (vm_compute; reflexivity). left.
Qed.

Lemma success_once_small t runId : length (tb_Task_Runs t) <= 1 → success_once t runId.
Proof. intros H k. unfold success_rows, where_. etransitivity; [apply List.filter_length_le|done]. Qed.

Lemma demo_not_complete : ¬ completes (st_tables demo_run) demo_r.
Proof.
  assert (Forall (λ d, d_taskCount d ≠ 1%Z) (tb_DAGs (st_tables demo_run))) as Hf
    by (apply (bool_decide_unpack _); vm_compute; exact I).
  intros (d & Hd & _ & Hn). by apply (proj1 (Forall_forall _ _) Hf d Hd).
Qed.

(** A check of [task_of_dag]. *)
Definition task_of_dagb (t : Tables) (dagId k : Z) : bool :=
  existsb (λ dt, (dt_dag_task_id dt =b k) && (dt_dag_id dt =b dagId)
    && existsb (λ tk, tk_task_id tk =b dt_task_id dt) (tb_Tasks t)) (tb_DAG_Tasks t).

Lemma in_dag_task t dagId k : task_of_dagb t dagId k = true → task_of_dag t dagId k.
Proof.
  unfold task_of_dagb. rewrite existsb_exists. intros (dt & Hdt & H).
  rewrite !andb_true_iff, !bool_decide_eq_true, existsb_exists in H.
  destruct H as ((Hk & Hd) & tk & Htk & E). apply bool_decide_eq_true in E.
  rewrite <- list_elem_of_In in Hdt. rewrite <- list_elem_of_In in Htk. by exists dt, tk.
Qed.

Lemma demo_released :
  ∃ b c, (MarkSuccessAndGetNextTasks 1 demo_run).1 = Ok [b; c] ∧ t_Id b = 2%Z ∧ t_Id c = 3%Z.
Proof. do 2 eexists. split; [vm_compute; reflexivity|]. by split. Qed.


(** Recording the success that completes its run (as many successes as the
    DAG has tasks) releases nothing and gives the run, and no other, the
    status success. *)
Theorem MarkSuccess_completes (taskRunId : Z) (tr : TaskRunRow) (r : RunRow) (s : Store)
    (Hs : success_of taskRunId tr r s) (Hlast : completes (st_tables s) r) :
  (MarkSuccessAndGetNextTasks taskRunId s).1 = Ok [] ∧
  st_tables (MarkSuccessAndGetNextTasks taskRunId s).2 =
    upd_DAG_Runs (is_run (r_run_id r)) (λ x, set_status "success" (add_success x))
      (upd_Task_Runs (is_task_run taskRunId) (set_trn_status "success") (st_tables s)).
Proof.
  enough (wp (MarkSuccessAndGetNextTasks taskRunId) s (λ x s', x = Ok [] ∧ st_tables s' =
    upd_DAG_Runs (is_run (r_run_id r)) (λ x, set_status "success" (add_success x))
      (upd_Task_Runs (is_task_run taskRunId) (set_trn_status "success") (st_tables s))))
    as H by exact H.
  pose proof Hs as [Hn Hok Htr Hid Hr Hrid].
  pose proof (marked_run taskRunId _ _ r Hr eq_refl) as Hr'.
  eapply wp_mark; [done|]. cbn zeta. apply wp_bind, wp_bind, wp_try.
  destruct (where_ (run_complete (r_run_id r) (marked taskRunId (r_run_id r) (st_tables s)))
    (tb_DAG_Runs (marked taskRunId (r_run_id r) (st_tables s)))) as [|x l] eqn:Ew.
  { exfalso. assert (run_complete (r_run_id r) (marked taskRunId (r_run_id r) (st_tables s))
      (add_success r) = true) as Hc by (by eapply run_complete_marked).
    rewrite (proj1 (where_nil _ _) Ew) in Hc; done. }
  apply (wp_update_returning _ _ "success" ((λ _, "success") <$> l)); [done| |].
  { change (st_tables (set_tables ?t s)) with t. by rewrite Ew. }
  apply wp_ret, wp_ret. split; [done|]. split; [done|].
  cbn [st_tables set_tables]. by apply complete_fused.
Qed.

Lemma demo_last_success_of : success_of 4 demo_d demo_r3 demo_last.
Proof.
  split; [vm_compute; reflexivity| | |reflexivity| |reflexivity].
  - apply (reachable_db_inv demo_env), run_calls_reachable, run_calls_reachable, fresh_reachable.
  - assert (last (tb_Task_Runs (st_tables demo_last)) = Some demo_d) as H
      by (vm_compute; reflexivity).
    by apply last_Some_elem_of.
  - assert (tb_DAG_Runs (st_tables demo_last) = [demo_r3]) as -> by (vm_compute; reflexivity). left.
Qed.

Lemma MarkSuccess_completes_witness :
  (MarkSuccessAndGetNextTasks 4 demo_last).1 = Ok [].
Proof.
  refine (proj1 (MarkSuccess_completes 4 demo_d demo_r3 demo_last demo_last_success_of _)).
  assert (Forall (λ d, d_dag_id d = 1%Z ∧ d_taskCount d = 4%Z) (tb_DAGs (st_tables demo_last)))
    as H by (apply (bool_decide_unpack _); vm_compute; exact I).
  destruct (tb_DAGs (st_tables demo_last)) as [|d l] eqn:E; [by vm_compute in E|].
  inversion H as [|? ? [Hi Hc] _]; subst. exists d. rewrite E. split_and!; [left|exact Hi|exact Hc].
Defined.

(** The search does not see a task that waits for a worker, so a task can be
    released twice and counted twice: in a run of the diamond where c succeeds
    before b starts, b is released again, and the run has the status success
    when b has succeeded twice, with d still waiting. *)
Theorem diamond_completes_before_d :
  let s := ((demo_success 1 1 ≫= λ _, demo_success 1 3 ≫= λ _,
             demo_success 1 2 ≫= λ _, demo_success 1 4) demo_run).2 in
  run_status 1 s = ["success"] ∧
  run_tasks 1 s = [(1, "success"); (2, "success"); (3, "success"); (2, "success");
                   (4, "pending")]%Z.
Proof. vm_compute. split; reflexivity. Qed.

(** The last filter of the search takes the id of the task run for the id
    of a run, so one run can stall another: with two runs of the diamond, the
    success of the first run's a, whose task run has the id of the second run,
    releases nothing, though b and c are ready and no pending task is left in
    the first run. *)
Theorem run_stalls :
  let s := demo_two_runs in
  let s' := (MarkSuccessAndGetNextTasks 2 s).2 in
  (MarkSuccessAndGetNextTasks 2 s).1 = Ok [] ∧
  run_status 1 s' = ["running"] ∧ run_tasks 1 s' = [(1, "success")]%Z ∧
  (∀ k, k ∈ [2; 3]%Z → ready (st_tables s') 1 k).
Proof.
  split_and!; [vm_compute; reflexivity..|].
  apply Forall_forall, (bool_decide_unpack (Forall _ _)). vm_compute. exact I.
Qed.
