(* ===== verification/Leases.v ===== *)
(** * Leases exclude other workers (internal/db/sqliteManager.go)

    The protocol of the lease operations on one task run: a worker that claimed
    it keeps it until its lease runs out, whatever the other workers do and
    whichever of their statements fail, and gives it up by finalizing it once.
    The examples show where the operations leave the protocol. *)

From S2P Require Import Prelude Api DagValidation Store SqliteDag SqliteRun SqliteClaim Database StoredDag TaskRelease.
Import DagDb RunDb ClaimDb Calls.
Local Open Scope kontroler_scope.

(** ** The protocol *)

(** The rows with the id of a task run: at most one. *)
Definition rows_of (id : Z) (t : Tables) : list TaskRunRow :=
  where_ (is_task_run id) (tb_Task_Runs t).

(** The lease operations. *)
Inductive LeaseOp :=
| OClaim (taskRunId : Z) (leaseTTL : Z)
| ORenew (taskRunId : Z) (leaseTTL : Z)
| OFinalize (taskRunId : Z) (podUID : string)
| ORecover.

(** A call of worker [workerId]; the answer says whether it succeeded. *)
Definition lease_op (workerId : string) (op : LeaseOp) : M Store unit :=
  match op with
  | OClaim id ttl => done (ClaimTaskByID id workerId ttl)
  | ORenew id ttl => done (RenewLease id workerId ttl)
  | OFinalize id uid => FinalizeClaimToRunning id workerId uid
  | ORecover => done RecoverExpiredLeases
  end.

(** The steps of the world while the lease of [workerId] runs: calls of other
    workers, and changes of the clock before [until], of the time zone and of
    the faults to come. *)
Inductive others_step (workerId : string) (until : Z) : Store → Store → Prop :=
| others_call w op s : w ≠ workerId → others_step workerId until s (lease_op w op s).2
| others_world s faults now zone : (now < until)%Z →
    others_step workerId until s (mkStore (st_tables s) faults now zone (st_uuids s)).

(** The operation asks for the task run. *)
Definition op_on (id : Z) (op : LeaseOp) : bool :=
  match op with
  | OClaim id' _ | ORenew id' _ | OFinalize id' _ => id' =b id
  | ORecover => false
  end.

(** [workerId] holds the task run until [until]. *)
Definition holds (id : Z) (workerId : string) (until : Z) (s : Store) : Prop :=
  (st_now s < until)%Z ∧
  ∃ r, rows_of id (st_tables s) = [r] ∧ trn_status r = "pending" ∧
    trn_claimed_by r = Some workerId ∧ trn_lease_expires_at r = Some until.

(** An example: the pending task run of the example run. *)
Definition demo_claimed (ttl zone : Z) : result TaskClaim * Store :=
  ClaimTaskByID 1 "worker-1" ttl (mkStore (st_tables demo_run) [] 1000 zone 0).

(** ** Lemmas *)

Lemma rows_of_upd id p f t :
  (∀ r, trn_task_run_id (f r) = trn_task_run_id r) →
  rows_of id (upd_Task_Runs p f t) = update_where p f (rows_of id t).
Proof.
  intros Hf. unfold rows_of, upd_Task_Runs. simpl. induction (tb_Task_Runs t) as [|r l IH]; [done|].
  change (update_where p f (r :: l)) with ((if p r then f r else r) :: update_where p f l).
  rewrite !where_cons, IH. unfold is_task_run.
  assert (trn_task_run_id (if p r then f r else r) = trn_task_run_id r) as -> by (by destruct (p r)).
  by case_bool_decide.
Qed.

(** Each operation updates the rows under a predicate, or fails. *)
Definition op_guard (w : string) (op : LeaseOp) (now : Z) (r : TaskRunRow) : bool :=
  match op with
  | OClaim id _ => free_to_claim id now r
  | ORenew id _ | OFinalize id _ => owned id w r
  | ORecover => lease_expired now r && (trn_status r =b "pending")
  end.

Definition op_effect (w : string) (op : LeaseOp) (now zone : Z) (r : TaskRunRow) : TaskRunRow :=
  match op with
  | OClaim _ ttl => set_claim (Some w) (Some now) (Some (now + zone + ttl)%Z) r
  | ORenew _ ttl => set_lease (now + zone + ttl) r
  | OFinalize _ _ => finalize r
  | ORecover => set_claim None None None r
  end.

Lemma op_effect_id w op now zone r : trn_task_run_id (op_effect w op now zone r) = trn_task_run_id r.
Proof. by destruct op. Qed.

(** Whether the operation wants a row: recovery succeeds without one. *)
Definition wants_row (op : LeaseOp) : bool := match op with ORecover => false | _ => true end.

#[local] Ltac solve_op := solve [split_and!; auto; intros; try split; done].

(** What an operation does: it fails and leaves the tables, or it applies its
    update; when it succeeds there was a row for it. *)
Lemma lease_op_cases w op s :
  let r := lease_op w op s in
  let p := op_guard w op (st_now s) in
  st_now r.2 = st_now s ∧
  (st_tables r.2 = st_tables s ∨
   st_tables r.2 = upd_Task_Runs p (op_effect w op (st_now s) (st_zone s)) (st_tables s)) ∧
  (r.1 = Ok tt →
   st_tables r.2 = upd_Task_Runs p (op_effect w op (st_now s) (st_zone s)) (st_tables s) ∧
   (wants_row op = true → count_where p (tb_Task_Runs (st_tables s)) ≠ 0%Z)).
Proof.
  destruct op; simpl;
    unfold lease_op, done, ClaimTaskByID, RenewLease, FinalizeClaimToRunning, RecoverExpiredLeases,
      lease_at, exec_count, query_row, query, mbind, M_bind, stmt, gets, modify, mret, M_ret, throw;
    simpl; destruct (default false (head (st_faults s))); simpl; try solve_op;
    try (case_bool_decide as Hc; simpl; [solve_op|]); try solve_op.
  destruct (default false (head (tail (st_faults s)))); simpl; [solve_op|].
  destruct (where_ _ _); simpl; solve_op.
Qed.

Lemma count_where_rows id p t :
  (∀ r, p r = true → trn_task_run_id r = id) →
  (∀ r, r ∈ rows_of id t → p r = false) → count_where p (tb_Task_Runs t) = 0%Z.
Proof.
  intros Hid Hp. unfold count_where. rewrite (proj2 (where_nil _ _)); [done|].
  intros r Hr. destruct (p r) eqn:E; [|done]. rewrite <- E. apply Hp. apply elem_of_where.
  split; [|done]. unfold is_task_run. by rewrite bool_decide_eq_true_2 by auto.
Qed.

(** No operation of another worker applies to a row under a running lease. *)
Lemma held_guard w w' op now until r :
  w' ≠ w → (now < until)%Z → trn_claimed_by r = Some w → trn_lease_expires_at r = Some until →
  op_guard w' op now r = false.
Proof.
  intros Hw Hnow Hby Hat.
  assert (lease_expired now r = false) as He.
  { unfold lease_expired. rewrite Hat. apply bool_decide_eq_false. lia. }
  destruct op; simpl; unfold free_to_claim, owned; rewrite ?He, ?Hby;
    rewrite ?(bool_decide_eq_false_2 (Some w = _)) by congruence; by rewrite ?andb_false_r.
Qed.

Lemma holds_step id w until s s' :
  holds id w until s → others_step w until s s' → holds id w until s'.
Proof.
  intros Hh Hs. destruct Hs as [w' op s1 Hw|s1 faults now zone Hlt];
    destruct Hh as (Hnow & r & Hr & Hp & Hby & Hat); [|split; [done|by exists r]].
  destruct (lease_op_cases w' op s1) as (Hnow' & Ht & _). split; [by rewrite Hnow'|].
  exists r. split_and!; [|done..]. destruct Ht as [-> | ->]; [done|].
  rewrite rows_of_upd, Hr by apply op_effect_id. cbn -[op_guard].
  by rewrite (held_guard w w' op _ until).
Qed.

Lemma holds_steps id w until s s' :
  holds id w until s → rtc (others_step w until) s s' → holds id w until s'.
Proof. intros H Hs. revert H. induction Hs; eauto using holds_step. Qed.

(** The guard of a claim sees one row at most, which is then claimed. *)
Lemma free_row id now t :
  tables_ok t → count_where (free_to_claim id now) (tb_Task_Runs t) ≠ 0%Z →
  ∃ r, rows_of id t = [r] ∧ free_to_claim id now r = true.
Proof.
  intros Hok Hc. unfold count_where in Hc.
  destruct (where_ (free_to_claim id now) (tb_Task_Runs t)) as [|r l] eqn:Ew; [done|].
  assert (r ∈ r :: l) as Hin by left. rewrite <- Ew in Hin. apply elem_of_where in Hin as [Hp Hin].
  exists r. split; [|done]. apply task_run_rows; [done|done|].
  unfold free_to_claim, is_task_run in Hp. apply andb_true_iff in Hp as [[Hp _]%andb_true_iff _].
  by apply bool_decide_eq_true in Hp.
Qed.

(** What the tables are after a claim that found a row. *)
Lemma claim_tables id w ttl c s :
  (ClaimTaskByID id w ttl s).1 = Ok c →
  st_now (ClaimTaskByID id w ttl s).2 = st_now s ∧
  st_tables (ClaimTaskByID id w ttl s).2 = upd_Task_Runs (free_to_claim id (st_now s))
    (set_claim (Some w) (Some (st_now s)) (Some (st_now s + st_zone s + ttl)%Z)) (st_tables s) ∧
  count_where (free_to_claim id (st_now s)) (tb_Task_Runs (st_tables s)) ≠ 0%Z.
Proof.
  unfold ClaimTaskByID, lease_at, exec_count, query_row, query, mbind, M_bind, stmt, gets, modify,
    mret, M_ret, throw. simpl.
  destruct (default false (head (st_faults s))); simpl; [done|].
  case_bool_decide as Hc; simpl; [done|].
  destruct (default false (head (tail (st_faults s)))); simpl; [done|]. by destruct (where_ _ _).
Qed.

(** A successful claim holds the task run until its lease ends. *)
Lemma claim_holds id w ttl c s :
  tables_ok (st_tables s) → (0 < st_zone s + ttl)%Z → (ClaimTaskByID id w ttl s).1 = Ok c →
  holds id w (st_now s + st_zone s + ttl) (ClaimTaskByID id w ttl s).2.
Proof.
  intros Hok Hpos Hc. destruct (claim_tables id w ttl c s Hc) as (Hnow & Ht & Hn).
  destruct (free_row id _ _ Hok Hn) as (r & Hr & Hf). split; [rewrite Hnow; lia|].
  rewrite Ht, rows_of_upd, Hr by done. eexists.
  split; [by cbn -[free_to_claim]; rewrite Hf|]. split_and!; [|done..]. simpl.
  unfold free_to_claim in Hf. rewrite !andb_true_iff, !bool_decide_eq_true in Hf. tauto.
Qed.

Lemma guard_excludes id w op s :
  op_on id op = true → (∀ r, r ∈ rows_of id (st_tables s) → op_guard w op (st_now s) r = false) →
  (lease_op w op s).1 ≠ Ok tt.
Proof.
  intros Hop Hg Hok. destruct (lease_op_cases w op s) as (_ & _ & Hc).
  destruct (Hc Hok) as [_ Hn]. apply Hn; [by destruct op|].
  apply (count_where_rows id); [|done].
  intros x Hx. destruct op; simpl in *; try done; unfold free_to_claim, owned, is_task_run in Hx;
    apply bool_decide_eq_true in Hop as <-; rewrite !andb_true_iff, !bool_decide_eq_true in Hx; tauto.
Qed.

Lemma holds_excludes id w w' until op s :
  holds id w until s → w' ≠ w → op_on id op = true → (lease_op w' op s).1 ≠ Ok tt.
Proof.
  intros (Hnow & r & Hr & Hp & Hby & Hat) Hw Hop. apply (guard_excludes id); [done|].
  rewrite Hr. intros x ->%list_elem_of_singleton. by apply (held_guard w w' op _ until).
Qed.

(** A claim of a free row, when no statement fails. *)
Lemma claim_ok id w ttl r s :
  nofault s → rows_of id (st_tables s) = [r] → free_to_claim id (st_now s) r = true →
  wp (ClaimTaskByID id w ttl) s (λ x s', x = Ok (claim_of r) ∧ nofault s' ∧
    st_now s' = st_now s ∧ st_zone s' = st_zone s ∧
    rows_of id (st_tables s') =
      [set_claim (Some w) (Some (st_now s)) (Some (st_now s + st_zone s + ttl)%Z) r] ∧
    st_tables s' = upd_Task_Runs (free_to_claim id (st_now s))
      (set_claim (Some w) (Some (st_now s)) (Some (st_now s + st_zone s + ttl)%Z)) (st_tables s)).
Proof.
  intros Hn Hr Hf. unfold ClaimTaskByID, lease_at.
  apply wp_bind, wp_gets, wp_bind, wp_gets, wp_bind, wp_exec_count_nofault; [done|].
  set (t' := upd_Task_Runs _ _ _).
  assert (rows_of id t' =
      [set_claim (Some w) (Some (st_now s)) (Some (st_now s + st_zone s + ttl)%Z) r]) as Hr'.
  { unfold t'. rewrite rows_of_upd, Hr by done. cbn -[free_to_claim]. by rewrite Hf. }
  rewrite bool_decide_eq_false_2.
  - apply wp_query_row_nofault; [done|]. cbn [st_tables set_tables].
    change (where_ (is_task_run id) (tb_Task_Runs t')) with (rows_of id t'). by rewrite Hr'.
  - intros E. assert (r ∈ rows_of id (st_tables s)) as [_ Hin]%elem_of_where by (rewrite Hr; left).
    assert (r ∈ where_ (free_to_claim id (st_now s)) (tb_Task_Runs (st_tables s))) as H
      by (by apply elem_of_where). unfold count_where in E.
    destruct (where_ _ _); [by apply elem_of_nil in H|done].
Qed.

(** ** Properties *)


Definition demo_claim : TaskClaim := mkTaskClaim 1 1 1.


(** The lease is written in local time and compared with UTC: where local
    time is behind UTC by at least the length of the lease, a lease has run out
    when it is written, and a second worker claims the task run at once. *)
Theorem lease_void_west_of_utc (id : Z) (w w' : string) (ttl : Z) (c : TaskClaim) (s : Store)
    (Hn : nofault s) (Hok : tables_ok (st_tables s)) (Hneg : (st_zone s + ttl <= 0)%Z)
    (Hc : (ClaimTaskByID id w ttl s).1 = Ok c) :
  (ClaimTaskByID id w' ttl (ClaimTaskByID id w ttl s).2).1 = Ok c.
Proof.
  destruct (claim_tables id w ttl c s Hc) as (_ & _ & Hcount).
  destruct (free_row id _ _ Hok Hcount) as (r & Hr & Hf).
  pose proof (claim_ok id w ttl r s Hn Hr Hf) as H. unfold wp in H.
  destruct (ClaimTaskByID id w ttl s) as [x s1]. simpl in *.
  destruct H as (-> & Hn1 & Hnow & Hzone & Hr1 & _). injection Hc as <-.
  refine (proj1 (claim_ok id w' ttl _ s1 Hn1 Hr1 _)).
  unfold free_to_claim, is_task_run in *. simpl. rewrite !andb_true_iff in *.
  split; [tauto|]. rewrite Hnow. apply bool_decide_eq_true. lia.
Qed.

Lemma lease_void_west_of_utc_witness :
  let s := mkStore (st_tables demo_run) [] 1000 (-18000) 0 in
  (ClaimTaskByID 1 "worker-2" 300 (ClaimTaskByID 1 "worker-1" 300 s).2).1 = Ok demo_claim.
Proof.
  intros s. apply lease_void_west_of_utc; [reflexivity|exact demo_run_ok|simpl; lia|].
  vm_compute. reflexivity.
Defined.

(** A claim is finalized once, by its owner: the task run is then running
    with no claim on it, and no worker, the owner included, can renew or
    finalize it again. *)
Theorem finalize_once (id : Z) (w uid : string) (s : Store)
    (Hok : tables_ok (st_tables s)) (Hf : (FinalizeClaimToRunning id w uid s).1 = Ok tt) :
  (∃ r, rows_of id (st_tables s) = [r] ∧ trn_claimed_by r = Some w ∧
     rows_of id (st_tables (FinalizeClaimToRunning id w uid s).2) = [finalize r]) ∧
  ∀ w' op, op_on id op = true → (lease_op w' op (FinalizeClaimToRunning id w uid s).2).1 ≠ Ok tt.
Proof.
  set (s' := (FinalizeClaimToRunning id w uid s).2).
  destruct (lease_op_cases w (OFinalize id uid) s) as (_ & _ & Hc).
  destruct (Hc Hf) as [Ht Hn]. specialize (Hn eq_refl). unfold count_where in Hn.
  destruct (where_ _ (tb_Task_Runs (st_tables s))) as [|r l] eqn:Ew; [done|].
  assert (r ∈ r :: l) as Hin by left. rewrite <- Ew in Hin. apply elem_of_where in Hin as [Hp Hin].
  pose proof (Hp : owned id w r = true) as Hp'. unfold owned, is_task_run in Hp'.
  rewrite andb_true_iff, !bool_decide_eq_true in Hp'. destruct Hp' as [Hid Hby].
  pose proof (task_run_rows _ id r Hok Hin Hid) as Hr.
  assert (rows_of id (st_tables s') = [finalize r]) as Hr'.
  { change (st_tables s') with (st_tables (lease_op w (OFinalize id uid) s).2).
    unfold rows_of in *. rewrite Ht. pose proof rows_of_upd as Hu. unfold rows_of in Hu.
    rewrite Hu, Hr by done. cbn -[op_guard]. by rewrite Hp. }
  split; [by exists r|]. intros w' op Hop. apply (guard_excludes id); [done|].
  rewrite Hr'. intros x ->%list_elem_of_singleton.
  destruct op; simpl; unfold free_to_claim, owned; simpl; try done; by rewrite ?andb_false_r.
Qed.

Lemma finalize_once_witness :
  let s := (ClaimTaskByID 1 "worker-1" 300 (mkStore (st_tables demo_run) [] 1000 0 0)).2 in
  (lease_op "worker-1" (OFinalize 1 "pod") (FinalizeClaimToRunning 1 "worker-1" "pod" s).2).1
    ≠ Ok tt.
Proof.
  intros s.
  assert (tables_ok (st_tables s)) as Hok.
  { assert (st_tables s = st_tables (run_calls demo_env [CClaimTaskByID 1 "worker-1" 300] demo_run))
      as -> by (vm_compute; reflexivity).
    refine (proj1 (reachable_db_inv demo_env _ _)). apply run_calls_reachable.
    unfold demo_run. apply run_calls_reachable, fresh_reachable. }
  assert ((FinalizeClaimToRunning 1 "worker-1" "pod" s).1 = Ok tt) as Hf
    by (vm_compute; reflexivity).
  destruct (finalize_once 1 "worker-1" "pod" s Hok Hf) as [_ H].
  exact (H "worker-1" (OFinalize 1 "pod") eq_refl).
Defined.

(** Claiming in bulk takes no account of claims: two workers that claim in
    bulk one after the other are given the same task run, and the first one can
    then not finalize it. *)
Theorem bulk_claims_overlap :
  let s := mkStore (st_tables demo_run) [] 1000 0 0 in
  let s1 := (ClaimTasks 10 "worker-1" 300 s).2 in
  let s2 := (ClaimTasks 10 "worker-2" 300 s1).2 in
  (ClaimTasks 10 "worker-1" 300 s).1 = Ok [demo_claim] ∧
  (ClaimTasks 10 "worker-2" 300 s1).1 = Ok [demo_claim] ∧
  (FinalizeClaimToRunning 1 "worker-1" "pod" s2).1 = Err (not_owner "finalize claim").
Proof. vm_compute. split_and!; reflexivity. Qed.
