(* ===== verification/Suspension.v ===== *)
(** * What a failure suspends (internal/db/sqliteManager.go)

    [MarkConnectingTasksAsSuspended] searches the tasks that a failed task holds
    back.  The search returns (its fuel is enough) and finds exactly the tasks
    reached through tasks without a task run; each is given one suspended task
    run and is counted. *)

From S2P Require Import Prelude Api DagValidation Store SqliteDag SqliteRun Database StoredDag TaskRelease.
Import DagDb RunDb Calls.
Local Open Scope kontroler_scope.

(** ** Specification *)

(** [k] is reached from the failed task over dependencies, through tasks that
    have no task run in the run. *)
Inductive held_back (rows : list (Z * Z)) (existing : list Z) (start : Z) : Z → Prop :=
| held_child k : (start, k) ∈ rows → k ∉ existing → held_back rows existing start k
| held_next j k : held_back rows existing start j → (j, k) ∈ rows → k ∉ existing →
    held_back rows existing start k.

(** The tasks of a run that have a task run. *)
Definition tasks_with_runs (runId : Z) (t : Tables) : list Z :=
  trn_task_id <$> where_ (λ r, trn_run_id r =b runId) (tb_Task_Runs t).

(** The tables with the tasks [l] suspended in the run. *)
Definition suspend_all (runId : Z) (l : list Z) (t : Tables) : Tables :=
  upd_DAG_Runs (is_run runId) (add_suspended (Z.of_nat (length l)))
    (foldl (λ t k, add_Task_Run (new_task_run runId k "suspended" 0) t) t l).

(** What the search relies on at each step. *)
Record search_inv (rows : list (Z * Z)) (existing : list Z) (start : Z)
    (stack seen suspended : list Z) : Prop := {
  si_nodup : NoDup suspended;
  si_held : ∀ k, k ∈ suspended → held_back rows existing start k;
  si_stack : ∀ k, k ∈ stack → k = start ∨ k ∈ suspended;
  si_seen : ∀ k, k ∈ seen → k = start ∨ k ∈ suspended;
  si_closed : ∀ j k, j ∈ seen → (j, k) ∈ rows → k ∈ existing ∨ k ∈ suspended;
  si_todo : ∀ k, k = start ∨ k ∈ suspended → k ∈ seen ∨ k ∈ stack;
}.

(** ** The search *)

Lemma held_not_existing rows existing start k : held_back rows existing start k → k ∉ existing.
Proof. by destruct 1. Qed.

Lemma held_in_rows rows existing start k : held_back rows existing start k → k ∈ snd <$> rows.
Proof. destruct 1; by eapply (list_elem_of_fmap_2' snd). Qed.

(** The loop over the children adds the new ones to both lists. *)
Lemma suspend_children_spec existing children stack suspended stack' suspended' :
  suspend_children existing children (stack, suspended) = (stack', suspended') →
  ∃ new, suspended' = suspended ++ new ∧ stack' = reverse new ++ stack ∧
    (NoDup suspended → NoDup suspended') ∧
    (∀ k, k ∈ new → k ∈ children ∧ k ∉ existing) ∧
    (∀ k, k ∈ children → k ∈ existing ∨ k ∈ suspended').
Proof.
  revert stack suspended. induction children as [|c cs IH]; intros stack suspended; simpl.
  { intros [= <- <-]. exists []. rewrite app_nil_r. split_and!; try done; set_solver. }
  destruct (bool_decide (c ∈ existing) || bool_decide (c ∈ suspended)) eqn:E.
  - intros (new & -> & -> & Hnd & Hnew & Hall)%IH. exists new. split_and!; try done; [set_solver|].
    apply orb_true_iff in E. rewrite !bool_decide_eq_true in E. set_solver.
  - apply orb_false_iff in E as [E1 E2]. rewrite !bool_decide_eq_false in E1, E2.
    intros (new & -> & -> & Hnd & Hnew & Hall)%IH. exists (c :: new).
    rewrite reverse_cons, <- !app_assoc. split_and!; try done.
    2:{ intros k [->|Hk]%elem_of_cons; [by split; [left|]|].
        destruct (Hnew k Hk). split; [by right|done]. }
    2:{ intros k [->|Hk]%elem_of_cons; [right; rewrite elem_of_app; right; left|].
        rewrite <- app_assoc in Hall. by apply Hall. }
    intros H. rewrite <- app_assoc in Hnd. apply Hnd. apply NoDup_app. split_and!; [done| |].
    + intros x Hx Hc. apply list_elem_of_singleton in Hc. by subst.
    + apply NoDup_singleton.
Qed.

Lemma children_of_spec rows j k : k ∈ children_of rows j ↔ (j, k) ∈ rows.
Proof.
  unfold children_of. rewrite list_elem_of_fmap. split.
  - intros ([j' k'] & -> & [H Hin]%elem_of_where). apply bool_decide_eq_true in H. simpl in *. by subst.
  - intros H. exists (j, k). split; [done|]. apply elem_of_where. by rewrite bool_decide_eq_true_2.
Qed.

Lemma search_inv_init rows existing start : search_inv rows existing start [start] [] [].
Proof. split; try apply NoDup_nil_2; set_solver. Qed.

Lemma search_inv_seen rows existing start current stack seen suspended :
  current ∈ seen → search_inv rows existing start (current :: stack) seen suspended →
  search_inv rows existing start stack seen suspended.
Proof.
  intros H [H1 H2 H3 H4 H5 H6]. split; try done.
  - intros k Hk. apply H3. by right.
  - intros k Hk. destruct (H6 k Hk) as [?|[->|?]%elem_of_cons]; auto.
Qed.

Lemma search_inv_step rows existing start current stack seen suspended stack' suspended' :
  search_inv rows existing start (current :: stack) seen suspended →
  suspend_children existing (children_of rows current) (stack, suspended) = (stack', suspended') →
  search_inv rows existing start stack' (current :: seen) suspended' ∧
  length stack' + length suspended = length stack + length suspended'.
Proof.
  intros [H1 H2 H3 H4 H5 H6] (new & -> & -> & Hnd & Hnew & Hall)%suspend_children_spec.
  split; [|rewrite !length_app, length_reverse; lia].
  assert (∀ k, k ∈ new → held_back rows existing start k) as Hheld.
  { intros k Hk. destruct (Hnew k Hk) as [Hc He]. apply children_of_spec in Hc.
    destruct (H3 current ltac:(left)) as [->|Hs]; [by apply held_child|].
    eapply held_next; eauto. }
  split.
  - by apply Hnd.
  - intros k [Hk|Hk]%elem_of_app; auto.
  - intros k. rewrite !elem_of_app, elem_of_reverse. intros [?|Hk]; [by auto|].
    destruct (H3 k); [by right|by auto..].
  - intros k. rewrite elem_of_cons, elem_of_app. intros [->|Hk].
    + destruct (H3 current); [by left|by auto..].
    + destruct (H4 k Hk); auto.
  - intros j k Hj Hjk. apply elem_of_cons in Hj as [->|Hj]; [by apply Hall, children_of_spec|].
    rewrite elem_of_app. destruct (H5 j k Hj Hjk); auto.
  - intros k. rewrite elem_of_cons, !elem_of_app, elem_of_reverse. intros Hk.
    assert (k ∈ new ∨ k = start ∨ k ∈ suspended) as [?|H] by tauto; [by auto|].
    destruct (H6 k H) as [?|[->|?]%elem_of_cons]; auto.
Qed.

Lemma search_inv_length rows existing start stack seen suspended :
  search_inv rows existing start stack seen suspended → length suspended <= length rows.
Proof.
  intros [H1 H2 _ _ _ _]. rewrite <- (length_fmap snd rows). apply submseteq_length, NoDup_submseteq;
    [done|]. intros k Hk. eapply held_in_rows. by apply H2.
Qed.

Lemma search_inv_done rows existing start seen suspended :
  search_inv rows existing start [] seen suspended →
  ∀ k, k ∈ suspended ↔ held_back rows existing start k.
Proof.
  intros [H1 H2 H3 H4 H5 H6] k. split; [by apply H2|].
  assert (∀ j, j = start ∨ j ∈ suspended → j ∈ seen) as Hseen.
  { intros j Hj. destruct (H6 j Hj) as [?|H]; [done|]. by apply elem_of_nil in H. }
  induction 1 as [k Hk He|j k Hj IH Hk He].
  - by destruct (H5 start k) as [?|?]; [apply Hseen; left| | |].
  - by destruct (H5 j k) as [?|?]; [apply Hseen; right| | |].
Qed.

Lemma suspend_search_spec rows existing start fuel : ∀ stack seen suspended,
  search_inv rows existing start stack seen suspended →
  length stack + length rows < fuel + length suspended →
  ∃ l, suspend_search fuel rows existing stack seen suspended = Some l ∧ NoDup l ∧
    ∀ k, k ∈ l ↔ held_back rows existing start k.
Proof.
  induction fuel as [|fuel IH]; intros stack seen suspended Hinv Hfuel.
  { pose proof (search_inv_length _ _ _ _ _ _ Hinv). lia. }
  cbn [suspend_search]. destruct stack as [|current stack].
  - exists suspended. split_and!; [done|by destruct Hinv|by eapply search_inv_done].
  - simpl in Hfuel. case_bool_decide as Hc.
    + apply IH; [by eapply search_inv_seen|lia].
    + destruct (suspend_children _ _ _) as [stack' suspended'] eqn:E.
      destruct (search_inv_step _ _ _ _ _ _ _ _ _ Hinv E) as [Hinv' Hlen]. apply IH; [done|lia].
Qed.

(** ** The operation *)

(** What the operation finds: the failed task and the tasks it holds back. *)
Definition held_ids (runId start : Z) (t : Tables) : list Z :=
  default [] (suspend_search (suspend_fuel (child_rows runId t)) (child_rows runId t)
                (tasks_with_runs runId t) [start] [] []).

Lemma held_ids_spec runId start t :
  NoDup (held_ids runId start t) ∧
  ∀ k, k ∈ held_ids runId start t ↔
    held_back (child_rows runId t) (tasks_with_runs runId t) start k.
Proof.
  unfold held_ids.
  destruct (suspend_search_spec (child_rows runId t) (tasks_with_runs runId t) start
    (suspend_fuel (child_rows runId t)) [start] [] []) as (l & -> & H);
    [apply search_inv_init|unfold suspend_fuel; simpl; lia|done].
Qed.

Lemma wp_wrap_err {A} msg (m : M Store A) s (Q : result A → Store → Prop) :
  wp m s (λ r s', Q (match r with Ok a => Ok a | Err e => Err (EWrap msg e) end) s') →
  wp (wrap_err msg m) s Q.
Proof.
  intros H. apply wp_bind, wp_try. eapply wp_mono; [exact H|]. intros [a|e] s' HQ; exact HQ.
Qed.

(** The inserts of the suspended task runs. *)
Lemma wp_suspend_inserts runId l s (Q : result unit → Store → Prop) :
  nofault s →
  Q (Ok tt) (set_tables
    (foldl (λ t k, add_Task_Run (new_task_run runId k "suspended" 0) t) (st_tables s) l) s) →
  wp (foreach (λ taskID, wrap_err "failed to insert task run"
        (insert "Task_Runs" never (add_Task_Run (new_task_run runId taskID "suspended" 0)))) l) s Q.
Proof.
  revert s. induction l as [|k l IH]; intros s Hn HQ.
  - apply wp_ret. by destruct s.
  - cbn [foreach]. apply wp_bind, wp_wrap_err, wp_insert_nofault; [done|]. simpl. by apply IH.
Qed.

(** The name of a DAG task. *)
Definition named (t : Tables) (k : Z) (name : string) : Prop :=
  ∃ dt, dt ∈ tb_DAG_Tasks t ∧ dt_dag_task_id dt = k ∧ dt_name dt = name.

Lemma wp_names l s :
  nofault s → (∀ k, k ∈ l → ∃ name, named (st_tables s) k name) →
  wp (mapMM (λ taskID, wrap_err "failed to get task name" (query_row (λ t,
        dt_name <$> where_ (λ dt, dt_dag_task_id dt =b taskID) (tb_DAG_Tasks t)))) l) s
    (λ r s', s' = s ∧ ∃ names, r = Ok names ∧ Forall2 (named (st_tables s)) l names).
Proof.
  intros Hn. induction l as [|k l IH]; intros Hl; cbn [mapMM].
  { apply wp_ret. split; [done|]. by exists []. }
  apply wp_bind, wp_wrap_err, wp_query_row_nofault; [done|].
  destruct (Hl k ltac:(left)) as (name & dt & Hdt & Hk & Hname).
  destruct (where_ (λ dt, dt_dag_task_id dt =b k) (tb_DAG_Tasks (st_tables s))) as [|dt' rows] eqn:E.
  { exfalso. pose proof (proj1 (where_nil _ _) E dt Hdt) as H. simpl in H.
    by rewrite bool_decide_eq_true_2 in H. }
  simpl. apply wp_bind. eapply wp_mono; [apply IH; intros; apply Hl; by right|].
  intros r s' (-> & names & -> & Hnames). apply wp_ret. split; [done|]. eexists. split; [done|].
  constructor; [|done]. exists dt'.
  assert (dt' ∈ dt' :: rows) as Hin by left. rewrite <- E in Hin.
  apply elem_of_where in Hin as [H Hin]. by apply bool_decide_eq_true in H.
Qed.

Lemma suspend_all_DAG_Tasks runId l t : tb_DAG_Tasks (suspend_all runId l t) = tb_DAG_Tasks t.
Proof. unfold suspend_all. simpl. revert t. induction l as [|k l IH]; intros t; [done|]. simpl. by rewrite IH. Qed.

Lemma named_suspend_all runId l t k name : named (suspend_all runId l t) k name ↔ named t k name.
Proof. unfold named. by rewrite suspend_all_DAG_Tasks. Qed.

Lemma held_named t rows existing start k :
  (∀ j k, (j, k) ∈ rows → ∃ name, named t k name) →
  held_back rows existing start k → ∃ name, named t k name.
Proof. intros H. destruct 1; by eapply H. Qed.

(** ** Properties *)

(** C14: When a task fails, every task that it holds back - reached from it over
    dependencies through tasks without a task run - is suspended once: it is
    given one task run, it is counted in the run and its name is returned;
    nothing else changes.  The search returns on every dependency relation. *)
Theorem suspends_what_is_held_back (runId taskRunId : Z) (tr : TaskRunRow) (s : Store)
    (Hn : nofault s) (Hok : tables_ok (st_tables s))
    (Htr : tr ∈ tb_Task_Runs (st_tables s)) (Hid : trn_task_run_id tr = taskRunId)
    (Hnames : ∀ j k, (j, k) ∈ child_rows runId (st_tables s) →
       ∃ name, named (st_tables s) k name) :
  ∃ l names, (MarkConnectingTasksAsSuspended runId taskRunId s).1 = Ok names ∧
    st_tables (MarkConnectingTasksAsSuspended runId taskRunId s).2 =
      suspend_all runId l (st_tables s) ∧
    Forall2 (named (st_tables s)) l names ∧ NoDup l ∧
    ∀ k, k ∈ l ↔ held_back (child_rows runId (st_tables s))
                   (tasks_with_runs runId (st_tables s)) (trn_task_id tr) k.
Proof.
  destruct (held_ids_spec runId (trn_task_id tr) (st_tables s)) as [Hnd Hk].
  set (l := held_ids runId (trn_task_id tr) (st_tables s)) in *. exists l.
  enough (wp (MarkConnectingTasksAsSuspended runId taskRunId) s (λ r s', ∃ names, r = Ok names ∧
    st_tables s' = suspend_all runId l (st_tables s) ∧ Forall2 (named (st_tables s)) l names))
    as (names & H1 & H2 & H3) by (exists names; tauto).
  apply wp_in_tx_nofault; [done|].
  apply wp_bind, wp_wrap_err, wp_query_nofault; [done|].
  apply wp_bind, wp_wrap_err, wp_query_nofault; [done|].
  apply wp_bind, wp_wrap_err, wp_query_row_nofault; [done|].
  rewrite (task_run_rows _ taskRunId tr) by done.
  change (trn_task_id <$> [tr]) with [trn_task_id tr]. cbv beta iota.
  change (default [] (suspend_search _ _ _ _ _ _)) with l. cbn zeta.
  clearbody l.
  apply wp_bind. eapply (wp_mono _ _ (λ r s', r = Ok tt ∧ s' = set_tables (foldl (λ t k,
    add_Task_Run (new_task_run runId k "suspended" 0) t) (st_tables s) l) s)).
  { case_bool_decide as Hl.
    - apply wp_bind, wp_wrap_err, wp_stmt_nofault; [done|]. apply wp_suspend_inserts; [done|].
      split; reflexivity.
    - apply wp_ret. destruct l; [|simpl in Hl; lia]. by destruct s. }
  intros r s' [-> ->]. apply wp_bind, wp_wrap_err, wp_exec_nofault; [done|].
  eapply wp_mono; [apply wp_names; [done|]|].
  - intros k Hin. apply Hk in Hin.
    destruct (held_named _ _ _ _ _ Hnames Hin) as [name H]. exists name.
    exact (proj2 (named_suspend_all runId l _ k name) H).
  - intros r s' (-> & names & -> & Hf). split; [exact Hn|]. exists names. split; [done|].
    split; [reflexivity|]. eapply Forall2_impl; [exact Hf|].
    intros k name. exact (proj1 (named_suspend_all runId l _ k name)).
Qed.

(** The diamond after the first task failed: the three others are held back. *)
Lemma suspends_what_is_held_back_witness :
  ∃ l names, (MarkConnectingTasksAsSuspended 1 1 demo_run).1 = Ok names ∧ NoDup l ∧
    ∀ k, k ∈ l ↔ held_back (child_rows 1 (st_tables demo_run))
                   (tasks_with_runs 1 (st_tables demo_run)) 1 k.
Proof.
  destruct (suspends_what_is_held_back 1 1 demo_a demo_run) as (l & names & H1 & _ & _ & H2 & H3).
  - vm_compute. reflexivity.
  - exact demo_run_ok.
  - exact (so_task_run _ _ _ _ demo_success_of).
  - reflexivity.
  - assert (child_rows 1 (st_tables demo_run) = [(1, 2); (1, 3); (2, 4); (3, 4)]%Z) as ->
      by (vm_compute; reflexivity).
    assert (Forall (λ k, Exists (λ dt, dt_dag_task_id dt = k) (tb_DAG_Tasks (st_tables demo_run)))
      [2; 3; 4]%Z) as H by (apply (bool_decide_unpack _); vm_compute; exact I).
    intros j k Hjk. rewrite Forall_forall in H.
    assert (k ∈ [2; 3; 4]%Z) as Hk
      by (repeat (apply elem_of_cons in Hjk as [[= -> ->]|Hjk]); [..|by apply elem_of_nil in Hjk];
          rewrite !elem_of_cons; auto).
    apply H, Exists_exists in Hk as (dt & Hdt & Hk). exists (dt_name dt), dt. auto.
  - exists l, names. auto.
Defined.
