(* ===== verification/Kube.v ===== *)
(** * The Kubernetes side (internal/object/utils.go, api/v1alpha1/dag_types.go)

    Pods as the controller reads and writes them, the API client as an
    interface (its implementation is not part of the project), the removal of a
    finalizer and the conversion of pod templates. *)

From S2P Require Import Prelude Api.
Local Open Scope kontroler_scope.

(** ** Objects *)

Record EnvVar := mkEnvVar {
  ev_Name : string;
  ev_Value : string;
  (** [ValueFrom.SecretKeyRef]: the name of the secret and its key. *)
  ev_ValueFrom : option (string * string)
}.

(** A quantity of a resource is kept as its text. *)
Record Container := mkContainer {
  c_Name : string;
  c_Image : string;
  c_Command : list string;
  c_Args : list string;
  c_Env : list EnvVar;
  c_VolumeMounts : list VolumeMount;
  c_Resources : option ResourceRequirements
}.

Record PodSpec := mkPodSpec {
  sp_RestartPolicy : string;
  sp_Volumes : list Volume;
  sp_InitContainers : list Container;
  sp_Containers : list Container;
  sp_ImagePullSecrets : list LocalObjectReference;
  sp_SecurityContext : option PodSecurityContext;
  sp_NodeSelector : gmap string string;
  sp_Tolerations : list Toleration;
  sp_Affinity : option Affinity;
  sp_ServiceAccountName : string;
  sp_AutomountServiceAccountToken : option bool;
  sp_ActiveDeadlineSeconds : option Z
}.

(** Times are in nanoseconds; the zero time is [None]. *)
Record Terminated := mkTerminated {
  tm_ExitCode : Z;
  tm_StartedAt : option Z;
  tm_FinishedAt : option Z
}.

Record ContainerState := mkContainerState {
  cs_Waiting : option string;
  cs_Running : bool;
  cs_Terminated : option Terminated
}.

Record Pod := mkPod {
  p_UID : string;
  p_Name : string;
  p_Namespace : string;
  p_Labels : gmap string string;
  p_Annotations : gmap string string;
  p_Finalizers : list string;
  p_Spec : PodSpec;
  p_Phase : string;
  p_StartTime : option Z;
  p_ContainerStatuses : list ContainerState;
  p_InitContainerStatuses : list ContainerState
}.

Definition set_Finalizers (l : list string) (p : Pod) : Pod :=
  mkPod (p_UID p) (p_Name p) (p_Namespace p) (p_Labels p) (p_Annotations p) l (p_Spec p)
    (p_Phase p) (p_StartTime p) (p_ContainerStatuses p) (p_InitContainerStatuses p).

Record PersistentVolumeClaim := mkPersistentVolumeClaim {
  pv_Name : string;
  pv_Namespace : string;
  pv_Finalizers : list string
}.

Definition clear_Finalizers (p : PersistentVolumeClaim) : PersistentVolumeClaim :=
  mkPersistentVolumeClaim (pv_Name p) (pv_Namespace p) [].

(** ** The API client *)

Class KubeAPI (C : Type) := {
  pods_Get (namespace name : string) : M C Pod;
  pods_Update (namespace : string) (pod : Pod) : M C Pod;
  pods_Create (namespace : string) (pod : Pod) : M C Pod;
  pods_Delete (namespace name : string) : M C unit;
  (** The pods of a namespace with a UID. *)
  pods_List_uid (namespace uid : string) : M C (list Pod);
  pvc_Get (namespace name : string) : M C PersistentVolumeClaim;
  pvc_Update (namespace : string) (pvc : PersistentVolumeClaim) : M C PersistentVolumeClaim;
  pvc_Delete (namespace name : string) : M C unit;
  IsNotFound : GoError → bool;
  IsConflict : GoError → bool
}.

(** ** Strings *)

(** [strconv.Itoa]. *)
Definition Itoa (n : Z) : string := pretty n.

Definition is_sign (code : nat) (c : Ascii.ascii) : bool := Ascii.nat_of_ascii c =b code.

(** [strconv.Atoi]: an optional sign and digits, within 64 bits. *)
Definition Atoi (s : string) : result Z :=
  let neg := match s with String c _ => is_sign 45 c | EmptyString => false end in
  let digits :=
    match s with
    | String c rest => if is_sign 45 c || is_sign 43 c then rest else s
    | EmptyString => s
    end in
  let bad why := Err (EErrorf ("strconv.Atoi: parsing " +:+ s +:+ ": " +:+ why)) in
  if (digits =b "") || negb (all_digits digits) then bad "invalid syntax"
  else
    let n := if neg then (- decimal digits 0)%Z else decimal digits 0 in
    if bool_decide (- 2 ^ 63 <= n < 2 ^ 63)%Z then Ok n else bad "value out of range".

(** ** Removing a finalizer (internal/object/utils.go) *)

Section finalizer.
Context {C : Type} `{KubeAPI C}.

(** The loop of at most [n] attempts. *)
Fixpoint remove_finalizer_loop (n : nat) (podName namespace finalizer : string)
    (lastErr : option GoError) : M C unit :=
  match n with
  | O => match lastErr with Some e => throw e | None => mret tt end
  | S n' =>
      r ← try (pods_Get namespace podName);
      match r with
      | Err e => if IsNotFound e then mret tt else throw e
      | Ok pod =>
          let newFinalizers := where_ (λ f, negb (f =b finalizer)) (p_Finalizers pod) in
          if bool_decide (length newFinalizers = length (p_Finalizers pod)) then mret tt
          else
            u ← try (pods_Update namespace (set_Finalizers newFinalizers pod));
            match u with
            | Ok _ => mret tt
            | Err e =>
                if IsNotFound e then mret tt
                else if IsConflict e
                then remove_finalizer_loop n' podName namespace finalizer (Some e)
                else throw e
            end
      end
  end.

Definition RemoveFinalizer (podName namespace finalizer : string) : M C unit :=
  remove_finalizer_loop 5 podName namespace finalizer None.

End finalizer.

(** ** Pod templates as Kubernetes objects (api/v1alpha1/dag_types.go) *)

(** What a pod template becomes: [ToK8sParts] returns a tuple. *)
Record K8sParts := mkK8sParts {
  k8_Volumes : list Volume;
  k8_VolumeMounts : list VolumeMount;
  k8_ImagePullSecrets : list LocalObjectReference;
  k8_SecurityContext : option PodSecurityContext;
  k8_Tolerations : list Toleration;
  k8_Affinity : option Affinity;
  k8_Resources : option ResourceRequirements
}.

(** An empty directory wins over a claim. *)
Definition k8s_volume (v : Volume) : Volume :=
  match vol_EmptyDir v with
  | Some _ => mkVolume (vol_Name v) (Some tt) None
  | None =>
      mkVolume (vol_Name v) None
        ((λ c, mkPVCVolumeSource (pvcs_ClaimName c)) <$> vol_PersistentVolumeClaim v)
  end.

(** What the conversions take from the Kubernetes library: the parser of
    quantities, which gives a quantity's canonical text, and the reading of an
    affinity's JSON. *)
Record K8sLib := mkK8sLib {
  ParseQuantity : string → option string;
  read_affinity : Affinity → Affinity
}.

(** The quantities that parse; the others are dropped. *)
Definition k8s_quantities (lib : K8sLib) (m : gmap string string) : gmap string string :=
  omap (ParseQuantity lib) m.

Definition ToK8sParts (lib : K8sLib) (p : PodTemplateSpec) : K8sParts :=
  mkK8sParts (k8s_volume <$> pt_Volumes p)
    ((λ m, mkVolumeMount (vm_Name m) (vm_MountPath m) (vm_ReadOnly m)) <$> pt_VolumeMounts p)
    ((λ s, mkLocalObjectReference (lor_Name s)) <$> pt_ImagePullSecrets p)
    ((λ c, mkPodSecurityContext (psc_FSGroup c)) <$> pt_SecurityContext p)
    ((λ t, mkToleration (tol_Key t) (tol_Operator t) (tol_Value t) (tol_Effect t)
             (tol_TolerationSeconds t)) <$> pt_Tolerations p)
    (read_affinity lib <$> pt_Affinity p)
    ((λ r, mkResourceRequirements (k8s_quantities lib (rr_Limits r))
             (k8s_quantities lib (rr_Requests r))) <$> pt_Resources p).

(** The template read back from a pod and its container. *)
Definition PodTemplateSpecFromK8s (lib : K8sLib) (s : PodSpec) (c : Container) : PodTemplateSpec :=
  mkPodTemplateSpec
    ((λ v, mkVolume (vol_Name v) (vol_EmptyDir v)
             ((λ p, mkPVCVolumeSource (pvcs_ClaimName p)) <$> vol_PersistentVolumeClaim v))
       <$> sp_Volumes s)
    ((λ m, mkVolumeMount (vm_Name m) (vm_MountPath m) (vm_ReadOnly m)) <$> c_VolumeMounts c)
    ((λ r, mkLocalObjectReference (lor_Name r)) <$> sp_ImagePullSecrets s)
    ((λ x, mkPodSecurityContext (psc_FSGroup x)) <$> sp_SecurityContext s)
    (sp_NodeSelector s)
    ((λ t, mkToleration (tol_Key t) (tol_Operator t) (tol_Value t) (tol_Effect t)
             (tol_TolerationSeconds t)) <$> sp_Tolerations s)
    (read_affinity lib <$> sp_Affinity s)
    (sp_ServiceAccountName s) (sp_ActiveDeadlineSeconds s) (sp_AutomountServiceAccountToken s)
    (match c_Resources c with
     | Some r => if (rr_Limits r =b ∅) && (rr_Requests r =b ∅) then None
                 else Some (mkResourceRequirements (rr_Limits r) (rr_Requests r))
     | None => None
     end).

(** ** Lemmas *)

(** A numeral starts with a digit, not with a sign. *)
Lemma numeral_no_sign s : s ≠ "" → all_digits s = true →
  ∃ c rest, s = String c rest ∧ is_sign 45 c = false ∧ is_sign 43 c = false.
Proof.
  destruct s as [|c rest]; [done|]. intros _ H. exists c, rest. simpl in H.
  apply andb_true_iff in H as [[d Hd]%bool_decide_eq_true _]. unfold digit_of in Hd.
  split; [done|]. unfold is_sign.
  destruct (bool_decide (48 <= Z.of_nat (Ascii.nat_of_ascii c))%Z) eqn:E; [|done].
  apply bool_decide_eq_true in E. split; apply bool_decide_eq_false; lia.
Qed.

Lemma numeral_not_empty (x : N) : pretty x ≠ "".
Proof.
  destruct (decide (x = 0%N)) as [->|Hx]; [done|]. intros E.
  destruct (decimal_pretty x) as [Hd _]. rewrite E in Hd. simpl in Hd. lia.
Qed.

Lemma Atoi_numeral (x : N) : (Z.of_N x < 2 ^ 63)%Z → Atoi (pretty x) = Ok (Z.of_N x).
Proof.
  intros Hx. destruct (decimal_pretty x) as [Hd Ha].
  destruct (numeral_no_sign (pretty x) (numeral_not_empty x) Ha) as (c & rest & E & H1 & H2).
  unfold Atoi. rewrite E, H1, H2. cbn [orb]. cbv zeta iota. rewrite <- E, Ha, Hd.
  rewrite (bool_decide_eq_false_2 (pretty x = "")) by apply numeral_not_empty.
  simpl. by rewrite bool_decide_eq_true_2 by lia.
Qed.

(** An integer reads back from its text. *)
Lemma Atoi_Itoa (n : Z) : is_int64 n → Atoi (Itoa n) = Ok n.
Proof.
  intros Hn. unfold is_int64 in Hn. destruct n as [|p|p]; [done|..].
  - exact (Atoi_numeral (Npos p) ltac:(simpl; lia)).
  - destruct (decimal_pretty (Npos p)) as [Hd Ha]. unfold Itoa.
    change (pretty (Z.neg p)) with (String (Ascii.ascii_of_nat 45) (pretty (Npos p))).
    unfold Atoi. change (is_sign 45 (Ascii.ascii_of_nat 45)) with true. cbn [orb].
    cbv zeta iota. rewrite Ha, Hd.
    rewrite (bool_decide_eq_false_2 (pretty (Npos p) = "")) by apply numeral_not_empty.
    simpl. by rewrite bool_decide_eq_true_2 by lia.
Qed.
