(* ===== verification/KubeExample.v ===== *)
(** * An example cluster

    A small API server for the witnesses: names are unique in a namespace, an
    object with finalizers outlives its deletion until they are removed, and
    calls fail as scheduled. *)

From S2P Require Import Prelude Api Kube.
Local Open Scope kontroler_scope.

Record Cluster := mkCluster {
  cl_pods : gmap (string * string) Pod;
  cl_deleting : gset (string * string);
  cl_pvcs : gmap (string * string) PersistentVolumeClaim;
  cl_uids : nat;
  cl_faults : list (option GoError)
}.

Definition set_pods (pods : gmap (string * string) Pod) (deleting : gset (string * string))
    (c : Cluster) : Cluster :=
  mkCluster pods deleting (cl_pvcs c) (cl_uids c) (cl_faults c).

Definition set_pvcs (pvcs : gmap (string * string) PersistentVolumeClaim) (c : Cluster) : Cluster :=
  mkCluster (cl_pods c) (cl_deleting c) pvcs (cl_uids c) (cl_faults c).

Definition not_found (name : string) : GoError := EErrorf (name +:+ " not found").
Definition already_exists (name : string) : GoError := EErrorf (name +:+ " already exists").

(** A request fails when the schedule says so. *)
Definition request : M Cluster unit := λ c,
  let c' := mkCluster (cl_pods c) (cl_deleting c) (cl_pvcs c) (cl_uids c) (tail (cl_faults c)) in
  match mjoin (head (cl_faults c)) with Some e => (Err e, c') | None => (Ok tt, c') end.

Definition found {A} (name : string) (o : option A) : M Cluster A :=
  match o with Some a => mret a | None => throw (not_found name) end.

#[global] Instance Cluster_api : KubeAPI Cluster := {
  pods_Get ns name := request ≫= λ _, gets (λ c, cl_pods c !! (ns, name)) ≫= found name;
  pods_Update ns pod :=
    request ≫= λ _, gets (λ c, cl_pods c !! (ns, p_Name pod)) ≫= λ o, found (p_Name pod) o ≫= λ _,
    modify (λ c,
      let key := (ns, p_Name pod) in
      if bool_decide (key ∈ cl_deleting c) && (p_Finalizers pod =b [])
      then set_pods (delete key (cl_pods c)) (cl_deleting c ∖ {[key]}) c
      else set_pods (<[key := pod]> (cl_pods c)) (cl_deleting c) c) ≫= λ _, mret pod;
  pods_Create ns pod :=
    request ≫= λ _, gets (λ c, (cl_pods c !! (ns, p_Name pod), cl_uids c)) ≫= λ x,
    match x.1 with
    | Some _ => throw (already_exists (p_Name pod))
    | None =>
        let pod' := mkPod ("uid-" +:+ pretty x.2) (p_Name pod) ns (p_Labels pod)
          (p_Annotations pod) (p_Finalizers pod) (p_Spec pod) "Pending" None [] [] in
        modify (λ c, mkCluster (<[(ns, p_Name pod) := pod']> (cl_pods c)) (cl_deleting c)
          (cl_pvcs c) (S (cl_uids c)) (cl_faults c)) ≫= λ _, mret pod'
    end;
  pods_Delete ns name :=
    request ≫= λ _, gets (λ c, cl_pods c !! (ns, name)) ≫= λ o, found name o ≫= λ pod,
    modify (λ c, if p_Finalizers pod =b []
                 then set_pods (delete (ns, name) (cl_pods c)) (cl_deleting c) c
                 else set_pods (cl_pods c) ({[(ns, name)]} ∪ cl_deleting c) c);
  pods_List_uid ns uid :=
    request ≫= λ _, gets (λ c, where_ (λ p, (p_Namespace p =b ns) && (p_UID p =b uid))
      (map_to_list (cl_pods c)).*2);
  pvc_Get ns name := request ≫= λ _, gets (λ c, cl_pvcs c !! (ns, name)) ≫= found name;
  pvc_Update ns pvc :=
    request ≫= λ _, modify (λ c, set_pvcs (<[(ns, pv_Name pvc) := pvc]> (cl_pvcs c)) c) ≫= λ _,
    mret pvc;
  pvc_Delete ns name :=
    request ≫= λ _, gets (λ c, cl_pvcs c !! (ns, name)) ≫= λ o, found name o ≫= λ _,
    modify (λ c, set_pvcs (delete (ns, name) (cl_pvcs c)) c);
  IsNotFound e := contains "not found" (err_Error e);
  IsConflict e := contains "the object has been modified" (err_Error e)
}.

Definition empty_cluster : Cluster := mkCluster ∅ ∅ ∅ 0 [].

Definition demo_lib : K8sLib := mkK8sLib Some id.
