(* ===== verification/Allocator.v ===== *)
(** * Creating pods (internal/workers/taskAllocator.go, internal/utils/utils.go)

    [taskAllocator] builds the pod of a claimed task and creates it under a
    random name.  Pods are taken from a pool and put back: a pooled pod still
    carries what its last user wrote. *)

From S2P Require Import Prelude Api Kube KubeExample.
Local Open Scope kontroler_scope.

(** ** Names (internal/utils/utils.go) *)

Definition wordList : list string := [
  "apple"; "banana"; "cherry"; "orange"; "grape"; "pear";
  "dog"; "cat"; "rabbit"; "hamster"; "turtle"; "goldfish";
  "carrot"; "broccoli"; "potato"; "tomato"; "onion"; "pepper";
  "chair"; "table"; "lamp"; "sofa"; "desk"; "bookcase"].

(** ** Constants *)

Definition labelManagedBy : string := "managed-by".
Definition labelKontrolerType : string := "kontroler/type".
Definition labelKontrolerID : string := "kontroler/id".
Definition annotationTaskRID : string := "kontroler/task-rid".
Definition annotationDagRunID : string := "kontroler/dagRun-id".
Definition annotationTaskID : string := "kontroler/task-id".
Definition annotationClaimedBy : string := "kontroler/claimed-by".
Definition finalizerLogCollection : string := "kontroler/logcollection".
Definition scriptExecCommand : list string := ["sh"; "-c"; "/bin/sh /script/my-script.sh"].

Definition new_line_tabs : string :=
  String (Ascii.ascii_of_nat 10) (Nat.iter 6 (String (Ascii.ascii_of_nat 9)) "").

(** [fmt.Sprintf(initScriptCommand, script)]. *)
Definition initScriptCommand (script : string) : string :=
  let q s := dquote +:+ s +:+ dquote in
  "printf " +:+ script +:+ " > /script/my-script.sh && echo " +:+ q "Script created"
  +:+ " || echo " +:+ q "Failed to write script" +:+ " >&2 &&" +:+ new_line_tabs
  +:+ "chmod 555 /script/my-script.sh && echo " +:+ q "Permissions set"
  +:+ " || echo " +:+ q "Failed to set permissions" +:+ " >&2".

(** ** State *)

(** The API client, the numbers the random source will give, and the pool. *)
Record Alloc (C : Type) := mkAlloc {
  a_kube : C;
  a_rand : list nat;
  a_pool : list Pod
}.
Arguments mkAlloc {C}.
Arguments a_kube {C}.
Arguments a_rand {C}.
Arguments a_pool {C}.

Definition set_pool {C} (pool : list Pod) (s : Alloc C) : Alloc C :=
  mkAlloc (a_kube s) (a_rand s) pool.

(** What [taskAllocator] is given: its id, the Kubernetes library and the shell
    quoting of the shellescape package. *)
Record AllocEnv := mkAllocEnv {
  ae_id : string;
  ae_lib : K8sLib;
  shellescape_Quote : string → string
}.

Section allocator.
Context {C : Type} `{KubeAPI C} (env : AllocEnv).

Definition on_kube {A} (m : M C A) : M (Alloc C) A := λ s,
  let '(r, c) := m (a_kube s) in (r, mkAlloc c (a_rand s) (a_pool s)).

(** [rand.Intn(n)]. *)
Definition Intn (n : nat) : M (Alloc C) nat := λ s,
  match a_rand s with
  | [] => (Ok 0, s)
  | x :: rest => (Ok (x mod n), mkAlloc (a_kube s) rest (a_pool s))
  end.

Definition random_word : M (Alloc C) string :=
  i ← Intn (length wordList); mret (default "" (wordList !! i)).

Definition GenerateRandomName : M (Alloc C) string :=
  w1 ← random_word; w2 ← random_word; w3 ← random_word;
  mret (w1 +:+ "-" +:+ w2 +:+ "-" +:+ w3).

(** ** The pod specification *)

Definition containsVolumeMount (l : list VolumeMount) (item : VolumeMount) : bool :=
  existsb (λ v, (vm_Name v =b vm_Name item) && (vm_MountPath v =b vm_MountPath item)
                && (vm_ReadOnly v =b vm_ReadOnly item)) l.

Definition containsVolume (l : list Volume) (item : Volume) : bool :=
  existsb (λ v, vol_Name v =b vol_Name item) l.

Definition shared_scripts : Volume := mkVolume "shared-scripts" (Some tt) None.
Definition script_mount : VolumeMount := mkVolumeMount "shared-scripts" "/script" true.

(** A nil template contains nothing. *)
Definition template_volumes (task : Task) : list Volume :=
  match t_PodTemplate task with Some pt => pt_Volumes pt | None => [] end.
Definition template_mounts (task : Task) : list VolumeMount :=
  match t_PodTemplate task with Some pt => pt_VolumeMounts pt | None => [] end.

Definition addScriptVolume (task : Task) (volumes : list Volume) : list Volume :=
  if containsVolume (template_volumes task) shared_scripts then volumes
  else volumes ++ [shared_scripts].

Definition default_injector : string := "registry.access.redhat.com/ubi9/ubi-micro:latest".

Definition script_copier (task : Task) : Container :=
  let image := if t_ScriptInjectorImage task =b "" then default_injector
               else t_ScriptInjectorImage task in
  mkContainer "script-copier" image
    ["sh"; "-c"; initScriptCommand (shellescape_Quote env (t_Script task))] [] []
    [mkVolumeMount "shared-scripts" "/script" false] None.

(** The container and the specification before the template is applied. *)
Definition script_container (task : Task) (envs : list EnvVar) : Container :=
  mkContainer (t_Name task) (t_Image task) scriptExecCommand [] envs
    (if containsVolumeMount (template_mounts task) script_mount then [] else [script_mount]) None.

Definition default_container (task : Task) (envs : list EnvVar) : Container :=
  mkContainer (t_Name task) (t_Image task) (t_Command task) (t_Args task) envs [] None.

Definition base_spec (volumes : list Volume) (init : list Container) (c : Container) : PodSpec :=
  mkPodSpec "Never" volumes init [c] [] None ∅ [] None "" None None.

Definition set_container (mounts : list VolumeMount) (resources : option ResourceRequirements)
    (c : Container) : Container :=
  mkContainer (c_Name c) (c_Image c) (c_Command c) (c_Args c) (c_Env c) mounts resources.

(** [podSpec.Containers[0]] changed; the specification has one container. *)
Definition on_container0 (f : Container → Container) (l : list Container) : list Container :=
  match l with [] => [] | c :: rest => f c :: rest end.

Definition applyPodTemplate (s : PodSpec) (pt : PodTemplateSpec) : PodSpec :=
  let parts := ToK8sParts (ae_lib env) pt in
  mkPodSpec (sp_RestartPolicy s) (sp_Volumes s ++ k8_Volumes parts) (sp_InitContainers s)
    (on_container0 (λ c, set_container (c_VolumeMounts c ++ k8_VolumeMounts parts)
       (match k8_Resources parts with Some r => Some r | None => c_Resources c end) c)
       (sp_Containers s))
    (sp_ImagePullSecrets s ++ k8_ImagePullSecrets parts) (k8_SecurityContext parts)
    (pt_NodeSelector pt) (sp_Tolerations s ++ k8_Tolerations parts) (k8_Affinity parts)
    (pt_ServiceAccountName pt) (pt_AutomountServiceAccountToken pt) (pt_ActiveDeadlineSeconds pt).

Definition set_Containers (l : list Container) (s : PodSpec) : PodSpec :=
  mkPodSpec (sp_RestartPolicy s) (sp_Volumes s) (sp_InitContainers s) l (sp_ImagePullSecrets s)
    (sp_SecurityContext s) (sp_NodeSelector s) (sp_Tolerations s) (sp_Affinity s)
    (sp_ServiceAccountName s) (sp_AutomountServiceAccountToken s) (sp_ActiveDeadlineSeconds s).

Definition createPodSpec (task : Task) (envs : list EnvVar)
    (resources : option ResourceRequirements) : PodSpec :=
  let spec :=
    if t_Script task =b "" then base_spec [] [] (default_container task envs)
    else base_spec (addScriptVolume task []) [script_copier task] (script_container task envs) in
  let spec := match t_PodTemplate task with Some pt => applyPodTemplate spec pt | None => spec end in
  match resources with
  | None => spec
  | Some r => set_Containers (on_container0 (λ c, set_container (c_VolumeMounts c) (Some r) c)
                                (sp_Containers spec)) spec
  end.

(** A parameter with its secret under the key [secret], or with its value. *)
Definition param_env (param : DbParameter) : EnvVar :=
  if pa_IsSecret param then mkEnvVar (pa_Name param) "" (Some (pa_Value param, "secret"))
  else mkEnvVar (pa_Name param) (pa_Value param) None.

Definition CreateEnvs (task : Task) : list EnvVar := param_env <$> t_Parameters task.

(** ** The pod *)

(** What the pool makes when it is empty. *)
Definition new_pod : Pod :=
  mkPod "" "" "" {[ labelManagedBy := "kontroler"; labelKontrolerType := "task" ]} ∅
    [finalizerLogCollection] (mkPodSpec "" [] [] [] [] None ∅ [] None "" None None)
    "" None [] [].

(** The metadata and the specification written into a pod of the pool. *)
Definition fill_pod (task : Task) (dagRunId taskRunId : Z) (claimedBy : string) (spec : PodSpec)
    (pod : Pod) : Pod :=
  let ids := <[annotationTaskID := Itoa (t_Id task)]>
             (<[annotationDagRunID := Itoa dagRunId]>
             (<[annotationTaskRID := Itoa taskRunId]> (p_Annotations pod))) in
  mkPod (p_UID pod) (p_Name pod) (p_Namespace pod)
    (<[labelKontrolerID := ae_id env]> (p_Labels pod))
    (if claimedBy =b "" then delete annotationClaimedBy ids
     else <[annotationClaimedBy := claimedBy]> ids)
    (p_Finalizers pod) spec (p_Phase pod) (p_StartTime pod) (p_ContainerStatuses pod)
    (p_InitContainerStatuses pod).

Definition set_Name (name : string) (p : Pod) : Pod :=
  mkPod (p_UID p) name (p_Namespace p) (p_Labels p) (p_Annotations p) (p_Finalizers p) (p_Spec p)
    (p_Phase p) (p_StartTime p) (p_ContainerStatuses p) (p_InitContainerStatuses p).

(** The attempts to create the pod, [n] at most; the pod as it is left, to be
    put back, comes with the answer. *)
Fixpoint create_loop (n : nat) (namespace : string) (pod : Pod) : M (Alloc C) (result string * Pod) :=
  match n with
  | O => mret (Err (EErrorf "failed to create pod due to naming collisions"), pod)
  | S n' =>
      name ← GenerateRandomName;
      let pod := set_Name name pod in
      r ← try (on_kube (pods_Create namespace pod));
      match r with
      | Ok createdPod => mret (Ok (p_UID createdPod), pod)
      | Err e => if contains "already exists" (err_Error e) then create_loop n' namespace pod
                 else mret (Err e, pod)
      end
  end.

Definition pool_Get : M (Alloc C) Pod := λ s,
  match a_pool s with
  | [] => (Ok new_pod, s)
  | p :: rest => (Ok p, set_pool rest s)
  end.

Definition pool_Put (p : Pod) : M (Alloc C) unit := modify (λ s, set_pool (p :: a_pool s) s).

Definition allocatePod (task : Task) (dagRunId taskRunId : Z) (namespace : string)
    (envs : list EnvVar) (resources : option ResourceRequirements) (claimedBy : string)
    : M (Alloc C) string :=
  let podSpec := createPodSpec task envs resources in
  pooled ← pool_Get;
  let pod := fill_pod task dagRunId taskRunId claimedBy podSpec pooled in
  r ← create_loop 5 namespace pod;
  pool_Put r.2 ≫= λ _,
  match r.1 with Ok uid => mret uid | Err e => throw e end.

(** [CreateEnvs] never returns nil. *)
Definition AllocateTask (task : Task) (dagRunId taskRunId : Z) (namespace claimedBy : string)
    : M (Alloc C) string :=
  allocatePod task dagRunId taskRunId namespace (CreateEnvs task) None claimedBy.

Definition AllocateTaskWithEnv (task : Task) (dagRunId taskRunId : Z) (namespace : string)
    (envs : list EnvVar) (resources : option ResourceRequirements) (claimedBy : string)
    : M (Alloc C) string :=
  allocatePod task dagRunId taskRunId namespace envs resources claimedBy.

End allocator.

#[local] Arguments create_loop : simpl never.

(** ** Example *)

Definition demo_alloc_env : AllocEnv := mkAllocEnv "kontroler-1" demo_lib (λ s, "'" +:+ s +:+ "'").
Definition demo_task : Task :=
  mkTask 3 "extract" "alpine" [] [] [mkDbParameter "token" true "api-secret"] None "echo hi" "".
Definition demo_alloc (pool : list Pod) : Alloc Cluster := mkAlloc empty_cluster [0; 6; 18] pool.

(** A pod that another task left in the pool, claimed by a worker. *)
Definition used_pod : Pod :=
  fill_pod demo_alloc_env demo_task 1 2 "worker-9"
    (mkPodSpec "Never" [] [] [] [] None ∅ [] None "" None None) new_pod.

(** ** The pool *)

(** What a pod of the pool can differ in from a new one: its name, its
    specification, and what [fill_pod] writes. *)
Record pooled (p : Pod) : Prop := {
  po_uid : p_UID p = "";
  po_namespace : p_Namespace p = "";
  po_labels : delete labelKontrolerID (p_Labels p) = p_Labels new_pod;
  po_annotations : delete annotationClaimedBy (delete annotationTaskID
    (delete annotationDagRunID (delete annotationTaskRID (p_Annotations p)))) = ∅;
  po_finalizers : p_Finalizers p = p_Finalizers new_pod;
  po_status : (p_Phase p, p_StartTime p, p_ContainerStatuses p, p_InitContainerStatuses p) =
    ("", None, [], []);
}.

(** A computation that neither reads nor changes the pool. *)
Definition ignores_pool {C A} (m : M (Alloc C) A) : Prop :=
  ∀ pool s, m (set_pool pool s) = ((m s).1, set_pool pool (m s).2).

Section pool.
Context {C : Type} `{KubeAPI C} (env : AllocEnv).

Lemma ignores_ret {A} (a : A) : ignores_pool (C := C) (mret a).
Proof. done. Qed.

Lemma ignores_bind {A B} (m : M (Alloc C) A) (f : A → M (Alloc C) B) :
  ignores_pool m → (∀ a, ignores_pool (f a)) → ignores_pool (m ≫= f).
Proof.
  intros Hm Hf pool s. unfold mbind, M_bind. rewrite Hm. destruct (m s) as [[a|e] s']; [|done].
  apply Hf.
Qed.

Lemma ignores_try {A} (m : M (Alloc C) A) : ignores_pool m → ignores_pool (try m).
Proof. intros Hm pool s. unfold try. rewrite Hm. by destruct (m s). Qed.

Lemma ignores_on_kube {A} (m : M C A) : ignores_pool (on_kube m).
Proof. intros pool s. unfold on_kube. simpl. by destruct (m (a_kube s)). Qed.

Lemma ignores_random_word : ignores_pool (C := C) random_word.
Proof.
  apply ignores_bind; [|intros; apply ignores_ret]. intros pool s. unfold Intn. simpl.
  by destruct (a_rand s).
Qed.

Lemma ignores_name : ignores_pool (C := C) GenerateRandomName.
Proof. repeat (apply ignores_bind; [apply ignores_random_word|intros]). apply ignores_ret. Qed.

Lemma ignores_create n namespace pod : ignores_pool (C := C) (create_loop n namespace pod).
Proof.
  revert pod. induction n as [|n IH]; intros pod; [apply ignores_ret|].
  apply ignores_bind; [apply ignores_name|]. intros name. cbv zeta.
  apply ignores_bind; [apply ignores_try, ignores_on_kube|].
  intros [p|e]; [apply ignores_ret|]. destruct (contains _ _); [apply IH|apply ignores_ret].
Qed.

(** The name a pod had does not matter: it is given a new one. *)
Lemma create_loop_name n namespace name pod :
  create_loop (C := C) (S n) namespace (set_Name name pod) = create_loop (S n) namespace pod.
Proof. done. Qed.

Lemma pooled_set_Name name p : pooled p → pooled (set_Name name p).
Proof. by intros [? ? ? ? ? ?]. Qed.

Lemma pooled_new : pooled new_pod.
Proof. by split. Qed.

Lemma pooled_fill task dagRunId taskRunId claimedBy spec p :
  pooled p → pooled (fill_pod env task dagRunId taskRunId claimedBy spec p).
Proof.
  intros [H1 H2 H3 H4 H5 H6]. split; try done.
  - simpl. by rewrite delete_insert_eq.
  - simpl. rewrite <- H4. destruct (claimedBy =b ""); apply map_eq; intros k;
      repeat (rewrite ?lookup_delete, ?lookup_insert; case_decide; try done; subst).
Qed.

(** Filled, a pod of the pool is a new pod but for its name. *)
Lemma fill_pooled task dagRunId taskRunId claimedBy spec p :
  pooled p →
  fill_pod env task dagRunId taskRunId claimedBy spec p =
    set_Name (p_Name p) (fill_pod env task dagRunId taskRunId claimedBy spec new_pod).
Proof.
  intros [H1 H2 H3 H4 H5 H6]. injection H6 as H6 H7 H8 H9. unfold fill_pod, set_Name. simpl.
  rewrite H1, H2, H5, H6, H7, H8, H9. f_equal.
  - apply map_eq. intros k. rewrite !lookup_insert. case_decide as Hk; [done|].
    rewrite <- (lookup_delete_ne (p_Labels p) labelKontrolerID k) by done.
    rewrite H3. simpl. by rewrite lookup_insert.
  - assert (∀ k, k ≠ annotationTaskRID → k ≠ annotationDagRunID → k ≠ annotationTaskID →
        k ≠ annotationClaimedBy → p_Annotations p !! k = None) as Hk.
    { intros k K1 K2 K3 K4. rewrite <- (lookup_delete_ne _ annotationTaskRID k),
        <- (lookup_delete_ne _ annotationDagRunID k), <- (lookup_delete_ne _ annotationTaskID k),
        <- (lookup_delete_ne _ annotationClaimedBy k), H4 by done. apply lookup_empty. }
    destruct (claimedBy =b ""); apply map_eq; intros k;
      repeat (rewrite ?lookup_delete, ?lookup_insert; case_decide; try done; subst);
      rewrite lookup_empty; by apply Hk.
Qed.

Lemma create_loop_pooled n namespace pod s :
  pooled pod → wp (create_loop (C := C) n namespace pod) s (λ r s', ∃ x, r = Ok x ∧ pooled x.2 ∧
    a_pool s' = a_pool s).
Proof.
  revert pod s. induction n as [|n IH]; intros pod s Hp; [by eexists|].
  cbn [create_loop]. apply wp_bind.
  assert (wp (GenerateRandomName (C := C)) s (λ r s', ∃ name, r = Ok name ∧ a_pool s' = a_pool s))
    as Hname.
  { assert (∀ s, wp (random_word (C := C)) s (λ r s', ∃ w, r = Ok w ∧ a_pool s' = a_pool s)) as Hw.
    { intros s'. unfold random_word, Intn, wp, mbind, M_bind. destruct (a_rand s'); (eexists; split; reflexivity). }
    do 3 (apply wp_bind; eapply wp_mono; [apply Hw|]; intros ? ? (? & -> & ?)).
    apply wp_ret. eexists. split; [done|congruence]. }
  eapply wp_mono; [exact Hname|]. intros ? s1 (name & -> & Hs1). apply wp_bind, wp_try.
  unfold wp, on_kube. destruct (pods_Create namespace _ (a_kube s1)) as [[c|e] k]; simpl.
  - eexists. split; [done|]. split; [by apply pooled_set_Name|done].
  - destruct (contains _ _); [|eexists; split; [done|]; split; [by apply pooled_set_Name|done]].
    eapply wp_mono; [apply IH; by apply pooled_set_Name|]. simpl. intros ? ? (? & ? & ? & ?).
    eexists. split; [done|]. split; [done|congruence].
Qed.

(** ** Properties *)

(** The pool of pods is transparent: whatever pods were put back before, an
    allocation creates the same pods, with the same answer and the same effect
    on the cluster, as one that starts from new pods, and what it puts back can
    be used again. *)
Theorem pool_transparent (task : Task) (dagRunId taskRunId : Z) (namespace claimedBy : string)
    (envs : list EnvVar) (resources : option ResourceRequirements) (s : Alloc C)
    (Hpool : Forall pooled (a_pool s)) :
  let alloc := allocatePod env task dagRunId taskRunId namespace envs resources claimedBy in
  (alloc s).1 = (alloc (set_pool [] s)).1 ∧
  a_kube (alloc s).2 = a_kube (alloc (set_pool [] s)).2 ∧
  a_rand (alloc s).2 = a_rand (alloc (set_pool [] s)).2 ∧
  Forall pooled (a_pool (alloc s).2).
Proof.
  intros alloc. set (spec := createPodSpec env task envs resources).
  set (fresh := fill_pod env task dagRunId taskRunId claimedBy spec new_pod).
  assert (∀ p rest, pooled p → Forall pooled rest → ∃ x s', pooled x.2 ∧ a_pool s' = rest ∧
    (create_loop 5 namespace (fill_pod env task dagRunId taskRunId claimedBy spec p))
      (set_pool rest s) = (Ok x, s') ∧
    (create_loop 5 namespace fresh) (set_pool [] s) = (Ok x, set_pool [] s')) as Hloop.
  { intros p rest Hp Hrest. rewrite fill_pooled, create_loop_name by done. fold fresh.
    pose proof (create_loop_pooled 5 namespace fresh (set_pool [] s)
      (pooled_fill _ _ _ _ _ _ pooled_new)) as (x & Hx & Hpx & _).
    exists x, (set_pool rest (create_loop 5 namespace fresh (set_pool [] s)).2).
    change (set_pool rest s) with (set_pool rest (set_pool [] s)).
    rewrite (ignores_create 5 namespace fresh rest (set_pool [] s)), Hx. split_and!; try done.
    destruct (create_loop 5 namespace fresh (set_pool [] s)) as [r s'] eqn:E. simpl in *. subst r.
    f_equal. pose proof (ignores_create 5 namespace fresh [] (set_pool [] s)) as Hi.
    rewrite E in Hi. simpl in Hi. change (set_pool [] (set_pool [] s)) with (set_pool [] s) in Hi.
    rewrite E in Hi. injection Hi as Hi. exact Hi. }
  assert (∃ p rest, (pool_Get s) = (Ok p, set_pool rest s) ∧ pooled p ∧ Forall pooled rest)
    as (p & rest & Hget & Hp & Hrest).
  { unfold pool_Get. destruct (a_pool s) as [|p rest] eqn:Ep.
    - exists new_pod, []. split_and!; [|apply pooled_new|done]. by destruct s; simpl in *; subst.
    - apply Forall_cons in Hpool as [? ?]. by exists p, rest. }
  destruct (Hloop p rest Hp Hrest) as (x & s' & Hpx & Hs' & H1 & H2).
  unfold alloc, allocatePod, mbind, M_bind. rewrite Hget. fold spec. rewrite H1.
  change (pool_Get (set_pool [] s)) with (Ok (A := Pod) new_pod, set_pool [] s).
  cbv beta zeta iota. fold fresh. rewrite H2. unfold pool_Put, modify. simpl. rewrite Hs'.
  destruct x.1; simpl; split_and!; try done; by constructor.
Qed.

End pool.

Lemma used_pod_pooled : Forall pooled [used_pod].
Proof. constructor; [|done]. apply pooled_fill, pooled_new. Qed.

Lemma pool_transparent_witness :
  (AllocateTask demo_alloc_env demo_task 1 2 "default" "worker-1" (demo_alloc [used_pod])).1 =
  Ok "uid-0".
Proof.
  transitivity (AllocateTask demo_alloc_env demo_task 1 2 "default" "worker-1" (demo_alloc [])).1;
    [|vm_compute; reflexivity].
  exact (proj1 (pool_transparent demo_alloc_env demo_task 1 2 "default" "worker-1"
    (CreateEnvs demo_task) None (demo_alloc [used_pod]) used_pod_pooled)).
Defined.
