(* ===== verification/DagManager.v ===== *)
(** * The database as its clients see it (internal/db/dbManagers.go)

    The interface [DBDAGManager] that the workers, the controllers and the
    scheduler are given, as a typeclass; the SQLite manager implements it. *)

From S2P Require Import Prelude Api Store SqliteDag SqliteRun SqliteClaim.

Class DagManager (S : Type) := {
  db_GetDAGsToStartAndUpdate : Z → M S (list DagInfo);
  db_InsertDAG : DAG → string → M S unit;
  db_CreateDAGRun : string → DagRunSpec → gmap string ParameterSpec → option string → M S Z;
  db_GetStartingTasks : string → Z → M S (list Task);
  db_TaskRunExists : Z → Z → M S bool;
  db_IncrementAttempts : Z → M S unit;
  db_MarkSuccessAndGetNextTasks : Z → M S (list Task);
  db_GetDagParameters : string → M S (gmap string DbParameter);
  db_DagExists : string → M S (bool * Z);
  db_ShouldRerun : Z → Z → M S bool;
  db_MarkTaskAsFailed : Z → M S unit;
  db_MarkPodStatus : string → string → Z → string → Z → option Z → string → M S unit;
  db_DeleteDAG : string → string → M S (list string);
  db_AddTask : DagTask → string → M S unit;
  db_DeleteTask : string → string → M S unit;
  db_GetTaskRefsParameters : list TaskRef → M S (gmap TaskRef (list string));
  db_GetWebhookDetails : Z → M S Webhook;
  db_GetWorkspacePVCTemplate : Z → M S (option PVC);
  db_CheckIfAllTasksDone : Z → M S bool;
  db_MarkConnectingTasksAsSuspended : Z → Z → M S (list string);
  db_AddPodDuration : Z → Z → M S unit;
  db_SuspendDagRun : Z → M S (list RunningPodInfo);
  db_DeleteDagRun : Z → M S unit;
  db_DagrunExists : Z → M S bool;
  db_GetTaskRunInfo : Z → M S (string * string * string);
  db_ClaimTasks : Z → string → Z → M S (list TaskClaim);
  db_RenewLease : Z → string → Z → M S unit;
  db_FinalizeClaimToRunning : Z → string → string → M S unit;
  db_AddPendingTaskRun : Z → Z → M S Z;
  db_GetTaskForRun : Z → Z → M S (Task * string * string);
  db_ClaimTaskByID : Z → string → Z → M S TaskClaim;
  db_SaveRetryEnv : Z → string → M S unit;
  db_GetTaskRunStatus : Z → M S string
}.

(** [NewSqliteManager] as the implementation. *)
#[global] Instance SqliteManager (env : DbEnv) : DagManager Store := {
  db_GetDAGsToStartAndUpdate := DagDb.GetDAGsToStartAndUpdate env;
  db_InsertDAG := DagDb.InsertDAG env;
  db_CreateDAGRun := RunDb.CreateDAGRun;
  db_GetStartingTasks := RunDb.GetStartingTasks;
  db_TaskRunExists := RunDb.TaskRunExists;
  db_IncrementAttempts := RunDb.IncrementAttempts;
  db_MarkSuccessAndGetNextTasks := RunDb.MarkSuccessAndGetNextTasks;
  db_GetDagParameters := DagDb.GetDagParameters;
  db_DagExists := DagDb.DagExists;
  db_ShouldRerun := RunDb.ShouldRerun;
  db_MarkTaskAsFailed := RunDb.MarkTaskAsFailed;
  db_MarkPodStatus := RunDb.MarkPodStatus;
  db_DeleteDAG := DagDb.DeleteDAG;
  db_AddTask := DagDb.AddTask env;
  db_DeleteTask := DagDb.DeleteTask;
  db_GetTaskRefsParameters := DagDb.GetTaskRefsParameters;
  db_GetWebhookDetails := DagDb.GetWebhookDetails;
  db_GetWorkspacePVCTemplate := DagDb.GetWorkspacePVCTemplate;
  db_CheckIfAllTasksDone := RunDb.CheckIfAllTasksDone;
  db_MarkConnectingTasksAsSuspended := RunDb.MarkConnectingTasksAsSuspended;
  db_AddPodDuration := RunDb.AddPodDuration;
  db_SuspendDagRun := RunDb.SuspendDagRun;
  db_DeleteDagRun := RunDb.DeleteDagRun;
  db_DagrunExists := RunDb.DagrunExists;
  db_GetTaskRunInfo := RunDb.GetTaskRunInfo;
  db_ClaimTasks := ClaimDb.ClaimTasks;
  db_RenewLease := ClaimDb.RenewLease;
  db_FinalizeClaimToRunning := ClaimDb.FinalizeClaimToRunning;
  db_AddPendingTaskRun := RunDb.AddPendingTaskRun;
  db_GetTaskForRun := RunDb.GetTaskForRun;
  db_ClaimTaskByID := ClaimDb.ClaimTaskByID;
  db_SaveRetryEnv := RunDb.SaveRetryEnv;
  db_GetTaskRunStatus := RunDb.GetTaskRunStatus
}.
