(* ===== verification/Worker.v ===== *)
(** * The worker (internal/workers/workers.go, internal/webhook/webhook.go)

    A worker reads pod events from its queue and drives the runs: it records
    outcomes, releases or suspends tasks, retries, cleans up and notifies.  Its
    handlers are written against the database interface and the API client.
    What the code starts with [go] is recorded in the world: notifications in
    [w_sent], claims to process in [w_claims], log collections in [w_logs]. *)

From S2P Require Import Prelude Api Kube Allocator Queue Store DagManager.
Local Open Scope kontroler_scope.

(** ** Webhooks (internal/webhook/webhook.go) *)

Inductive HookData :=
| TaskHookDetails (status : string) (dagRunId : Z) (taskName : string) (taskId : Z)
| PodEventDetails (status : string) (dagRunId : Z) (taskName : string) (taskId duration : Z).

Record WebhookPayload := mkWebhookPayload {
  wp_URL : string;
  wp_VerifySSL : bool;
  wp_Data : HookData
}.

(** ** State *)

Record World (S C : Type) := mkWorld {
  w_db : S;
  w_alloc : Alloc C;
  w_sent : list WebhookPayload;
  (** Whether the claim counts as in flight, and the claim. *)
  w_claims : list (bool * TaskClaim);
  w_logs : list Pod;
  w_now : Z
}.
Arguments mkWorld {S C}.
Arguments w_db {S C}.
Arguments w_alloc {S C}.
Arguments w_sent {S C}.
Arguments w_claims {S C}.
Arguments w_logs {S C}.
Arguments w_now {S C}.

(** [encoding/json] on the environment of a retried pod: a list of maps with the
    keys name and value is written, a list of [v1.EnvVar] is read. *)
Record JsonLib := mkJsonLib {
  json_Marshal : list (string * string) → string;
  json_Unmarshal : string → result (list EnvVar)
}.

(** The fields of the worker that do not change; whether it has a log store. *)
Record WorkerEnv := mkWorkerEnv {
  we_id : string;
  we_alloc : AllocEnv;
  we_json : JsonLib;
  we_logStore : bool
}.

Definition kontrolerTaskID : string := "kontroler/task-id".
Definition kontrolerDagRunID : string := "kontroler/dagRun-id".
Definition kontrolerTaskRunID : string := "kontroler/task-rid".

Definition defaultLeaseTTL : Z := 60.
Definition claimBatchSize : Z := 5.
Definition maxConcurrentClaims : Z := 50.

Definition PodSucceeded : string := "Succeeded".
Definition PodFailed : string := "Failed".
Definition PodRunning : string := "Running".
Definition PodPending : string := "Pending".

(** ** Reading a pod *)

Definition ErrMissingAnnotation : string := "missing required annotation".
Definition ErrInvalidTaskRunID : string := "invalid task run ID".

Definition getTaskRunID (pod : Pod) : result Z :=
  match p_Annotations pod !! kontrolerTaskRunID with
  | None => Err (EErrorf (ErrMissingAnnotation +:+ ": " +:+ kontrolerTaskRunID))
  | Some s => match Atoi s with
              | Ok n => Ok n
              | Err _ => Err (EErrorf (ErrInvalidTaskRunID +:+ ": " +:+ s))
              end
  end.

Definition getDagRunID (pod : Pod) : result Z :=
  match p_Annotations pod !! kontrolerDagRunID with
  | None => Err (EErrorf (ErrMissingAnnotation +:+ ": " +:+ kontrolerDagRunID))
  | Some s => Atoi s
  end.

Definition getTaskIdFromPod (pod : Pod) : result Z :=
  match p_Annotations pod !! kontrolerTaskID with
  | None => Err (EErrorf "missing annotation")
  | Some s => Atoi s
  end.

(** [Duration.Seconds] of [a.Sub(b)], cut to an integer; [Sub] saturates. *)
Definition seconds_between (a b : Z) : Z :=
  Z.quot (Z.max (- 2 ^ 63) (Z.min (2 ^ 63 - 1) (a - b))) 1000000000.

(** The duration, the time and the exit code of a pod event. *)
Definition computePodDurationAndExit (now : Z) (pod : Pod) (eventStamp : option Z)
    : Z * option Z * option Z :=
  match head (p_ContainerStatuses pod) ≫= cs_Terminated with
  | Some terminated =>
      let stamp := match tm_FinishedAt terminated with Some t => Some t | None => eventStamp end in
      let d :=
        match tm_StartedAt terminated, tm_FinishedAt terminated with
        | Some started, Some finished => seconds_between finished started
        | Some started, None => seconds_between now started
        | None, Some finished =>
            match p_StartTime pod with Some start => seconds_between finished start | None => 0%Z end
        | None, None => 0%Z
        end in
      (Z.max 0 d, stamp, Some (tm_ExitCode terminated))
  | None =>
      (0%Z, eventStamp, if p_Phase pod =b PodFailed then Some (-1)%Z else None)
  end.

Definition isContainerError (state : ContainerState) : bool :=
  match cs_Waiting state with
  | None => false
  | Some reason =>
      bool_decide (reason ∈ ["CreateContainerError"; "RunContainerError";
        "CreateContainerConfigError"; "ErrImagePull"; "ImagePullBackOff"])
  end.

Definition hasConfigError (pod : Pod) : bool :=
  existsb isContainerError (p_ContainerStatuses pod)
  || existsb isContainerError (p_InitContainerStatuses pod).

Definition isPodReadyForLogCollection (pod : Pod) : bool :=
  existsb (λ s, cs_Running s || bool_decide (is_Some (cs_Terminated s))) (p_ContainerStatuses pod).

Module Workers.

Section worker.
Context {S C : Type} `{DagManager S} `{KubeAPI C} (env : WorkerEnv).

#[local] Abbreviation W := (M (World S C)).

(** A call whose error is a value; an error of the worker's own computations is
    a panic. *)
Definition db_call {A} (m : M S A) : W (result A) := λ w,
  let '(r, s) := m (w_db w) in
  (Ok r, mkWorld s (w_alloc w) (w_sent w) (w_claims w) (w_logs w) (w_now w)).

Definition alloc_call {A} (m : M (Alloc C) A) : W (result A) := λ w,
  let '(r, a) := m (w_alloc w) in
  (Ok r, mkWorld (w_db w) a (w_sent w) (w_claims w) (w_logs w) (w_now w)).

Definition kube_call {A} (m : M C A) : W (result A) := alloc_call (on_kube m).

Definition notify (p : WebhookPayload) : W unit := modify (λ w,
  mkWorld (w_db w) (w_alloc w) (w_sent w ++ [p]) (w_claims w) (w_logs w) (w_now w)).

Definition go_claim (counted : bool) (c : TaskClaim) : W unit := modify (λ w,
  mkWorld (w_db w) (w_alloc w) (w_sent w) (w_claims w ++ [(counted, c)]) (w_logs w) (w_now w)).

Definition go_logs (pod : Pod) : W unit := modify (λ w,
  mkWorld (w_db w) (w_alloc w) (w_sent w) (w_claims w) (w_logs w ++ [pod]) (w_now w)).

(** [pod.Spec.Containers[0]]. *)
Definition container0 (pod : Pod) : W Container :=
  match sp_Containers (p_Spec pod) with
  | c :: _ => mret c
  | [] => throw (EErrorf "runtime error: index out of range [0] with length 0")
  end.

(** [webhookNotifier.NotifyTaskRun] and [NotifyPodEvent]. *)
Definition NotifyTaskRun (name status : string) (dagRunId taskId : Z) (hook : Webhook) : W unit :=
  notify (mkWebhookPayload (wh_URL hook) (wh_VerifySSL hook)
            (TaskHookDetails status dagRunId name taskId)).

Definition NotifyPodEvent (name status : string) (dagRunId taskId : Z) (hook : Webhook)
    (duration : Z) : W unit :=
  notify (mkWebhookPayload (wh_URL hook) (wh_VerifySSL hook)
            (PodEventDetails status dagRunId name taskId duration)).

(** The webhook of the run's DAG, if it can be read and has an address. *)
Definition with_webhook (dagRunId : Z) (f : Webhook → W unit) : W unit :=
  r ← db_call (db_GetWebhookDetails dagRunId);
  match r with
  | Ok hook => if wh_URL hook =b "" then mret tt else f hook
  | Err _ => mret tt
  end.

(** Tell the webhook the status of the pod's task. *)
Definition notify_status (pod : Pod) (status : string) (dagRunId taskRunId : Z) : W unit :=
  with_webhook dagRunId (λ hook,
    c ← container0 pod; NotifyTaskRun (c_Name c) status dagRunId taskRunId hook).

Definition getTaskRunMetricsInfo (taskRunId : Z) : W (string * string * string) :=
  r ← db_call (db_GetTaskRunInfo taskRunId);
  mret match r with Ok info => info | Err _ => ("unknown", "unknown", "unknown") end.

(** ** Cluster *)

Definition deletePod (pod : Pod) (removeFinaliser : bool) : W (result unit) :=
  (if removeFinaliser
   then kube_call (RemoveFinalizer (p_Name pod) (p_Namespace pod) finalizerLogCollection)
          ≫= λ _, mret tt
   else mret tt) ≫= λ _,
  kube_call (pods_Delete (p_Namespace pod) (p_Name pod)).

(** The claim of the volume named workspace. *)
Definition workspace_claim (volumes : list Volume) : option string :=
  head (omap (λ v, match vol_PersistentVolumeClaim v with
                   | Some c => if vol_Name v =b "workspace" then Some (pvcs_ClaimName c) else None
                   | None => None
                   end) volumes).

Definition deletePVC (pod : Pod) : W (result unit) :=
  match workspace_claim (sp_Volumes (p_Spec pod)) with
  | None => mret (Ok tt)
  | Some claimName =>
      r ← kube_call (pvc_Get (p_Namespace pod) claimName);
      match r with
      | Err e => mret (Err e)
      | Ok pvc =>
          u ← kube_call (pvc_Update (p_Namespace pod) (clear_Finalizers pvc));
          match u with
          | Err e => mret (Err e)
          | Ok _ => kube_call (pvc_Delete (p_Namespace pod) claimName)
          end
      end
  end.

(** ** Completion *)

(** Delete the workspace when the run is complete; errors are logged. *)
Definition handleDagRunCompletion (pod : Pod) (dagRunId : Z) : W unit :=
  r ← db_call (db_CheckIfAllTasksDone dagRunId);
  match r with
  | Ok true => deletePVC pod ≫= λ _, mret tt
  | _ => mret tt
  end.

(** ** Success *)

Definition allocateNextTasks (dagRunId : Z) (tasks : list Task) : W unit :=
  foreach (λ task, db_call (db_AddPendingTaskRun dagRunId (t_Id task)) ≫= λ _, mret tt) tasks.

Definition processNextTasks (pod : Pod) (dagRunId : Z) (tasks : list Task) : W unit :=
  if bool_decide (length tasks = 0) then handleDagRunCompletion pod dagRunId
  else allocateNextTasks dagRunId tasks.

Definition handleSuccessfulTaskRun (pod : Pod) (taskRunId : Z) : W unit :=
  getTaskRunMetricsInfo taskRunId ≫= λ _,
  match getDagRunID pod with
  | Err _ => mret tt
  | Ok dagRunId =>
      d ← deletePod pod false;
      match d with
      | Err _ => mret tt
      | Ok _ =>
          r ← db_call (db_MarkSuccessAndGetNextTasks taskRunId);
          match r with
          | Err _ => mret tt
          | Ok tasks =>
              notify_status pod "success" dagRunId taskRunId ≫= λ _,
              processNextTasks pod dagRunId tasks
          end
      end
  end.

(** ** Failure *)

Definition handleUnretryablePod (pod : Pod) (taskRunId dagRunId : Z) : W unit :=
  getTaskRunMetricsInfo taskRunId ≫= λ _,
  db_call (db_MarkTaskAsFailed taskRunId) ≫= λ _,
  hook ← db_call (db_GetWebhookDetails dagRunId);
  let url := match hook with Ok h => wh_URL h | Err _ => "" end in
  (match hook with
   | Ok h => if url =b "" then mret tt
             else c ← container0 pod; NotifyTaskRun (c_Name c) "failed" dagRunId taskRunId h
   | Err _ => mret tt
   end) ≫= λ _,
  names ← db_call (db_MarkConnectingTasksAsSuspended dagRunId taskRunId);
  match names with
  | Err _ => mret tt
  | Ok taskNames =>
      (match hook with
       | Ok h => if url =b "" then mret tt
                 else foreach (λ taskName, NotifyTaskRun taskName "suspended" dagRunId taskRunId h)
                        taskNames
       | Err _ => mret tt
       end) ≫= λ _,
      handleDagRunCompletion pod dagRunId
  end.

(** The environment that is saved: names and values. *)
Definition retry_envs (c : Container) : list (string * string) :=
  (λ e, (ev_Name e, ev_Value e)) <$> c_Env c.

Definition retryFailedTask (pod : Pod) (dagRunId taskRunId : Z) : W unit :=
  getTaskRunMetricsInfo taskRunId ≫= λ _,
  match getTaskIdFromPod pod with
  | Err _ => mret tt
  | Ok taskId =>
      r ← db_call (db_AddPendingTaskRun dagRunId taskId);
      match r with
      | Err _ => mret tt
      | Ok newTaskRunId =>
          container ← container0 pod;
          db_call (db_SaveRetryEnv newTaskRunId
            (json_Marshal (we_json env) (retry_envs container))) ≫= λ _,
          claim ← db_call (db_ClaimTaskByID newTaskRunId (we_id env) defaultLeaseTTL);
          match claim with
          | Err _ => mret tt
          | Ok c =>
              go_claim false c ≫= λ _,
              db_call (db_IncrementAttempts newTaskRunId) ≫= λ _, mret tt
          end
      end
  end.

Definition handleFailedTaskRun (pod : Pod) (taskRunId : Z) : W unit :=
  now ← gets w_now;
  let exitcode := default (-1)%Z (computePodDurationAndExit now pod None).2 in
  getTaskRunMetricsInfo taskRunId ≫= λ _,
  match getDagRunID pod with
  | Err _ => mret tt
  | Ok dagRunId =>
      d ← deletePod pod false;
      let gone := match d with Ok _ => true | Err e => contains "not found" (err_Error e) end in
      if negb gone then mret tt
      else
        r ← db_call (db_ShouldRerun taskRunId exitcode);
        match r with
        | Err _ => mret tt
        | Ok false => handleUnretryablePod pod taskRunId dagRunId
        | Ok true => retryFailedTask pod dagRunId taskRunId
        end
  end.

(** ** Pending pods *)

Definition handleConfigError (pod : Pod) (taskRunId dagRunId : Z) : W unit :=
  db_call (db_MarkTaskAsFailed taskRunId) ≫= λ _,
  now ← gets w_now;
  db_call (db_MarkPodStatus (p_UID pod) (p_Name pod) taskRunId PodFailed now None
             (p_Namespace pod)) ≫= λ _,
  deletePod pod true ≫= λ _,
  notify_status pod "failed" dagRunId taskRunId ≫= λ _,
  handleUnretryablePod pod taskRunId dagRunId.

(** Whether the status of the pod is to be written. *)
Definition handlePendingTaskRun (pod : Pod) (taskRunId : Z) : W bool :=
  getTaskRunMetricsInfo taskRunId ≫= λ _,
  match getDagRunID pod with
  | Err _ => mret true
  | Ok dagRunId =>
      if hasConfigError pod
      then handleConfigError pod taskRunId dagRunId ≫= λ _, mret false
      else notify_status pod "pending" dagRunId taskRunId ≫= λ _, mret true
  end.

Definition handleStartedTaskRun (pod : Pod) (taskRunId : Z) : W unit :=
  match getDagRunID pod with
  | Err _ => mret tt
  | Ok dagRunId => notify_status pod "started" dagRunId taskRunId
  end.

(** ** The status of a pod *)

Definition maxStatusRetries : nat := 5.

(** The attempts to write the status; the back-off between them is left out. *)
Fixpoint mark_status (n : nat) (m : M S unit) (lastErr : option GoError) : W (result unit) :=
  match n with
  | O => mret match lastErr with
              | Some e => Err (EWrap "failed to mark pod status after retries" e)
              | None => Ok tt
              end
  | Datatypes.S n' =>
      r ← db_call m;
      match r with
      | Ok _ => mret (Ok tt)
      | Err e => if contains "pod status not updated" (err_Error e)
                 then mark_status n' m (Some e)
                 else mret (Err (EWrap "failed to mark pod status" e))
      end
  end.

Definition writeStatusToDB (pod : Pod) (stamp : option Z) : W (result unit) :=
  match getTaskRunID pod, getDagRunID pod with
  | Err e, _ | Ok _, Err e => mret (Err e)
  | Ok taskRunId, Ok dagRunId =>
      now ← gets w_now;
      let '(duration, outStamp, exitCode) := computePodDurationAndExit now pod stamp in
      (if bool_decide (0 < duration)%Z
       then db_call (db_AddPodDuration taskRunId duration) ≫= λ _, mret tt
       else mret tt) ≫= λ _,
      r ← mark_status maxStatusRetries
            (db_MarkPodStatus (p_UID pod) (p_Name pod) taskRunId (p_Phase pod)
               (default now outStamp) exitCode (p_Namespace pod)) None;
      match r with
      | Err e => mret (Err e)
      | Ok _ =>
          with_webhook dagRunId (λ hook,
            c ← container0 pod;
            NotifyPodEvent (c_Name c) (p_Phase pod) dagRunId taskRunId hook duration) ≫= λ _,
          mret (Ok tt)
      end
  end.

(** ** Events *)

Definition handleLogCollection (pod : Pod) : W unit :=
  if we_logStore env && isPodReadyForLogCollection pod then go_logs pod else mret tt.

Definition handleOutcome (pod : Pod) (eventTime : option Z) : W unit :=
  match getTaskRunID pod with
  | Err _ => mret tt
  | Ok taskRunId =>
      handleLogCollection pod ≫= λ _,
      writeState ←
        (if p_Phase pod =b PodSucceeded
         then handleSuccessfulTaskRun pod taskRunId ≫= λ _, mret true
         else if p_Phase pod =b PodFailed
         then handleFailedTaskRun pod taskRunId ≫= λ _, mret true
         else if p_Phase pod =b PodRunning
         then handleStartedTaskRun pod taskRunId ≫= λ _, mret true
         else if p_Phase pod =b PodPending
         then handlePendingTaskRun pod taskRunId
         else mret true);
      if writeState : bool then writeStatusToDB pod eventTime ≫= λ _, mret tt else mret tt
  end.

(** One event of [Run]'s loop. *)
Definition handle_event (ev : PodEvent Pod) : W unit :=
  if bool_decide (pe_Event ev ∈ ["add"; "update"]) then
    match pe_Pod ev with
    | Some pod => handleOutcome pod (pe_EventTime ev)
    | None => throw (EErrorf "runtime error: invalid memory address or nil pointer dereference")
    end
  else mret tt.

(** ** Claims *)

(** One tick of [claimPoller]. *)
Definition claim_tick : W unit :=
  inFlight ← gets (λ w, count_where fst (w_claims w));
  let allowed := (maxConcurrentClaims - inFlight)%Z in
  if bool_decide (allowed <= 0)%Z then mret tt
  else
    r ← db_call (db_ClaimTasks (Z.min claimBatchSize allowed) (we_id env) defaultLeaseTTL);
    match r with
    | Err _ => mret tt
    | Ok claims => foreach (go_claim true) claims
    end.

(** One tick of the goroutine that renews the lease of a claim: it goes on. *)
Definition renew_tick (c : TaskClaim) : W bool :=
  r ← db_call (db_RenewLease (tc_TaskRunID c) (we_id env) defaultLeaseTTL);
  mret (is_ok r).

(** Allocate the pod, with the saved environment if there is one that parses. *)
Definition allocate_claimed (c : TaskClaim) (task : Task) (namespace retryEnv : string)
    : W (result string) :=
  let normal := alloc_call (AllocateTask (we_alloc env) task (tc_RunID c) (tc_TaskRunID c)
                              namespace (we_id env)) in
  if retryEnv =b "" then normal
  else match json_Unmarshal (we_json env) retryEnv with
       | Err _ => normal
       | Ok envs => alloc_call (AllocateTaskWithEnv (we_alloc env) task (tc_RunID c)
                      (tc_TaskRunID c) namespace envs None (we_id env))
       end.

Definition processClaim (c : TaskClaim) : W unit :=
  r ← db_call (db_GetTaskForRun (tc_RunID c) (tc_TaskID c));
  match r with
  | Err _ => mret tt
  | Ok (task, namespace, retryEnv) =>
      a ← allocate_claimed c task namespace retryEnv;
      match a with
      | Err _ => mret tt
      | Ok podUID =>
          f ← db_call (db_FinalizeClaimToRunning (tc_TaskRunID c) (we_id env) podUID);
          match f with
          | Ok _ => mret tt
          | Err _ =>
              if podUID =b "" then mret tt
              else
                pods ← kube_call (pods_List_uid namespace podUID);
                match pods with
                | Ok (p :: _) => kube_call (pods_Delete namespace (p_Name p)) ≫= λ _, mret tt
                | _ => mret tt
                end
          end
      end
  end.

End worker.
End Workers.
