(* ===== verification/WorkerSpec.v ===== *)
(** * What the worker does to the runs

    Theorems about the handlers of [Worker] over the SQLite manager and any API
    server: a success advances its run, an event for a pod that is gone leaves
    the runs alone, and the effects that are not wanted. *)

From S2P Require Import Prelude Api DagValidation Kube KubeExample Allocator Queue Store SqliteDag SqliteRun SqliteClaim Database StoredDag TaskRelease Leases Suspension DagManager Worker.
Import DagDb RunDb ClaimDb Calls Workers.
Local Open Scope kontroler_scope.

(** ** Specification *)

Abbreviation DbWorld C := (World Store C).

Definition with_db {S C} (s : S) (w : World S C) : World S C :=
  mkWorld s (w_alloc w) (w_sent w) (w_claims w) (w_logs w) (w_now w).

(** The part of the tables that says how the runs stand. *)
Definition runs_of (t : Tables) : list RunRow * list TaskRunRow := (tb_DAG_Runs t, tb_Task_Runs t).

(** The tables after a pending task run was added for each of the tasks. *)
Definition add_pending (runId : Z) (tasks : list Z) (t : Tables) : Tables :=
  foldl (λ t k, add_Task_Run (new_task_run runId k "pending" 0) t) t tasks.

(** A pod that belongs to a task run and can be deleted. *)
Definition pod_of (pod : Pod) (taskRunId runId : Z) : Prop :=
  getTaskRunID pod = Ok taskRunId ∧ getDagRunID pod = Ok runId.

(** The runs are as they were. *)
Definition same_runs {C} (w w' : DbWorld C) : Prop :=
  runs_of (st_tables (w_db w')) = runs_of (st_tables (w_db w)) ∧ w_claims w' = w_claims w.

#[global] Instance same_runs_preorder {C} : PreOrder (@same_runs C).
Proof. split; [by intros w|]. intros w1 w2 w3 [H1 H2] [H3 H4]. split; congruence. Qed.

Create HintDb worker discriminated.

Section same_runs.
Context {C : Type}.

(** An operation that keeps the runs, whatever they are. *)
Definition keeps_runs {A} (m : M Store A) : Prop :=
  ∀ x, keeps (λ t, runs_of t = x) m.

Lemma reads_keeps_runs {A} (m : M Store A) : reads m → keeps_runs m.
Proof. intros Hm x. by apply keeps_reads. Qed.

Lemma same_runs_db {A} (m : M Store A) : keeps_runs m → steps (@same_runs C) (db_call m).
Proof.
  intros Hm w. specialize (Hm (runs_of (st_tables (w_db w))) (w_db w) eq_refl).
  unfold db_call. destruct (m (w_db w)) as [r s]. by split.
Qed.

Lemma same_runs_alloc {A} (m : M (Alloc C) A) : steps (@same_runs C) (alloc_call m).
Proof. intros w. unfold alloc_call. destruct (m (w_alloc w)). by split. Qed.

Lemma same_runs_notify p : steps (@same_runs C) (notify p).
Proof. by intros w. Qed.

Lemma same_runs_logs pod : steps (@same_runs C) (go_logs pod).
Proof. by intros w. Qed.

End same_runs.

Ltac steps_walk := steps_walk_with ltac:(auto with worker).

Section handlers.
Context {C : Type} `{KubeAPI C} (denv : DbEnv) (env : WorkerEnv).
#[local] Instance manager : DagManager Store := SqliteManager denv.

Lemma same_GetTaskRunInfo id : steps (@same_runs C) (db_call (db_GetTaskRunInfo id)).
Proof. apply same_runs_db, reads_keeps_runs. simpl. unfold GetTaskRunInfo. reads_walk. Qed.

Lemma same_GetWebhookDetails id : steps (@same_runs C) (db_call (db_GetWebhookDetails id)).
Proof. apply same_runs_db, reads_keeps_runs. simpl. unfold GetWebhookDetails. reads_walk. Qed.

Lemma same_CheckIfAllTasksDone id : steps (@same_runs C) (db_call (db_CheckIfAllTasksDone id)).
Proof. apply same_runs_db, reads_keeps_runs. simpl. unfold CheckIfAllTasksDone. reads_walk. Qed.

Lemma same_AddPodDuration id d : steps (@same_runs C) (db_call (db_AddPodDuration id d)).
Proof. apply same_runs_db. intros x. simpl. unfold AddPodDuration, plain_tx. keeps_walk; done. Qed.

Lemma same_MarkPodStatus uid name id status stamp code ns :
  steps (@same_runs C) (db_call (db_MarkPodStatus uid name id status stamp code ns)).
Proof. apply same_runs_db. intros x. simpl. unfold MarkPodStatus, plain_tx. keeps_walk; done. Qed.

#[local] Hint Resolve same_GetTaskRunInfo same_GetWebhookDetails same_CheckIfAllTasksDone
  same_AddPodDuration same_MarkPodStatus : worker.
#[local] Hint Resolve same_runs_alloc same_runs_notify same_runs_logs : worker.

Lemma same_metrics id : steps (@same_runs C) (getTaskRunMetricsInfo id).
Proof. unfold getTaskRunMetricsInfo. steps_walk. Qed.

Lemma same_container0 pod : steps (@same_runs C) (container0 pod).
Proof. unfold container0. steps_walk. Qed.
#[local] Hint Resolve same_metrics same_container0 : worker.

Lemma same_notify_status pod status run id : steps (@same_runs C) (notify_status pod status run id).
Proof. unfold notify_status, with_webhook, NotifyTaskRun. steps_walk. Qed.

Lemma same_deletePVC pod : steps (@same_runs C) (deletePVC pod).
Proof. unfold deletePVC, kube_call. steps_walk. Qed.

Lemma same_completion pod run : steps (@same_runs C) (handleDagRunCompletion pod run).
Proof.
  unfold handleDagRunCompletion. pose proof same_deletePVC. steps_walk.
Qed.

Lemma same_mark_status n uid name id status stamp code ns last :
  steps (@same_runs C) (mark_status n (db_MarkPodStatus uid name id status stamp code ns) last).
Proof. revert last. induction n as [|n IH]; intros last; cbn [mark_status]; steps_walk. Qed.
#[local] Hint Resolve same_notify_status same_completion same_mark_status : worker.

Lemma same_writeStatus pod stamp : steps (@same_runs C) (writeStatusToDB pod stamp).
Proof. unfold writeStatusToDB, with_webhook, NotifyPodEvent. steps_walk. Qed.

Lemma same_logs pod : steps (@same_runs C) (handleLogCollection env pod).
Proof. unfold handleLogCollection. steps_walk. Qed.

(** ** Steps of a handler *)

Lemma wp_steps {A} R (m : M (DbWorld C) A) w : steps R m → wp m w (λ _ w', R w w').
Proof. intros Hm. apply Hm. Qed.

(** After a step, a computation that keeps the runs. *)
Lemma wp_then_same {A B} (m : M (DbWorld C) A) (f : A → M (DbWorld C) B) w Q :
  wp m w (λ _ w', Q w') → (∀ a, steps same_runs (f a)) →
  (∀ w1 w2, same_runs w1 w2 → Q w1 → Q w2) →
  wp (m ≫= f) w (λ _ w', Q w').
Proof.
  intros Hm Hf HQ. apply wp_bind. eapply wp_mono; [exact Hm|]. intros [a|e] w' Hw; [|done].
  eapply wp_mono; [apply wp_steps, Hf|]. intros x w2 Hs. exact (HQ _ _ Hs Hw).
Qed.

Lemma wp_db {A} (m : M Store A) w (Q : result (result A) → DbWorld C → Prop) :
  wp m (w_db w) (λ r s, Q (Ok r) (with_db s w)) → wp (db_call m) w Q.
Proof. unfold wp, db_call. by destruct (m (w_db w)). Qed.

Lemma wp_alloc {A} (m : M (Alloc C) A) (w : DbWorld C) (Q : result (result A) → DbWorld C → Prop) :
  (∀ r a, m (w_alloc w) = (r, a) →
     Q (Ok r) (mkWorld (w_db w) a (w_sent w) (w_claims w) (w_logs w) (w_now w))) →
  wp (alloc_call m) w Q.
Proof. intros HQ. unfold wp, alloc_call. destruct (m (w_alloc w)) as [r a] eqn:E. by apply HQ. Qed.

(** Up to the deletion of the pod only the database was asked. *)
Lemma wp_metrics id (w : DbWorld C) (Q : result (string * string * string) → DbWorld C → Prop) :
  (∀ info s, st_tables s = st_tables (w_db w) → (nofault (w_db w) → s = w_db w) →
     Q (Ok info) (with_db s w)) →
  wp (getTaskRunMetricsInfo id) w Q.
Proof.
  intros HQ. apply wp_bind, wp_db.
  assert (wp (GetTaskRunInfo id) (w_db w) (λ _ s,
    st_tables s = st_tables (w_db w) ∧ (nofault (w_db w) → s = w_db w))) as H'.
  { split; [apply (reads_wrap_err _ _ (reads_query_row _))|]. intros Hn.
    apply (wp_wrap_err _ _ _ (λ _ s, s = w_db w)), wp_query_row_nofault; [done|].
    by destruct (flat_map _ _). }
  eapply wp_mono; [exact H'|]. intros r s [Ht Hs]. apply wp_ret. by apply HQ.
Qed.

Lemma wp_deletePod pod (w : DbWorld C) (Q : result (result unit) → DbWorld C → Prop) :
  (∀ r a, pods_Delete (p_Namespace pod) (p_Name pod) (a_kube (w_alloc w)) = (r, a_kube a) →
     Q (Ok r) (mkWorld (w_db w) a (w_sent w) (w_claims w) (w_logs w) (w_now w))) →
  wp (deletePod pod false) w Q.
Proof.
  intros HQ. apply wp_bind, wp_ret. apply wp_alloc. intros r a E. apply HQ. unfold on_kube in E.
  destruct (pods_Delete _ _ _) as [r' c]. injection E as <- <-. done.
Qed.

(** ** A success *)

(** A succeeded pod that cannot be deleted. *)
Lemma success_pod_gone pod taskRunId e w :
  (pods_Delete (p_Namespace pod) (p_Name pod) (a_kube (w_alloc w))).1 = Err e →
  wp (handleSuccessfulTaskRun pod taskRunId) w (λ _ w', same_runs w w').
Proof.
  intros Hdel. apply wp_bind, wp_metrics. intros info s Hs _.
  destruct (getDagRunID pod) as [run|]; [|apply wp_ret; by split; [rewrite <- Hs|]].
  apply wp_bind, wp_deletePod. intros r a E. simpl in E. rewrite E in Hdel. simpl in Hdel. subst r.
  apply wp_ret. split; [simpl; by rewrite Hs|done].
Qed.

(** The pending task runs of the released tasks. *)
Lemma wp_allocate run tasks (w : DbWorld C) :
  nofault (w_db w) →
  wp (allocateNextTasks run tasks) w (λ r w', r = Ok tt ∧
    w' = with_db (set_tables (add_pending run (t_Id <$> tasks) (st_tables (w_db w))) (w_db w)) w).
Proof.
  unfold allocateNextTasks, add_pending. revert w.
  induction tasks as [|task tasks IH]; intros w Hn; [by destruct w as [[] ? ? ? ? ?]|].
  cbn [foreach]. apply wp_bind, wp_bind, wp_db. simpl.
  eapply wp_insert_ret; [done|done|]. apply wp_ret.
  eapply wp_mono; [apply IH; exact Hn|]. intros r w' [-> ->]. by split.
Qed.

(** The webhook of a success: the database is only read. *)
Lemma wp_notify_status pod status run id c cs (w : DbWorld C) :
  nofault (w_db w) → sp_Containers (p_Spec pod) = c :: cs →
  wp (notify_status pod status run id) w (λ r w', r = Ok tt ∧ w_db w' = w_db w ∧
    w_alloc w' = w_alloc w ∧ w_claims w' = w_claims w).
Proof.
  intros Hn Hc. apply wp_bind, wp_db. simpl.
  apply (wp_mono _ _ (λ _ s, s = w_db w)).
  { unfold GetWebhookDetails. apply wp_query_row_nofault; [done|]. by destruct (where_ _ _). }
  intros [hook|e] s ->; [|by apply wp_ret].
  case_bool_decide; [by apply wp_ret|]. apply wp_bind. unfold wp, container0. rewrite Hc. by split.
Qed.

(** The handler of a success, up to the writing of the pod's status. *)
Lemma success_handled pod taskRunId tr r c cs (w : DbWorld C) :
  getDagRunID pod = Ok (r_run_id r) → sp_Containers (p_Spec pod) = c :: cs →
  (pods_Delete (p_Namespace pod) (p_Name pod) (a_kube (w_alloc w))).1 = Ok tt →
  success_of taskRunId tr r (w_db w) → ¬ completes (st_tables (w_db w)) r →
  let t' := marked taskRunId (r_run_id r) (st_tables (w_db w)) in
  success_once t' (r_run_id r) →
  wp (handleSuccessfulTaskRun pod taskRunId) w (λ _ w', w_claims w' = w_claims w ∧ ∃ l, NoDup l ∧
    (∀ k, k ∈ l ↔ task_of_dag t' (r_dag_id r) k ∧ ready t' (r_run_id r) k ∧
       shadowed t' taskRunId k = false) ∧
    runs_of (st_tables (w_db w')) = runs_of (add_pending (r_run_id r) l t')).
Proof.
  intros Hrun Hc Hdel Hs Hmore t' Honce. pose proof Hs as [Hn _ _ _ _ _].
  apply wp_bind, wp_metrics. intros info s _ Hsame. rewrite (Hsame Hn). clear s Hsame.
  rewrite Hrun. apply wp_bind, wp_deletePod. intros x a E. simpl in E. rewrite E in Hdel.
  simpl in Hdel. subst x. apply wp_bind, wp_db.
  eapply wp_mono; [apply (wp_MarkSuccess taskRunId tr r); [exact Hs|exact Hmore|exact Honce]|].
  intros x s (-> & tasks & -> & Hnd & Hk). apply wp_bind.
  eapply wp_mono; [eapply wp_notify_status; [exact Hn|exact Hc]|].
  intros x w1 (-> & Hdb & Hal & Hcl). unfold processNextTasks. case_bool_decide as Hlen.
  - assert (tasks = []) as -> by (by destruct tasks).
    eapply wp_mono; [apply wp_steps, same_completion|]. intros x w2 [H1 H2]. simpl in *.
    split; [congruence|]. exists []. split; [done|]. split; [exact Hk|]. by rewrite H1, Hdb.
  - eapply wp_mono; [apply wp_allocate; rewrite Hdb; exact Hn|]. intros x w2 [-> ->]. simpl in *.
    split; [exact Hcl|]. exists (t_Id <$> tasks). split; [done|]. split; [exact Hk|]. by rewrite Hdb.
Qed.

(** ** A failure that is recorded *)

(** The run of a task run, by its rows. *)
Definition in_run (id run : Z) (t : Tables) : Prop := trn_run_id <$> rows_of id t = [run].

(** What a failure adds to the runs. *)
Definition failed_once (id run : Z) (t : Tables) : Tables :=
  upd_DAG_Runs (is_run run) add_failure (upd_Task_Runs (is_task_run id) (set_trn_status "failed") t).

Lemma in_run_failed id run t : in_run id run t → in_run id run (failed_once id run t).
Proof.
  unfold in_run. intros <-. change (rows_of id (failed_once id run t)) with
    (rows_of id (upd_Task_Runs (is_task_run id) (set_trn_status "failed") t)).
  rewrite rows_of_upd by done. by apply fmap_update_where.
Qed.

Lemma in_run_same id run t t' : runs_of t' = runs_of t → in_run id run t → in_run id run t'.
Proof. unfold runs_of, in_run, rows_of. intros [= _ ->]. done. Qed.

Lemma failed_once_same id run t t' :
  runs_of t' = runs_of t → runs_of (failed_once id run t') = runs_of (failed_once id run t).
Proof. unfold runs_of. intros [= H1 H2]. simpl. by rewrite H1, H2. Qed.

Lemma wp_MarkTaskAsFailed id run s :
  nofault s → in_run id run (st_tables s) →
  wp (MarkTaskAsFailed id) s (λ r s', nofault s' ∧
    runs_of (st_tables s') = runs_of (failed_once id run (st_tables s))).
Proof.
  intros Hn Hrun. apply wp_in_tx_nofault; [done|]. apply wp_bind, wp_exec_nofault; [done|].
  apply wp_exec_nofault; [done|]. split; [done|]. split; [done|]. unfold runs_of. simpl. f_equal.
  apply update_where_ext. intros r. apply bool_decide_ext.
  apply in_run_failed in Hrun. unfold in_run, rows_of in Hrun.
  change (tb_Task_Runs (failed_once id run (st_tables s))) with (update_where (is_task_run id)
    (set_trn_status "failed") (tb_Task_Runs (st_tables s))) in Hrun.
  rewrite Hrun. apply list_elem_of_singleton.
Qed.

(** The counts of failed tasks in the run. *)
Definition failed_counts (run : Z) (t : Tables) : list Z :=
  r_failedCount <$> where_ (is_run run) (tb_DAG_Runs t).

Lemma where_update_where {A} (p : A → bool) f l :
  (∀ x, p (f x) = p x) → where_ p (update_where p f l) = f <$> where_ p l.
Proof.
  intros Hf. induction l as [|x l IH]; [done|].
  change (update_where p f (x :: l)) with ((if p x then f x else x) :: update_where p f l).
  rewrite !where_cons, IH. destruct (p x) eqn:E; rewrite ?Hf, E; done.
Qed.

Lemma failed_counts_once id run t :
  failed_counts run (failed_once id run t) = (λ n, n + 1)%Z <$> failed_counts run t.
Proof.
  unfold failed_counts. change (tb_DAG_Runs (failed_once id run t)) with
    (update_where (is_run run) add_failure (tb_DAG_Runs t)).
  rewrite where_update_where by done. by rewrite <- !list_fmap_compose.
Qed.

(** Suspending tasks does not change the counts of failed ones. *)
Lemma keeps_failed_counts run run' id x :
  keeps (λ t, failed_counts run t = x) (MarkConnectingTasksAsSuspended run' id).
Proof.
  unfold MarkConnectingTasksAsSuspended, plain_tx. keeps_walk; try done.
  match goal with Hx : _ = x |- _ => rewrite <- Hx end. unfold failed_counts. simpl.
  assert (∀ n l, where_ (is_run run) (update_where (is_run run') (add_suspended n) l) =
    update_where (is_run run') (add_suspended n) (where_ (is_run run) l)) as Hw.
  { intros n l. induction l as [|r l IH]; [done|].
    change (update_where (is_run run') (add_suspended n) (r :: l)) with
      ((if is_run run' r then add_suspended n r else r)
         :: update_where (is_run run') (add_suspended n) l).
    rewrite !where_cons, IH.
    assert (is_run run (if is_run run' r then add_suspended n r else r) = is_run run r) as ->
      by (by destruct (is_run run' r)). by destruct (is_run run r). }
  rewrite Hw. by apply fmap_update_where.
Qed.

(** ** Pods that cannot start *)

(** The status of a pod is not part of the runs. *)
Lemma wp_pod_status uid name id status stamp code ns (w : DbWorld C)
    (Q : result (result unit) → DbWorld C → Prop) :
  (∀ r s, runs_of (st_tables s) = runs_of (st_tables (w_db w)) →
     (nofault (w_db w) → nofault s) → Q (Ok r) (with_db s w)) →
  wp (db_call (db_MarkPodStatus uid name id status stamp code ns)) w Q.
Proof.
  intros HQ. apply wp_db. apply HQ; simpl; unfold MarkPodStatus.
  - assert (keeps_runs (MarkPodStatus uid name id status stamp code ns)) as Hk
      by (intros x; unfold MarkPodStatus, plain_tx; keeps_walk; done).
    by apply (Hk (runs_of (st_tables (w_db w)))).
  - assert (quiet (MarkPodStatus uid name id status stamp code ns)) as Hq
      by (unfold MarkPodStatus, plain_tx; quiet_walk).
    apply Hq.
Qed.

(** Deleting a pod does not touch the database. *)
Lemma wp_deletePod_db pod b (w : DbWorld C) (Q : result (result unit) → DbWorld C → Prop) :
  (∀ r a, Q (Ok r) (mkWorld (w_db w) a (w_sent w) (w_claims w) (w_logs w) (w_now w))) →
  wp (deletePod pod b) w Q.
Proof.
  intros HQ. apply wp_bind. destruct b.
  - apply wp_bind, wp_alloc. intros r a _. apply wp_ret, wp_alloc. intros r' a' _. apply HQ.
  - apply wp_ret, wp_alloc. intros r' a' _. apply HQ.
Qed.

(** The counts of failed tasks in a run are as they were. *)
Definition same_failed (run : Z) (w w' : DbWorld C) : Prop :=
  failed_counts run (st_tables (w_db w')) = failed_counts run (st_tables (w_db w)).

#[local] Instance same_failed_preorder run : PreOrder (same_failed run).
Proof. split; [by intros w|]. intros w1 w2 w3 H1 H2. unfold same_failed in *. congruence. Qed.

Lemma same_runs_failed {A} run (m : M (DbWorld C) A) :
  steps same_runs m → steps (same_failed run) m.
Proof.
  intros Hm w. destruct (Hm w) as [Hr _]. unfold runs_of in Hr. injection Hr as Hr _.
  unfold same_failed, failed_counts. by rewrite Hr.
Qed.

(** What an unrecoverable pod adds to the counts. *)
Lemma unretryable_failed pod id run run' (w : DbWorld C) c cs :
  nofault (w_db w) → in_run id run (st_tables (w_db w)) → sp_Containers (p_Spec pod) = c :: cs →
  wp (handleUnretryablePod pod id run') w (λ _ w', failed_counts run (st_tables (w_db w')) =
    (λ n, n + 1)%Z <$> failed_counts run (st_tables (w_db w))).
Proof.
  intros Hn Hin Hc. apply wp_bind, wp_metrics. intros info s _ Hs. rewrite (Hs Hn). clear s Hs.
  apply wp_bind, wp_db. eapply wp_mono; [apply (wp_MarkTaskAsFailed _ run); [exact Hn|exact Hin]|].
  intros r s [Hn1 Hr]. set (w1 := with_db s _).
  assert (failed_counts run (st_tables (w_db w1)) =
    (λ n, n + 1)%Z <$> failed_counts run (st_tables (w_db w))) as Hcount.
  { rewrite <- (failed_counts_once id). unfold failed_counts. simpl. unfold runs_of in Hr.
    injection Hr as Hr _. by rewrite Hr. }
  eapply wp_mono; [apply (wp_steps (same_failed run))|].
  - apply steps_bind; [exact _|apply same_runs_failed, same_GetWebhookDetails|]. intros hook.
    apply steps_bind; [exact _| |intros _].
    { apply same_runs_failed.
      unfold NotifyTaskRun. steps_walk. }
    apply steps_bind; [exact _| |intros names].
    { intros w2. pose proof (keeps_failed_counts run run' id _ (w_db w2) eq_refl) as Hk.
      unfold same_failed, db_call. simpl in *.
      by destruct (MarkConnectingTasksAsSuspended run' id (w_db w2)). }
    apply same_runs_failed.
    unfold NotifyTaskRun. steps_walk.
  - intros x w2 Hw. by rewrite Hw.
Qed.

Lemma config_error_failed pod id run (w : DbWorld C) c cs :
  nofault (w_db w) → in_run id run (st_tables (w_db w)) → sp_Containers (p_Spec pod) = c :: cs →
  wp (handleConfigError pod id run) w (λ _ w', failed_counts run (st_tables (w_db w')) =
    (λ n, n + 2)%Z <$> failed_counts run (st_tables (w_db w))).
Proof.
  intros Hn Hin Hc. apply wp_bind, wp_db.
  eapply wp_mono; [apply (wp_MarkTaskAsFailed _ run); [exact Hn|exact Hin]|].
  intros r s [Hn1 Hr]. apply wp_bind, wp_gets, wp_bind, wp_pod_status.
  intros r1 s1 Hr1 Hq1. specialize (Hq1 Hn1). simpl in Hr1. rewrite Hr in Hr1.
  apply wp_bind, wp_deletePod_db. intros r2 a. apply wp_bind.
  eapply wp_mono; [eapply wp_notify_status; [exact Hq1|exact Hc]|].
  intros r3 w3 (-> & Hdb & _). simpl in Hdb.
  eapply wp_mono; [eapply unretryable_failed|]; rewrite ?Hdb; [exact Hq1| |exact Hc|].
  - eapply in_run_same; [exact Hr1|]. by apply in_run_failed.
  - intros r4 w4 ->. assert (failed_counts run (st_tables s1) =
      failed_counts run (failed_once id run (st_tables (w_db w)))) as ->.
    { unfold runs_of in Hr1. injection Hr1 as Hr1 _. unfold failed_counts. by rewrite Hr1. }
    rewrite failed_counts_once, <- list_fmap_compose. apply list_fmap_ext. intros i n _. simpl. lia.
Qed.

(** ** Properties *)


(** An event for a succeeded pod that cannot be deleted (it was handled
    before and is gone, or the API server does not answer) leaves the runs as
    they are: nothing is recorded or released a second time. *)
Theorem success_of_gone_pod (pod : Pod) (stamp : option Z) (e : GoError) (w : DbWorld C)
    (Hphase : p_Phase pod = PodSucceeded)
    (Hdel : (pods_Delete (p_Namespace pod) (p_Name pod) (a_kube (w_alloc w))).1 = Err e) :
  same_runs w (handleOutcome env pod stamp w).2.
Proof.
  enough (wp (handleOutcome env pod stamp) w (λ _ w', same_runs w w')) as H' by exact H'.
  unfold handleOutcome. destruct (getTaskRunID pod) as [taskRunId|]; [|by apply wp_ret].
  apply wp_bind.
  apply (wp_mono _ _ (λ x w1, x = Ok tt ∧ w_db w1 = w_db w ∧ w_alloc w1 = w_alloc w ∧
    w_claims w1 = w_claims w)).
  { unfold handleLogCollection. by destruct (_ && _). }
  intros x w1 (-> & Hdb & Hal & Hcl). rewrite bool_decide_eq_true_2 by done.
  apply (wp_then_same _ _ _ (same_runs w)).
  - apply wp_bind. eapply wp_mono; [eapply success_pod_gone; by rewrite Hal|].
    intros y w2 [H1 H2]. assert (same_runs w w2) as Hw by (split; congruence).
    by destruct y as [[]|]; [apply wp_ret|].
  - intros b. pose proof (same_writeStatus pod stamp) as Hws. destruct b.
    + apply steps_bind; [exact _|exact Hws|intros; apply steps_ret; exact _].
    + apply steps_ret; exact _.
  - intros w2 w3 Hs Hw. by transitivity w2.
Qed.

(** A pod that cannot start (an image that cannot be pulled, a bad
    configuration) is one failed task but adds two to the failed tasks of its
    run: the handler marks the task as failed and then calls the handler of
    unrecoverable pods, which marks it again. *)
Theorem config_error_counts_twice (pod : Pod) (stamp : option Z) (id run : Z) (c : Container)
    (cs : list Container) (w : DbWorld C)
    (Hpod : pod_of pod id run) (Hc : sp_Containers (p_Spec pod) = c :: cs)
    (Hphase : p_Phase pod = PodPending) (Herr : hasConfigError pod = true)
    (Hn : nofault (w_db w)) (Hin : in_run id run (st_tables (w_db w))) :
  failed_counts run (st_tables (w_db (handleOutcome env pod stamp w).2)) =
    (λ n, n + 2)%Z <$> failed_counts run (st_tables (w_db w)).
Proof.
  destruct Hpod as [Hid Hrun].
  enough (wp (handleOutcome env pod stamp) w (λ _ w', failed_counts run (st_tables (w_db w')) =
    (λ n, n + 2)%Z <$> failed_counts run (st_tables (w_db w)))) as H' by exact H'.
  unfold handleOutcome. rewrite Hid. apply wp_bind.
  apply (wp_mono _ _ (λ x w1, x = Ok tt ∧ w_db w1 = w_db w)).
  { unfold handleLogCollection. by destruct (_ && _). }
  intros x w1 (-> & Hdb). rewrite Hphase. simpl. apply wp_bind, wp_bind, wp_metrics.
  intros info s _ Hs. rewrite Hdb in Hs. rewrite Hrun, Herr. apply wp_bind.
  eapply wp_mono; [eapply (config_error_failed pod id run); simpl; rewrite (Hs Hn); eassumption|].
  simpl. rewrite (Hs Hn). intros [[]|] w2 Hw2; [|exact Hw2]. by apply wp_ret, wp_ret.
Qed.

End handlers.

(** ** Example *)

Definition demo_worker : WorkerEnv :=
  mkWorkerEnv "worker-1" demo_alloc_env
    (mkJsonLib (λ l, join ";" ((λ p, p.1 +:+ "=" +:+ p.2) <$> l)) (λ _, Ok [])) true.

Definition demo_container : Container :=
  mkContainer "a" "alpine" [] [] [mkEnvVar "token" "" (Some ("api-secret", "secret"))] [] None.

(** The pod of a task run of the example run, in a phase. *)
Definition demo_pod (taskRunId taskId : Z) (phase : string) (finalizers : list string) : Pod :=
  mkPod ("uid-" +:+ pretty taskRunId) ("pod-" +:+ pretty taskRunId) "default" ∅
    {[ annotationTaskRID := pretty taskRunId; annotationDagRunID := "1";
       annotationTaskID := pretty taskId ]}
    finalizers (mkPodSpec "Never" [] [] [demo_container] [] None ∅ [] None "" None None)
    phase None [] [].

(** The example run with pods in the cluster. *)
Definition world_of (s : Store) (pods : list Pod) : DbWorld Cluster :=
  mkWorld s
    (mkAlloc (mkCluster (list_to_map ((λ p, ((p_Namespace p, p_Name p), p)) <$> pods)) ∅ ∅ 0 []) [] [])
    [] [] [] 0.

Definition demo_world (pods : list Pod) : DbWorld Cluster := world_of demo_run pods.

Definition succeeded_pod : Pod := demo_pod 1 1 PodSucceeded [].

(** ** Witnesses *)

#[local] Hint Extern 0 (DagManager Store) => exact (manager demo_env) : typeclass_instances.


Lemma success_of_gone_pod_witness :
  same_runs (demo_world []) (handleOutcome demo_worker succeeded_pod None (demo_world [])).2.
Proof.
  exact (success_of_gone_pod demo_env demo_worker succeeded_pod None
    (not_found "pod-1") (demo_world []) eq_refl eq_refl).
Defined.

(** A pod whose image cannot be pulled. *)
Definition stuck_pod : Pod :=
  let p := demo_pod 1 1 PodPending [] in
  mkPod (p_UID p) (p_Name p) (p_Namespace p) (p_Labels p) (p_Annotations p) [] (p_Spec p) PodPending
    None [mkContainerState (Some "ErrImagePull") false None] [].

Lemma config_error_counts_twice_witness :
  failed_counts 1 (st_tables (w_db (handleOutcome demo_worker stuck_pod None (demo_world [])).2)) =
    (λ n, n + 2)%Z <$> failed_counts 1 (st_tables (w_db (demo_world []))).
Proof.
  refine (config_error_counts_twice demo_env demo_worker stuck_pod None 1 1 demo_container []
    (demo_world []) _ eq_refl eq_refl eq_refl _ _);
    [split; reflexivity|vm_compute; reflexivity|vm_compute; reflexivity].
Defined.

(** ** Pods and events *)

(** What [NewTaskWatcher] selects (internal/dag/taskWatcher.go). *)
Definition watched (id : string) (pod : Pod) : Prop :=
  p_Labels pod !! "managed-by" = Some "kontroler" ∧ p_Labels pod !! "kontroler/type" = Some "task" ∧
  p_Labels pod !! "kontroler/id" = Some id.

(** The worker reads back what the allocator wrote: the events of a pod the
    allocator fills, new or reused, are watched and name its task run, its run
    and its task. *)
Theorem allocated_pod_identified (env : AllocEnv) (task : Task) (dagRunId taskRunId : Z)
    (claimedBy : string) (spec : PodSpec) (p : Pod)
    (Hp : pooled p) (H1 : is_int64 dagRunId) (H2 : is_int64 taskRunId) (H3 : is_int64 (t_Id task)) :
  let pod := fill_pod env task dagRunId taskRunId claimedBy spec p in
  getTaskRunID pod = Ok taskRunId ∧ getDagRunID pod = Ok dagRunId ∧
  getTaskIdFromPod pod = Ok (t_Id task) ∧ watched (ae_id env) pod.
Proof.
  cbv zeta. rewrite fill_pooled by done.
  assert (∀ claimed, getTaskRunID (fill_pod env task dagRunId taskRunId claimed spec new_pod) =
    match Atoi (Itoa taskRunId) with Ok n => Ok n
    | Err _ => Err (EErrorf (ErrInvalidTaskRunID +:+ ": " +:+ Itoa taskRunId)) end) as Htr
    by (intros claimed; unfold getTaskRunID; simpl; by destruct (claimed =b "")).
  assert (∀ claimed, getDagRunID (fill_pod env task dagRunId taskRunId claimed spec new_pod) =
    Atoi (Itoa dagRunId)) as Hr
    by (intros claimed; unfold getDagRunID; simpl; by destruct (claimed =b "")).
  assert (∀ claimed, getTaskIdFromPod (fill_pod env task dagRunId taskRunId claimed spec new_pod) =
    Atoi (Itoa (t_Id task))) as Ht
    by (intros claimed; unfold getTaskIdFromPod; simpl; by destruct (claimed =b "")).
  unfold getTaskRunID, getDagRunID, getTaskIdFromPod in *. cbn [p_Annotations set_Name].
  rewrite Htr, Hr, Ht, !Atoi_Itoa by done. by split_and!.
Qed.

Lemma allocated_pod_identified_witness :
  getTaskRunID (fill_pod demo_alloc_env demo_task 7 (-1) "worker-1" (p_Spec new_pod) used_pod) =
    Ok (-1)%Z.
Proof.
  refine (proj1 (allocated_pod_identified demo_alloc_env demo_task 7 (-1) "worker-1"
    (p_Spec new_pod) used_pod _ _ _ _)).
  - exact (proj1 (proj1 (Forall_cons _ _ _) used_pod_pooled)).
  - unfold is_int64. lia.
  - unfold is_int64. lia.
  - unfold is_int64. simpl. lia.
Defined.

(** The duration computed for a pod event is a number of seconds between 0
    and 9223372036, whatever times the kubelet reports, and an exit code is
    known exactly for a terminated container and for a failed pod. *)
Theorem pod_duration_bounds (now : Z) (pod : Pod) (stamp : option Z) :
  let '(d, _, exit) := computePodDurationAndExit now pod stamp in
  (0 <= d <= 9223372036)%Z ∧
  (is_Some exit ↔ is_Some (head (p_ContainerStatuses pod) ≫= cs_Terminated) ∨ p_Phase pod = PodFailed).
Proof.
  assert (∀ a b, (seconds_between a b <= 9223372036)%Z) as Hs.
  { intros a b. unfold seconds_between.
    set (x := Z.max (- 2 ^ 63) (Z.min (2 ^ 63 - 1) (a - b))).
    assert (x <= 9223372036854775807)%Z as Hx by (unfold x; lia).
    destruct (Z_le_gt_dec 0 x) as [H0|H0].
    - rewrite Z.quot_div_nonneg by lia. enough (x / 1000000000 < 9223372037)%Z by lia.
      apply Z.div_lt_upper_bound; lia.
    - assert (Z.quot x 1000000000 <= 0)%Z; [|lia].
      apply Z.opp_nonneg_nonpos. rewrite <- Z.quot_opp_l by lia.
      apply Z.quot_pos; lia. }
  unfold computePodDurationAndExit.
  destruct (head (p_ContainerStatuses pod) ≫= cs_Terminated) as [tm|].
  - assert (∀ x, (x <= 9223372036)%Z → (0 <= Z.max 0 x <= 9223372036)%Z) as Hmax by lia.
    split; [|split; [by left|by eexists]]. apply Hmax.
    destruct (tm_StartedAt tm), (tm_FinishedAt tm); [auto..|lia].
    destruct (p_StartTime pod); [auto|lia].
  - split; [lia|]. case_bool_decide; split.
    + by right. + by eexists. + by intros [? [=]]. + intros [[? [=]]|?]; done.
Qed.

(** As long as the finalizer of a succeeded pod is there its deletion
    succeeds again, so a second event for it (the pods are added again when the
    controller starts; a warning is an update) is handled again: the success is
    counted twice and the tasks it releases are queued twice. *)
Theorem success_counted_again :
  let pod := demo_pod 2 1 PodSucceeded [finalizerLogCollection] in
  let event := mkPodEvent (Some pod) "add" None in
  let w := (handle_event demo_worker event (world_of demo_started [pod])).2 in
  let w' := (handle_event demo_worker event w).2 in
  r_successfulCount <$> where_ (is_run 1) (tb_DAG_Runs (st_tables (w_db w'))) = [2]%Z ∧
  run_tasks 1 (w_db w) = [(1, "success"); (2, "pending"); (3, "pending")]%Z ∧
  run_tasks 1 (w_db w') =
    [(1, "success"); (2, "pending"); (3, "pending"); (2, "pending"); (3, "pending")]%Z.
Proof. vm_compute. split_and!; reflexivity. Qed.
