(* ===== verification/Retries.v ===== *)
(** * Retries (internal/db/sqliteManager.go, internal/workers/workers.go)

    When a failed task run is retried, and what a retry leaves behind: a new
    task run that the worker claims.  The number of attempts starts again with
    every task run, so it does not bound the retries; and the environment that
    is saved for the retry has no references to secrets. *)

From S2P Require Import Prelude Api DagValidation Kube KubeExample Allocator Queue Store SqliteDag SqliteRun SqliteClaim Database StoredDag TaskRelease Leases Suspension DagManager Worker WorkerSpec.
Import DagDb RunDb ClaimDb Calls Workers.
Local Open Scope kontroler_scope.

(** ** Specification *)

(** The task of a task run, by its rows. *)
Record task_of_run (t : Tables) (tr : TaskRunRow) (dt : DagTaskRow) (k : TaskRow) : Prop := {
  tor_run : tr ∈ tb_Task_Runs t;
  tor_dag_task : dt ∈ tb_DAG_Tasks t;
  tor_dag_task_id : dt_dag_task_id dt = trn_task_id tr;
  tor_task : k ∈ tb_Tasks t;
  tor_task_id : tk_task_id k = dt_task_id dt;
}.

(** The decision: no attempt left; any exit code; a code of the list. *)
Definition rerun_decision (k : TaskRow) (attempts exitCode : Z) : result bool :=
  if bool_decide (tk_backoffLimit k < attempts)%Z then Ok false
  else if negb (tk_isConditional k) then Ok true
  else if forallb is_int32 (tk_retryCodes k)
  then Ok (existsb (λ code, code =b exitCode) (tk_retryCodes k))
  else Err (EWrap "failed to parse retry codes"
         (EErrorf "json: cannot unmarshal number into Go value of type int32")).

(** ** Lemmas *)

Lemma elem_of_rerun_rows id t x :
  x ∈ rerun_rows id t ↔ ∃ k dt r, k ∈ tb_Tasks t ∧ dt ∈ tb_DAG_Tasks t ∧ r ∈ tb_Task_Runs t ∧
    tk_task_id k = dt_task_id dt ∧ dt_dag_task_id dt = trn_task_id r ∧ trn_task_run_id r = id ∧
    x = (tk_backoffLimit k, tk_isConditional k, tk_retryCodes k, trn_attempts r).
Proof.
  unfold rerun_rows, is_task_run. rewrite elem_of_flat_map. setoid_rewrite elem_of_flat_map.
  setoid_rewrite elem_of_flat_map. setoid_rewrite elem_of_if. split.
  - intros (k & Hk & dt & Hdt & r & Hr & E & Hx).
    rewrite !andb_true_iff, !bool_decide_eq_true in E. apply list_elem_of_singleton in Hx.
    exists k, dt, r. tauto.
  - intros (k & dt & r & Hk & Hdt & Hr & E1 & E2 & E3 & ->). exists k. split; [done|].
    exists dt. split; [done|]. exists r. split; [done|].
    rewrite !andb_true_iff, !bool_decide_eq_true. split; [tauto|by left].
Qed.

Lemma key_unique {A} (key : A → Z) rows seq x y :
  keyed key rows seq → x ∈ rows → y ∈ rows → key x = key y → x = y.
Proof. intros [Hnd _]. by apply NoDup_key. Qed.

(** The join yields the one row of the task of the task run. *)
Lemma rerun_rows_unique t tr dt k y :
  tables_ok t → task_of_run t tr dt k → y ∈ rerun_rows (trn_task_run_id tr) t →
  y = (tk_backoffLimit k, tk_isConditional k, tk_retryCodes k, trn_attempts tr).
Proof.
  intros Hok [H1 H2 H3 H4 H5] (k' & dt' & r' & Hk & Hdt & Hr & E1 & E2 & E3 & ->)%elem_of_rerun_rows.
  assert (r' = tr) as -> by (eapply key_unique; [apply (wf_task_runs _ Hok)|done..]).
  assert (dt' = dt) as -> by (apply (dag_task_unique t); congruence || done).
  assert (k' = k) as -> by (eapply key_unique; [apply (wf_tasks _ Hok)|done|done|congruence]).
  done.
Qed.

(** It finds it, once or more. *)
Lemma rerun_rows_of t tr dt k :
  tables_ok t → task_of_run t tr dt k → ∃ rest, rerun_rows (trn_task_run_id tr) t =
    (tk_backoffLimit k, tk_isConditional k, tk_retryCodes k, trn_attempts tr) :: rest.
Proof.
  intros Hok Ht. pose proof Ht as [H1 H2 H3 H4 H5].
  set (x := (tk_backoffLimit k, tk_isConditional k, tk_retryCodes k, trn_attempts tr)).
  assert (x ∈ rerun_rows (trn_task_run_id tr) t) as Hx
    by (apply elem_of_rerun_rows; exists k, dt, tr; by split_and!).
  destruct (rerun_rows _ t) as [|y rest] eqn:E; [by apply elem_of_nil in Hx|].
  exists rest. f_equal. apply (rerun_rows_unique t tr dt k); [done|done|]. rewrite E. by left.
Qed.

Lemma wp_ShouldRerun tr dt k code s :
  nofault s → tables_ok (st_tables s) → task_of_run (st_tables s) tr dt k →
  wp (ShouldRerun (trn_task_run_id tr) code) s
    (λ r s', s' = s ∧ r = rerun_decision k (trn_attempts tr) code).
Proof.
  intros Hn Hok Ht. apply wp_bind, wp_try, wp_query_row_nofault; [done|].
  destruct (rerun_rows_of _ tr dt k Hok Ht) as [rest ->]. unfold rerun_decision.
  case_bool_decide; [by apply wp_ret|]. destruct (tk_isConditional k); [|by apply wp_ret].
  unfold unmarshal_int32s. simpl. destruct (forallb _ _); by split.
Qed.

Lemma rows_of_add t run task status n :
  tables_ok t →
  rows_of (sq_Task_Runs t + 1) (add_Task_Run (new_task_run run task status n) t) =
    [new_task_run run task status n (sq_Task_Runs t + 1)].
Proof.
  intros Hok. destruct (wf_task_runs _ Hok) as (_ & _ & Hle). unfold rows_of. simpl.
  unfold where_. rewrite List.filter_app. simpl. unfold is_task_run at 2. simpl.
  rewrite bool_decide_eq_true_2 by done.
  assert (List.filter (is_task_run (sq_Task_Runs t + 1)) (tb_Task_Runs t) = []) as ->; [|done].
  apply (where_nil (is_task_run (sq_Task_Runs t + 1))). intros r Hr. apply bool_decide_eq_false.
  apply Hle in Hr. lia.
Qed.

(** The rows that name the tasks are not touched. *)
Definition same_tasks (t t' : Tables) : Prop :=
  tb_Tasks t' = tb_Tasks t ∧ tb_DAG_Tasks t' = tb_DAG_Tasks t.

(** The task run a retry leaves: claimed by the worker, at its first attempt. *)
Definition retry_row (worker : string) (run task : Z) (r : TaskRunRow) : Prop :=
  trn_attempts r = 1%Z ∧ trn_task_id r = task ∧ trn_run_id r = run ∧
  trn_status r = "pending" ∧ trn_claimed_by r = Some worker.

Section retries.
Context {C : Type} `{KubeAPI C} (denv : DbEnv) (env : WorkerEnv).
#[local] Instance db_manager : DagManager Store := SqliteManager denv.

Lemma wp_retry pod run id task c cs (w : World Store C) :
  nofault (w_db w) → tables_ok (st_tables (w_db w)) → getTaskIdFromPod pod = Ok task →
  sp_Containers (p_Spec pod) = c :: cs →
  let newId := (sq_Task_Runs (st_tables (w_db w)) + 1)%Z in
  wp (retryFailedTask env pod run id) w (λ _ w',
    nofault (w_db w') ∧ tables_ok (st_tables (w_db w')) ∧
    same_tasks (st_tables (w_db w)) (st_tables (w_db w')) ∧
    w_claims w' = w_claims w ++ [(false, mkTaskClaim newId task run)] ∧
    ∃ r, rows_of newId (st_tables (w_db w')) = [r] ∧ retry_row (we_id env) run task r).
Proof.
  intros Hn Hok Htask Hc newId. apply wp_bind, wp_metrics. intros info s _ Hs. rewrite (Hs Hn).
  clear s Hs. rewrite Htask. apply wp_bind, wp_db. eapply wp_insert_ret; [done|done|].
  change (sq_Task_Runs (add_Task_Run _ (st_tables (w_db (with_db (w_db w) w))))) with newId.
  set (t1 := add_Task_Run _ _). cbv zeta beta iota.
  pose proof (rows_of_add _ run task "pending" 0 Hok : rows_of newId t1 = _) as Hr1.
  assert (tables_ok t1) as Hok1 by (by apply wf_add_Task_Run).
  apply wp_bind. unfold wp at 1, container0. rewrite Hc. simpl.
  apply wp_bind, wp_db, wp_exec_nofault; [done|]. cbn [w_db with_db st_tables set_tables].
  set (envJSON := json_Marshal _ _).
  set (t2 := upd_Task_Runs (is_task_run newId) (set_trn_retry_env envJSON) t1).
  set (r2 := set_trn_retry_env envJSON (new_task_run run task "pending" 0 newId)).
  assert (rows_of newId t2 = [r2]) as Hr2.
  { unfold t2. rewrite rows_of_upd, Hr1 by done. cbn -[is_task_run]. unfold is_task_run. simpl.
    by rewrite bool_decide_eq_true_2. }
  assert (tables_ok t2) as Hok2 by (by apply wf_upd_Task_Runs).
  apply wp_bind, wp_db. eapply wp_mono.
  { apply (claim_ok newId (we_id env) defaultLeaseTTL r2); [done|exact Hr2|].
    unfold free_to_claim, is_task_run. simpl. by rewrite bool_decide_eq_true_2. }
  intros x s3 (-> & Hn3 & _ & _ & Hr3 & Ht3). cbn [w_db with_db st_tables set_tables] in Hr3, Ht3.
  apply wp_bind. unfold wp at 1, go_claim, modify. cbn [fst snd].
  apply wp_bind, wp_db, wp_in_tx_nofault; [exact Hn3|]. apply wp_exec_nofault; [exact Hn3|].
  split; [exact Hn3|]. apply wp_ret. cbn [w_db with_db w_claims st_tables set_tables].
  split_and!; [exact Hn3| | |done|].
  - apply wf_upd_Task_Runs; [done|]. rewrite Ht3. by apply wf_upd_Task_Runs.
  - unfold same_tasks. by rewrite Ht3.
  - eexists. rewrite rows_of_upd, Hr3 by done. cbn -[is_task_run]. unfold is_task_run. simpl.
    rewrite bool_decide_eq_true_2 by done. split; [done|]. by split_and!.
Qed.

(** ** Properties *)

(** Whether a failed task run is retried: never when its attempts exceed
    the limit of its task, else always for an unconditional task, else for the
    listed exit codes; a code beyond 32 bits in the list is an error.  The
    decision changes nothing. *)
Theorem ShouldRerun_decides (tr : TaskRunRow) (dt : DagTaskRow) (k : TaskRow) (code : Z) (s : Store)
    (Hn : nofault s) (Hok : tables_ok (st_tables s))
    (Htask : task_of_run (st_tables s) tr dt k) :
  (ShouldRerun (trn_task_run_id tr) code s).1 = rerun_decision k (trn_attempts tr) code ∧
  st_tables (ShouldRerun (trn_task_run_id tr) code s).2 = st_tables s.
Proof. destruct (wp_ShouldRerun tr dt k code s Hn Hok Htask) as [-> ->]. done. Qed.

(** The limit does not bound the retries: the retry of a failed task run is
    a new task run at its first attempt, so for an unconditional task with a
    limit of one or more the next failure, whatever its exit code, is retried
    again, and so on. *)
Theorem retries_unbounded (pod : Pod) (run id task : Z) (dt : DagTaskRow) (k : TaskRow)
    (c : Container) (cs : list Container) (code : Z) (w : World Store C)
    (Hn : nofault (w_db w)) (Hok : tables_ok (st_tables (w_db w)))
    (Hpod : getTaskIdFromPod pod = Ok task) (Hc : sp_Containers (p_Spec pod) = c :: cs)
    (Hdt : dt ∈ tb_DAG_Tasks (st_tables (w_db w))) (Hdti : dt_dag_task_id dt = task)
    (Hk : k ∈ tb_Tasks (st_tables (w_db w))) (Hki : tk_task_id k = dt_task_id dt)
    (Hlimit : (1 <= tk_backoffLimit k)%Z) (Hcond : tk_isConditional k = false) :
  let w' := (retryFailedTask env pod run id w).2 in
  ∃ tr, tr ∈ tb_Task_Runs (st_tables (w_db w')) ∧ retry_row (we_id env) run task tr ∧
    (sq_Task_Runs (st_tables (w_db w)) < trn_task_run_id tr)%Z ∧
    (ShouldRerun (trn_task_run_id tr) code (w_db w')).1 = Ok true.
Proof.
  intros w'.
  destruct (wp_retry pod run id task c cs w Hn Hok Hpod Hc)
    as (Hn' & Hok' & [Hts Hdts] & _ & r & Hr & Hrow). fold w' in Hn', Hok', Hts, Hdts, Hr.
  assert (r ∈ rows_of (sq_Task_Runs (st_tables (w_db w)) + 1) (st_tables (w_db w'))) as Hin
    by (rewrite Hr; left).
  apply elem_of_where in Hin as [Hid Hin]. apply bool_decide_eq_true in Hid.
  exists r. split; [done|]. split; [done|]. split; [lia|].
  destruct Hrow as (Hatt & Htask & _).
  assert (task_of_run (st_tables (w_db w')) r dt k) as Ht
    by (split; [done|by rewrite Hdts|congruence|by rewrite Hts|done]).
  destruct (wp_ShouldRerun r dt k code (w_db w') Hn' Hok' Ht) as [_ ->].
  unfold rerun_decision. rewrite Hatt, Hcond, bool_decide_eq_false_2 by lia. done.
Qed.

End retries.

(** ** Saved environments *)

(** The JSON of maps with the keys name and value, read as environment
    variables. *)
Definition json_law (json : JsonLib) : Prop :=
  ∀ l, json_Marshal json l ≠ "" ∧
    json_Unmarshal json (json_Marshal json l) = Ok ((λ p, mkEnvVar p.1 p.2 None) <$> l).

(** The retry of a task does not see its secrets: the pod of a retry is
    allocated with the names and the values of the failed pod's variables and
    without their references to secrets, so a variable that came from a secret
    is empty. *)
Theorem retry_loses_secrets {C} `{KubeAPI C} (env : WorkerEnv) (claim : TaskClaim) (task : Task)
    (namespace : string) (failed : Container) (w : World Store C)
    (Hjson : json_law (we_json env)) :
  allocate_claimed env claim task namespace
    (json_Marshal (we_json env) (retry_envs failed)) w =
  alloc_call (AllocateTaskWithEnv (we_alloc env) task (tc_RunID claim) (tc_TaskRunID claim) namespace
    ((λ e, mkEnvVar (ev_Name e) (ev_Value e) None) <$> c_Env failed) None (we_id env)) w.
Proof.
  destruct (Hjson (retry_envs failed)) as [Hne Hok]. unfold allocate_claimed.
  rewrite bool_decide_eq_false_2, Hok by done. unfold retry_envs. by rewrite <- list_fmap_compose.
Qed.

(** ** Examples *)

(** A text for a list of pairs: its number. *)
Definition number_json : JsonLib := mkJsonLib
  (λ l, pretty (Npos (encode l)))
  (λ s, match decode (Z.to_pos (decimal s 0)) with
        | Some l => Ok ((λ p : string * string, mkEnvVar p.1 p.2 None) <$> l)
        | None => Err (EErrorf "invalid")
        end).

Lemma number_json_law : json_law number_json.
Proof.
  intros l. split; [apply numeral_not_empty|]. simpl.
  destruct (decimal_pretty (Npos (encode l))) as [-> _]. simpl. by rewrite decode_encode.
Qed.

Definition json_worker : WorkerEnv := mkWorkerEnv "worker-1" demo_alloc_env number_json true.

(** The pod of a retry of the example container: its token is empty. *)
Lemma retry_loses_secrets_witness :
  let w := demo_world [] in
  let saved := json_Marshal number_json (retry_envs demo_container) in
  ∃ w', allocate_claimed json_worker demo_claim demo_task "default" saved w = (Ok (Ok "uid-0"), w') ∧
    (λ p, c_Env <$> sp_Containers (p_Spec p)) <$> (map_to_list (cl_pods (a_kube (w_alloc w')))).*2 =
      [[[mkEnvVar "token" "" None]]].
Proof.
  intros w saved. eexists.
  pose proof (retry_loses_secrets json_worker demo_claim demo_task "default" demo_container w
    number_json_law) as H. unfold saved. change number_json with (we_json json_worker) at 1.
  split; [etransitivity; [exact H|vm_compute; reflexivity]|vm_compute; reflexivity].
Defined.

#[local] Hint Extern 0 (DagManager Store) => exact (db_manager demo_env) : typeclass_instances.

(** A DAG of one task that may be retried three times, and its first run. *)
Definition flaky_dag : DAG := mkDAG "flaky" ∅ [] false
  (spec_of [mkTaskSpec "a" ["sh"] [] "alpine" [] (mkBackoff 3) (mkConditional false []) []
              None "" "" None]) (mkDAGStatus "" "").

Definition flaky_run : Store :=
  run_calls demo_env [CInsertDAG flaky_dag "default";
    CCreateDAGRun "run-1" (mkDagRunSpec "flaky" []) ∅ None; CAddPendingTaskRun 1 1] demo_store.

Definition flaky_world : World Store Cluster :=
  mkWorld flaky_run (mkAlloc empty_cluster [] []) [] [] [] 0.

Lemma flaky_ok : tables_ok (st_tables flaky_run).
Proof. apply (reachable_db_inv demo_env), run_calls_reachable, fresh_reachable. Qed.

(** The rows of the only task. *)
Lemma flaky_rows :
  ∃ dt k, tb_DAG_Tasks (st_tables flaky_run) = [dt] ∧ tb_Tasks (st_tables flaky_run) = [k] ∧
    tb_Task_Runs (st_tables flaky_run) = [demo_a] ∧
    dt_dag_task_id dt = 1%Z ∧ tk_task_id k = dt_task_id dt ∧ tk_backoffLimit k = 3%Z ∧
    tk_isConditional k = false.
Proof. do 2 eexists. split_and!; vm_compute; reflexivity. Qed.

Lemma ShouldRerun_decides_witness : (ShouldRerun 1 137 flaky_run).1 = Ok true.
Proof.
  destruct flaky_rows as (dt & k & Hdt & Hk & Htr & H1 & H2 & H3 & H4).
  assert (nofault flaky_run) as Hn by (vm_compute; reflexivity).
  assert (task_of_run (st_tables flaky_run) demo_a dt k) as Ht
    by (split; [rewrite Htr; left|rewrite Hdt; left|done|rewrite Hk; left|done]).
  destruct (ShouldRerun_decides demo_a dt k 137 flaky_run Hn flaky_ok Ht) as [H _].
  unfold rerun_decision in H. rewrite H3, H4 in H. exact H.
Defined.

Lemma retries_unbounded_witness :
  ∃ tr, (1 < trn_task_run_id tr)%Z ∧
    (ShouldRerun (trn_task_run_id tr) 137
       (w_db (retryFailedTask json_worker (demo_pod 1 1 PodFailed []) 1 1 flaky_world).2)).1 = Ok true.
Proof.
  destruct flaky_rows as (dt & k & Hdt & Hk & Htr & H1 & H2 & H3 & H4).
  assert (nofault flaky_run) as Hn by (vm_compute; reflexivity).
  assert (dt ∈ tb_DAG_Tasks (st_tables flaky_run)) as Hdt' by (rewrite Hdt; left).
  assert (k ∈ tb_Tasks (st_tables flaky_run)) as Hk' by (rewrite Hk; left).
  assert (1 <= tk_backoffLimit k)%Z as Hl by (rewrite H3; done).
  destruct (retries_unbounded demo_env json_worker (demo_pod 1 1 PodFailed []) 1 1 1 dt k
    demo_container [] 137 flaky_world Hn flaky_ok eq_refl eq_refl Hdt' H1 Hk' H2 Hl H4)
    as (tr & _ & _ & Hid & H).
  exists tr. split; [|exact H].
  assert (sq_Task_Runs (st_tables (w_db flaky_world)) = 1%Z) as E by (vm_compute; reflexivity).
  rewrite E in Hid. exact Hid.
Defined.
