(* ===== verification/LogStore.v ===== *)
(** * Log stores (internal/object/logStore.go, filesystem.go)

    What the two log stores share: the log of a pod as a stream that is read in
    pieces, the set of logs that are being fetched, and the interface
    [LogStore] that the worker is given. *)

From Stdlib Require Import Strings.Byte.
From S2P Require Import Prelude Api Kube.
Local Open Scope kontroler_scope.

(** ** Streams *)

Abbreviation bytes := (list Byte.byte).

(** How a [Read] ends: with a nil error, with [io.EOF], or with another error. *)
Inductive ReadEnd := More | AtEOF | Broken (e : GoError).

(** What an [io.Reader] will answer, one entry per piece that arrives. *)
Definition Stream : Type := list (bytes * ReadEnd).

(** [reader.Read] into a buffer of [n] bytes: a piece that is too long is
    handed out in parts, and its end with the last of them. *)
Definition Read (n : Z) (s : Stream) : (bytes * ReadEnd) * Stream :=
  match s with
  | [] => (([], AtEOF), [])
  | (d, e) :: rest =>
      if Z.of_nat (length d) <=b n then ((d, e), rest)
      else ((take (Z.to_nat n) d, More), (drop (Z.to_nat n) d, e) :: rest)
  end.

(** A bound on the number of reads. *)
Definition stream_size (s : Stream) : nat := sum_list ((λ r, S (length r.1)) <$> s).

(** The bytes that arrive before the stream ends, and how it ends. *)
Fixpoint stream_content (s : Stream) : bytes * option GoError :=
  match s with
  | [] => ([], None)
  | (d, More) :: rest => let '(l, e) := stream_content rest in (d ++ l, e)
  | (d, AtEOF) :: _ => (d, None)
  | (d, Broken e) :: _ => (d, Some e)
  end.

(** The pods/log resource of the API server: the stream of a container's log,
    opened under an optional time limit (seconds), which also ends the stream. *)
Class PodLogs (C : Type) := {
  GetLogs_Stream (namespace pod container : string) (timeout : option Z) : M C Stream
}.

(** ** State *)

Record Logs (C B : Type) := mkLogs {
  lg_kube : C;
  lg_store : B;
  lg_fetching : gset string
}.
Arguments mkLogs {C B}.
Arguments lg_kube {C B}.
Arguments lg_store {C B}.
Arguments lg_fetching {C B}.

Section state.
Context {C B : Type}.

Definition with_kube {A} (m : M C A) : M (Logs C B) A := λ s,
  let '(r, c) := m (lg_kube s) in (r, mkLogs c (lg_store s) (lg_fetching s)).

Definition with_store {A} (m : M B A) : M (Logs C B) A := λ s,
  let '(r, b) := m (lg_store s) in (r, mkLogs (lg_kube s) b (lg_fetching s)).

(** *** Logs being fetched; the locks make each of these one step. *)

Definition fetch_key (dagRunId : Z) (pod : Pod) : string := Itoa dagRunId +:+ "-" +:+ p_UID pod.

Definition is_fetching (dagRunId : Z) (pod : Pod) : M (Logs C B) bool :=
  gets (λ s, bool_decide (fetch_key dagRunId pod ∈ lg_fetching s)).

Definition mark_as_fetching (dagRunId : Z) (pod : Pod) : M (Logs C B) unit := λ s,
  let key := fetch_key dagRunId pod in
  if bool_decide (key ∈ lg_fetching s) then (Err (EErrorf "already fetching"), s)
  else (Ok tt, mkLogs (lg_kube s) (lg_store s) ({[key]} ∪ lg_fetching s)).

Definition unlist_fetching (dagRunId : Z) (pod : Pod) : M (Logs C B) unit :=
  modify (λ s, mkLogs (lg_kube s) (lg_store s) (lg_fetching s ∖ {[fetch_key dagRunId pod]})).

End state.

(** ** The interface *)

Class LogStore (L : Type) := {
  IsFetching (dagRunId : Z) (pod : Pod) : M L bool;
  MarkAsFetching (dagRunId : Z) (pod : Pod) : M L unit;
  UnlistFetching (dagRunId : Z) (pod : Pod) : M L unit;
  UploadLogs (dagRunId : Z) (pod : Pod) : M L unit;
  DeleteLogs (dagRunId : Z) : M L unit
}.

(** The texts of an error that mean that the pod went away. *)
Definition pod_deleted (e : GoError) : bool :=
  contains "not found" (err_Error e) || contains "connection refused" (err_Error e)
  || contains "has been terminated" (err_Error e).

(** The log of a pod as stored: the number of its run and its UID. *)
Definition log_name (dagRunId : Z) (pod : Pod) : string :=
  Itoa dagRunId +:+ "/" +:+ p_UID pod +:+ "-log.txt".

(** ** Lemmas *)

Lemma stream_size_cons d e s : stream_size ((d, e) :: s) = S (length d) + stream_size s.
Proof. done. Qed.

(** A read yields a prefix of what is left and keeps the rest. *)
Lemma Read_content n s d e s' : (0 < n)%Z → Read n s = ((d, e), s') →
  (Z.of_nat (length d) <= n)%Z ∧
  match e with
  | More => stream_content s = (d ++ (stream_content s').1, (stream_content s').2) ∧
            stream_size s' < stream_size s
  | AtEOF => stream_content s = (d, None)
  | Broken err => stream_content s = (d, Some err)
  end.
Proof.
  intros Hn. destruct s as [|[d0 e0] rest]; simpl; [by intros [= <- <- <-]; simpl; split; [lia|]|].
  case_bool_decide as Hd; intros [= <- <- <-].
  - split; [done|]. destruct e0; [|done..]. simpl. destruct (stream_content rest) as [l o].
    split; [done|]. rewrite stream_size_cons. lia.
  - rewrite length_take. split; [lia|]. split.
    + simpl. destruct e0; simpl; rewrite ?take_drop; [|done..].
      destruct (stream_content rest) as [l o]. simpl. by rewrite app_assoc, take_drop.
    + rewrite !stream_size_cons, length_drop. lia.
Qed.

(** *** The keys of a run *)

Definition slash : Ascii.ascii := Eval cbv in Ascii.ascii_of_nat 47.

Fixpoint slash_free (s : string) : bool :=
  match s with
  | EmptyString => true
  | String c rest => negb (bool_decide (c = slash)) && slash_free rest
  end.

Lemma digits_slash_free s : all_digits s = true → slash_free s = true.
Proof.
  induction s as [|c s IH]; [done|]. simpl. intros [Hc Hs]%andb_true_iff.
  rewrite IH by done. rewrite bool_decide_eq_false_2; [done|]. intros ->. done.
Qed.

Lemma Itoa_slash_free n : slash_free (Itoa n) = true.
Proof.
  destruct n as [|p|p]; [done| |].
  - exact (digits_slash_free _ (proj2 (decimal_pretty (Npos p)))).
  - change (Itoa (Z.neg p)) with (String (Ascii.ascii_of_nat 45) (pretty (Npos p))). simpl.
    exact (digits_slash_free _ (proj2 (decimal_pretty (Npos p)))).
Qed.

Lemma prefix_cons c a d b :
  String.prefix (String c a) (String d b) = true ↔ c = d ∧ String.prefix a b = true.
Proof. simpl. destruct (Ascii.ascii_dec c d); naive_solver. Qed.

Lemma prefix_slash a : ∀ b x, slash_free a = true → slash_free b = true →
  String.prefix (a +:+ "/") (b +:+ "/" +:+ x) = true ↔ a = b.
Proof.
  induction a as [|c a IH]; intros [|d b] x Ha Hb.
  - simpl. by destruct x.
  - split; [|done]. intros [<- _]%(prefix_cons slash ""). done.
  - split; [|done]. intros [-> _]%(prefix_cons c (a +:+ "/") slash). done.
  - simpl in Ha, Hb. apply andb_true_iff in Ha as [_ Ha], Hb as [_ Hb].
    change ((String c a) +:+ "/") with (String c (a +:+ "/")).
    change ((String d b) +:+ "/" +:+ x) with (String d (b +:+ "/" +:+ x)).
    rewrite prefix_cons, (IH b x Ha Hb). split; [by intros [-> ->]|by intros [= -> ->]].
Qed.

(** The prefix of a run selects the logs of that run and of no other. *)
Lemma run_prefix run run' pod :
  String.prefix (Itoa run +:+ "/") (log_name run' pod) = true ↔ run = run'.
Proof.
  unfold log_name. rewrite prefix_slash by apply Itoa_slash_free.
  unfold Itoa. split; [apply (inj pretty)|by intros ->].
Qed.

(** The logs without those of a run. *)
Definition without_run (run : Z) (objects : gmap string bytes) : gmap string bytes :=
  filter (λ kv, String.prefix (Itoa run +:+ "/") kv.1 = false) objects.

Lemma lookup_without_run run objects key :
  without_run run objects !! key =
    if String.prefix (Itoa run +:+ "/") key then None else objects !! key.
Proof.
  unfold without_run. rewrite map_lookup_filter.
  destruct (objects !! key) as [x|]; simpl; [|by case_match].
  destruct (String.prefix _ key) eqn:E; [by rewrite option_guard_False by (simpl; congruence)|].
  by rewrite option_guard_True.
Qed.
