(* ===== verification/S3Store.v ===== *)
(** * Logs in S3 (internal/object/logStore.go)

    [s3LogStore] sends the log of a pod to a bucket while it is read: in parts
    of at least [minPartSize] bytes, or as one object when it is shorter than
    that.  The client of S3 is an interface; its laws are what S3 documents. *)

From S2P Require Import Prelude Api Kube LogStore.
Local Open Scope kontroler_scope.

(** ** The client *)

Class S3Client (B : Type) := {
  (** The ID of the upload. *)
  CreateMultipartUpload (key : string) : M B string;
  (** The tag of the part. *)
  UploadPart (key uploadID : string) (partNumber : Z) (body : bytes) : M B string;
  CompleteMultipartUpload (key uploadID : string) (parts : list (string * Z)) : M B unit;
  PutObject (key : string) (body : bytes) : M B unit;
  AbortMultipartUpload (key uploadID : string) : M B unit;
  (** The keys of a page, and where the next page starts if there is one. *)
  ListObjectsV2 (prefix : string) (token : option string) : M B (list string * option string);
  (** The errors of single keys. *)
  DeleteObjects (keys : list string) : M B (list string)
}.

(** The fields for tests; zero stands for the default. *)
Record S3Config := mkS3Config {
  minPartSize : Z;
  streamRetryCount : Z;
  streamOpenTimeout : Z
}.

Definition defaultMinPartSize : Z := 5 * 1024 * 1024.
Definition defaultStreamRetryCount : Z := 3.
Definition defaultStreamOpenTimeout : Z := 30.

(** A field with its default. *)
Definition or_default (z d : Z) : Z := if z =b 0%Z then d else z.

Module S3.
Section s3.
Context {C B : Type} `{KubeAPI C} `{PodLogs C} `{S3Client B} (cfg : S3Config).

#[local] Abbreviation L := (M (Logs C B)).

(** ** Opening the log *)

Inductive Opened := OpenedStream (s : Stream) | PodGone | NoContainers | OpenFailed (e : GoError).

(** The attempts that are left; the pauses between them are left out. *)
Fixpoint open_stream (n : nat) (pod : Pod) : L Opened :=
  match n with
  | O => mret (OpenFailed (EErrorf "failed to open log stream: <nil>"))
  | S n' =>
      match sp_Containers (p_Spec pod) with
      | [] => mret NoContainers
      | c :: _ =>
          r ← try (with_kube (GetLogs_Stream (p_Namespace pod) (p_Name pod) (c_Name c)
                     (Some (or_default (streamOpenTimeout cfg) defaultStreamOpenTimeout))));
          match r with
          | Ok s => mret (OpenedStream s)
          | Err e =>
              if contains "not found" (err_Error e) then mret PodGone
              else if bool_decide (n' = 0) then mret (OpenFailed (EWrap "error in opening stream" e))
              else open_stream n' pod
          end
      end
  end.

(** ** Parts *)

Definition localMinPart : Z := or_default (minPartSize cfg) defaultMinPartSize.

Definition chunkSize : Z :=
  let size := if localMinPart <=b 0 then (1024 * 1024)%Z else localMinPart in
  Z.min size (1024 * 1024).

(** The variables of the upload. *)
Record Upload := mkUpload {
  up_buffer : bytes;
  up_parts : list (string * Z);
  up_partNumber : Z;
  up_has : bool
}.

Definition cleanupPartialUpload (key uploadID : string) : L unit :=
  try (with_store (AbortMultipartUpload key uploadID)) ≫= λ _, mret tt.

(** Send the buffer as the next part. *)
Definition uploadPart (key uploadID : string) (u : Upload) : L (result Upload) :=
  r ← try (with_store (UploadPart key uploadID (up_partNumber u) (up_buffer u)));
  match r with
  | Err e =>
      cleanupPartialUpload key uploadID ≫= λ _,
      mret (Err (EWrap ("error uploading part " +:+ Itoa (up_partNumber u)) e))
  | Ok etag => mret (Ok (mkUpload [] (up_parts u ++ [(etag, up_partNumber u)]) (up_partNumber u)
                           (up_has u)))
  end.

(** [partNumber++] on an [int32]. *)
Definition next_part (u : Upload) : Upload :=
  mkUpload (up_buffer u) (up_parts u)
    ((up_partNumber u + 1 + 2 ^ 31) mod 2 ^ 32 - 2 ^ 31) (up_has u).

(** How the reading ends: with the whole log, with the pod gone or with an
    error; whether a part had been sent. *)
Inductive LoopEnd := LoopDone (u : Upload) | LoopDeleted (has : bool) | LoopError (e : GoError) (has : bool).

Definition add_chunk (chunk : bytes) (u : Upload) : Upload :=
  mkUpload (up_buffer u ++ chunk) (up_parts u) (up_partNumber u) (up_has u).
Definition set_has (u : Upload) : Upload :=
  mkUpload (up_buffer u) (up_parts u) (up_partNumber u) true.

(** The reading loop; [None] when the fuel is not enough. *)
Fixpoint read_loop (fuel : nat) (key uploadID : string) (s : Stream) (u : Upload)
    : L (option LoopEnd) :=
  match fuel with
  | O => mret None
  | S fuel' =>
      let '((chunk, readErr), s') := Read chunkSize s in
      match readErr with
      | Broken e =>
          if pod_deleted e
          then cleanupPartialUpload key uploadID ≫= λ _, mret (Some (LoopDeleted (up_has u)))
          else mret (Some (LoopError (EWrap "error reading logs" e) (up_has u)))
      | _ =>
          let u := add_chunk chunk u in
          sent ← (if localMinPart <=b Z.of_nat (length (up_buffer u)) then
                    r ← uploadPart key uploadID (set_has u);
                    mret match r with Ok u' => Ok (next_part u') | Err e => Err e end
                  else mret (Ok u));
          match sent with
          | Err e => mret (Some (LoopError e true))
          | Ok u' => match readErr with
                     | AtEOF => mret (Some (LoopDone u'))
                     | _ => read_loop fuel' key uploadID s' u'
                     end
          end
      end
  end.

(** ** Finishing *)

(** What is returned, whether the finalizer is to be removed, and whether the
    deferred function aborts the upload. *)
Record Finish := mkFinish { fi_ret : result unit; fi_cleanup : bool; fi_abort : bool }.

(** After the loop. *)
Definition finish_upload (key uploadID : string) (u : Upload) : L Finish :=
  if bool_decide (0 < length (up_buffer u))
     && ((Z.of_nat (length (up_buffer u)) <? localMinPart)%Z && negb (up_has u)) then
    r ← try (with_store (PutObject key (up_buffer u)));
    mret match r with
         | Err e => mkFinish (Err (EWrap "error uploading small log file" e)) false true
         | Ok _ => mkFinish (Ok tt) true true
         end
  else
    last ← (if bool_decide (0 < length (up_buffer u)) then uploadPart key uploadID u
            else mret (Ok u));
    match last with
    | Err e => mret (mkFinish (Err e) false (negb (up_has u)))
    | Ok u =>
        if up_has u then
          r ← try (with_store (CompleteMultipartUpload key uploadID (up_parts u)));
          mret match r with
               | Err e => mkFinish (Err (EWrap "error completing multipart upload" e)) false true
               | Ok _ => mkFinish (Ok tt) true false
               end
        else mret (mkFinish (Ok tt) true true)
    end.

(** From the start of the upload to the deferred function that may abort it. *)
Definition transfer (key : string) (s : Stream) : L (result unit * bool) :=
  id ← try (with_store (CreateMultipartUpload key));
  match id with
  | Err e => mret (Err (EWrap "error initiating multipart upload" e), false)
  | Ok uploadID =>
      e ← read_loop (S (stream_size s)) key uploadID s (mkUpload [] [] 1 false);
      f ← match e with
          | None => throw (EErrorf "out of fuel")
          | Some (LoopDeleted has) => mret (mkFinish (Ok tt) true (negb has))
          | Some (LoopError err has) => mret (mkFinish (Err err) false (negb has))
          | Some (LoopDone u) => finish_upload key uploadID u
          end;
      (if fi_abort f then cleanupPartialUpload key uploadID else mret tt) ≫= λ _,
      mret (fi_ret f, fi_cleanup f)
  end.

Definition uploadLogsWithGetter (dagrunId : Z) (pod : Pod) : L (result unit * bool) :=
  o ← open_stream (Z.to_nat (or_default (streamRetryCount cfg) defaultStreamRetryCount)) pod;
  match o with
  | NoContainers => mret (Ok tt, false)
  | PodGone => mret (Ok tt, true)
  | OpenFailed e => mret (Err e, false)
  | OpenedStream s => transfer (log_name dagrunId pod) s
  end.

Definition UploadLogs (dagrunId : Z) (pod : Pod) : L unit :=
  r ← uploadLogsWithGetter dagrunId pod;
  (if r.2 : bool
   then try (with_kube (RemoveFinalizer (p_Name pod) (p_Namespace pod) "kontroler/logcollection"))
          ≫= λ _, mret tt
   else mret tt) ≫= λ _,
  match r.1 with Ok _ => mret tt | Err e => throw e end.

(** ** Deleting *)

(** The pages of the listing, [n] at most. *)
Fixpoint list_loop (n : nat) (prefix : string) (token : option string) (acc : list string)
    : L (option (list string)) :=
  match n with
  | O => mret None
  | S n' =>
      r ← try (with_store (ListObjectsV2 prefix token));
      match r with
      | Err e => throw (EWrap "error listing objects" e)
      | Ok (keys, next) =>
          match next with
          | None => mret (Some (acc ++ keys))
          | Some _ => list_loop n' prefix next (acc ++ keys)
          end
      end
  end.

Definition maxBatchSize : nat := 1000.

(** The batches, [n] at most; the first error ends the loop. *)
Fixpoint delete_batches (n : nat) (keys : list string) : L unit :=
  match n, keys with
  | O, _ | _, [] => mret tt
  | S n', _ =>
      r ← try (with_store (DeleteObjects (take maxBatchSize keys)));
      match r with
      | Err e => throw (EWrap "error deleting objects batch" e)
      | Ok (e :: _) => throw (EErrorf ("delete objects returned errors for batch: " +:+ e))
      | Ok [] => delete_batches n' (drop maxBatchSize keys)
      end
  end.

(** [pages] bounds the number of pages; the source has no bound. *)
Definition DeleteLogs (pages : nat) (dagrunId : Z) : L unit :=
  keys ← list_loop pages (Itoa dagrunId +:+ "/") None [];
  match keys with
  | None => throw (EErrorf "out of fuel")
  | Some objectIds => delete_batches (length objectIds) objectIds
  end.

End s3.
End S3.
