(* ===== verification/S3Spec.v ===== *)
(** * What the bucket holds

    The laws of the S3 client, as the service documents them, and what the log
    store does with it: a log is stored as a whole or not at all, and deleting
    the logs of a run deletes exactly those. *)

From S2P Require Import Prelude Api Kube LogStore S3Store.
Import S3.
Local Open Scope kontroler_scope.

(** ** The service *)

(** The objects, and the multipart uploads by their ID: the key and the parts
    received, each under its number with its tag. *)
Record Bucket := mkBucket {
  bk_objects : gmap string bytes;
  bk_uploads : gmap string (string * gmap Z (string * bytes))
}.

(** The parts of a completion request, with the bodies that were uploaded. *)
Definition parts_are (up : gmap Z (string * bytes)) (parts : list (string * Z))
    (bodies : list bytes) : Prop :=
  Forall2 (λ p body, up !! p.2 = Some (p.1, body)) parts bodies.

(** The least size of a part that is not the last, and the most parts. *)
Definition s3_min_part : Z := 5 * 1024 * 1024.
Definition s3_max_parts : Z := 10000.

(** A call has its effect, or fails and may have had it; a healthy service does
    not fail a call whose precondition holds. *)
Definition serves {B A} (view : B → Bucket) (healthy : B → Prop) (pre : Bucket → Prop)
    (m : M B A) (effect : A → Bucket → Bucket → Prop) : Prop :=
  ∀ b, (healthy b → healthy (m b).2) ∧ (healthy b → pre (view b) → is_ok (m b).1 = true) ∧
    match (m b).1 with
    | Ok a => effect a (view b) (view (m b).2)
    | Err _ => view (m b).2 = view b ∨ ∃ a, effect a (view b) (view (m b).2)
    end.

Definition create_effect (key id : string) (v v' : Bucket) : Prop :=
  bk_uploads v !! id = None ∧ v' = mkBucket (bk_objects v) (<[id := (key, ∅)]> (bk_uploads v)).

Definition part_effect (key id : string) (n : Z) (body : bytes) (tag : string)
    (v v' : Bucket) : Prop :=
  ∃ up, bk_uploads v !! id = Some (key, up) ∧
    v' = mkBucket (bk_objects v) (<[id := (key, <[n := (tag, body)]> up)]> (bk_uploads v)).

Definition complete_effect (key id : string) (parts : list (string * Z)) (_ : unit)
    (v v' : Bucket) : Prop :=
  ∃ up bodies, bk_uploads v !! id = Some (key, up) ∧ parts_are up parts bodies ∧
    v' = mkBucket (<[key := mjoin bodies]> (bk_objects v)) (delete id (bk_uploads v)).

Definition complete_pre (key id : string) (parts : list (string * Z)) (v : Bucket) : Prop :=
  ∃ up bodies, bk_uploads v !! id = Some (key, up) ∧ parts_are up parts bodies ∧
    parts ≠ [] ∧ StronglySorted Z.lt parts.*2 ∧
    Forall (λ body, s3_min_part <= Z.of_nat (length body))%Z (removelast bodies).

(** The keys with a prefix, page by page, in some order. *)
Inductive pages {B} `{S3Client B} (prefix : string) : B → option string → list string → B → nat → Prop :=
| page_last b token keys b' :
    ListObjectsV2 prefix token b = (Ok (keys, None), b') → pages prefix b token keys b' 1
| page_more b token keys next b' rest b'' n :
    ListObjectsV2 prefix token b = (Ok (keys, Some next), b') →
    pages prefix b' (Some next) rest b'' n →
    pages prefix b token (keys ++ rest) b'' (S n).

(** The objects without those of some keys. *)
Definition without (keys : list string) (objects : gmap string bytes) : gmap string bytes :=
  filter (λ kv, kv.1 ∉ keys) objects.

Class S3Laws (B : Type) `{!S3Client B} := {
  s3_view : B → Bucket;
  s3_healthy : B → Prop;
  create_law key :
    serves s3_view s3_healthy (λ _, True) (CreateMultipartUpload key) (create_effect key);
  part_law key id n body :
    serves s3_view s3_healthy
      (λ v, (∃ up, bk_uploads v !! id = Some (key, up)) ∧ 1 <= n <= s3_max_parts)%Z
      (UploadPart key id n body) (part_effect key id n body);
  complete_law key id parts :
    serves s3_view s3_healthy (complete_pre key id parts)
      (CompleteMultipartUpload key id parts) (complete_effect key id parts);
  put_law key body :
    serves s3_view s3_healthy (λ _, True) (PutObject key body)
      (λ _ v v', v' = mkBucket (<[key := body]> (bk_objects v)) (bk_uploads v));
  abort_law key id :
    serves s3_view s3_healthy (λ v, ∃ up, bk_uploads v !! id = Some (key, up))
      (AbortMultipartUpload key id)
      (λ _ v v', v' = mkBucket (bk_objects v) (delete id (bk_uploads v)));
  (** The number of pages of a listing. *)
  s3_pages : string → B → nat;
  list_law prefix b : s3_healthy b →
    ∃ keys b', pages prefix b None keys b' (s3_pages prefix b) ∧ s3_healthy b' ∧ s3_view b' = s3_view b ∧
      ∀ key, key ∈ keys ↔ is_Some (bk_objects (s3_view b) !! key) ∧ String.prefix prefix key = true;
  delete_law keys b : s3_healthy b → length keys <= maxBatchSize →
    (DeleteObjects keys b).1 = Ok [] ∧ s3_healthy (DeleteObjects keys b).2 ∧
    s3_view (DeleteObjects keys b).2 =
      mkBucket (without keys (bk_objects (s3_view b))) (bk_uploads (s3_view b))
}.

(** ** Uploading *)

Section upload.
Context {C B : Type} `{KubeAPI C} `{PodLogs C} `{S3Laws B} (cfg : S3Config).

#[local] Abbreviation L := (M (Logs C B)).

(** A computation that talks to S3 alone. *)
Definition store_only {A} (m : L A) : Prop :=
  ∀ s, lg_kube (m s).2 = lg_kube s ∧ lg_fetching (m s).2 = lg_fetching s.

Lemma store_only_ret {A} (a : A) : store_only (mret a).
Proof. done. Qed.

Lemma store_only_throw {A} e : store_only (throw (A := A) e).
Proof. done. Qed.

Lemma store_only_call {A} (m : M B A) : store_only (try (with_store m)).
Proof. intros s. unfold try, with_store. by destruct (m (lg_store s)). Qed.

Lemma store_only_bind {A A'} (m : L A) (f : A → L A') :
  store_only m → (∀ a, store_only (f a)) → store_only (m ≫= f).
Proof.
  intros Hm Hf s. specialize (Hm s). unfold mbind, M_bind.
  destruct (m s) as [[a|e] s']; [|done]. simpl in *. specialize (Hf a s').
  destruct Hm as [<- <-], Hf as [-> ->]. done.
Qed.

#[local] Hint Resolve store_only_ret store_only_throw store_only_call : store_only.

Ltac store_walk :=
  repeat first [ solve [auto with store_only] | apply store_only_bind; [|intros ?]
               | progress case_match ].

Lemma store_only_abort key id : store_only (cleanupPartialUpload key id).
Proof. unfold cleanupPartialUpload. store_walk. Qed.
#[local] Hint Resolve store_only_abort : store_only.

Lemma store_only_part key id u : store_only (uploadPart key id u).
Proof. unfold uploadPart. store_walk. Qed.
#[local] Hint Resolve store_only_part : store_only.

Lemma store_only_loop fuel key id : ∀ s u, store_only (read_loop cfg fuel key id s u).
Proof.
  induction fuel as [|fuel IH]; intros s u; simpl; [apply store_only_ret|].
  destruct (Read (chunkSize cfg) s) as [[chunk e] s']. store_walk.
Qed.
#[local] Hint Resolve store_only_loop : store_only.

Lemma store_only_transfer key s : store_only (transfer cfg key s).
Proof. unfold transfer, finish_upload. store_walk. Qed.

(** *** One call *)

Definition healthy_logs (st : Logs C B) : Prop := s3_healthy (lg_store st).
Definition bucket (st : Logs C B) : Bucket := s3_view (lg_store st).

Lemma wp_call {A} pre (m : M B A) effect st Q :
  serves s3_view s3_healthy pre m effect →
  (∀ r st', (healthy_logs st → healthy_logs st') →
     (healthy_logs st → pre (bucket st) → is_ok r = true) →
     match r with
     | Ok a => effect a (bucket st) (bucket st')
     | Err _ => bucket st' = bucket st ∨ ∃ a, effect a (bucket st) (bucket st')
     end → Q (Ok r) st') →
  wp (try (with_store m)) st Q.
Proof.
  intros Hs HQ. specialize (Hs (lg_store st)) as (Hs1 & Hs2 & Hs3).
  unfold wp, try, with_store. destruct (m (lg_store st)) as [r b] eqn:E. simpl in *.
  apply HQ; done.
Qed.

(** What has been sent of an upload: the parts and the buffer make up [acc]. *)
Record uploading (v0 : Bucket) (key id : string) (acc : bytes) (u : Upload)
    (bodies : list bytes) (v : Bucket) : Prop := {
  ul_view : ∃ up, v = mkBucket (bk_objects v0) (<[id := (key, up)]> (bk_uploads v0)) ∧
                  parts_are up (up_parts u) bodies;
  ul_numbers : (up_parts u).*2 = seqZ 1 (Z.of_nat (length (up_parts u)));
  ul_next : up_partNumber u = (1 + Z.of_nat (length (up_parts u)))%Z;
  ul_acc : mjoin bodies ++ up_buffer u = acc
}.

Lemma uploading_length v0 key id acc u bodies v :
  uploading v0 key id acc u bodies v → length (up_parts u) = length bodies.
Proof. intros [(up & _ & Hp) _ _ _]. by eapply Forall2_length. Qed.

(** A new part does not touch the parts sent before. *)
Lemma parts_are_insert up parts bodies n tag body :
  parts_are up parts bodies → parts.*2 = seqZ 1 (Z.of_nat (length parts)) →
  n = (1 + Z.of_nat (length parts))%Z →
  parts_are (<[n := (tag, body)]> up) (parts ++ [(tag, n)]) (bodies ++ [body]).
Proof.
  intros Hp Hn ->. apply Forall2_app.
  - apply Forall2_same_length_lookup_2; [by eapply Forall2_length|].
    intros i [e k] b Hi Hb. simpl.
    pose proof (Forall2_lookup_lr _ _ _ _ _ _ Hp Hi Hb) as Hk. simpl in Hk.
    rewrite lookup_insert_ne; [done|]. intros <-.
    apply list_elem_of_lookup_2, (list_elem_of_fmap_2 snd) in Hi. rewrite Hn in Hi.
    apply elem_of_seqZ in Hi. simpl in Hi. lia.
  - constructor; [|constructor]. simpl. apply lookup_insert_eq.
Qed.

Lemma uploadPart_spec v0 key id acc u bodies st :
  uploading v0 key id acc u bodies (bucket st) →
  (Z.of_nat (length bodies) < s3_max_parts)%Z →
  wp (uploadPart key id u) st (λ r st',
    (healthy_logs st → healthy_logs st') ∧
    match r with
    | Ok (Ok u') =>
        up_buffer u' = [] ∧ up_has u' = up_has u ∧ up_partNumber u' = up_partNumber u ∧
        uploading v0 key id acc (mkUpload [] (up_parts u') (up_partNumber u' + 1) (up_has u'))
          (bodies ++ [up_buffer u]) (bucket st')
    | Ok (Err _) => ¬ healthy_logs st ∧ bk_objects (bucket st') = bk_objects v0
    | Err _ => False
    end).
Proof.
  intros Hu Hmax. pose proof (uploading_length _ _ _ _ _ _ _ Hu) as Hlen.
  destruct Hu as [(up & Hv & Hp) Hn Hnext Hacc].
  unfold uploadPart. apply wp_bind. eapply wp_call; [apply part_law|].
  intros r st1 Hh Hok Hr. destruct r as [tag|e]; simpl.
  - unfold wp. simpl. split; [done|]. split_and!; [done..|].
    destruct Hr as (up' & Hup & Hv'). rewrite Hv in Hup, Hv'. simpl in *.
    rewrite lookup_insert_eq in Hup. injection Hup as <-.
    rewrite insert_insert_eq in Hv'. split; simpl.
    + eexists. split; [exact Hv'|]. by apply parts_are_insert.
    + rewrite fmap_app, Hn, length_app, Nat2Z.inj_add, seqZ_app by lia. simpl.
      by rewrite Hnext.
    + rewrite length_app, Hnext. simpl. lia.
    + rewrite <- Hacc, !app_nil_r, join_app. simpl. by rewrite app_nil_r.
  - assert (¬ healthy_logs st) as Hbad.
    { intros Hg. assert (is_ok (Err (A := string) e) = true) as Hx; [|done].
      apply (Hok Hg). rewrite Hv. simpl. split; [eexists; apply lookup_insert_eq|].
      rewrite Hnext, Hlen. lia. }
    assert (bk_objects (bucket st1) = bk_objects v0) as Ho1.
    { destruct Hr as [->|(tag & up' & _ & ->)]; by rewrite Hv. }
    unfold cleanupPartialUpload. apply wp_bind, wp_bind. eapply wp_call; [apply abort_law|].
    intros r st2 Hh2 _ Hr2. unfold wp. simpl. split; [by intros Hg%Hbad|]. split; [done|].
    destruct r as [[]|]; [|destruct Hr2 as [Hr2|[_ Hr2]]]; rewrite Hr2; done.
Qed.

(** *** The reading loop *)

#[local] Abbreviation min := (localMinPart cfg).

(** Every part but the last is a full one. *)
Definition full_parts (bodies : list bytes) : Prop :=
  Forall (λ body, min <= Z.of_nat (length body))%Z bodies.

Lemma full_parts_length bodies : full_parts bodies →
  (Z.of_nat (length bodies) * min <= Z.of_nat (length (mjoin bodies)))%Z.
Proof.
  induction 1 as [|body bodies Hb _ IH]; simpl; [lia|]. rewrite length_app. lia.
Qed.

(** What the loop keeps: all of [acc] has been read, and is in full parts and in
    a buffer that is shorter than a part. *)
Record reading (v0 : Bucket) (key id : string) (acc : bytes) (u : Upload)
    (bodies : list bytes) (v : Bucket) : Prop := {
  rd_uploading : uploading v0 key id acc u bodies v;
  rd_full : full_parts bodies;
  rd_buffer : (Z.of_nat (length (up_buffer u)) < min)%Z;
  rd_has : up_has u = negb (bool_decide (bodies = []))
}.

Lemma chunkSize_bounds : (0 < min)%Z → (0 < chunkSize cfg <= min)%Z.
Proof. intros Hm. unfold chunkSize. rewrite bool_decide_eq_false_2 by lia. lia. Qed.

(** A piece that was read is buffered, and sent when it fills a part. *)
Lemma send_chunk_spec v0 key id acc chunk u bodies st :
  (0 < min)%Z →
  reading v0 key id acc u bodies (bucket st) →
  (Z.of_nat (length (acc ++ chunk)) <= s3_max_parts * min)%Z →
  wp (if min <=b Z.of_nat (length (up_buffer (add_chunk chunk u))) then
        r ← uploadPart key id (set_has (add_chunk chunk u));
        mret match r with Ok u' => Ok (next_part u') | Err e => Err e end
      else mret (Ok (add_chunk chunk u))) st (λ r st',
    (healthy_logs st → healthy_logs st') ∧
    match r with
    | Ok (Ok u') => ∃ bodies', reading v0 key id (acc ++ chunk) u' bodies' (bucket st')
    | Ok (Err _) => ¬ healthy_logs st ∧ bk_objects (bucket st') = bk_objects v0
    | Err _ => False
    end).
Proof.
  intros Hm [Hu Hf Hb Hh] Hmax.
  assert (uploading v0 key id (acc ++ chunk) (add_chunk chunk u) bodies (bucket st)) as Hu'.
  { destruct Hu as [Hv Hn Hx Ha]. split; simpl; [done..|]. by rewrite app_assoc, Ha. }
  destruct (min <=b _) eqn:E; [apply bool_decide_eq_true in E|apply bool_decide_eq_false in E].
  - apply wp_bind. eapply wp_mono.
    { apply (uploadPart_spec v0 key id (acc ++ chunk) (set_has (add_chunk chunk u)) bodies).
      - destruct Hu'. by split.
      - rewrite <- (ul_acc _ _ _ _ _ _ _ Hu') in Hmax. rewrite length_app in Hmax.
        pose proof (full_parts_length bodies Hf). simpl in *. nia. }
    intros r st1 [Hg Hr]. destruct r as [[u'|e]|e]; [|done..].
    destruct Hr as (H1' & H2' & H3' & Hup). unfold wp. simpl. split; [done|].
    exists (bodies ++ [up_buffer (add_chunk chunk u)]).
    assert ((up_partNumber u' + 1 + 2 ^ 31) mod 2 ^ 32 - 2 ^ 31 = up_partNumber u' + 1)%Z as Hnum.
    { pose proof (ul_next _ _ _ _ _ _ _ Hu) as Hx. simpl in H3'. rewrite H3', Hx.
      rewrite (uploading_length _ _ _ _ _ _ _ Hu).
      rewrite <- (ul_acc _ _ _ _ _ _ _ Hu') in Hmax. rewrite length_app in Hmax.
      pose proof (full_parts_length bodies Hf). simpl in *.
      assert (Z.of_nat (length bodies) < s3_max_parts)%Z as Hl by nia.
      unfold s3_max_parts in Hl. rewrite Z.mod_small by lia. lia. }
    split.
    + destruct Hup as [Hv Hn Hx Ha]. split; simpl in *; [done..| |].
      * rewrite Hnum. exact Hx.
      * rewrite H1'. exact Ha.
    + apply Forall_app. split; [done|]. constructor; [exact E|constructor].
    + simpl. rewrite H1'. simpl. lia.
    + simpl. rewrite H2'. simpl. by destruct bodies.
  - unfold wp. simpl. split; [done|]. exists bodies. split; [done..| |done]. simpl in *. lia.
Qed.

Lemma read_loop_spec v0 key id fuel : (0 < min)%Z → ∀ s acc u bodies st,
  stream_size s < fuel →
  reading v0 key id acc u bodies (bucket st) →
  (Z.of_nat (length (acc ++ (stream_content s).1)) <= s3_max_parts * min)%Z →
  wp (read_loop cfg fuel key id s u) st (λ r st',
    (healthy_logs st → healthy_logs st') ∧
    match r with
    | Ok (Some (LoopDone u')) =>
        (stream_content s).2 = None ∧
        ∃ bodies', reading v0 key id (acc ++ (stream_content s).1) u' bodies' (bucket st')
    | Ok (Some (LoopDeleted _)) =>
        (∃ e, (stream_content s).2 = Some e ∧ pod_deleted e = true) ∧
        bk_objects (bucket st') = bk_objects v0
    | Ok (Some (LoopError _ has)) =>
        bk_objects (bucket st') = bk_objects v0 ∧
        (healthy_logs st →
         (∃ e, (stream_content s).2 = Some e ∧ pod_deleted e = false) ∧
         (∃ up, bk_uploads (bucket st') = <[id := (key, up)]> (bk_uploads v0)) ∧
         (has = false → Z.of_nat (length (acc ++ (stream_content s).1)) < 2 * min))%Z
    | _ => False
    end).
Proof.
  intros Hm. induction fuel as [|fuel IH]; intros s acc u bodies st Hfuel Hrd Hmax; [lia|].
  cbn [read_loop]. destruct (chunkSize_bounds Hm) as [Hc1 Hc2].
  destruct (Read (chunkSize cfg) s) as [[chunk e] s'] eqn:ER.
  destruct (Read_content _ _ _ _ _ Hc1 ER) as [Hlen Hcont].
  assert (∀ tl, (stream_content s).1 = chunk ++ tl →
    (Z.of_nat (length (acc ++ chunk)) <= s3_max_parts * min)%Z) as Hle.
  { intros tl Htl. rewrite Htl, !length_app in Hmax. rewrite length_app. lia. }
  destruct e as [| |err].
  - destruct Hcont as [Hcont Hsize]. rewrite Hcont in *. simpl in *.
    apply wp_bind. eapply wp_mono; [by eapply send_chunk_spec; eauto|].
    intros r st1 [Hg Hr]. destruct r as [[u'|e]|e]; [|unfold wp; simpl; naive_solver|done].
    destruct Hr as [bodies' Hrd']. eapply wp_mono.
    { apply (IH s' (acc ++ chunk) u' bodies'); [lia|done|]. by rewrite <- app_assoc. }
    intros r st2 [Hg2 Hr]. split; [auto|]. rewrite <- app_assoc in Hr.
    destruct r as [[[u2|b|e2 b]|]|]; naive_solver.
  - rewrite Hcont in *. simpl in *.
    apply wp_bind. eapply wp_mono; [by eapply send_chunk_spec; eauto|].
    intros r st1 [Hg Hr]. destruct r as [[u'|e]|e]; unfold wp; simpl; [|naive_solver|done].
    destruct Hr as [bodies' Hrd']. eauto.
  - rewrite Hcont in *. simpl in *. destruct (pod_deleted err) eqn:Ed.
    + unfold cleanupPartialUpload. apply wp_bind, wp_bind. eapply wp_call; [apply abort_law|].
      intros r st1 Hg _ Hr. unfold wp. simpl. split; [done|]. split; [eauto|].
      destruct Hrd as [[(up & Hv & _) _ _ _] _ _ _].
      destruct r as [[]|]; [|destruct Hr as [Hr|[_ Hr]]]; rewrite Hr, Hv; done.
    + unfold wp. simpl. split; [done|]. destruct Hrd as [[(up & Hv & _) _ _ Ha] _ Hb Hh].
      rewrite Hv. simpl. split; [done|]. intros _. split; [eauto|]. split; [eauto|].
      rewrite Hh. intros Hbodies%negb_false_iff%bool_decide_eq_true. subst bodies.
      simpl in Ha. rewrite length_app, <- Ha. lia.
Qed.

(** *** The end of an upload *)

(** The objects once the log is stored; an empty log is not. *)
Definition stored (key : string) (log : bytes) (objects : gmap string bytes) : gmap string bytes :=
  if bool_decide (log = []) then objects else <[key := log]> objects.

(** The objects after a transfer that failed: a failed call may have had its
    effect, but the log is never stored in part. *)
Definition whole_or_nothing (key : string) (log : bytes) (v0 v : Bucket) : Prop :=
  bk_objects v = bk_objects v0 ∨ bk_objects v = stored key log (bk_objects v0).

Lemma stored_nonempty key log objects : log ≠ [] → stored key log objects = <[key := log]> objects.
Proof. intros Hl. unfold stored. by rewrite bool_decide_eq_false_2. Qed.

Lemma full_parts_removelast bodies : full_parts bodies → full_parts (removelast bodies).
Proof.
  induction 1 as [|x [|y l] Hx Hl IH]; simpl; [constructor..|]. by constructor.
Qed.

Lemma StronglySorted_seqZ n m : StronglySorted Z.lt (seqZ m (Z.of_nat n)).
Proof.
  revert m. induction n as [|n IH]; intros m; [constructor|].
  rewrite seqZ_cons by lia. replace (Z.pred (Z.of_nat (S n))) with (Z.of_nat n) by lia.
  constructor; [apply IH|]. apply Forall_forall. intros x Hx%elem_of_seqZ. lia.
Qed.

(** Completing an upload all of whose parts but the last are full. *)
Lemma complete_spec v0 key id log u bodies st :
  bk_uploads v0 !! id = None →
  uploading v0 key id log u bodies (bucket st) → up_buffer u = [] → bodies ≠ [] → log ≠ [] →
  full_parts (removelast bodies) →
  wp (r ← try (with_store (CompleteMultipartUpload key id (up_parts u)));
      mret match r with
           | Err e => mkFinish (Err (EWrap "error completing multipart upload" e)) false true
           | Ok _ => mkFinish (Ok tt) true false
           end) st (λ r st',
    (healthy_logs st → healthy_logs st') ∧
    match r with
    | Ok f => match fi_ret f with
              | Ok _ => fi_cleanup f = true ∧ fi_abort f = false ∧
                        bucket st' = mkBucket (stored key log (bk_objects v0)) (bk_uploads v0)
              | Err _ => fi_cleanup f = false ∧ ¬ (healthy_logs st ∧ s3_min_part <= min)%Z ∧
                         whole_or_nothing key log v0 (bucket st')
              end
    | Err _ => False
    end).
Proof.
  intros Hid Hu Hbuf Hne Hlog Hfull.
  pose proof (uploading_length _ _ _ _ _ _ _ Hu) as Hlen.
  destruct Hu as [(up & Hv & Hp) Hn _ Ha]. rewrite Hbuf, app_nil_r in Ha.
  assert (∀ x, complete_effect key id (up_parts u) x (bucket st) =
               complete_effect key id (up_parts u) tt (bucket st)) as Hunit by by intros [].
  assert (∀ v', complete_effect key id (up_parts u) tt (bucket st) v' →
    v' = mkBucket (stored key log (bk_objects v0)) (bk_uploads v0)) as Heff.
  { intros v' (up' & bodies' & Hup & Hp' & ->). rewrite Hv in *. simpl in *.
    rewrite lookup_insert_eq in Hup. injection Hup as <-.
    assert (bodies' = bodies) as ->.
    { clear -Hp Hp'. revert bodies Hp. induction Hp' as [|x b l bs Hx _ IH]; intros bodies Hp.
      - by inversion Hp.
      - inversion Hp as [|? b' ? bs' Hb' Hbs]; subst. rewrite Hx in Hb'. injection Hb' as ->.
        f_equal. by apply IH. }
    rewrite Ha, stored_nonempty by done. f_equal. by apply delete_insert_id. }
  apply wp_bind. eapply wp_call; [apply complete_law|].
  intros r st1 Hg Hok Hr. destruct r as [a|e]; unfold wp; simpl; (split; [done|]).
  - split_and!; [done..|]. rewrite Hunit in Hr. by apply Heff.
  - split; [done|]. split.
    + intros [Hh Hm]. assert (is_ok (Err (A := unit) e) = true) as Hx; [|done].
      apply (Hok Hh). exists up, bodies. rewrite Hv. simpl. rewrite lookup_insert_eq.
      split_and!; [done..| | |].
      * destruct (up_parts u); [|done]. by destruct bodies.
      * rewrite Hn. apply StronglySorted_seqZ.
      * eapply Forall_impl; [exact Hfull|]. simpl. lia.
    + destruct Hr as [->|[a Hr]]; [left; by rewrite Hv|].
      right. rewrite Hunit in Hr. by rewrite (Heff _ Hr).
Qed.

Lemma finish_upload_spec v0 key id log u bodies st :
  (0 < min)%Z → bk_uploads v0 !! id = None →
  reading v0 key id log u bodies (bucket st) →
  (Z.of_nat (length log) <= s3_max_parts * min)%Z →
  wp (finish_upload cfg key id u) st (λ r st',
    (healthy_logs st → healthy_logs st') ∧
    match r with
    | Ok f => match fi_ret f with
              | Ok _ => fi_cleanup f = true ∧
                        bk_objects (bucket st') = stored key log (bk_objects v0) ∧
                        if fi_abort f then ∃ up, bk_uploads (bucket st') = <[id := (key, up)]> (bk_uploads v0)
                        else bk_uploads (bucket st') = bk_uploads v0
              | Err _ => fi_cleanup f = false ∧ ¬ (healthy_logs st ∧ s3_min_part <= min)%Z ∧
                         whole_or_nothing key log v0 (bucket st')
              end
    | Err _ => False
    end).
Proof.
  intros Hm Hid [Hu Hf Hb Hh] Hmax. unfold finish_upload.
  pose proof (ul_acc _ _ _ _ _ _ _ Hu) as Ha.
  destruct (decide (up_buffer u = [])) as [E|Hne].
  { rewrite E in Ha |- *. rewrite app_nil_r in Ha. simpl. apply wp_bind, wp_ret.
    destruct (decide (bodies = [])) as [->|Hbodies]; rewrite Hh; simpl.
    - (* the log is empty *)
      simpl in Ha. subst log. unfold wp. simpl. split; [done|].
      destruct (ul_view _ _ _ _ _ _ _ Hu) as (up & -> & _). simpl. eauto.
    - rewrite bool_decide_eq_false_2 by done. simpl. eapply wp_mono.
      + eapply complete_spec; [done..| |by apply full_parts_removelast].
        intros ->. pose proof (full_parts_length bodies Hf) as Hl. rewrite Ha in Hl. simpl in Hl.
        destruct bodies; [done|]. simpl in Hl. lia.
      + intros [f|e] st' [Hg Hr]; [|done]. split; [done|]. destruct (fi_ret f); [|done].
        destruct Hr as (-> & -> & ->). done. }
  assert (log ≠ []) as Hlog by (rewrite <- Ha; intros [_ Hx]%app_nil; done).
  rewrite (bool_decide_eq_true_2 (0 < length _)) by by apply length_pos_nil.
  destruct (decide (bodies = [])) as [->|Hbodies]; rewrite Hh; simpl.
  - (* a short log is one object *)
    rewrite (proj2 (Z.ltb_lt _ _)) by lia. simpl.
    apply wp_bind. eapply wp_call; [apply put_law|].
    destruct (ul_view _ _ _ _ _ _ _ Hu) as (up & Hv & _). simpl in Ha. subst log.
    rewrite Hv. simpl.
    intros r st1 Hg Hok Hr. destruct r as [[]|e]; unfold wp; simpl; (split; [done|]).
    + rewrite Hr. simpl. rewrite stored_nonempty by done. eauto.
    + split; [done|]. split; [intros [Hx _]; by specialize (Hok Hx I)|].
      unfold whole_or_nothing. rewrite stored_nonempty by done.
      destruct Hr as [->|[_ ->]]; simpl; eauto.
  - rewrite (bool_decide_eq_false_2 (bodies = [])) by done. simpl. rewrite andb_false_r.
    apply wp_bind. eapply wp_mono.
    { apply (uploadPart_spec v0 key id log u bodies); [done|].
      rewrite <- Ha, length_app in Hmax. pose proof (full_parts_length bodies Hf).
      assert (0 < length (up_buffer u)) by by apply length_pos_nil. nia. }
    intros r st1 [Hg Hr]. destruct r as [[u'|e]|e]; [| |done].
    + destruct Hr as (Hbuf & Hhas & _ & Hu'). rewrite Hhas, Hh.
      rewrite (bool_decide_eq_false_2 (bodies = [])) by done. simpl. eapply wp_mono.
      * apply (complete_spec v0 key id log _ (bodies ++ [up_buffer u]) st1 Hid Hu' eq_refl);
          [by destruct bodies|done|]. by rewrite removelast_last.
      * intros [f|e] st' [Hg2 Hr]; [|done]. split; [auto|]. destruct (fi_ret f).
        -- destruct Hr as (-> & -> & ->). done.
        -- destruct Hr as (? & Hbad & ?). split_and!; [done| |done]. intros [? ?]. auto.
    + unfold wp. simpl. destruct Hr as [Hbad Hr]. split; [done|]. split_and!; [done| |by left].
      intros [? ?]. auto.
Qed.

(** Aborting an upload never touches the objects, and forgets the upload. *)
Lemma abort_spec (abort : bool) key id st :
  wp (if abort then cleanupPartialUpload key id else mret tt) st (λ r st', r = Ok tt ∧
    bk_objects (bucket st') = bk_objects (bucket st) ∧
    (healthy_logs st → healthy_logs st' ∧
       if abort then ∀ v0 up, bk_uploads (bucket st) = <[id := (key, up)]> (bk_uploads v0) →
         bk_uploads v0 !! id = None → bk_uploads (bucket st') = bk_uploads v0
       else st' = st)).
Proof.
  destruct abort; [|done]. unfold cleanupPartialUpload. apply wp_bind.
  eapply wp_call; [apply abort_law|].
  intros r st1 Hg Hok Hr. unfold wp. simpl. split; [done|]. split.
  - destruct r; [|destruct Hr as [->|[_ Hr]]]; by rewrite ?Hr.
  - intros Hh. split; [auto|]. intros v0 up Hup Hid.
    destruct r as [[]|e]; [|by specialize (Hok Hh ltac:(rewrite Hup; eexists; apply lookup_insert_eq))].
    rewrite Hr. simpl. rewrite Hup. by apply delete_insert_id.
Qed.

(** The start of an upload. *)
Lemma create_spec {A} key (f : result string → L A) st Q :
  (∀ e st', (healthy_logs st → False) → bk_objects (bucket st') = bk_objects (bucket st) →
     wp (f (Err e)) st' Q) →
  (∀ id st', (healthy_logs st → healthy_logs st') → bk_uploads (bucket st) !! id = None →
     reading (bucket st) key id [] (mkUpload [] [] 1 false) [] (bucket st') →
     wp (f (Ok id)) st' Q) → (0 < min)%Z →
  wp (try (with_store (CreateMultipartUpload key)) ≫= f) st Q.
Proof.
  intros Herr Hok Hm. apply wp_bind. eapply wp_call; [apply create_law|].
  intros r st1 Hg Hpre Hr. destruct r as [id|e].
  - destruct Hr as [Hid Hv]. apply Hok; [done..|]. split; [|constructor|done|done].
    split; [|done..]. eexists. split; [exact Hv|constructor].
  - apply Herr; [intros Hh; by specialize (Hpre Hh I)|].
    destruct Hr as [->|(id & _ & ->)]; done.
Qed.

Lemma transfer_spec key s log st :
  (0 < min)%Z → stream_content s = (log, None) →
  (Z.of_nat (length log) <= s3_max_parts * min)%Z →
  wp (transfer cfg key s) st (λ r st', ∃ ret cleanup, r = Ok (ret, cleanup) ∧
    (is_ok ret = cleanup) ∧
    (if cleanup : bool then bk_objects (bucket st') = stored key log (bk_objects (bucket st))
     else whole_or_nothing key log (bucket st) (bucket st')) ∧
    (healthy_logs st → s3_min_part <= min → ret = Ok tt ∧ healthy_logs st' ∧
       bk_uploads (bucket st') = bk_uploads (bucket st)))%Z.
Proof.
  intros Hm Hs Hmax. unfold transfer. apply create_spec; [| |done].
  - intros e st1 Hbad Ho. unfold wp. simpl. eexists _, _. split; [done|].
    split; [done|]. split; [by left|]. intros Hh. by destruct (Hbad Hh).
  - intros id st1 Hg1 Hid Hrd. apply wp_bind. eapply wp_mono.
    { apply (read_loop_spec (bucket st) key id _ Hm s [] _ [] st1); [lia|done|]. by rewrite Hs. }
    rewrite Hs. simpl. intros r st2 [Hg2 Hr].
    destruct r as [[[u|b|e b]|]|e]; [|naive_solver| |done..]; cycle 1.
    { (* a part could not be sent *)
      destruct Hr as [Ho Hr]. apply wp_bind, wp_ret. simpl. apply wp_bind.
      eapply wp_mono; [apply abort_spec|]. intros r st3 (-> & Ho3 & _).
      unfold wp. simpl. eexists _, _. split; [done|]. split; [done|].
      split; [left; congruence|]. intros Hh.
      destruct (Hr (Hg1 Hh)) as [(? & ? & ?) _]. done. }
    destruct Hr as [_ (bodies & Hrd2)]. apply wp_bind. eapply wp_mono.
    { apply (finish_upload_spec (bucket st) key id log u bodies st2 Hm Hid Hrd2 Hmax). }
    intros r st3 [Hg3 Hr]. destruct r as [f|e]; [|done]. apply wp_bind.
    eapply wp_mono; [apply abort_spec|]. intros r st4 (-> & Ho4 & Hup4).
    unfold wp. simpl. eexists _, _. split; [done|].
    destruct (fi_ret f) as [[]|e].
    + destruct Hr as (-> & Ho3 & Hup3). split; [done|]. split; [congruence|].
      intros Hh _. split; [done|]. destruct (Hup4 (Hg3 (Hg2 (Hg1 Hh)))) as [Hh4 Hup].
      split; [done|].
      destruct (fi_abort f); [|by rewrite Hup].
      destruct Hup3 as [up Hup3]. by eapply Hup.
    + destruct Hr as (-> & Hbad & Ho3). split; [done|]. split.
      * unfold whole_or_nothing in *. by rewrite Ho4.
      * intros Hh Hmin. destruct Hbad. auto.
Qed.

(** A stream that ends in an error after a part was sent. *)
Lemma transfer_broken_spec key s log e st :
  (0 < min)%Z → stream_content s = (log, Some e) → pod_deleted e = false →
  (2 * min <= Z.of_nat (length log) <= s3_max_parts * min)%Z → healthy_logs st →
  wp (transfer cfg key s) st (λ r st', ∃ err id up, r = Ok (Err err, false) ∧
    bk_objects (bucket st') = bk_objects (bucket st) ∧
    bk_uploads (bucket st) !! id = None ∧
    bk_uploads (bucket st') = <[id := (key, up)]> (bk_uploads (bucket st))).
Proof.
  intros Hm Hs He [Hmin Hmax] Hh. unfold transfer. apply create_spec; [| |done].
  { intros e' st1 Hbad _. by destruct (Hbad Hh). }
  intros id st1 Hg1 Hid Hrd. apply wp_bind. eapply wp_mono.
  { apply (read_loop_spec (bucket st) key id _ Hm s [] _ [] st1); [lia|done|]. by rewrite Hs. }
  rewrite Hs. simpl. intros r st2 [Hg2 Hr].
  destruct r as [[[u|b|e' b]|]|e']; [by destruct Hr| |..]; try done.
  - destruct Hr as [(e' & [= <-] & Hx) _]. congruence.
  - destruct Hr as [Ho Hr]. destruct (Hr (Hg1 Hh)) as (_ & [up Hup] & Hb).
    destruct b; [|specialize (Hb eq_refl); lia].
    unfold wp. simpl. eauto 10.
Qed.

Lemma open_first n c cs pod s (st : Logs C B) c1 : n ≠ 0 →
  sp_Containers (p_Spec pod) = c :: cs →
  GetLogs_Stream (p_Namespace pod) (p_Name pod) (c_Name c)
    (Some (or_default (streamOpenTimeout cfg) defaultStreamOpenTimeout)) (lg_kube st) = (Ok s, c1) →
  open_stream cfg n pod st = (Ok (OpenedStream s), mkLogs c1 (lg_store st) (lg_fetching st)).
Proof.
  intros Hn Hc Hs. destruct n as [|n]; [done|]. simpl. rewrite Hc.
  unfold mbind, M_bind, try, with_kube. by rewrite Hs.
Qed.

(** The deferred removal of the finalizer leaves the bucket alone. *)
Lemma with_kube_store {A} (m : M C A) (st : Logs C B) :
  lg_store (with_kube m st).2 = lg_store st ∧ lg_fetching (with_kube m st).2 = lg_fetching st ∧
  lg_kube (with_kube m st).2 = (m (lg_kube st)).2.
Proof. unfold with_kube. by destruct (m (lg_kube st)). Qed.

Definition remove_log_finalizer (pod : Pod) : M C unit :=
  RemoveFinalizer (p_Name pod) (p_Namespace pod) "kontroler/logcollection".

Lemma UploadLogs_transfer run pod c cs s st c1 ret cleanup st2 :
  (0 <= streamRetryCount cfg)%Z →
  sp_Containers (p_Spec pod) = c :: cs →
  GetLogs_Stream (p_Namespace pod) (p_Name pod) (c_Name c)
    (Some (or_default (streamOpenTimeout cfg) defaultStreamOpenTimeout)) (lg_kube st) = (Ok s, c1) →
  transfer cfg (log_name run pod) s (mkLogs c1 (lg_store st) (lg_fetching st))
    = (Ok (ret, cleanup), st2) →
  (S3.UploadLogs cfg run pod st).1 = ret ∧
  lg_store (S3.UploadLogs cfg run pod st).2 = lg_store st2 ∧
  lg_fetching (S3.UploadLogs cfg run pod st).2 = lg_fetching st ∧
  lg_kube (S3.UploadLogs cfg run pod st).2 =
    (if cleanup then (remove_log_finalizer pod c1).2 else c1).
Proof.
  intros Hn Hc Hs Ht.
  destruct (store_only_transfer (log_name run pod) s (mkLogs c1 (lg_store st) (lg_fetching st)))
    as [Hk Hf]. rewrite Ht in Hk, Hf. simpl in Hk, Hf.
  unfold S3.UploadLogs, uploadLogsWithGetter, mbind, M_bind.
  assert (Z.to_nat (or_default (streamRetryCount cfg) defaultStreamRetryCount) ≠ 0) as Hn'.
  { unfold or_default, defaultStreamRetryCount. case_bool_decide; lia. }
  rewrite (open_first _ _ _ _ _ _ _ Hn' Hc Hs).
  rewrite Ht. cbn [fst snd]. destruct cleanup.
  - unfold try. fold (remove_log_finalizer pod).
    pose proof (with_kube_store (remove_log_finalizer pod) st2) as Hw.
    destruct (with_kube (remove_log_finalizer pod) st2) as [r st3]. simpl in Hw.
    destruct Hw as (Hw1 & Hw2 & Hw3). rewrite Hk in Hw3. destruct ret as [[]|]; simpl; split_and!; congruence.
  - destruct ret as [[]|]; simpl; split_and!; congruence.
Qed.


(** A log stream that breaks after a part was sent leaks the upload: for an
    error that is not taken for the deletion of the pod, such as the time limit
    under which the stream is opened, [UploadLogs] fails with no log stored, the
    finalizer kept and the multipart upload never completed nor aborted. *)
Theorem broken_stream_leaks_upload run pod c cs s log e st c1 :
  (0 < localMinPart cfg)%Z → (0 <= streamRetryCount cfg)%Z →
  sp_Containers (p_Spec pod) = c :: cs →
  GetLogs_Stream (p_Namespace pod) (p_Name pod) (c_Name c)
    (Some (or_default (streamOpenTimeout cfg) defaultStreamOpenTimeout)) (lg_kube st) = (Ok s, c1) →
  stream_content s = (log, Some e) → pod_deleted e = false →
  (2 * localMinPart cfg <= Z.of_nat (length log) <= s3_max_parts * localMinPart cfg)%Z →
  healthy_logs st →
  let '(r, st') := S3.UploadLogs cfg run pod st in
  is_ok r = false ∧ bk_objects (bucket st') = bk_objects (bucket st) ∧ lg_kube st' = c1 ∧
  ∃ id up, bk_uploads (bucket st) !! id = None ∧
    bk_uploads (bucket st') = <[id := (log_name run pod, up)]> (bk_uploads (bucket st)).
Proof.
  intros Hm Hn Hc Hs Hlog He Hlen Hh.
  pose proof (transfer_broken_spec (log_name run pod) s log e
                (mkLogs c1 (lg_store st) (lg_fetching st)) Hm Hlog He Hlen Hh) as Ht.
  unfold wp in Ht. destruct (transfer cfg _ s _) as [r st2] eqn:Et. simpl in Ht.
  destruct Ht as (err & id & up & -> & Ho & Hid & Hup).
  destruct (UploadLogs_transfer run pod c cs s st c1 _ _ st2 Hn Hc Hs Et) as (Hr & Hst & _ & Hk).
  destruct (S3.UploadLogs cfg run pod st) as [r st']. simpl in *. subst r.
  assert (bucket st' = bucket st2) as -> by (unfold bucket; congruence). eauto 10.
Qed.

End upload.

(** ** Deleting *)

Lemma without_app k1 k2 objects : without k2 (without k1 objects) = without (k1 ++ k2) objects.
Proof.
  unfold without. rewrite map_filter_filter. apply map_filter_ext.
  intros key x _. simpl. rewrite elem_of_app. tauto.
Qed.

Lemma without_nil objects : without [] objects = objects.
Proof. apply map_filter_id. intros key x _. simpl. apply not_elem_of_nil. Qed.

Section delete.
Context {C B : Type} `{S3Laws B}.

Lemma list_loop_pages prefix b token keys b' n :
  pages prefix b token keys b' n → ∀ k acc (st : Logs C B), n <= k → lg_store st = b →
  list_loop k prefix token acc st =
    (Ok (Some (acc ++ keys)), mkLogs (lg_kube st) b' (lg_fetching st)).
Proof.
  induction 1 as [b token keys b' Hl|b token keys next b' rest b'' n Hl Hp IH];
    intros k acc st Hk Hst; destruct k as [|k]; try lia; cbn [list_loop];
    unfold mbind, M_bind, try, with_store; rewrite Hst, Hl; [done|].
  rewrite (IH k) by (done || lia). simpl. by rewrite app_assoc.
Qed.

Lemma delete_batches_spec n : ∀ keys (st : Logs C B), length keys <= n → healthy_logs st →
  wp (delete_batches n keys) st (λ r st', r = Ok tt ∧ healthy_logs st' ∧
    bucket st' = mkBucket (without keys (bk_objects (bucket st))) (bk_uploads (bucket st))).
Proof.
  induction n as [|n IH]; intros keys st Hn Hh.
  { destruct keys; simpl in Hn; [|lia]. unfold wp. simpl. rewrite without_nil.
    by destruct (bucket st). }
  destruct keys as [|key keys].
  { unfold wp. simpl. rewrite without_nil. by destruct (bucket st). }
  cbn [delete_batches]. apply wp_bind.
  pose proof (delete_law (take maxBatchSize (key :: keys)) (lg_store st) Hh
                ltac:(rewrite length_take; lia)) as (Hr & Hh' & Hv).
  unfold wp at 1, try, with_store. destruct (DeleteObjects _ (lg_store st)) as [r b] eqn:E.
  cbn [fst snd] in Hr, Hh', Hv. subst r. cbn [fst snd]. eapply wp_mono.
  - apply IH; [|done]. rewrite length_drop. simpl in *. unfold maxBatchSize. lia.
  - intros r st' (-> & Hg & ->). split; [done|]. split; [done|].
    unfold bucket. cbn [lg_store]. rewrite Hv. cbn [bk_objects bk_uploads]. f_equal.
    by rewrite without_app, take_drop.
Qed.

Lemma store_only_batches n : ∀ keys, store_only (C := C) (B := B) (delete_batches n keys).
Proof.
  induction n as [|n IH]; intros keys; simpl; [destruct keys; apply store_only_ret|].
  destruct keys as [|key keys]; [apply store_only_ret|].
  apply store_only_bind; [apply store_only_call|]. intros [[|e l]|e];
    [apply IH|apply store_only_throw..].
Qed.

Lemma DeleteLogs_spec run k (st : Logs C B) :
  healthy_logs st → s3_pages (Itoa run +:+ "/") (lg_store st) <= k →
  ∃ b', S3.DeleteLogs k run st = (Ok tt, mkLogs (lg_kube st) b' (lg_fetching st)) ∧
    s3_healthy b' ∧
    s3_view b' = mkBucket (without_run run (bk_objects (bucket st))) (bk_uploads (bucket st)).
Proof.
  intros Hh Hk. destruct (list_law (Itoa run +:+ "/") (lg_store st) Hh)
    as (keys & b' & Hp & Hh' & Hv & Hkeys). unfold S3.DeleteLogs, mbind at 1, M_bind at 1.
  rewrite (list_loop_pages _ _ _ _ _ _ Hp k [] st Hk eq_refl). cbn [app].
  set (st1 := mkLogs (lg_kube st) b' (lg_fetching st)).
  pose proof (delete_batches_spec (length keys) keys st1 ltac:(done) Hh') as Hd.
  pose proof (store_only_batches (length keys) keys st1) as [Hk1 Hk2].
  unfold wp in Hd. destruct (delete_batches _ _ _) as [r [c b l]]. simpl in Hd, Hk1, Hk2. subst c l.
  destruct Hd as (-> & Hg & Hb). exists b. split; [done|]. split; [done|].
  unfold bucket in *. simpl in Hb. rewrite Hb, Hv. f_equal.
  apply map_eq. intros key. rewrite lookup_without_run. unfold without. rewrite map_lookup_filter.
  destruct (bk_objects (s3_view (lg_store st)) !! key) as [x|] eqn:Ex; simpl; [|by case_match].
  destruct (String.prefix _ key) eqn:Epre.
  - rewrite option_guard_False; [done|]. simpl. intros Hx. apply Hx, Hkeys. by rewrite Ex.
  - rewrite option_guard_True; [done|]. simpl. intros [_ Hx]%Hkeys. congruence.
Qed.

(** Deleting the logs of a run deletes exactly them: with a healthy S3 the
    loop over the pages ends, and afterwards no log of the run is left and the
    logs of every other run are as they were (the prefix of run 1 is not one of
    run 10). *)
Theorem DeleteLogs_deletes_run run k (st : Logs C B) :
  healthy_logs st → s3_pages (Itoa run +:+ "/") (lg_store st) <= k →
  let '(r, st') := S3.DeleteLogs k run st in
  r = Ok tt ∧ bk_uploads (bucket st') = bk_uploads (bucket st) ∧
  (∀ pod, bk_objects (bucket st') !! log_name run pod = None) ∧
  (∀ run' pod, run' ≠ run →
     bk_objects (bucket st') !! log_name run' pod = bk_objects (bucket st) !! log_name run' pod).
Proof.
  intros Hh Hk. destruct (DeleteLogs_spec run k st Hh Hk) as (b' & -> & _ & Hb).
  unfold bucket at 1 3 4. cbn [lg_store]. rewrite Hb. cbn [bk_objects bk_uploads].
  split_and!; [done..| |].
  - intros pod. rewrite lookup_without_run. by rewrite (proj2 (run_prefix run run pod) eq_refl).
  - intros run' pod Hne. rewrite lookup_without_run.
    destruct (String.prefix _ _) eqn:E; [|done]. apply run_prefix in E. congruence.
Qed.

End delete.
