(* ===== verification/S3Example.v ===== *)
(** * An example S3 service

    A small bucket that satisfies the laws of [S3Spec], for the witnesses of its
    theorems; it fails the calls that its schedule says. *)

From S2P Require Import Prelude Api Kube KubeExample LogStore S3Store S3Spec.
Import S3.
Local Open Scope kontroler_scope.

Record Service := mkService { sv_bucket : Bucket; sv_faults : list bool }.

(** A call that changes the bucket, or is refused. *)
Definition serve {A} (f : Bucket → option (A * Bucket)) : M Service A := λ b,
  let faults := tail (sv_faults b) in
  if default false (head (sv_faults b)) then (Err EDriver, mkService (sv_bucket b) faults)
  else match f (sv_bucket b) with
       | Some (a, v) => (Ok a, mkService v faults)
       | None => (Err (EErrorf "refused"), mkService (sv_bucket b) faults)
       end.

Definition new_id (v : Bucket) : string := fresh (dom (bk_uploads v)).

Definition service_create (key : string) (v : Bucket) : option (string * Bucket) :=
  Some (new_id v, mkBucket (bk_objects v) (<[new_id v := (key, ∅)]> (bk_uploads v))).

Definition service_part (key id : string) (n : Z) (body : bytes) (v : Bucket)
    : option (string * Bucket) :=
  match bk_uploads v !! id with
  | Some (key', up) =>
      if (key' =b key) && (1 <=b n) && (n <=b s3_max_parts) then
        Some ("tag", mkBucket (bk_objects v)
                       (<[id := (key, <[n := ("tag", body)]> up)]> (bk_uploads v)))
      else None
  | None => None
  end.

Definition part_body (up : gmap Z (string * bytes)) (p : string * Z) : option bytes :=
  match up !! p.2 with
  | Some (tag, body) => if tag =b p.1 then Some body else None
  | None => None
  end.

Definition service_complete (key id : string) (parts : list (string * Z)) (v : Bucket)
    : option (unit * Bucket) :=
  match bk_uploads v !! id with
  | Some (key', up) =>
      match mapM (part_body up) parts with
      | Some bodies =>
          if (key' =b key)
             && forallb (λ body, s3_min_part <=b Z.of_nat (length body)) (removelast bodies)
          then Some (tt, mkBucket (<[key := mjoin bodies]> (bk_objects v)) (delete id (bk_uploads v)))
          else None
      | None => None
      end
  | None => None
  end.

Definition service_abort (key id : string) (v : Bucket) : option (unit * Bucket) :=
  match bk_uploads v !! id with
  | Some _ => Some (tt, mkBucket (bk_objects v) (delete id (bk_uploads v)))
  | None => None
  end.

Definition service_keys (prefix : string) (v : Bucket) : list string :=
  where_ (String.prefix prefix) (map_to_list (bk_objects v)).*1.

#[global] Instance Service_client : S3Client Service := {
  CreateMultipartUpload key := serve (service_create key);
  UploadPart key id n body := serve (service_part key id n body);
  CompleteMultipartUpload key id parts := serve (service_complete key id parts);
  PutObject key body := serve (λ v, Some (tt, mkBucket (<[key := body]> (bk_objects v)) (bk_uploads v)));
  AbortMultipartUpload key id := serve (service_abort key id);
  ListObjectsV2 prefix _ := serve (λ v, Some ((service_keys prefix v, None), v));
  DeleteObjects keys :=
    serve (λ v, Some ([], mkBucket (without keys (bk_objects v)) (bk_uploads v)))
}.

(** ** The laws *)

Lemma new_id_fresh v : bk_uploads v !! new_id v = None.
Proof. apply not_elem_of_dom. unfold new_id. apply is_fresh. Qed.

Lemma serve_serves {A} (pre : Bucket → Prop) (f : Bucket → option (A * Bucket)) effect :
  (∀ v a v', f v = Some (a, v') → effect a v v') → (∀ v, pre v → is_Some (f v)) →
  serves sv_bucket (λ b, sv_faults b = []) pre (serve f) effect.
Proof.
  intros He Hp b. unfold serve. destruct b as [v faults]. simpl.
  destruct (default false (head faults)) eqn:Ef; simpl.
  - split_and!; [intros ->; done|intros -> ; done|by left].
  - destruct (f v) as [[a v']|] eqn:E; simpl.
    + split_and!; [by intros ->|done|by eapply He].
    + split_and!; [by intros ->| |by left].
      intros _ [? Hx]%Hp. congruence.
Qed.

Lemma parts_are_bodies up parts bodies :
  mapM (part_body up) parts = Some bodies ↔ parts_are up parts bodies.
Proof.
  rewrite mapM_Some. unfold parts_are. split; intros Hf; eapply Forall2_impl; try exact Hf;
    intros [tag n] body; unfold part_body; simpl.
  - destruct (up !! n) as [[tag' body']|]; [|done]. case_bool_decide; [|done]. by intros [= <-]; subst.
  - intros ->. by rewrite bool_decide_eq_true_2.
Qed.

Lemma elem_of_service_keys prefix key v :
  key ∈ service_keys prefix v ↔ is_Some (bk_objects v !! key) ∧ String.prefix prefix key = true.
Proof.
  unfold service_keys. rewrite elem_of_where, list_elem_of_fmap. split.
  - intros (Hp & [k x] & -> & Hx%elem_of_map_to_list). simpl in *. eauto.
  - intros ([x Hx] & Hp). split; [done|]. exists (key, x). split; [done|].
    by apply elem_of_map_to_list.
Qed.

#[local] Abbreviation fine := (λ b, sv_faults b = []).

Lemma service_create_law key :
  serves sv_bucket fine (λ _, True) (serve (service_create key)) (create_effect key).
Proof.
  apply serve_serves; [|by eexists].
  intros v a v' Hv. unfold service_create in Hv. simplify_eq. split; [apply new_id_fresh|done].
Qed.

Lemma service_part_law key id n body :
  serves sv_bucket fine
    (λ v, (∃ up, bk_uploads v !! id = Some (key, up)) ∧ 1 <= n <= s3_max_parts)%Z
    (serve (service_part key id n body)) (part_effect key id n body).
Proof.
  apply serve_serves; unfold service_part.
  - intros v a v'. destruct (bk_uploads v !! id) as [[key' up]|] eqn:E; [|done].
    destruct (_ && _) eqn:Et; [|done]. intros [= <- <-].
    apply andb_true_iff in Et as [[Hk%bool_decide_eq_true _]%andb_true_iff _]. subst. by exists up.
  - intros v [[up Hup] Hn]. rewrite Hup. rewrite !bool_decide_eq_true_2 by (done || lia). by eexists.
Qed.

Lemma service_complete_law key id parts :
  serves sv_bucket fine (complete_pre key id parts) (serve (service_complete key id parts))
    (complete_effect key id parts).
Proof.
  apply serve_serves; unfold service_complete.
  - intros v a v'. destruct (bk_uploads v !! id) as [[key' up]|] eqn:E; [|done].
    destruct (mapM _ parts) as [bodies|] eqn:Eb; [|done]. destruct (_ && _) eqn:Et; [|done].
    intros [= <- <-]. apply andb_true_iff in Et as [Hk%bool_decide_eq_true _]. subst.
    exists up, bodies. split; [done|]. split; [by apply parts_are_bodies|done].
  - intros v (up & bodies & Hup & Hp & _ & _ & Hmin).
    rewrite Hup, (proj2 (parts_are_bodies _ _ _) Hp), bool_decide_eq_true_2 by done.
    rewrite (proj2 (List.forallb_forall _ _)); [by eexists|].
    intros x Hx. apply bool_decide_eq_true_2. rewrite Forall_forall in Hmin.
    by apply Hmin, list_elem_of_In.
Qed.

Lemma service_abort_law key id :
  serves sv_bucket fine (λ v, ∃ up, bk_uploads v !! id = Some (key, up))
    (serve (service_abort key id))
    (λ _ v v', v' = mkBucket (bk_objects v) (delete id (bk_uploads v))).
Proof.
  apply serve_serves; unfold service_abort.
  - intros v a v'. destruct (bk_uploads v !! id); [|done]. by intros [= <- <-].
  - intros v [up ->]. by eexists.
Qed.

#[global] Program Instance Service_laws : S3Laws Service := {
  s3_view := sv_bucket;
  s3_healthy := fine;
  s3_pages _ _ := 1;
  create_law := service_create_law;
  part_law := service_part_law;
  complete_law := service_complete_law;
  abort_law := service_abort_law
}.
Next Obligation. intros key body. apply serve_serves; [by intros v [] v' [= <-]|by eexists]. Qed.
Next Obligation.
  intros prefix [v faults] Hf. simpl in Hf. subst.
  eexists _, _. split; [apply page_last; reflexivity|]. split; [done|]. split; [done|].
  intros key. apply elem_of_service_keys.
Qed.
Next Obligation. intros keys [v faults] Hf _. simpl in Hf. by subst. Qed.

(** ** Witnesses *)

Definition log_text : bytes := [Byte.x68; Byte.x65; Byte.x6c; Byte.x6c; Byte.x6f; Byte.x0a].

(** An API server that gives out one log stream. *)
Definition demo_logs (s : Stream) : PodLogs Cluster :=
  {| GetLogs_Stream _ _ _ _ := mret s |}.

Definition logged_container : Container := mkContainer "build" "alpine" [] [] [] [] None.

Definition logged_pod : Pod :=
  mkPod "uid-7" "apple-dog-desk" "default" ∅ ∅ ["kontroler/logcollection"]
    (mkPodSpec "Never" [] [] [logged_container] [] None ∅ [] None "" None None) "Succeeded" None
    [] [].

Definition empty_logs : Logs Cluster Service :=
  mkLogs empty_cluster (mkService (mkBucket {[ "1/uid-3-log.txt" := log_text ]} ∅) []) ∅.

(** A log that arrives whole, under the default configuration. *)
Module Whole.
#[local] Instance hello : PodLogs Cluster := demo_logs [(log_text, AtEOF)].
Definition config : S3Config := mkS3Config 0 0 0.

End Whole.

(** A log whose stream breaks, with parts of two bytes. *)
Module Broken.
Definition deadline : GoError := EErrorf "context deadline exceeded".
Definition pieces : Stream := [(log_text, More); ([], LogStore.Broken deadline)].
#[local] Instance interrupted : PodLogs Cluster := demo_logs pieces.
Definition config : S3Config := mkS3Config 2 0 0.

Lemma broken_stream_leaks_upload_witness :
  let '(r, st') := S3.UploadLogs config 7 logged_pod empty_logs in
  is_ok r = false ∧ bk_objects (bucket st') = bk_objects (bucket empty_logs) ∧
  lg_kube st' = empty_cluster ∧
  ∃ id up, bk_uploads (bucket empty_logs) !! id = None ∧
    bk_uploads (bucket st') = <[id := (log_name 7 logged_pod, up)]> (bk_uploads (bucket empty_logs)).
Proof.
  apply (broken_stream_leaks_upload config 7 logged_pod logged_container [] pieces log_text deadline empty_logs
           empty_cluster); [reflexivity|done|reflexivity|reflexivity|reflexivity|reflexivity| |reflexivity].
  vm_compute. split; discriminate.
Defined.
End Broken.

Lemma DeleteLogs_deletes_run_witness :
  let '(r, st') := S3.DeleteLogs 1 1 empty_logs in
  r = Ok tt ∧ bk_uploads (bucket st') = bk_uploads (bucket empty_logs) ∧
  (∀ pod, bk_objects (bucket st') !! log_name 1 pod = None) ∧
  (∀ run' pod, run' ≠ 1%Z →
     bk_objects (bucket st') !! log_name run' pod = bk_objects (bucket empty_logs) !! log_name run' pod).
Proof. apply (DeleteLogs_deletes_run 1 1 empty_logs); reflexivity. Defined.
