(* ===== verification/FileStore.v ===== *)
(** * Logs in files (internal/object/filesystem.go)

    [fileSystemLogStore] copies the log of a pod into a file.  The directory is
    a map from paths to contents; a call of the file system may fail, a write
    then after some of its bytes. *)

From S2P Require Import Prelude Api Kube LogStore.
Local Open Scope kontroler_scope.

(** ** The file system *)

(** The files below the directory of the store by their path in it, and for
    each call to come the bytes it gets to write and its error, if it fails. *)
Record Disk := mkDisk {
  dk_files : gmap string bytes;
  dk_faults : list (option (nat * GoError))
}.

Definition set_files (files : gmap string bytes) (d : Disk) : Disk :=
  mkDisk files (dk_faults d).

(** The outcome of the next call. *)
Definition disk_call : M Disk (option (nat * GoError)) := λ d,
  (Ok (mjoin (head (dk_faults d))), mkDisk (dk_files d) (tail (dk_faults d))).

(** [os.MkdirAll]; directories hold nothing of their own. *)
Definition MkdirAll : M Disk unit :=
  f ← disk_call; match f with Some (_, e) => throw e | None => mret tt end.

(** [os.Create] empties an existing file. *)
Definition Create (path : string) : M Disk unit :=
  f ← disk_call;
  match f with
  | Some (_, e) => throw e
  | None => modify (λ d, set_files (<[path := []]> (dk_files d)) d)
  end.

(** A write at the end of a file. *)
Definition Write (path : string) (data : bytes) : M Disk unit :=
  f ← disk_call;
  let put (data : bytes) := modify (λ d,
    set_files (<[path := default [] (dk_files d !! path) ++ data]> (dk_files d)) d) in
  match f with
  | Some (n, e) => put (take n data) ≫= λ _, throw e
  | None => put data
  end.

(** [os.RemoveAll] of the directory of a run. *)
Definition RemoveAll (dir : string) : M Disk unit :=
  f ← disk_call;
  match f with
  | Some (_, e) => throw e
  | None => modify (λ d, set_files
      (filter (λ kv, String.prefix (dir +:+ "/") kv.1 = false) (dk_files d)) d)
  end.

(** ** The store *)

(** The field for tests. *)
Record FileConfig := mkFileConfig { fileRetryCount : Z }.

Definition bufio_size : nat := 4096.

Module Files.
Section files.
Context {C : Type} `{KubeAPI C} `{PodLogs C} (cfg : FileConfig).

#[local] Abbreviation L := (M (Logs C Disk)).

Inductive Opened := OpenedStream (s : Stream) | PodGone | OpenFailed (e : GoError).

(** The attempts that are left; the context is not cancelled between them. *)
Fixpoint open_stream (n : nat) (pod : Pod) (container : string) : L Opened :=
  match n with
  | O => mret (OpenFailed (EErrorf "failed to open log stream: <nil>"))
  | S n' =>
      r ← try (with_kube (GetLogs_Stream (p_Namespace pod) (p_Name pod) container None));
      match r with
      | Ok s => mret (OpenedStream s)
      | Err e =>
          if IsNotFound e || contains "not found" (err_Error e) then mret PodGone
          else if bool_decide (n' = 0) then mret (OpenFailed (EWrap "error in opening stream" e))
          else open_stream n' pod container
      end
  end.

(** What [bufio.Writer] has passed on before [Flush]: the full buffers. *)
Definition passed_on (log : bytes) : nat := bufio_size * (length log / bufio_size).

(** Nothing is written when the buffer is empty. *)
Definition write_some (path : string) (data : bytes) : M Disk unit :=
  if bool_decide (data = []) then mret tt else Write path data.

Definition ContextCanceled : GoError := EErrorf "context canceled".
Definition ErrUnexpectedEOF : GoError := EErrorf "unexpected EOF".

(** The copy, in two writes: the full buffers and, once the stream has ended, the
    rest.  A writer that has failed keeps its error.  The result, and whether the finalizer goes. *)
Definition copy_stream (path : string) (s : Stream) : L (result unit * bool) :=
  let '(log, err) := stream_content s in
  w ← try (with_store (write_some path (take (passed_on log) log)));
  let flush :=
    f ← match w with
        | Err e => mret (Err e)
        | Ok _ => try (with_store (write_some path (drop (passed_on log) log)))
        end;
    mret match f with
         | Err e => (Err (EWrap "error flushing log file" e), false)
         | Ok _ => (Ok tt, true)
         end in
  match (match w with Err e => Some e | Ok _ => err end) with
  | None => flush
  | Some e =>
      if IsNotFound e then mret (Ok tt, true)
      else if e =b ContextCanceled then mret (Err e, false)
      else if e =b ErrUnexpectedEOF then flush
      else if pod_deleted e then mret (Ok tt, true)
      else mret (Err (EWrap "error reading logs" e), false)
  end.

Definition uploadLogsWithGetter (dagrunId : Z) (pod : Pod) : L (result unit * bool) :=
  let path := log_name dagrunId pod in
  d ← try (with_store MkdirAll);
  match d with
  | Err e => mret (Err (EWrap "failed to create log directory" e), false)
  | Ok _ =>
      c ← try (with_store (Create path));
      match c with
      | Err e => mret (Err (EWrap "failed to create log file" e), false)
      | Ok _ =>
          match sp_Containers (p_Spec pod) with
          | [] => mret (Err (EErrorf "no containers configured for pod"), false)
          | container :: _ =>
              let retryCount := if fileRetryCount cfg <=b 0 then 3%Z else fileRetryCount cfg in
              o ← open_stream (Z.to_nat retryCount) pod (c_Name container);
              match o with
              | PodGone => mret (Ok tt, true)
              | OpenFailed e => mret (Err e, false)
              | OpenedStream s => copy_stream path s
              end
          end
      end
  end.

Definition UploadLogs (dagrunId : Z) (pod : Pod) : L unit :=
  r ← uploadLogsWithGetter dagrunId pod;
  (if r.2 : bool
   then try (with_kube (RemoveFinalizer (p_Name pod) (p_Namespace pod) "kontroler/logcollection"))
          ≫= λ _, mret tt
   else mret tt) ≫= λ _,
  match r.1 with Ok _ => mret tt | Err e => throw e end.

(** An error that the directory does not exist is none; [RemoveAll] has no
    such error. *)
Definition DeleteLogs (dagrunId : Z) : L unit :=
  r ← try (with_store (RemoveAll (Itoa dagrunId)));
  match r with
  | Ok _ => mret tt
  | Err e => throw (EWrap "failed to delete log directory" e)
  end.

End files.
End Files.

(** ** What the files hold *)

Section files.
Context {C : Type} `{KubeAPI C} `{PodLogs C} (cfg : FileConfig).
Import Files.

(** A disk on which no call fails. *)
Definition healthy_disk (st : Logs C Disk) : Prop := dk_faults (lg_store st) = [].

Definition files (st : Logs C Disk) : gmap string bytes := dk_files (lg_store st).

(** The state with other files. *)
Definition with_files (f : gmap string bytes) (st : Logs C Disk) : Logs C Disk :=
  mkLogs (lg_kube st) (mkDisk f []) (lg_fetching st).

Lemma write_some_healthy path old data st : healthy_disk st → files st !! path = Some old →
  try (with_store (write_some path data)) st =
    (Ok (Ok tt), with_files (<[path := old ++ data]> (files st)) st).
Proof.
  destruct st as [c [f faults] l]. unfold healthy_disk, files. simpl. intros -> Ho.
  unfold write_some. case_bool_decide as Hd.
  - subst data. rewrite app_nil_r, insert_id by done. done.
  - unfold try, with_store, Write, with_files, mbind, M_bind, disk_call, modify. simpl.
    unfold set_files. simpl. by rewrite Ho.
Qed.

(** On a healthy disk a stream that ends normally becomes the file. *)
Lemma copy_stream_healthy path s log st : healthy_disk st → files st !! path = Some [] →
  stream_content s = (log, None) →
  copy_stream path s st = (Ok (Ok tt, true), with_files (<[path := log]> (files st)) st).
Proof.
  intros Hh Ho Hs. unfold copy_stream. rewrite Hs. unfold mbind at 1, M_bind at 1.
  rewrite (write_some_healthy path [] _ st Hh Ho). cbn [app].
  unfold mbind, M_bind. rewrite (write_some_healthy path (take (passed_on log) log)).
  - unfold mret, M_ret, with_files, files. simpl. by rewrite insert_insert_eq, take_drop.
  - done.
  - unfold with_files, files. simpl. apply lookup_insert_eq.
Qed.

Lemma open_file_first n pod container s (st : Logs C Disk) c1 : n ≠ 0 →
  GetLogs_Stream (p_Namespace pod) (p_Name pod) container None (lg_kube st) = (Ok s, c1) →
  open_stream n pod container st =
    (Ok (OpenedStream s), mkLogs c1 (lg_store st) (lg_fetching st)).
Proof.
  intros Hn Hs. destruct n as [|n]; [done|]. simpl.
  unfold mbind, M_bind, try, with_kube. by rewrite Hs.
Qed.

Lemma UploadLogs_file run pod c cs s log st c1 :
  healthy_disk st → sp_Containers (p_Spec pod) = c :: cs →
  GetLogs_Stream (p_Namespace pod) (p_Name pod) (c_Name c) None (lg_kube st) = (Ok s, c1) →
  stream_content s = (log, None) →
  Files.UploadLogs cfg run pod st =
    (Ok tt, mkLogs (RemoveFinalizer (p_Name pod) (p_Namespace pod) "kontroler/logcollection" c1).2
              (mkDisk (<[log_name run pod := log]> (files st)) []) (lg_fetching st)).
Proof.
  intros Hh Hc Hs Hlog.
  destruct st as [k [f faults] l]. unfold healthy_disk in Hh. simpl in Hh, Hs. subst faults.
  set (n := Z.to_nat (if fileRetryCount cfg <=b 0 then 3%Z else fileRetryCount cfg)).
  assert (n ≠ 0) as Hn by (unfold n; case_bool_decide; lia).
  unfold Files.UploadLogs, uploadLogsWithGetter. fold n.
  unfold mbind, M_bind, try, with_store, MkdirAll, Create, mbind, M_bind, disk_call, modify, set_files.
  simpl. rewrite Hc.
  pose proof (open_file_first n pod (c_Name c) s
    (mkLogs k (mkDisk (<[log_name run pod := []]> f) []) l) c1 Hn Hs) as Ho.
  rewrite Ho. cbn [lg_store lg_fetching].
  rewrite (copy_stream_healthy _ s log) by (done || apply lookup_insert_eq).
  unfold with_files, files. simpl. rewrite insert_insert_eq. unfold with_kube. simpl.
  by destruct (RemoveFinalizer _ _ _ c1).
Qed.

Lemma DeleteLogs_file run st : healthy_disk st →
  Files.DeleteLogs run st =
    (Ok tt, with_files (without_run run (files st)) st).
Proof.
  destruct st as [c [f faults] l]. unfold healthy_disk. simpl. intros ->.
  unfold Files.DeleteLogs, mbind, M_bind, try, with_store, RemoveAll, disk_call. simpl. done.
Qed.

End files.
