(* ===== verification/LogCollection.v ===== *)
(** * Collecting logs (internal/workers/workers.go)

    What the worker does with a log store: [performLogCollection], over the
    interface [LogStore].  The laws of the interface are what both stores
    promise; the theorems about the worker are proved from the laws alone. *)

From S2P Require Import Prelude Api Kube KubeExample Allocator Queue Store SqliteDag DagManager Worker LogStore S3Store S3Spec S3Example FileStore.
Local Open Scope kontroler_scope.

(** ** The worker *)

Module Collect.
Section collect.
Context {S L : Type} `{DagManager S} `{LogStore L}.

#[local] Abbreviation W := (M (S * L)).

Definition db_call {A} (m : M S A) : W (result A) := λ w,
  let '(r, s) := m w.1 in (Ok r, (s, w.2)).
Definition log_call {A} (m : M L A) : W (result A) := λ w,
  let '(r, l) := m w.2 in (Ok r, (w.1, l)).

Definition cleanupLogsForDeletedDagrun (dagRunId : Z) : W unit :=
  log_call (DeleteLogs dagRunId) ≫= λ _, mret tt.

Definition uploadLogsAndCleanup (dagRunId : Z) (pod : Pod) : W unit :=
  log_call (UploadLogs dagRunId pod) ≫= λ _,
  exists_ ← db_call (db_DagrunExists dagRunId);
  match exists_ with
  | Err _ => mret tt
  | Ok true => mret tt
  | Ok false => cleanupLogsForDeletedDagrun dagRunId
  end.

Definition isAlreadyFetching (dagRunId : Z) (pod : Pod) : W bool :=
  r ← log_call (IsFetching dagRunId pod);
  match r with Ok b => mret b | Err e => throw e end.

(** [UnlistFetching] is deferred. *)
Definition performLogCollection (pod : Pod) : W unit :=
  match getDagRunID pod with
  | Err _ => mret tt
  | Ok dagRunId =>
      fetching ← isAlreadyFetching dagRunId pod;
      if fetching : bool then mret tt
      else
        m ← log_call (MarkAsFetching dagRunId pod);
        match m with
        | Err _ => mret tt
        | Ok _ =>
            uploadLogsAndCleanup dagRunId pod ≫= λ _,
            log_call (UnlistFetching dagRunId pod) ≫= λ _, mret tt
        end
  end.

End collect.
End Collect.

(** ** What a log store promises *)

Class LogStoreLaws (C B : Type) `{KubeAPI C} `{PodLogs C} `{!LogStore (Logs C B)} := {
  ls_healthy : B → Prop;
  (** The logs by their name. *)
  ls_logs : B → gmap string bytes;
  (** The limit under which streams are opened, and the longest log. *)
  ls_timeout : option Z;
  ls_limit : Z;
  fetching_law run pod (st : Logs C B) : IsFetching run pod st = is_fetching run pod st;
  mark_law run pod (st : Logs C B) : MarkAsFetching run pod st = mark_as_fetching run pod st;
  unlist_law run pod (st : Logs C B) : UnlistFetching run pod st = unlist_fetching run pod st;
  upload_law run pod c cs s log (st : Logs C B) c1 :
    ls_healthy (lg_store st) → sp_Containers (p_Spec pod) = c :: cs →
    GetLogs_Stream (p_Namespace pod) (p_Name pod) (c_Name c) ls_timeout (lg_kube st) = (Ok s, c1) →
    stream_content s = (log, None) → log ≠ [] → (Z.of_nat (length log) <= ls_limit)%Z →
    ∃ b, UploadLogs run pod st =
           (Ok tt, mkLogs (remove_log_finalizer pod c1).2 b (lg_fetching st)) ∧
      ls_healthy b ∧ ls_logs b = <[log_name run pod := log]> (ls_logs (lg_store st));
  clear_law run (st : Logs C B) :
    ls_healthy (lg_store st) →
    ∃ b, DeleteLogs run st = (Ok tt, mkLogs (lg_kube st) b (lg_fetching st)) ∧
      ls_healthy b ∧ ls_logs b = without_run run (ls_logs (lg_store st))
}.

(** *** The two stores *)

(** [NewLogStore] leaves the configuration at its defaults. *)
Definition default_config : S3Config := mkS3Config 0 0 0.

#[global] Instance S3_store {C B} `{KubeAPI C} `{PodLogs C} `{S3Laws B} : LogStore (Logs C B) := {
  IsFetching := is_fetching;
  MarkAsFetching := mark_as_fetching;
  UnlistFetching := unlist_fetching;
  UploadLogs := S3.UploadLogs default_config;
  DeleteLogs run := λ st, S3.DeleteLogs (s3_pages (Itoa run +:+ "/") (lg_store st)) run st
}.

#[global] Instance File_store {C} `{KubeAPI C} `{PodLogs C} : LogStore (Logs C Disk) := {
  IsFetching := is_fetching;
  MarkAsFetching := mark_as_fetching;
  UnlistFetching := unlist_fetching;
  UploadLogs := Files.UploadLogs (mkFileConfig 0);
  DeleteLogs := Files.DeleteLogs
}.

#[global] Program Instance S3_store_laws {C B} `{KubeAPI C} `{PodLogs C} `{S3Laws B} : LogStoreLaws C B := {
  ls_healthy := s3_healthy;
  ls_logs b := bk_objects (s3_view b);
  ls_timeout := Some defaultStreamOpenTimeout;
  ls_limit := s3_max_parts * s3_min_part
}.
Next Obligation. done. Qed.
Next Obligation. done. Qed.
Next Obligation. done. Qed.
Next Obligation.
  intros C B Hk Hl Hc Hlaws run pod c cs s log st c1 Hh Hcs Hs Hlog Hne Hmax.
  pose proof (transfer_spec default_config (log_name run pod) s log
    (mkLogs c1 (lg_store st) (lg_fetching st)) ltac:(done) Hlog Hmax) as Ht.
  unfold wp in Ht. destruct (S3.transfer default_config _ s _) as [r st2] eqn:Et. simpl in Ht.
  destruct Ht as (ret & cleanup & -> & Hret & Ho & Hgood).
  destruct (Hgood Hh ltac:(done)) as (-> & Hh2 & _). simpl in Hret. subst cleanup.
  destruct (UploadLogs_transfer default_config run pod c cs s st c1 _ _ st2 ltac:(done) Hcs Hs Et)
    as (Hr & Hst & Hf & Hkube).
  exists (lg_store st2). simpl. destruct (S3.UploadLogs default_config run pod st) as [r [k b l]].
  simpl in *. subst. split; [done|]. split; [done|].
  unfold bucket in Ho. rewrite Ho. by apply stored_nonempty.
Qed.
Next Obligation.
  intros C B Hk Hl Hc Hlaws run st Hh.
  destruct (DeleteLogs_spec run _ st Hh (le_n _)) as (b & Hd & Hb & Hv).
  exists b. split; [exact Hd|]. split; [done|]. by rewrite Hv.
Qed.

#[global] Program Instance File_store_laws {C} `{KubeAPI C} `{PodLogs C} : LogStoreLaws C Disk := {
  ls_healthy b := dk_faults b = [];
  ls_logs := dk_files;
  ls_timeout := None;
  ls_limit := s3_max_parts * s3_min_part
}.
Next Obligation. done. Qed.
Next Obligation. done. Qed.
Next Obligation. done. Qed.
Next Obligation.
  intros C Hk Hl run pod c cs s log st c1 Hh Hcs Hs Hlog _ _.
  eexists. split; [exact (UploadLogs_file (mkFileConfig 0) run pod c cs s log st c1 Hh Hcs Hs Hlog)|].
  done.
Qed.
Next Obligation.
  intros C Hk Hl run st Hh. eexists. split; [by apply DeleteLogs_file|]. done.
Qed.

(** ** One collection *)

Section one.
Context {S C B : Type} `{DagManager S} `{LogStoreLaws C B}.
Import Collect.


End one.

(** ** Many collections at once *)

(** Every event of a pod whose containers have started begins a collection; the
    goroutines interleave at the operations of the store. *)
Module Concurrent.

Inductive Stage := Started | Checked | Uploading | Ended.

Record Job := mkJob { jb_run : Z; jb_pod : Pod; jb_stage : Stage }.

Definition jb_key (j : Job) : string := fetch_key (jb_run j) (jb_pod j).

(** The stage after an operation that answers whether to go on. *)
Definition next (j : Job) (go_on : bool) (stage : Stage) : Job :=
  mkJob (jb_run j) (jb_pod j) (if go_on then stage else Ended).

Section system.
Context {C B : Type}.

Record System := mkSystem { sy_logs : Logs C B; sy_jobs : list Job }.

Inductive step : System → System → Prop :=
| step_start s l1 l2 run pod :
    step (mkSystem s (l1 ++ l2)) (mkSystem s (l1 ++ mkJob run pod Started :: l2))
| step_check s s' l1 l2 j b :
    jb_stage j = Started → is_fetching (jb_run j) (jb_pod j) s = (Ok b, s') →
    step (mkSystem s (l1 ++ j :: l2)) (mkSystem s' (l1 ++ next j (negb b) Checked :: l2))
| step_mark s s' l1 l2 j r :
    jb_stage j = Checked → mark_as_fetching (jb_run j) (jb_pod j) s = (r, s') →
    step (mkSystem s (l1 ++ j :: l2)) (mkSystem s' (l1 ++ next j (is_ok r) Uploading :: l2))
| step_unlist s s' l1 l2 j r :
    jb_stage j = Uploading → unlist_fetching (jb_run j) (jb_pod j) s = (r, s') →
    step (mkSystem s (l1 ++ j :: l2)) (mkSystem s' (l1 ++ next j false Uploading :: l2))
| step_upload c b c' b' f jobs :
    step (mkSystem (mkLogs c b f) jobs) (mkSystem (mkLogs c' b' f) jobs).

Definition uploading (j : Job) : bool :=
  match jb_stage j with Uploading => true | _ => false end.

Definition uploading_keys (jobs : list Job) : list string := jb_key <$> where_ uploading jobs.

Lemma not_uploading j : jb_stage j ≠ Uploading → uploading j = false.
Proof. unfold uploading. by destruct (jb_stage j). Qed.

Definition fetching_inv (s : System) : Prop :=
  NoDup (uploading_keys (sy_jobs s)) ∧
  ∀ key, key ∈ uploading_keys (sy_jobs s) ↔ key ∈ lg_fetching (sy_logs s).

Lemma uploading_keys_app l1 l2 : uploading_keys (l1 ++ l2) = uploading_keys l1 ++ uploading_keys l2.
Proof. unfold uploading_keys, where_. by rewrite List.filter_app, fmap_app. Qed.

Lemma uploading_keys_cons j l :
  uploading_keys (j :: l) = (if uploading j then [jb_key j] else []) ++ uploading_keys l.
Proof. unfold uploading_keys. rewrite where_cons. by destruct (uploading j). Qed.

Lemma step_inv s s' : step s s' → fetching_inv s → fetching_inv s'.
Proof.
  intros Hs [Hnd Hin].
  destruct Hs as [s l1 l2 run pod|s s' l1 l2 j b Hj Hc|s s' l1 l2 j r Hj Hm|s s' l1 l2 j r Hj Hu|];
    unfold fetching_inv in *; simpl in *; [| | | |done].
  - by rewrite !uploading_keys_app, uploading_keys_cons in *.
  - unfold is_fetching, gets in Hc. simplify_eq. rewrite uploading_keys_app, uploading_keys_cons in *.
    assert (∀ b, uploading (next j b Checked) = false) as -> by by intros [].
    by rewrite (not_uploading j) in * by congruence.
  - unfold mark_as_fetching in Hm. rewrite uploading_keys_app, uploading_keys_cons in *.
    rewrite (not_uploading j) in * by congruence. simpl in *. fold (jb_key j) in Hm. case_bool_decide as Hk; simplify_eq; simpl; [done|].
    unfold jb_key at 1 3. simpl. fold (jb_key j). split.
    + apply NoDup_app in Hnd as (Hn1 & Hd & Hn2). rewrite <- Hin, elem_of_app in Hk.
      apply NoDup_app. split; [done|]. split.
      * intros x Hx [->|Hx']%elem_of_cons; [tauto|]. by eapply Hd.
      * constructor; tauto.
    + intros key. rewrite elem_of_app, elem_of_cons, elem_of_union, elem_of_singleton, <- Hin, elem_of_app.
      tauto.
  - unfold unlist_fetching, modify in Hu. simplify_eq. simpl.
    rewrite uploading_keys_app, uploading_keys_cons in *.
    assert (uploading j = true) as Eu by (unfold uploading; by rewrite Hj).
    rewrite Eu in *. simpl in *.
    fold (jb_key j). apply NoDup_app in Hnd as (Hn1 & Hd & [Hj2 Hn2]%NoDup_cons).
    assert (jb_key j ∉ uploading_keys l1) as Hj1.
    { intros Hx. apply (Hd _ Hx). left. }
    split.
    + apply NoDup_app. split; [done|]. split; [|done]. intros x Hx Hx'. apply (Hd x Hx). by right.
    + intros key. specialize (Hin key). rewrite elem_of_app, elem_of_cons in Hin.
      rewrite elem_of_app, elem_of_difference, elem_of_singleton, <- Hin.
      split; [|tauto]. intros Hx. split; [tauto|]. intros ->. tauto.
Qed.

(** C33: The log of a pod is uploaded by one goroutine at a time: in every state
    that the goroutines reach, however they interleave, no two of those that
    upload work on the same pod, and the pods marked as being fetched are those
    that are being uploaded. *)
Theorem one_upload_per_pod s0 s :
  sy_jobs s0 = [] → lg_fetching (sy_logs s0) = ∅ → rtc step s0 s →
  (∀ i1 i2 j1 j2, sy_jobs s !! i1 = Some j1 → sy_jobs s !! i2 = Some j2 →
     jb_stage j1 = Uploading → jb_stage j2 = Uploading → jb_key j1 = jb_key j2 → i1 = i2) ∧
  (∀ key, key ∈ lg_fetching (sy_logs s) ↔
     ∃ j, j ∈ sy_jobs s ∧ jb_stage j = Uploading ∧ jb_key j = key).
Proof.
  intros Hj Hf Hr.
  assert (fetching_inv s) as [Hnd Hin].
  { assert (fetching_inv s0) as H0.
    { unfold fetching_inv. rewrite Hj, Hf. split; [constructor|]. set_solver. }
    clear Hj Hf. induction Hr as [|s1 s2 s3 Hs _ IH]; [done|]. by apply IH, (step_inv s1). }
  split.
  - clear Hin. intros i1 i2 j1 j2 H1 H2 Hs1 Hs2 Hk. revert i1 i2 H1 H2 Hnd.
    induction (sy_jobs s) as [|j l IH]; intros i1 i2 H1 H2 Hnd; [done|].
    rewrite uploading_keys_cons in Hnd. apply NoDup_app in Hnd as (_ & Hd & Hnd).
    assert (∀ i x, l !! i = Some x → jb_stage x = Uploading → jb_key x ∈ uploading_keys l) as Hel.
    { intros i x Hx Hs. apply list_elem_of_fmap_2, elem_of_where. unfold uploading.
      rewrite Hs. split; [done|]. by eapply list_elem_of_lookup_2. }
    destruct i1 as [|i1], i2 as [|i2]; simpl in H1, H2; simplify_eq; [done| | |].
    + exfalso. apply (Hd (jb_key j1)); [unfold uploading; rewrite Hs1; left|]. rewrite Hk. eauto.
    + exfalso. apply (Hd (jb_key j2)); [unfold uploading; rewrite Hs2; left|]. rewrite <- Hk. eauto.
    + f_equal. by apply IH.
  - intros key. rewrite <- Hin. unfold uploading_keys. rewrite list_elem_of_fmap. split.
    + intros (j & -> & [Hu Hj']%elem_of_where). exists j. split_and!; try done.
      unfold uploading in Hu. by destruct (jb_stage j).
    + intros (j & Hj' & Hu & <-). exists j. split; [done|]. apply elem_of_where.
      unfold uploading. by rewrite Hu.
Qed.

End system.
End Concurrent.

(** ** Witnesses *)

(** A run 7, and the file store on an empty disk. *)
Definition collect_store : Store :=
  mkStore (add_DAG_Run (λ _, mkRunRow 7 "nightly" 1 "running" 0 0 0 0 None) emptyTables) [] 0 0 0.

Definition collect_files : Logs Cluster Disk := mkLogs empty_cluster (mkDisk ∅ []) ∅.

Definition collect_pod : Pod :=
  mkPod "uid-7" "apple-dog-desk" "default" ∅ {[ kontrolerDagRunID := "7" ]}
    ["kontroler/logcollection"]
    (mkPodSpec "Never" [] [] [logged_container] [] None ∅ [] None "" None None) "Succeeded" None
    [] [].

#[local] Instance collect_manager : DagManager Store := SqliteManager demo_env.
#[local] Instance collect_logs : PodLogs Cluster := demo_logs [(log_text, AtEOF)].


(** One goroutine uploads the log, another has just found that out. *)
Definition job (stage : Concurrent.Stage) : Concurrent.Job := Concurrent.mkJob 7 collect_pod stage.

Definition busy : Concurrent.System (C := Cluster) (B := Disk) :=
  Concurrent.mkSystem (mark_as_fetching 7 collect_pod collect_files).2
    [job Concurrent.Ended; job Concurrent.Uploading].

Lemma busy_reachable : rtc Concurrent.step (Concurrent.mkSystem collect_files []) busy.
Proof.
  eapply rtc_l; [exact (Concurrent.step_start collect_files [] [] 7 collect_pod)|].
  eapply rtc_l.
  { by apply (Concurrent.step_check collect_files collect_files [] [] (job Concurrent.Started) false). }
  eapply rtc_l.
  { by apply (Concurrent.step_mark collect_files (mark_as_fetching 7 collect_pod collect_files).2
      [] [] (job Concurrent.Checked) (Ok tt)). }
  eapply rtc_l; [exact (Concurrent.step_start _ [] [job Concurrent.Uploading] 7 collect_pod)|].
  apply rtc_once.
  by apply (Concurrent.step_check _ _ [] [job Concurrent.Uploading] (job Concurrent.Started) true).
Qed.

Lemma one_upload_per_pod_witness :
  (∀ i1 i2 j1 j2, Concurrent.sy_jobs busy !! i1 = Some j1 → Concurrent.sy_jobs busy !! i2 = Some j2 →
     Concurrent.jb_stage j1 = Concurrent.Uploading → Concurrent.jb_stage j2 = Concurrent.Uploading →
     Concurrent.jb_key j1 = Concurrent.jb_key j2 → i1 = i2) ∧
  (∀ key, key ∈ lg_fetching (Concurrent.sy_logs busy) ↔
     ∃ j, j ∈ Concurrent.sy_jobs busy ∧ Concurrent.jb_stage j = Concurrent.Uploading ∧
          Concurrent.jb_key j = key).
Proof.
  exact (Concurrent.one_upload_per_pod (Concurrent.mkSystem collect_files []) busy
           eq_refl eq_refl busy_reachable).
Defined.
