(* ===== verification/EventHandlers.v ===== *)
(** * From the watch to the queues (internal/workers/podEventHandler.go, eventHandler.go)

    The informers on pods and on Kubernetes events call these handlers, which
    put pod events into the queues of the workers: the queue of a pod is chosen
    by a hash of its name and namespace, so one worker sees its events in order. *)

From S2P Require Import Prelude Api Kube KubeExample Queue MemoryQueue Allocator.
Local Open Scope kontroler_scope.

(** ** What the informers hand over *)

(** A Kubernetes event, with the object it is about. *)
Record KubeEvent := mkKubeEvent {
  ke_Type : string;
  ke_Kind : string;
  ke_Name : string;
  ke_Namespace : string
}.

(** The dynamic type of an [interface{}]. *)
Inductive Obj := PodObj (pod : Pod) | EventObj (event : KubeEvent) | OtherObj.

(** ** State *)

(** The API client, the queues and the clock. *)
Record Watch (C Q : Type) := mkWatch {
  wa_kube : C;
  wa_queues : list Q;
  wa_now : Z
}.
Arguments mkWatch {C Q}.
Arguments wa_kube {C Q}.
Arguments wa_queues {C Q}.
Arguments wa_now {C Q}.

Module Events.
Section handlers.
Context {C Q : Type} `{KubeAPI C} `{Queue Q (option (PodEvent Pod))}.

(** [xxhash] with the seed 0xABC, on what is written to it. *)
Context (Sum64 : string → Z).

#[local] Abbreviation W := (M (Watch C Q)).

Definition watch_kube {A} (m : M C A) : W A := λ w,
  let '(r, c) := m (wa_kube w) in (r, mkWatch c (wa_queues w) (wa_now w)).

(** [queues[i].Push]. *)
Definition push_at (i : nat) (ev : PodEvent Pod) : W unit := λ w,
  match wa_queues w !! i with
  | None => (Err (EErrorf "runtime error: index out of range"), w)
  | Some q => let '(r, q') := Push (Some ev) q in
              (r, mkWatch (wa_kube w) (<[i := q']> (wa_queues w)) (wa_now w))
  end.

(** [Sum64() % len(queues)]: no queues is a division by zero. *)
Definition getQueueIndex (name namespace : string) : W nat := λ w,
  match wa_queues w with
  | [] => (Err (EErrorf "runtime error: integer divide by zero"), w)
  | qs => (Ok (Z.to_nat (Sum64 (name +:+ namespace) mod Z.of_nat (length qs))), w)
  end.

(** The event of a pod goes into its queue; a failed push is logged. *)
Definition enqueue (name namespace event : string) (pod : Pod) (eventTime : Z) : W unit :=
  i ← getQueueIndex name namespace;
  try (push_at i (mkPodEvent (Some pod) event (Some eventTime))) ≫= λ _, mret tt.

(** *** podEventHandler *)

Definition pod_HandleAdd (obj : Obj) : W unit :=
  eventTime ← gets wa_now;
  match obj with
  | PodObj pod => enqueue (p_Name pod) (p_Namespace pod) "add" pod eventTime
  | _ => mret tt
  end.

Definition pod_HandleUpdate (old obj : Obj) : W unit :=
  eventTime ← gets wa_now;
  match old, obj with
  | PodObj oldPod, PodObj pod =>
      if p_Phase oldPod =b p_Phase pod then mret tt
      else enqueue (p_Name pod) (p_Namespace pod) "update" pod eventTime
  | _, _ => mret tt
  end.

Definition pod_HandleDelete (obj : Obj) : W unit := mret tt.

(** *** eventHandler *)

(** The pod the event is about, if it is one of Kontroler's. *)
Definition hasRequiredLabels (e : KubeEvent) : W (option Pod) :=
  if negb (ke_Kind e =b "Pod") then mret None
  else
    r ← try (watch_kube (pods_Get (ke_Namespace e) (ke_Name e)));
    match r with
    | Err _ => mret None
    | Ok pod =>
        mret (if (p_Labels pod !! labelManagedBy =b Some "kontroler")
                 && bool_decide (is_Some (p_Labels pod !! labelKontrolerID))
              then Some pod else None)
    end.

Definition event_HandleAdd (obj : Obj) : W unit :=
  match obj with
  | EventObj event =>
      o ← hasRequiredLabels event;
      match o with
      | Some pod =>
          if ke_Type event =b "Warning" then
            eventTime ← gets wa_now;
            enqueue (ke_Name event) (ke_Namespace event) "update" pod eventTime
          else mret tt
      | None => mret tt
      end
  | _ => mret tt
  end.

Definition event_HandleUpdate (old obj : Obj) : W unit :=
  match obj with
  | EventObj event =>
      if negb (ke_Type event =b "Warning") then mret tt
      else
        o ← hasRequiredLabels event;
        match o with
        | Some pod =>
            eventTime ← gets wa_now;
            enqueue (ke_Name event) (ke_Namespace event) "update" pod eventTime
        | None => mret tt
        end
  | _ => mret tt
  end.

(** ** Notices *)

(** A call of an informer; the clock may advance before it. *)
Inductive Notice :=
| PodAdded (obj : Obj) | PodUpdated (old obj : Obj) | PodDeleted (obj : Obj)
| EventAdded (obj : Obj) | EventUpdated (old obj : Obj) | EventDeleted (obj : Obj).

Definition handle (n : Notice) : W unit :=
  match n with
  | PodAdded obj => pod_HandleAdd obj
  | PodUpdated old obj => pod_HandleUpdate old obj
  | PodDeleted obj => pod_HandleDelete obj
  | EventAdded obj => event_HandleAdd obj
  | EventUpdated old obj => event_HandleUpdate old obj
  | EventDeleted _ => mret tt
  end.

Definition set_now (now : Z) (w : Watch C Q) : Watch C Q :=
  mkWatch (wa_kube w) (wa_queues w) now.

(** The notices in order, each with its time. *)
Definition handle_all (l : list (Z * Notice)) : W unit :=
  foreach (λ n, modify (set_now n.1) ≫= λ _, handle n.2) l.

(** ** The specification *)

(** What the notice of a pod is worth: the event that is enqueued. *)
Definition pod_event (now : Z) (n : Notice) : option (PodEvent Pod) :=
  match n with
  | PodAdded (PodObj pod) => Some (mkPodEvent (Some pod) "add" (Some now))
  | PodUpdated (PodObj old) (PodObj pod) =>
      if p_Phase old =b p_Phase pod then None
      else Some (mkPodEvent (Some pod) "update" (Some now))
  | _ => None
  end.

(** A notice of the informer on pods. *)
Definition of_pods (n : Notice) : bool :=
  match n with PodAdded _ | PodUpdated _ _ | PodDeleted _ => true | _ => false end.

(** The queue of an event, of [k] queues. *)
Definition queue_of (k : nat) (ev : PodEvent Pod) : nat :=
  match pe_Pod ev with
  | Some pod => Z.to_nat (Sum64 (p_Name pod +:+ p_Namespace pod) mod Z.of_nat k)
  | None => 0
  end.

Definition events_of (l : list (Z * Notice)) : list (PodEvent Pod) :=
  omap (λ n, pod_event n.1 n.2) l.

(** The events of a queue, in their order. *)
Definition for_queue (k i : nat) (l : list (PodEvent Pod)) : list (option (PodEvent Pod)) :=
  Some <$> where_ (λ ev, queue_of k ev =b i) l.

End handlers.
End Events.

(** ** Lemmas *)

Section lemmas.
Context {C Q : Type} `{KubeAPI C} `{QueueLaws Q (option (PodEvent Pod))} (Sum64 : string → Z).
Import Events.

#[local] Abbreviation W := (M (Watch C Q)).

Lemma queue_of_bound k ev : k ≠ 0 → queue_of Sum64 k ev < k.
Proof.
  intros Hk. unfold queue_of. destruct (pe_Pod ev) as [pod|]; [|lia].
  pose proof (Z.mod_pos_bound (Sum64 (p_Name pod +:+ p_Namespace pod)) (Z.of_nat k) ltac:(lia)). lia.
Qed.

(** The queues can take the events that are still to come. *)
Definition ready (qs : list Q) (l : list (PodEvent Pod)) : Prop :=
  ∀ i q, qs !! i = Some q →
    qu_inv q ∧ Forall qu_valid (for_queue Sum64 (length qs) i l) ∧
    qu_room q (length (for_queue Sum64 (length qs) i l)).

(** Each queue has got the events that are its own. *)
Definition delivered (qs qs' : list Q) (l : list (PodEvent Pod)) : Prop :=
  length qs' = length qs ∧
  ∀ i q q', qs !! i = Some q → qs' !! i = Some q' →
    contents q' = contents q ++ for_queue Sum64 (length qs) i l.

Lemma enqueue_spec event pod now l (w : Watch C Q) :
  let ev := mkPodEvent (Some pod) event (Some now) in
  wa_queues w ≠ [] → ready (wa_queues w) (ev :: l) →
  wp (enqueue Sum64 (p_Name pod) (p_Namespace pod) event pod now) w (λ r w',
    r = Ok tt ∧ wa_kube w' = wa_kube w ∧ delivered (wa_queues w) (wa_queues w') [ev] ∧
    ready (wa_queues w') l).
Proof.
  intros ev Hne Hready. destruct w as [c qs t]. simpl in *.
  assert (queue_of Sum64 (length qs) ev < length qs) as Hb.
  { apply queue_of_bound. by destruct qs. }
  destruct (lookup_lt_is_Some_2 _ _ Hb) as [q Hq].
  assert (getQueueIndex Sum64 (p_Name pod) (p_Namespace pod) (mkWatch c qs t) =
    (Ok (queue_of Sum64 (length qs) ev), mkWatch c qs t)) as Hi.
  { unfold getQueueIndex. simpl. by destruct qs. }
  destruct (Hready _ _ Hq) as (Hinv & Hval & Hroom). unfold for_queue in Hval, Hroom.
  rewrite where_cons, bool_decide_eq_true_2 in Hval, Hroom by done. simpl in Hval, Hroom.
  apply Forall_cons in Hval as [Hv1 Hv2].
  pose proof (push_law q [Some ev] _ Hinv ltac:(by constructor) Hroom) as Hp.
  unfold wp, enqueue, mbind, M_bind. rewrite Hi. unfold try, push_at. simpl. rewrite Hq.
  unfold Push. unfold wp in Hp. fold ev. destruct (PushBatch [Some ev] q) as [r q']. simpl in *.
  destruct Hp as (-> & Hinv' & Hc & Hroom'). split; [done|]. split; [done|]. split.
  - split; [by rewrite length_insert|]. intros i q1 q2 H1 H2. unfold for_queue.
    rewrite where_cons. destruct (decide (i = queue_of Sum64 (length qs) ev)) as [->|Hni].
    + rewrite list_lookup_insert_eq in H2 by done. simplify_eq.
      by rewrite bool_decide_eq_true_2.
    + rewrite list_lookup_insert_ne in H2 by done. simplify_eq.
      rewrite bool_decide_eq_false_2 by done. simpl. by rewrite app_nil_r.
  - intros i q1 H1. rewrite length_insert.
    destruct (decide (i = queue_of Sum64 (length qs) ev)) as [->|Hni].
    + rewrite list_lookup_insert_eq in H1 by done. simplify_eq. done.
    + rewrite list_lookup_insert_ne in H1 by done. destruct (Hready _ _ H1) as (? & Hval & Hr).
      unfold for_queue in *. rewrite where_cons, bool_decide_eq_false_2 in Hval, Hr by done. done.
Qed.

Lemma delivered_refl qs : delivered qs qs [].
Proof. split; [done|]. intros i q q' -> [= ->]. unfold for_queue. simpl. by rewrite app_nil_r. Qed.

Lemma for_queue_app k i l1 l2 :
  for_queue Sum64 k i (l1 ++ l2) = for_queue Sum64 k i l1 ++ for_queue Sum64 k i l2.
Proof. unfold for_queue, where_. by rewrite List.filter_app, fmap_app. Qed.

Lemma delivered_trans qs1 qs2 qs3 l1 l2 :
  delivered qs1 qs2 l1 → delivered qs2 qs3 l2 → delivered qs1 qs3 (l1 ++ l2).
Proof.
  intros [Hl1 H1] [Hl2 H2]. split; [congruence|]. intros i q q' Hq Hq'.
  assert (is_Some (qs2 !! i)) as [q2 Hq2].
  { apply lookup_lt_is_Some. rewrite Hl1. by eapply lookup_lt_Some. }
  rewrite (H2 _ _ _ Hq2 Hq'), (H1 _ _ _ Hq Hq2), for_queue_app, Hl1. by rewrite <- app_assoc.
Qed.

(** A notice of the pod informer delivers its event and nothing else. *)
Lemma handle_spec now n l (w : Watch C Q) :
  of_pods n = true → wa_queues w ≠ [] → wa_now w = now →
  ready (wa_queues w) (from_option (λ ev, ev :: l) l (pod_event now n)) →
  wp (handle Sum64 n) w (λ r w', r = Ok tt ∧ wa_kube w' = wa_kube w ∧
    delivered (wa_queues w) (wa_queues w') (option_list (pod_event now n)) ∧
    ready (wa_queues w') l).
Proof.
  intros Hn Hne Hnow Hr.
  assert (pod_event now n = None → wp (mret tt) w (λ r w', r = Ok tt ∧ wa_kube w' = wa_kube w ∧
    delivered (wa_queues w) (wa_queues w') (option_list (pod_event now n)) ∧
    ready (wa_queues w') l)) as Hnone.
  { intros E. rewrite E in Hr |- *. apply wp_ret. split_and!; try done. apply delivered_refl. }
  destruct n as [obj|old obj|obj|obj|old obj|obj]; try done; simpl in *.
  - apply wp_bind, wp_gets. rewrite Hnow. destruct obj as [pod| |]; try by apply Hnone.
    by apply enqueue_spec.
  - apply wp_bind, wp_gets. rewrite Hnow.
    destruct old as [old| |]; try by apply Hnone. destruct obj as [pod| |]; try by apply Hnone.
    case_bool_decide; [by apply Hnone|]. by apply enqueue_spec.
  - by apply Hnone.
Qed.

Lemma handle_all_spec l : ∀ (w : Watch C Q),
  Forall (λ n, of_pods n.2 = true) l → wa_queues w ≠ [] → ready (wa_queues w) (events_of l) →
  wp (handle_all Sum64 l) w (λ r w', r = Ok tt ∧ wa_kube w' = wa_kube w ∧
    delivered (wa_queues w) (wa_queues w') (events_of l)).
Proof.
  induction l as [|[now n] l IH]; intros w Hp Hne Hr.
  { apply wp_ret. split_and!; try done. apply delivered_refl. }
  apply Forall_cons in Hp as [Hn Hp]. unfold handle_all. cbn [foreach].
  apply wp_bind, wp_bind. unfold wp at 1. cbn [fst snd modify].
  eapply wp_mono; [apply (handle_spec now n (events_of l)); [done|done|done|]|].
  { unfold events_of in Hr |- *. simpl in Hr |- *. by destruct (pod_event now n). }
  intros r w1 (-> & Hk & Hd & Hr1). eapply wp_mono; [apply IH|].
  - done.
  - destruct Hd as [Hl _]. intros E. rewrite E in Hl. simpl in Hl. by destruct (wa_queues w).
  - done.
  - intros r w2 (-> & Hk2 & Hd2). split; [done|]. split; [by rewrite Hk2|].
    replace (events_of ((now, n) :: l)) with (option_list (pod_event now n) ++ events_of l);
      [by eapply delivered_trans|].
    unfold events_of. simpl. by destruct (pod_event now n).
Qed.

(** C35: The events of a pod reach one worker in the order of the notices: each
    queue receives exactly the events of the pods that hash to it, in order, and
    all events of pods of one name and namespace go into the same queue, whose
    index is in range. *)
Theorem pod_events_in_order l (w : Watch C Q) :
  Forall (λ n, of_pods n.2 = true) l → wa_queues w ≠ [] → ready (wa_queues w) (events_of l) →
  let '(r, w') := handle_all Sum64 l w in
  let k := length (wa_queues w) in
  r = Ok tt ∧ length (wa_queues w') = k ∧
  (∀ i q q', wa_queues w !! i = Some q → wa_queues w' !! i = Some q' →
     contents q' = contents q ++ for_queue Sum64 k i (events_of l)) ∧
  (∀ name namespace, ∃ i, i < k ∧ ∀ ev pod, ev ∈ events_of l → pe_Pod ev = Some pod →
     p_Name pod = name → p_Namespace pod = namespace → queue_of Sum64 k ev = i).
Proof.
  intros Hp Hne Hr. pose proof (handle_all_spec l w Hp Hne Hr) as Hs. unfold wp in Hs.
  destruct (handle_all Sum64 l w) as [r w']. simpl in *. destruct Hs as (-> & _ & Hl & Hd).
  split_and!; try done. intros name namespace.
  set (ev0 := mkPodEvent (Some (mkPod "" name namespace ∅ ∅ [] (mkPodSpec "" [] [] [] [] None ∅ []
    None "" None None) "" None [] [])) "" None).
  exists (queue_of Sum64 (length (wa_queues w)) ev0). split.
  - apply queue_of_bound. by destruct (wa_queues w).
  - intros ev pod _ He <- <-. unfold queue_of. by rewrite He.
Qed.

End lemmas.

(** ** Witness *)

Import Memory.

(** Two in-memory queues, and the length of the text as its hash. *)
Definition text_length (s : string) : Z := Z.of_nat (String.length s).

Definition watch_pod (name phase : string) : Pod :=
  mkPod ("uid-" +:+ name) name "default" ∅ ∅ [] (mkPodSpec "" [] [] [] [] None ∅ [] None "" None None)
    phase None [] [].

Definition two_queues : Watch Cluster (Memory.MemoryQueue (PodEvent Pod)) :=
  mkWatch empty_cluster [Memory.NewMemoryQueue; Memory.NewMemoryQueue] 0.

Definition demo_notices : list (Z * Events.Notice) :=
  let pod name phase := PodObj (watch_pod name phase) in
  [(1%Z, Events.PodAdded (pod "lamp" "Pending")); (2%Z, Events.PodAdded (pod "table" "Pending"));
   (3%Z, Events.PodUpdated (pod "lamp" "Pending") (pod "lamp" "Running"));
   (4%Z, Events.PodUpdated (pod "lamp" "Running") (pod "lamp" "Running"));
   (5%Z, Events.PodUpdated (pod "lamp" "Running") (pod "lamp" "Succeeded"))].

Lemma two_queues_ready :
  ready text_length (wa_queues two_queues) (Events.events_of demo_notices).
Proof.
  intros i q Hq. assert (q = Memory.NewMemoryQueue) as ->.
  { destruct i as [|[|i]]; simpl in Hq; by simplify_eq. }
  split; [|by split; [apply Forall_true|]]. split; simpl; [lia|intros i' Hi'; lia|lia].
Qed.

Lemma pod_events_in_order_witness :
  let '(r, w') := Events.handle_all text_length demo_notices two_queues in
  let k := length (wa_queues two_queues) in
  r = Ok tt ∧ length (wa_queues w') = k ∧
  (∀ i q q', wa_queues two_queues !! i = Some q → wa_queues w' !! i = Some q' →
     contents q' = contents q ++ Events.for_queue text_length k i (Events.events_of demo_notices)) ∧
  (∀ name namespace, ∃ i, i < k ∧ ∀ ev pod, ev ∈ Events.events_of demo_notices →
     pe_Pod ev = Some pod → p_Name pod = name → p_Namespace pod = namespace →
     Events.queue_of text_length k ev = i).
Proof.
  apply (pod_events_in_order text_length demo_notices two_queues);
    [by repeat constructor|done|exact two_queues_ready].
Defined.
