(* ===== verification/Controllers.v ===== *)
(** * The controllers (internal/controller)

    The reconcilers of DagRun, DAG and DagTask objects and the removal of orphan
    pods, over the database interface, the log store and the API client.  A
    reconciler that returns an error is called again by the controller runtime. *)

From S2P Require Import Prelude Api Kube Store SqliteDag SqliteRun DagManager LogStore DagValidation DslValidator Worker.
Local Open Scope kontroler_scope.

(** ** Objects *)

(** A DagRun object (api/v1alpha1/dagrun_types.go). *)
Record DagRun := mkDagRun {
  dr_Name : string;
  dr_Namespace : string;
  dr_Finalizers : list string;
  dr_Deleting : bool;
  dr_Spec : DagRunSpec;
  dr_DagRunId : Z
}.

Definition set_dr_Finalizers (l : list string) (d : DagRun) : DagRun :=
  mkDagRun (dr_Name d) (dr_Namespace d) l (dr_Deleting d) (dr_Spec d) (dr_DagRunId d).
Definition set_dr_DagRunId (id : Z) (d : DagRun) : DagRun :=
  mkDagRun (dr_Name d) (dr_Namespace d) (dr_Finalizers d) (dr_Deleting d) (dr_Spec d) id.

(** A DagTask object with the metadata the controllers read. *)
Record DagTaskObject := mkDagTaskObject {
  dto_Task : DagTask;
  dto_Finalizers : list string;
  dto_Deleting : bool
}.

Definition set_dto_Finalizers (l : list string) (d : DagTaskObject) : DagTaskObject :=
  mkDagTaskObject (dto_Task d) l (dto_Deleting d).

(** A claim to be created. *)
Record NewPVC := mkNewPVC {
  np_Name : string;
  np_Namespace : string;
  np_Finalizers : list string;
  np_Spec : PVC
}.

Definition set_dag_Finalizers (l : list string) (d : DAG) : DAG :=
  mkDAG (dag_Name d) (dag_Annotations d) l (dag_Deleting d) (dag_Spec d) (dag_Status d).
Definition set_dag_Annotations (a : gmap string string) (d : DAG) : DAG :=
  mkDAG (dag_Name d) a (dag_Finalizers d) (dag_Deleting d) (dag_Spec d) (dag_Status d).
Definition set_dag_Status (st : DAGStatus) (d : DAG) : DAG :=
  mkDAG (dag_Name d) (dag_Annotations d) (dag_Finalizers d) (dag_Deleting d) (dag_Spec d) st.

(** The client of the controller runtime: an object is found by its namespace and
    name, and a patch sends the difference between two versions of it. *)
Class CtrlClient (C : Type) := {
  dagrun_Get (namespace name : string) : M C DagRun;
  dagrun_Patch (old new : DagRun) : M C DagRun;
  dagrun_PatchStatus (old new : DagRun) : M C DagRun;
  dag_Get (namespace name : string) : M C DAG;
  dag_Patch (namespace : string) (old new : DAG) : M C DAG;
  dag_PatchStatus (namespace : string) (old new : DAG) : M C DAG;
  dagtask_Get (namespace name : string) : M C DagTaskObject;
  dagtask_Patch (namespace : string) (old new : DagTaskObject) : M C DagTaskObject;
  pod_Patch (old new : Pod) : M C Pod;
  pvc_Create (pvc : NewPVC) : M C unit;
  pvc_Patch (old new : PersistentVolumeClaim) : M C PersistentVolumeClaim;
  IsAlreadyExists : GoError → bool;
  (** The pods with the labels of Kontroler's tasks, and the age of a pod in
      seconds. *)
  pods_List_managed : M C (list (Pod * Z))
}.

(** ** State *)

Record Ctl (S C L : Type) := mkCtl { ct_db : S; ct_kube : C; ct_logs : L }.
Arguments mkCtl {S C L}.
Arguments ct_db {S C L}.
Arguments ct_kube {S C L}.
Arguments ct_logs {S C L}.

(** What a reconciler is given: the Kubernetes library, and whether there is a
    log store. *)
Record CtlEnv := mkCtlEnv { ce_lib : K8sLib; ce_logStore : bool }.

Section lift.
Context {S C L : Type}.

Definition on_db {A} (m : M S A) : M (Ctl S C L) A := λ w,
  let '(r, s) := m (ct_db w) in (r, mkCtl s (ct_kube w) (ct_logs w)).
Definition on_api {A} (m : M C A) : M (Ctl S C L) A := λ w,
  let '(r, c) := m (ct_kube w) in (r, mkCtl (ct_db w) c (ct_logs w)).
Definition on_logs {A} (m : M L A) : M (Ctl S C L) A := λ w,
  let '(r, l) := m (ct_logs w) in (r, mkCtl (ct_db w) (ct_kube w) l).

End lift.

(** Calls whose errors are logged and ignored. *)
Definition ignore {S A} (m : M S A) : M S unit := try m ≫= λ _, mret tt.

Definition containsString (slice : list string) (s : string) : bool :=
  existsb (λ item, item =b s) slice.
Definition removeString (slice : list string) (s : string) : list string :=
  where_ (λ item, negb (item =b s)) slice.

(** ** DagRuns (dagrun_controller.go) *)

Module Runs.
Section reconciler.
Context {S C L : Type} `{DagManager S} `{KubeAPI C} `{CtrlClient C} `{LogStore L} (env : CtlEnv).

#[local] Abbreviation W := (M (Ctl S C L)).

Definition dagRunFinalizer : string := "kontroler.greedykomodo/dagrun.finalizer".
Definition pvc_name (run : string) : string := run +:+ "-pvc".

(** The parameters of the run that the DAG declares, with a secret for a secret
    and a value for a value. *)
Definition valid_parameter (parameters : gmap string DbParameter) (param : ParameterSpec) : bool :=
  match parameters !! ps_Name param with
  | None => false
  | Some paramDefault => if pa_IsSecret paramDefault then negb (ps_FromSecret param =b "")
                         else ps_FromSecret param =b ""
  end.

Definition parameter_map (parameters : gmap string DbParameter) (l : list ParameterSpec)
    : gmap string ParameterSpec :=
  foldl (λ m param, if valid_parameter parameters param then <[ps_Name param := param]> m else m) ∅ l.

(** The claim specification: unparsable quantities are dropped. *)
Definition ToK8sPersistentVolumeClaimSpec (p : PVC) : PVC :=
  let parse r := mkResourceRequirements (k8s_quantities (ce_lib env) (rr_Limits r))
                   (k8s_quantities (ce_lib env) (rr_Requests r)) in
  mkPVC (pvc_AccessModes p) (pvc_Selector p) (parse <$> pvc_Resources p) (pvc_StorageClassName p)
    (pvc_VolumeMode p).

Definition createPVC (dagRun : DagRun) (pvcTemplate : PVC) : W string :=
  let name := pvc_name (dr_Name dagRun) in
  r ← try (on_api (pvc_Create (mkNewPVC name (dr_Namespace dagRun)
                     ["kontroler.greedykomodo/pvc.finalizer"]
                     (ToK8sPersistentVolumeClaimSpec pvcTemplate))));
  match r with
  | Ok _ => mret name
  | Err e => if IsAlreadyExists e then mret name else throw e
  end.

(** The defaults of the task replaced by the values of the run; only the ID of
    the task is used afterwards. *)
Definition override_parameters (paramMap : gmap string ParameterSpec) (task : Task) : Task :=
  RunDb.with_Parameters
    ((λ p, match paramMap !! pa_Name p with
           | Some param => mkDbParameter (pa_Name p) (pa_IsSecret p)
                             (if pa_IsSecret p then ps_FromSecret param else ps_Value param)
           | None => p
           end) <$> t_Parameters task) task.

(** One starting task: a pending task run unless there is one. *)
Definition enqueue_task (dagName : string) (runId : Z) (paramMap : gmap string ParameterSpec)
    (task : Task) : W unit :=
  let task := override_parameters paramMap task in
  found ← on_db (db_TaskRunExists runId (t_Id task));
  if found : bool then mret tt
  else
    r ← try (on_db (db_AddPendingTaskRun runId (t_Id task)));
    match r with
    | Ok _ => mret tt
    | Err e => throw (EWrap ("failed to add pending task run for dag " +:+ dagName +:+ " task "
                             +:+ Itoa (t_Id task)) e)
    end.

Definition deletePVCByNameAndNamespace (name namespace : string) : W unit :=
  pvc ← on_api (pvc_Get namespace name);
  on_api (pvc_Patch pvc (clear_Finalizers pvc)) ≫= λ _,
  on_api (pvc_Delete namespace name).

(** The patch is taken against a copy made after the finalizer was removed. *)
Definition deletePodByNameAndNamespace (name namespace : string) : W unit :=
  pod ← on_api (pods_Get namespace name);
  let pod := set_Finalizers (removeString (p_Finalizers pod) "kontroler/logcollection") pod in
  let old := pod in
  on_api (pod_Patch old pod) ≫= λ _,
  on_api (pods_Delete namespace name).

(** The pods are deleted concurrently; here one after the other. *)
Definition handleDeletion (dagRun : DagRun) : W bool :=
  if negb (containsString (dr_Finalizers dagRun) dagRunFinalizer) then mret false
  else
    pods ← on_db (db_SuspendDagRun (dr_DagRunId dagRun));
    foreach (λ pod, ignore (deletePodByNameAndNamespace (rp_Name pod) (rp_Namespace pod))) pods
      ≫= λ _,
    on_db (db_DeleteDagRun (dr_DagRunId dagRun)) ≫= λ _,
    (if ce_logStore env then on_logs (DeleteLogs (dr_DagRunId dagRun)) else mret tt) ≫= λ _,
    r ← try (deletePVCByNameAndNamespace (pvc_name (dr_Name dagRun)) (dr_Namespace dagRun));
    (match r with
     | Ok _ => mret tt
     | Err e => if IsNotFound e then mret tt else throw e
     end) ≫= λ _,
    on_api (dagrun_Patch dagRun
      (set_dr_Finalizers (removeString (dr_Finalizers dagRun) dagRunFinalizer) dagRun)) ≫= λ _,
    mret false.

(** The part of the reconciliation that starts the run. *)
Definition start_run (dagRun : DagRun) : W bool :=
  let spec := dr_Spec dagRun in
  x ← on_db (db_DagExists (drs_DagName spec));
  let '(ok, dagId) := x in
  if negb ok then mret false
  else
    parameters ← on_db (db_GetDagParameters (drs_DagName spec));
    let paramMap := parameter_map parameters (drs_Parameters spec) in
    pvc ← on_db (db_GetWorkspacePVCTemplate dagId);
    pvcName ← (match pvc with
               | Some template => name ← createPVC dagRun template; mret (Some name)
               | None => mret None
               end);
    runId ← on_db (db_CreateDAGRun (dr_Name dagRun) spec paramMap pvcName);
    tasks ← on_db (db_GetStartingTasks (drs_DagName spec) runId);
    foreach (enqueue_task (drs_DagName spec) runId paramMap) tasks ≫= λ _,
    (if dr_DagRunId dagRun =b runId then mret tt
     else on_api (dagrun_PatchStatus dagRun (set_dr_DagRunId runId dagRun)) ≫= λ _, mret tt)
      ≫= λ _, mret false.

(** Whether the request is to be queued again. *)
Definition Reconcile (namespace name : string) : W bool :=
  r ← try (on_api (dagrun_Get namespace name));
  match r with
  | Err e => if IsNotFound e then mret false else throw e
  | Ok dagRun =>
      if dr_Deleting dagRun then handleDeletion dagRun
      else if negb (containsString (dr_Finalizers dagRun) dagRunFinalizer) then
        on_api (dagrun_Patch dagRun
          (set_dr_Finalizers (dr_Finalizers dagRun ++ [dagRunFinalizer]) dagRun)) ≫= λ _,
        mret true
      else start_run dagRun
  end.

End reconciler.
End Runs.

(** ** DAGs (dag_controller.go) *)

Module Dags.
Section reconciler.
Context {S C L : Type} `{DagManager S} `{KubeAPI C} `{CtrlClient C}.

(** The parser of the language, the hexadecimal SHA-256 of a text, and the key
    that Go's map iteration yields first. *)
Context (parseString : string → GoError + DagDsl.DSLRoot) (digest : string → string)
  (pick : gset string → string).

#[local] Abbreviation W := (M (Ctl S C L)).

Definition dslHash : string := "kontroler/dsl-hash".
Definition dagFinalizer : string := "dag.finalizer.kontroler.greedykomodo".
Definition dagTaskFinalizer : string := "dagTask.finalizer.kontroler.greedykomodo".

(** The status of the DAG, unless it has it already. *)
Definition mark (namespace : string) (dag : DAG) (phase message : string) : W unit :=
  let status := dag_Status dag in
  if (dst_Phase status =b phase) && (dst_Message status =b message) then mret tt
  else on_api (dag_PatchStatus namespace dag (set_dag_Status (mkDAGStatus phase message) dag))
         ≫= λ _, mret tt.

Definition markDAGFailed (namespace : string) (dag : DAG) (reason : string) : W unit :=
  mark namespace dag "Failed" reason.
Definition markDAGSuccessful (namespace : string) (dag : DAG) : W unit :=
  mark namespace dag "Successful" "DAG reconciled successfully".

(** The finalizer is put on the tasks that the DAG refers to, concurrently;
    errors are logged. *)
Definition updatingDagTaskFinalisers (taskRefs : list TaskRef) (namespace : string) : W unit :=
  foreach (λ tr, ignore (
    dagTask ← on_api (dagtask_Get namespace (tr_Name tr));
    if containsString (dto_Finalizers dagTask) dagTaskFinalizer then mret tt
    else on_api (dagtask_Patch namespace dagTask
           (set_dto_Finalizers (dto_Finalizers dagTask ++ [dagTaskFinalizer]) dagTask))
           ≫= λ _, mret tt)) taskRefs.

Definition removingDagTaskFinalisers (taskRefs : list string) (namespace : string) : W unit :=
  foreach (λ tr, ignore (
    dagTask ← on_api (dagtask_Get namespace tr);
    if containsString (dto_Finalizers dagTask) dagTaskFinalizer then
      on_api (dagtask_Patch namespace dagTask
        (set_dto_Finalizers (removeString (dto_Finalizers dagTask) dagTaskFinalizer) dagTask))
        ≫= λ _, mret tt
    else mret tt)) taskRefs.

Definition handleDeletion (namespace name : string) : W unit :=
  taskNames ← on_db (db_DeleteDAG name namespace);
  r ← try (on_api (dag_Get namespace name));
  (match r with
   | Ok dag =>
       if containsString (dag_Finalizers dag) dagFinalizer then
         on_api (dag_Patch namespace dag
           (set_dag_Finalizers (removeString (dag_Finalizers dag) dagFinalizer) dag)) ≫= λ _, mret tt
       else mret tt
   | Err e => if IsNotFound e then mret tt else throw e
   end) ≫= λ _,
  removingDagTaskFinalisers taskNames namespace.

(** The object after its DSL was processed, when the DSL has changed, and the
    error that the DAG is then marked with. *)
Definition process_dsl (namespace : string) (orig : DAG) : W (DAG * option GoError) :=
  let dsl := ds_DSL (dag_Spec orig) in
  if (dsl =b "") || (default "" (dag_Annotations orig !! dslHash) =b digest dsl)
  then mret (orig, None)
  else
    match Validator.processDSL parseString orig with
    | (Err e, dag) => mret (dag, Some (EWrap "failed to process DSL" e))
    | (Ok _, dag) =>
        let dag := set_dag_Annotations (<[dslHash := digest dsl]> (dag_Annotations dag)) dag in
        r ← try (on_api (dag_Patch namespace orig dag));
        match r with
        | Ok dag => mret (dag, None)
        | Err e => mret (dag, Some (EWrap "failed to patch DAG after DSL processing" e))
        end
    end.

(** The references to reusable tasks, or [None] when one is incomplete. *)
Fixpoint task_refs (tasks : list TaskSpec) : option (list TaskRef) :=
  match tasks with
  | [] => Some []
  | t :: rest =>
      match ts_TaskRef t with
      | None => task_refs rest
      | Some r => if (tr_Name r =b "") || (tr_Version r =b 0%Z) then None
                  else cons r <$> task_refs rest
      end
  end.

(** What is done with the processed object; an error of a step becomes the
    status of the DAG. *)
Definition validate_and_store (namespace : string) (dag : DAG) : W unit :=
  match task_refs (ds_Task (dag_Spec dag)) with
  | None => markDAGFailed namespace dag "missing name or version"
  | Some taskRefs =>
      p ← try (on_db (db_GetTaskRefsParameters taskRefs));
      match p with
      | Err e => markDAGFailed namespace dag ("failed at GetTaskRefsParameters: " +:+ err_Error e)
      | Ok refParams =>
          match Checks.ValidateDAG pick refParams (dag_Spec dag) with
          | Some e => markDAGFailed namespace dag ("failed to validate dag: " +:+ err_Error e)
          | None =>
              r ← try (on_db (db_InsertDAG dag namespace));
              match r with
              | Err e =>
                  if err_Error e =b "applying the same dag" then mret tt
                  else markDAGFailed namespace dag ("failed to store dag in db: " +:+ err_Error e)
              | Ok _ =>
                  updatingDagTaskFinalisers taskRefs namespace ≫= λ _,
                  markDAGSuccessful namespace dag
              end
          end
      end
  end.

Definition Reconcile (namespace name : string) : W unit :=
  r ← try (on_api (dag_Get namespace name));
  match r with
  | Err e => if IsNotFound e then handleDeletion namespace name else throw e
  | Ok dag =>
      if dag_Deleting dag then handleDeletion namespace name
      else
        p ← process_dsl namespace dag;
        let '(dag, err) := p in
        match err with
        | Some e => markDAGFailed namespace dag (err_Error e)
        | None => validate_and_store namespace dag
        end
  end.

End reconciler.
End Dags.

(** ** DagTasks (dagtask_controller.go) *)

Module Tasks.
Section reconciler.
Context {S C L : Type} `{DagManager S} `{KubeAPI C} `{CtrlClient C}.

#[local] Abbreviation W := (M (Ctl S C L)).

Definition handleDeletion (taskName namespace : string) : W unit :=
  on_db (db_DeleteTask taskName namespace).

Definition Reconcile (namespace name : string) : W unit :=
  r ← try (on_api (dagtask_Get namespace name));
  match r with
  | Err e => if IsNotFound e then handleDeletion name namespace else throw e
  | Ok task =>
      if dto_Deleting task then
        if containsString (dto_Finalizers task) Dags.dagTaskFinalizer then mret tt
        else handleDeletion (dgt_Name (dto_Task task)) namespace
      else
        a ← try (on_db (db_AddTask (dto_Task task) namespace));
        match a with
        | Ok _ => mret tt
        | Err e => if err_Error e =b "applying the same task" then mret tt else throw e
        end
  end.

End reconciler.
End Tasks.

(** ** Orphan pods (orphan_reconciler.go) *)

Module Orphans.
Section orphans.
Context {S C L : Type} `{DagManager S} `{KubeAPI C} `{CtrlClient C}.

(** [fmt.Sscan] into an [int]. *)
Context (Sscan_int : string → result Z).

#[local] Abbreviation W := (M (Ctl S C L)).

(** Seconds. *)
Definition orphanPodGrace : Z := 300.

Definition delete_orphan (pod : Pod) : W unit :=
  ignore (on_api (pods_Update (p_Namespace pod) (set_Finalizers [] pod))) ≫= λ _,
  ignore (on_api (pods_Delete (p_Namespace pod) (p_Name pod))).

Definition check_pod (pod : Pod) (age : Z) : W unit :=
  if (age <? orphanPodGrace)%Z then mret tt
  else
    match p_Annotations pod !! kontrolerTaskRunID with
    | None => mret tt
    | Some v =>
        if v =b "" then mret tt
        else
          match Sscan_int v with
          | Err _ => mret tt
          | Ok taskRunId =>
              r ← try (on_db (db_GetTaskRunStatus taskRunId));
              match r with
              | Err e => if e =b ErrTaskRunNotFound then delete_orphan pod else mret tt
              | Ok status =>
                  if (status =b "running") || (status =b "pending") then mret tt
                  else delete_orphan pod
              end
          end
    end.

(** One tick. *)
Definition reconcile_orphans : W unit :=
  r ← try (on_api pods_List_managed);
  match r with
  | Err _ => mret tt
  | Ok pods => foreach (λ pod, check_pod pod.1 pod.2) pods
  end.

End orphans.
End Orphans.
