(* ===== verification/ApiTrace.v ===== *)
(** * An API server of which only the calls are known

    A server that answers every request as it likes, from the history of the
    requests, and records them: theorems over it hold for every behaviour of the
    cluster, and say which requests a reconciler sends. *)

From S2P Require Import Prelude Api Kube Controllers.
Local Open Scope kontroler_scope.

Inductive Call :=
| GetPod (namespace name : string)
| UpdatePod (namespace : string) (pod : Pod)
| CreatePod (namespace : string) (pod : Pod)
| DeletePod (namespace name : string)
| ListPods (namespace uid : string)
| GetPVC (namespace name : string)
| UpdatePVC (namespace : string) (pvc : PersistentVolumeClaim)
| DeletePVC (namespace name : string)
| GetDagRun (namespace name : string)
| PatchDagRun (old new : DagRun)
| PatchDagRunStatus (old new : DagRun)
| GetDAG (namespace name : string)
| PatchDAG (namespace : string) (old new : DAG)
| PatchDAGStatus (namespace : string) (old new : DAG)
| GetDagTask (namespace name : string)
| PatchDagTask (namespace : string) (old new : DagTaskObject)
| PatchPod (old new : Pod)
| CreatePVC (pvc : NewPVC)
| PatchPVC (old new : PersistentVolumeClaim)
| ListManagedPods.

(** What a request is answered with. *)
Definition Reply (c : Call) : Type :=
  match c with
  | GetPod _ _ | UpdatePod _ _ | CreatePod _ _ | PatchPod _ _ => Pod
  | DeletePod _ _ | DeletePVC _ _ | CreatePVC _ => unit
  | ListPods _ _ => list Pod
  | GetPVC _ _ | UpdatePVC _ _ | PatchPVC _ _ => PersistentVolumeClaim
  | GetDagRun _ _ | PatchDagRun _ _ | PatchDagRunStatus _ _ => DagRun
  | GetDAG _ _ | PatchDAG _ _ _ | PatchDAGStatus _ _ _ => DAG
  | GetDagTask _ _ | PatchDagTask _ _ _ => DagTaskObject
  | ListManagedPods => list (Pod * Z)
  end.

(** The answer to a request after a history, and what the errors mean. *)
Record Server := mkServer {
  answer : ∀ c : Call, list Call → result (Reply c);
  says_not_found : GoError → bool;
  says_conflict : GoError → bool;
  says_already_exists : GoError → bool
}.

Definition call (srv : Server) (c : Call) : M (list Call) (Reply c) := λ history,
  (answer srv c history, history ++ [c]).

(** The two clients of one server. *)
#[global] Instance Server_api (srv : Server) : KubeAPI (list Call) := {
  pods_Get namespace name := call srv (GetPod namespace name);
  pods_Update namespace pod := call srv (UpdatePod namespace pod);
  pods_Create namespace pod := call srv (CreatePod namespace pod);
  pods_Delete namespace name := call srv (DeletePod namespace name);
  pods_List_uid namespace uid := call srv (ListPods namespace uid);
  pvc_Get namespace name := call srv (GetPVC namespace name);
  pvc_Update namespace pvc := call srv (UpdatePVC namespace pvc);
  pvc_Delete namespace name := call srv (DeletePVC namespace name);
  IsNotFound := says_not_found srv;
  IsConflict := says_conflict srv
}.

#[global] Instance Server_client (srv : Server) : CtrlClient (list Call) := {
  dagrun_Get namespace name := call srv (GetDagRun namespace name);
  dagrun_Patch old new := call srv (PatchDagRun old new);
  dagrun_PatchStatus old new := call srv (PatchDagRunStatus old new);
  dag_Get namespace name := call srv (GetDAG namespace name);
  dag_Patch namespace old new := call srv (PatchDAG namespace old new);
  dag_PatchStatus namespace old new := call srv (PatchDAGStatus namespace old new);
  dagtask_Get namespace name := call srv (GetDagTask namespace name);
  dagtask_Patch namespace old new := call srv (PatchDagTask namespace old new);
  pod_Patch old new := call srv (PatchPod old new);
  pvc_Create pvc := call srv (CreatePVC pvc);
  pvc_Patch old new := call srv (PatchPVC old new);
  IsAlreadyExists := says_already_exists srv;
  pods_List_managed := call srv ListManagedPods
}.

(** ** Which requests a computation sends *)

Section sends.
Context {S L : Type}.

(** The requests sent between two states, all of which satisfy a predicate. *)
Definition sends (P : Call → Prop) (w w' : Ctl S (list Call) L) : Prop :=
  ∃ new, ct_kube w' = ct_kube w ++ new ∧ Forall P new.

#[global] Instance sends_preorder P : PreOrder (sends P).
Proof.
  split.
  - intros w. exists []. by rewrite app_nil_r.
  - intros w1 w2 w3 (l1 & E1 & H1) (l2 & E2 & H2). exists (l1 ++ l2).
    rewrite E2, E1, app_assoc. split; [done|]. by apply Forall_app.
Qed.

Lemma sends_call (P : Call → Prop) {A} (m : M (list Call) A) c :
  (∀ history, (m history).2 = history ++ [c]) → P c →
  steps (sends P) (on_api (S := S) (L := L) m).
Proof.
  intros Hm Hc w. exists [c]. specialize (Hm (ct_kube w)). unfold on_api.
  destruct (m (ct_kube w)). simpl in *. by rewrite Forall_singleton.
Qed.

Lemma sends_db P {A} (m : M S A) : steps (sends P) (on_db (C := list Call) (L := L) m).
Proof.
  intros w. exists []. unfold on_db. destruct (m (ct_db w)). simpl. by rewrite app_nil_r.
Qed.

Lemma sends_logs P {A} (m : M L A) : steps (sends P) (on_logs (S := S) (C := list Call) m).
Proof.
  intros w. exists []. unfold on_logs. destruct (m (ct_logs w)). simpl. by rewrite app_nil_r.
Qed.

End sends.
