(* ===== verification/ControllerSpec.v ===== *)
(** * What the DagRun controller and the orphan reconciler do

    Theorems over the SQLite manager with any faults and any API server: however
    often a DagRun is reconciled each task is started once, a reconciliation
    that succeeds has started the run, a deletion keeps the object until the
    rows and the logs are gone, and the orphan reconciler deletes no pod of a
    task run that is alive. *)

From S2P Require Import Prelude Api DagValidation Kube KubeExample Store SqliteDag SqliteRun SqliteClaim Database StoredDag TaskRelease DagManager LogStore S3Example FileStore LogCollection Worker Controllers ApiTrace.
Import DagDb RunDb Calls.
Local Open Scope kontroler_scope.

(** ** Specification *)

(** How many task runs a task has in a run. *)
Definition starts (run task : Z) (t : Tables) : nat :=
  length (where_ (λ tr, (trn_run_id tr =b run) && (trn_task_id tr =b task)) (tb_Task_Runs t)).

(** No task gets a second task run. *)
Definition started_once (t t' : Tables) : Prop :=
  ∀ run task, starts run task t' <= Nat.max 1 (starts run task t).

(** The tables without the rows of a run. *)
Definition purge (run : Z) (t : Tables) : Tables :=
  let in_run r := trn_run_id r =b run in
  let t := set_Task_Pods (except (λ p, bool_decide (pod_task_run_id p ∈
             trn_task_run_id <$> where_ in_run (tb_Task_Runs t))) (tb_Task_Pods t)) t in
  let t := set_Task_Runs (except in_run (tb_Task_Runs t)) (sq_Task_Runs t) t in
  let t := set_DAG_Run_Parameters (except (λ p, rpr_run_id p =b run)
             (tb_DAG_Run_Parameters t)) (sq_DAG_Run_Parameters t) t in
  set_DAG_Runs (except (is_run run) (tb_DAG_Runs t)) (sq_DAG_Runs t) t.

(** The task run that a pod names is running or waiting to run. *)
Definition live_task_run (id : Z) (t : Tables) : Prop :=
  ∃ tr, head (where_ (is_task_run id) (tb_Task_Runs t)) = Some tr ∧
    trn_status tr ∈ ["running"; "pending"].

(** ** Steps over the world of a reconciler *)

Section world.
Context {S C L : Type}.
Implicit Types w : Ctl S C L.

Lemma wp_on_db {A} (m : M S A) w (Q : result A → Ctl S C L → Prop) :
  wp m (ct_db w) (λ r s, Q r (mkCtl s (ct_kube w) (ct_logs w))) → wp (on_db m) w Q.
Proof. unfold wp, on_db. by destruct (m (ct_db w)). Qed.

Lemma wp_on_api {A} (m : M C A) w (Q : result A → Ctl S C L → Prop) :
  wp m (ct_kube w) (λ r c, Q r (mkCtl (ct_db w) c (ct_logs w))) → wp (on_api m) w Q.
Proof. unfold wp, on_api. by destruct (m (ct_kube w)). Qed.

Lemma wp_on_logs {A} (m : M L A) w (Q : result A → Ctl S C L → Prop) :
  wp m (ct_logs w) (λ r l, Q r (mkCtl (ct_db w) (ct_kube w) l)) → wp (on_logs m) w Q.
Proof. unfold wp, on_logs. by destruct (m (ct_logs w)). Qed.

Lemma wp_all {A} (m : M S A) s (Q : result A → S → Prop) : (∀ r s', m s = (r, s') → Q r s') → wp m s Q.
Proof. intros H. unfold wp. apply H. by destruct (m s). Qed.

Lemma steps_ignore (R : S → S → Prop) `{!PreOrder R} {A} (m : M S A) : steps R m → steps R (ignore m).
Proof. intros Hm. apply steps_bind; [exact _|by apply steps_try|]. intros a. by apply steps_ret. Qed.

End world.

(** *** A relation between tables, as a relation between worlds *)

Section tables.
Context {C L : Type} (R : Tables → Tables → Prop) `{!PreOrder R}.

Definition on_tables (w w' : Ctl Store C L) : Prop :=
  R (st_tables (ct_db w)) (st_tables (ct_db w')).

#[global] Instance on_tables_preorder : PreOrder on_tables.
Proof.
  unfold on_tables. split; [by intros w|]. intros w1 w2 w3 H1 H2. by etransitivity.
Qed.

Lemma tables_db {A} (m : M Store A) :
  (∀ t, keeps (R t) m) → steps on_tables (on_db m).
Proof.
  intros Hm w. unfold on_tables, on_db. specialize (Hm (st_tables (ct_db w)) (ct_db w) ltac:(reflexivity)).
  by destruct (m (ct_db w)).
Qed.

Lemma tables_api {A} (m : M C A) : steps on_tables (on_api m).
Proof. intros w. unfold on_tables, on_api. destruct (m (ct_kube w)). simpl. reflexivity. Qed.

Lemma tables_logs {A} (m : M L A) : steps on_tables (on_logs m).
Proof. intros w. unfold on_tables, on_logs. destruct (m (ct_logs w)). simpl. reflexivity. Qed.

End tables.

(** ** A task starts once *)

#[global] Instance started_once_preorder : PreOrder started_once.
Proof.
  split; intros t1; [intros run task; lia|]. intros t2 t3 H1 H2 run task.
  specialize (H1 run task). specialize (H2 run task). lia.
Qed.

Lemma starts_same run task t t' : tb_Task_Runs t' = tb_Task_Runs t → starts run task t' = starts run task t.
Proof. unfold starts. by intros ->. Qed.

Lemma length_where_except {A} (p q : A → bool) l : length (where_ p (except q l)) <= length (where_ p l).
Proof.
  induction l as [|x l IH]; [done|]. unfold except in *. rewrite !where_cons.
  destruct (q x); simpl; rewrite ?where_cons; destruct (p x); simpl; lia.
Qed.

Lemma keeps_started_once {A} (m : M Store A) :
  (∀ l, keeps (λ t, tb_Task_Runs t = l) m) → ∀ t, keeps (started_once t) m.
Proof.
  intros Hm t s Ht run task. specialize (Hm _ s eq_refl). simpl in Hm.
  rewrite (starts_same _ _ _ _ Hm). apply Ht.
Qed.

(** A read keeps the tables, and its result is as the triple says. *)
Lemma wp_read {A} {m : M Store A} {Q : A → Tables → Prop} {P : Tables → Prop} s :
  reads m → triple P m (on_ok Q) → P (st_tables s) →
  wp m s (λ r s', st_tables s' = st_tables s ∧ on_ok Q r (st_tables s')).
Proof. intros Hr Hm HP. split; [apply Hr|by apply Hm]. Qed.

Lemma TaskRunExists_starts run task :
  triple (λ _, True) (TaskRunExists run task) (on_ok (λ b t, b = false ↔ starts run task t = 0)).
Proof.
  apply triple_query. intros t _. unfold starts. rewrite existsb_false, length_zero_iff_nil.
  symmetry. apply where_nil.
Qed.

Lemma starts_add run task r t :
  starts run task (add_Task_Run r t) =
    starts run task t + if (trn_run_id (r (sq_Task_Runs t + 1)%Z) =b run)
      && (trn_task_id (r (sq_Task_Runs t + 1)%Z) =b task) then 1 else 0.
Proof.
  unfold starts, where_. simpl. rewrite List.filter_app, length_app. simpl. by case_match.
Qed.

(** Adding a task run adds at most that one. *)
Lemma AddPending_starts run task run' task' s :
  starts run' task' (st_tables (AddPendingTaskRun run task s).2) <=
    starts run' task' (st_tables s) + if bool_decide (run' = run ∧ task' = task) then 1 else 0.
Proof.
  unfold AddPendingTaskRun, add_run, insert_ret, insert, mbind, M_bind, gets, never, modify.
  pose proof (stmt_tables s) as Hs. destruct (stmt s) as [[[]|e] s']; simpl in *; [|rewrite Hs; lia].
  rewrite starts_add, Hs. simpl.
  destruct (run =b run') eqn:E1, (task =b task') eqn:E2; simpl; try lia.
  apply bool_decide_eq_true in E1, E2. rewrite bool_decide_eq_true_2 by done. lia.
Qed.

Lemma once_DeleteDagRun id t : keeps (started_once t) (DeleteDagRun id).
Proof.
  unfold DeleteDagRun. keeps_walk; try assumption.
  intros run task. etransitivity; [apply length_where_except|].
  match goal with H : started_once _ _ |- _ => apply (H run task) end.
Qed.

Section runs.
Context {C L : Type} `{KubeAPI C} `{CtrlClient C} `{LogStore L} (denv : DbEnv) (env : CtlEnv).
#[local] Existing Instance SqliteManager | 0.
#[local] Instance manager : DagManager Store := SqliteManager denv.

#[local] Abbreviation W := (Ctl Store C L).
#[local] Abbreviation once := (on_tables (C := C) (L := L) started_once).

Lemma once_db {A} (m : M Store A) :
  (∀ l, keeps (λ t, tb_Task_Runs t = l) m) → steps once (on_db m).
Proof. intros Hm. apply tables_db; [exact _|]. by apply keeps_started_once. Qed.

Lemma once_enqueue dagName runId pm task :
  steps once (Runs.enqueue_task (S := Store) (C := C) (L := L) dagName runId pm task).
Proof.
  intros w. unfold Runs.enqueue_task. set (id := t_Id (Runs.override_parameters pm task)).
  match goal with |- once w (?m w).2 => enough (wp m w (λ _ w', once w w')) as X by exact X end.
  apply wp_bind, wp_on_db. eapply wp_mono; [by apply (wp_read _ (reads_query _) (TaskRunExists_starts runId id))|].
  intros r s [Hs Hn].
  assert (once w (mkCtl s (ct_kube w) (ct_logs w))) as Hsame by (unfold on_tables; simpl; by rewrite Hs).
  destruct r as [[]|e]; [by apply wp_ret| |done].
  apply wp_bind, wp_try, wp_on_db, wp_all. intros r s' Hadd. cbn [ct_kube ct_logs ct_db].
  assert (once w (mkCtl s' (ct_kube w) (ct_logs w))) as Ho.
  { intros run k. simpl. pose proof (AddPending_starts runId id run k s) as Ha. simpl in Hadd.
    rewrite Hadd, Hs in Ha. rewrite Hs in Hn. pose proof (proj1 Hn eq_refl) as Hz.
    simpl in Ha. case_bool_decide as E; [destruct E as [-> ->]|]; lia. }
  by destruct r.
Qed.

(** The calls of a reconciliation. *)
Ltac once_call :=
  first
    [ apply tables_api; exact _ | apply tables_logs; exact _ | apply steps_ignore; [exact _|]
    | apply once_enqueue
    | apply tables_db; [exact _|apply once_DeleteDagRun]
    | apply once_db; intros ?; simpl; autounfold with db_ops; keeps_walk; done ].

Lemma once_Reconcile namespace name : steps once (Runs.Reconcile env namespace name).
Proof.
  unfold Runs.Reconcile, Runs.start_run, Runs.createPVC, Runs.handleDeletion,
    Runs.deletePVCByNameAndNamespace, Runs.deletePodByNameAndNamespace.
  steps_walk_with once_call.
Qed.

(** C11: However often DagRuns are reconciled, in whatever order and whichever
    statements and requests fail on the way, no task of a run gets a second task
    run: a task that has none gets at most one. *)
Theorem reconcile_starts_once (requests : list (string * string)) (w : W) (run task : Z) :
  starts run task (st_tables (ct_db (foreach (λ q, ignore (Runs.Reconcile env q.1 q.2)) requests w).2)) <=
  Nat.max 1 (starts run task (st_tables (ct_db w))).
Proof.
  apply (steps_foreach once (λ q, ignore (Runs.Reconcile env q.1 q.2)) requests).
  intros q. apply steps_ignore; [exact _|apply once_Reconcile].
Qed.

End runs.

(** ** A reconciliation that succeeds has started the run *)

(** Task runs were added and nothing else changed. *)
Definition grown (t t' : Tables) : Prop :=
  ∃ l n, t' = set_Task_Runs (tb_Task_Runs t ++ l) n t.

#[global] Instance grown_preorder : PreOrder grown.
Proof.
  split.
  - intros t. exists [], (sq_Task_Runs t). rewrite app_nil_r. by destruct t.
  - intros t1 t2 t3 (l1 & n1 & ->) (l2 & n2 & ->). exists (l1 ++ l2), n2. simpl. by rewrite app_assoc.
Qed.

Lemma grown_starts run task t t' : grown t t' → starts run task t <= starts run task t'.
Proof.
  intros (l & n & ->). unfold starts, where_. simpl. rewrite List.filter_app, length_app. lia.
Qed.

Lemma grown_starting_rows dagName run t t' :
  grown t t' → starting_rows dagName run t' = starting_rows dagName run t.
Proof. by intros (l & n & ->). Qed.

Lemma grown_runs t t' : grown t t' → tb_DAG_Runs t' = tb_DAG_Runs t.
Proof. by intros (l & n & ->). Qed.

Definition has_run (name : string) (run : Z) (t : Tables) : Prop :=
  ∃ r, r ∈ tb_DAG_Runs t ∧ r_run_id r = run ∧ r_name r = name.

Lemma CreateDAGRun_has_run name spec pm pvc :
  triple (λ _, True) (CreateDAGRun name spec pm pvc) (on_ok (λ run t, has_run name run t)).
Proof.
  unfold CreateDAGRun, dagNameToDagId.
  eapply triple_bind; [apply (triple_keeps (λ _, True)); by intros ??|]. intros dagId.
  eapply triple_bind.
  { apply (triple_try_read _ _ (λ run t, has_run name run t)); [apply reads_query_row|].
    apply triple_query_row. intros t run l _ Hl.
    assert (run ∈ r_run_id <$> where_ (λ r, r_name r =b name) (tb_DAG_Runs t)) as Hin by (rewrite Hl; left).
    apply list_elem_of_fmap in Hin as (r & -> & [Hr%bool_decide_eq_true Hin]%elem_of_where).
    by exists r. }
  intros [run|e]; [by apply triple_ret|]. destruct e; try apply triple_throw.
  apply triple_in_tx. eapply triple_bind; [apply (triple_keeps (λ _, True)); by intros ??|]. intros now.
  eapply triple_bind.
  { apply (triple_insert_ret _ _ _ _ _ (has_run name)). intros t _ _.
    eexists. split; [simpl; apply elem_of_app; right; left|]. done. }
  intros run. apply (triple_bind _ _ _ (λ _ t, has_run name run t)); [|intros; by apply triple_ret].
  apply (triple_keeps (has_run name run)), keeps_foreach. intros p. unfold insert_run_param.
  keeps_walk; done.
Qed.

Lemma GetStartingTasks_ids dagName run :
  triple (λ _, True) (GetStartingTasks dagName run)
    (on_ok (λ tasks t, t_Id <$> tasks = (λ row : Task * list string * Z, t_Id row.1.1) <$> starting_rows dagName run t)).
Proof.
  unfold GetStartingTasks.
  eapply (triple_bind _ _ _ (λ rows t, rows = starting_rows dagName run t)).
  { unfold wrap_err. eapply triple_bind.
    { apply (triple_try_read _ _ (λ rows t, rows = starting_rows dagName run t));
        [apply reads_query|by apply triple_query]. }
    intros [rows|e]; [by apply triple_ret|apply triple_throw]. }
  intros rows. case_bool_decide as Hlen.
  - eapply triple_bind; [apply triple_reads, reads_query|]. intros rowsParams.
    case_match; [|apply triple_throw]. apply triple_ret. intros t ->.
    rewrite <- list_fmap_compose. apply list_fmap_ext. by intros i x _.
  - apply triple_ret. intros t Hrows. rewrite length_fmap in Hlen. destruct rows; [|simpl in Hlen; lia].
    by rewrite <- Hrows.
Qed.

Lemma AddPending_grown run task s :
  let s' := (AddPendingTaskRun run task s).2 in
  grown (st_tables s) (st_tables s') ∧
  (is_ok (AddPendingTaskRun run task s).1 = true → 0 < starts run task (st_tables s')).
Proof.
  unfold AddPendingTaskRun, add_run, insert_ret, insert, mbind, M_bind, gets, never, modify.
  pose proof (stmt_tables s) as Hs. destruct (stmt s) as [[[]|e] s']; simpl in *.
  - split; [rewrite <- Hs; by eexists [_], _|]. intros _. rewrite starts_add. simpl.
    rewrite !bool_decide_eq_true_2 by done. simpl. lia.
  - rewrite Hs. split; [reflexivity|done].
Qed.

(** *** What holds when a computation succeeds *)

Definition ok_then {S A} (Q : A → S → Prop) (r : result A) (s : S) : Prop :=
  match r with Ok a => Q a s | Err _ => True end.

Section ok.
Context {C L : Type}.
Implicit Types w : Ctl Store C L.

Lemma ok_bind {A B} (m : M (Ctl Store C L) A) (f : A → M (Ctl Store C L) B) w R Q :
  wp m w (ok_then R) → (∀ a w', R a w' → wp (f a) w' (ok_then Q)) → wp (m ≫= f) w (ok_then Q).
Proof.
  intros Hm Hf. apply wp_bind. eapply wp_mono; [exact Hm|]. intros [a|e] w' H; [by apply Hf|done].
Qed.

Lemma ok_db {A} (m : M Store A) P (Q : A → Tables → Prop) w :
  triple P m (on_ok Q) → P (st_tables (ct_db w)) →
  wp (on_db m) w (ok_then (λ a w', Q a (st_tables (ct_db w')) ∧ ct_kube w' = ct_kube w ∧
    ct_logs w' = ct_logs w)).
Proof.
  intros Hm HP. apply wp_on_db. specialize (Hm _ HP). unfold wp.
  by destruct (m (ct_db w)) as [[a|e] s'].
Qed.

(** Requests leave the tables alone. *)
Lemma ok_same {A} (m : M (Ctl Store C L) A) w :
  steps (on_tables eq) m → wp m w (ok_then (λ _ w', st_tables (ct_db w') = st_tables (ct_db w))).
Proof.
  intros Hm. specialize (Hm w). unfold wp, ok_then, on_tables in *. by destruct (m w) as [[a|e] w'].
Qed.

End ok.

Lemma DagExists_false name t0 :
  tables_ok t0 →
  triple (λ t, t = t0) (DagExists name)
    (on_ok (λ x t, t = t0 ∧ (x.1 = false → ∀ d, d ∈ tb_DAGs t → d_name d ≠ name))).
Proof.
  intros Hok s Hs. unfold DagExists, row_or, query_row, query, try, mbind, M_bind, gets.
  pose proof (stmt_tables s) as Hst. destruct (stmt s) as [[[]|e] s'] eqn:E; simpl in *.
  - rewrite Hst, Hs. destruct (where_ _ (tb_DAGs t0)) as [|d l] eqn:Ed; simpl.
    + split; [congruence|]. intros _ d Hd. rewrite where_nil in Ed. rewrite Hst, Hs in Hd.
      by apply Ed, bool_decide_eq_false in Hd.
    + split; [congruence|].
      assert (d ∈ where_ (λ d, d_name d =b name) (tb_DAGs t0)) as [_ Hd]%elem_of_where by (rewrite Ed; left).
      destruct (wf_dags _ Hok) as (_ & _ & Hb). apply Hb in Hd.
      rewrite bool_decide_eq_false_2 by lia. done.
  - unfold stmt in E. by destruct (default _ _); simplify_eq.
Qed.

(** *** The rows of a run *)

Definition suspended (run : Z) (t : Tables) : Tables :=
  upd_DAG_Runs (is_run run) (set_status "suspended") t.

Lemma except_update_where {A} (p : A → bool) f l :
  (∀ x, p x = true → p (f x) = true) → except p (update_where p f l) = except p l.
Proof.
  intros Hp. unfold except, update_where. induction l as [|x l IH]; [done|].
  rewrite fmap_cons, !where_cons, IH. destruct (p x) eqn:E; [|by rewrite E]. by rewrite (Hp x E).
Qed.

Lemma purge_suspended run t : purge run (suspended run t) = purge run t.
Proof.
  unfold purge, suspended, upd_DAG_Runs. simpl. unfold set_DAG_Runs. simpl. f_equal.
  apply except_update_where. by intros x.
Qed.

Lemma triple_wrap_err {A} P msg (m : M Store A) (Q : A → Tables → Prop) :
  triple P m (on_ok Q) → triple P (wrap_err msg m) (on_ok Q).
Proof.
  intros Hm s HP. specialize (Hm s HP). unfold wrap_err, try, mbind, M_bind.
  by destruct (m s) as [[a|e] s'].
Qed.

Lemma SuspendDagRun_tables run t0 :
  triple (λ t, t = t0) (SuspendDagRun run) (on_ok (λ _ t, t = suspended run t0)).
Proof.
  apply triple_in_tx. eapply triple_bind.
  { apply triple_reads, reads_wrap_err, reads_query. }
  intros pods. apply (triple_bind _ _ _ (λ _ t, t = suspended run t0)); [|intros; by apply triple_ret].
  apply triple_wrap_err, triple_exec. by intros t ->.
Qed.

Lemma triple_exec_eq msg f t0 :
  triple (λ t, t = t0) (wrap_err msg (exec f)) (on_ok (λ _ t, t = f t0)).
Proof. apply triple_wrap_err, triple_exec. by intros t ->. Qed.

Lemma DeleteDagRun_tables run t0 :
  triple (λ t, t = t0) (DeleteDagRun run) (on_ok (λ _ t, t = purge run t0)).
Proof.
  apply triple_in_tx.
  do 3 (eapply triple_bind; [apply triple_exec_eq|intros []]).
  eapply triple_weaken; [apply triple_exec_eq|intros t H; exact H|]. by intros [] t ->.
Qed.

Section server.
Context {L : Type} `{LogStore L} (denv : DbEnv) (env : CtlEnv) (srv : Server).
#[local] Instance server_manager : DagManager Store := SqliteManager denv.
#[local] Instance server_api : KubeAPI (list Call) := Server_api srv.
#[local] Instance server_client : CtrlClient (list Call) := Server_client srv.

#[local] Abbreviation W := (Ctl Store (list Call) L).

Lemma enqueue_grows dagName run pm task (w : W) :
  wp (Runs.enqueue_task dagName run pm task) w (ok_then (λ _ w',
    grown (st_tables (ct_db w)) (st_tables (ct_db w')) ∧
    0 < starts run (t_Id task) (st_tables (ct_db w')))).
Proof.
  unfold Runs.enqueue_task. change (t_Id (Runs.override_parameters pm task)) with (t_Id task).
  apply wp_bind, wp_on_db.
  eapply wp_mono; [by apply (wp_read _ (reads_query _) (TaskRunExists_starts run (t_Id task)))|].
  intros [[]|e] s [Hs Hn]; [| |done].
  - apply wp_ret. simpl. rewrite Hs in *. split; [reflexivity|]. simpl in Hn. destruct Hn as [_ Hn].
    destruct (starts run (t_Id task) (st_tables (ct_db w))); [by discriminate Hn|lia].
  - apply wp_bind, wp_try, wp_on_db, wp_all. intros r s' Hadd. cbn [ct_kube ct_logs ct_db] in *.
    pose proof (AddPending_grown run (t_Id task) s) as Ha. cbv zeta in Ha.
    change (db_AddPendingTaskRun run (t_Id task) s = (r, s')) with
      (AddPendingTaskRun run (t_Id task) s = (r, s')) in Hadd. rewrite Hadd, Hs in Ha.
    destruct r as [k|e]; [|done]. apply wp_ret. simpl. split; [apply Ha|]. by apply Ha.
Qed.

Lemma enqueue_all_grows dagName run pm tasks : ∀ w : W,
  wp (foreach (Runs.enqueue_task dagName run pm) tasks) w (ok_then (λ _ w',
    grown (st_tables (ct_db w)) (st_tables (ct_db w')) ∧
    ∀ k, k ∈ t_Id <$> tasks → 0 < starts run k (st_tables (ct_db w')))).
Proof.
  induction tasks as [|task tasks IH]; intros w; simpl.
  { apply wp_ret. simpl. split; [reflexivity|]. intros k Hk. by apply elem_of_nil in Hk. }
  eapply ok_bind; [apply enqueue_grows|]. intros [] w1 [Hg1 H1].
  eapply wp_mono; [apply IH|]. intros [[]|e] w2 H2; [|done]. destruct H2 as [Hg2 H2].
  split; [by etransitivity|]. intros k [->|Hk]%elem_of_cons; [|by apply H2].
  pose proof (grown_starts run (t_Id task) _ _ Hg2). lia.
Qed.

(** What a reconciliation that succeeds leaves behind. *)
Definition run_started (dagRun : DagRun) (w' : W) : Prop :=
  ∃ run, has_run (dr_Name dagRun) run (st_tables (ct_db w')) ∧
    (∀ row, row ∈ starting_rows (drs_DagName (dr_Spec dagRun)) run (st_tables (ct_db w')) →
       0 < starts run (t_Id row.1.1) (st_tables (ct_db w'))) ∧
    (dr_DagRunId dagRun = run ∨
     last (ct_kube w') = Some (PatchDagRunStatus dagRun (set_dr_DagRunId run dagRun))).

Lemma start_run_starts dagRun (w : W) :
  tables_ok (st_tables (ct_db w)) →
  wp (Runs.start_run env dagRun) w (ok_then (λ _ w',
    (∀ d, d ∈ tb_DAGs (st_tables (ct_db w)) → d_name d ≠ drs_DagName (dr_Spec dagRun)) ∨
    run_started dagRun w')).
Proof.
  intros Hok. unfold Runs.start_run.
  eapply ok_bind; [by eapply (ok_db _ _ _ w (DagExists_false _ (st_tables (ct_db w)) Hok))|].
  intros [ok dagId] w1 [[Ht Hno] _]. destruct ok; simpl.
  2: { apply wp_ret. left. rewrite <- Ht. by apply Hno. }
  eapply wp_mono with (P := ok_then (λ _ w', run_started dagRun w'));
    [|intros [b|e] w'; [by right|done]].
  eapply (ok_bind _ _ _ (λ _ _, True)); [unfold wp, ok_then; by case_match|]. intros parameters w2 _.
  eapply (ok_bind _ _ _ (λ _ _, True)); [unfold wp, ok_then; by case_match|]. intros pvc w3 _.
  eapply (ok_bind _ _ _ (λ _ _, True)); [unfold wp, ok_then; by case_match|]. intros pvcName w4 _.
  eapply ok_bind; [by apply (ok_db _ _ _ w4 (CreateDAGRun_has_run _ _ _ _))|].
  intros run w5 [Hrun _].
  eapply ok_bind.
  { apply (ok_db (GetStartingTasks (drs_DagName (dr_Spec dagRun)) run)
      (has_run (dr_Name dagRun) run) (λ tasks t, has_run (dr_Name dagRun) run t ∧
         t_Id <$> tasks = (λ row : Task * list string * Z, t_Id row.1.1) <$>
           starting_rows (drs_DagName (dr_Spec dagRun)) run t)); [|done].
    apply triple_and.
    - apply triple_reads. autounfold with db_ops. reads_walk.
    - by eapply triple_weaken; [apply GetStartingTasks_ids| |]. }
  intros tasks w6 [[Hrun6 Hids] _].
  eapply ok_bind; [apply enqueue_all_grows|]. intros [] w7 [Hg Hs].
  assert (has_run (dr_Name dagRun) run (st_tables (ct_db w7)) ∧
    ∀ row, row ∈ starting_rows (drs_DagName (dr_Spec dagRun)) run (st_tables (ct_db w7)) →
      0 < starts run (t_Id row.1.1) (st_tables (ct_db w7))) as [Hr7 Hs7].
  { unfold has_run in *. rewrite (grown_runs _ _ Hg). split; [done|]. intros row Hrow.
    apply Hs. rewrite Hids. rewrite (grown_starting_rows _ _ _ _ Hg) in Hrow.
    by apply (list_elem_of_fmap_2 (λ row : Task * list string * Z, t_Id row.1.1)). }
  case_bool_decide as Hid.
  - apply wp_bind, wp_ret, wp_ret. exists run. by auto.
  - apply wp_bind, wp_bind, wp_on_api. apply wp_all. intros r c Hc.
    change (call srv (PatchDagRunStatus dagRun (set_dr_DagRunId run dagRun)) (ct_kube w7) = (r, c)) in Hc.
    unfold call in Hc. destruct r as [d|e]; [|done].
    apply wp_ret, wp_ret. exists run. split_and!; [done|done|right]. simpl. simplify_eq.
    by rewrite last_snoc.
Qed.

(** ** Deletion *)

(** Only the cluster may have changed. *)
Definition only_api (w w' : W) : Prop := ct_db w' = ct_db w ∧ ct_logs w' = ct_logs w.

#[local] Instance only_api_preorder : PreOrder only_api.
Proof. split; [by intros w|]. intros w1 w2 w3 [H1 H2] [H3 H4]. split; congruence. Qed.

Lemma only_api_call {A} (m : M (list Call) A) : steps only_api (on_api m).
Proof. intros w. unfold on_api. by destruct (m (ct_kube w)). Qed.

Lemma ok_steps (R : W → W → Prop) {A} (m : M W A) w : steps R m → wp m w (ok_then (λ _ w', R w w')).
Proof. intros Hm. specialize (Hm w). unfold wp. by destruct (m w) as [[a|e] w']. Qed.

(** One stage of a computation whose requests all satisfy a predicate. *)
Lemma stage {A B} P (m : M W A) (f : A → M W B) w0 w R (G : result B → W → Prop) :
  sends P w0 w → steps (sends P) m → wp m w (ok_then R) →
  (∀ e w', sends P w0 w' → G (Err e) w') →
  (∀ a w', sends P w0 w' → R a w' → wp (f a) w' G) → wp (m ≫= f) w G.
Proof.
  intros H0 Hs Hm He Hf. apply wp_bind. specialize (Hs w). unfold wp, ok_then in *.
  assert (sends P w0 (m w).2) as H1 by (by etransitivity).
  destruct (m w) as [[a|e] w']; simpl in *; auto.
Qed.

(** Not the request that lets the object go. *)
Definition not_patch (c : Call) : Prop := match c with PatchDagRun _ _ => False | _ => True end.

Ltac send_call :=
  first [ by eapply sends_call | apply sends_db | apply sends_logs ].

Definition unfinalized (dagRun : DagRun) : DagRun :=
  set_dr_Finalizers (removeString (dr_Finalizers dagRun) Runs.dagRunFinalizer) dagRun.

(** Everything of the run is gone, and its logs. *)
Definition cleaned (dagRun : DagRun) (w w' : W) : Prop :=
  st_tables (ct_db w') = purge (dr_DagRunId dagRun) (st_tables (ct_db w)) ∧
  if ce_logStore env
  then DeleteLogs (dr_DagRunId dagRun) (ct_logs w) = (Ok tt, ct_logs w')
  else ct_logs w' = ct_logs w.

Lemma deletion_stages dagRun (w : W) :
  containsString (dr_Finalizers dagRun) Runs.dagRunFinalizer = true →
  wp (Runs.handleDeletion env dagRun) w (λ r w',
    (is_ok r = false ∧ sends not_patch w w') ∨
    ∃ w1, sends not_patch w w1 ∧ cleaned dagRun w w1 ∧ only_api w1 w' ∧
      ct_kube w' = ct_kube w1 ++ [PatchDagRun dagRun (unfinalized dagRun)] ∧
      is_ok r = is_ok (answer srv (PatchDagRun dagRun (unfinalized dagRun)) (ct_kube w1))).
Proof.
  intros Hfin. unfold Runs.handleDeletion. rewrite Hfin. cbn [negb].
  set (id := dr_DagRunId dagRun). set (t0 := st_tables (ct_db w)).
  eapply (stage not_patch _ _ w w); [reflexivity|send_call|by apply (ok_db _ _ _ w (SuspendDagRun_tables id t0))|by left; auto|].
  intros pods w1 Hs1 (Ht1 & _ & Hl1).
  eapply (stage not_patch _ _ w w1 (λ _ w', only_api w1 w')); [done| | |by left; auto|].
  { unfold ignore, Runs.deletePodByNameAndNamespace. steps_walk_with send_call. }
  { apply ok_steps. unfold ignore, Runs.deletePodByNameAndNamespace.
    steps_walk_with ltac:(apply only_api_call). }
  intros [] w2 Hs2 [Hd2 Hl2].
  eapply (stage not_patch _ _ w w2); [done|send_call| |by left; auto|].
  { apply (ok_db _ _ _ w2 (DeleteDagRun_tables id (suspended id t0))). by rewrite Hd2. }
  intros [] w3 Hs3 (Ht3 & _ & Hl3). rewrite purge_suspended in Ht3.
  eapply (stage not_patch _ _ w w3 (λ _ w', cleaned dagRun w w')); [done| | |by left; auto|].
  { case_match; [send_call|apply steps_ret; exact _]. }
  { unfold cleaned. fold id t0. destruct (ce_logStore env).
    - apply wp_on_logs, wp_all. rewrite Hl3, Hl2, Hl1. intros [[]|e] l Hl; [|done]. simpl. by split.
    - apply wp_ret. simpl. split; [done|congruence]. }
  intros [] w4 Hs4 Hc4.
  eapply (stage not_patch _ _ w w4 (λ _ w', only_api w4 w')); [done| | |by left; auto|].
  { unfold Runs.deletePVCByNameAndNamespace. steps_walk_with send_call. }
  { apply ok_steps. unfold Runs.deletePVCByNameAndNamespace. steps_walk_with ltac:(apply only_api_call). }
  intros r w5 Hs5 [Hd5 Hl5].
  eapply (stage not_patch _ _ w w5 (λ _ w', w' = w5)); [done| | |by left; auto|].
  { steps_walk_with send_call. }
  { by repeat case_match. }
  intros [] w6 Hs6 ->. apply wp_bind, wp_on_api, wp_all. intros r' c Hc.
  change (call srv (PatchDagRun dagRun (unfinalized dagRun)) (ct_kube w5) = (r', c)) in Hc.
  unfold call in Hc. simplify_eq.
  assert (cleaned dagRun w w5) as Hc5 by (unfold cleaned in *; by rewrite Hd5, Hl5).
  destruct (answer srv _ (ct_kube w5)) eqn:Ea; [apply wp_ret|]; right; exists w5; simpl;
    by rewrite Ea.
Qed.


(** C16: The deletion of a DagRun lets go of the object only when everything of
    the run is gone: the request that removes the finalizer is sent only after
    the rows of the run and its logs were removed, and no other row; when the
    deletion succeeds it was the last request. *)
Theorem deletion_cleans_first (namespace name : string) (dagRun : DagRun) (w w' : W)
    (r : result bool) (new : list Call)
    (Hget : answer srv (GetDagRun namespace name) (ct_kube w) = Ok dagRun)
    (Hdel : dr_Deleting dagRun = true)
    (Hfin : containsString (dr_Finalizers dagRun) Runs.dagRunFinalizer = true)
    (Hrec : Runs.Reconcile env namespace name w = (r, w'))
    (Hnew : ct_kube w' = ct_kube w ++ new) :
  ((∃ a b, PatchDagRun a b ∈ new) → cleaned dagRun w w') ∧
  (is_ok r = true → last new = Some (PatchDagRun dagRun (unfinalized dagRun))).
Proof.
  set (w0 := mkCtl (ct_db w) (ct_kube w ++ [GetDagRun namespace name]) (ct_logs w)).
  assert (Runs.handleDeletion env dagRun w0 = (r, w')) as Hd.
  { rewrite <- Hrec. unfold Runs.Reconcile, mbind, M_bind, try, on_api.
    change (dagrun_Get namespace name (ct_kube w)) with (call srv (GetDagRun namespace name) (ct_kube w)).
    unfold call. by rewrite Hget, Hdel. }
  pose proof (deletion_stages dagRun w0 Hfin) as H1. unfold wp in H1. rewrite Hd in H1. simpl in H1.
  destruct H1 as [[Hr (l & El & Hl)]|(w1 & (l & El & Hl) & Hc & [Hd1 Hl1] & Ek & Er)].
  - rewrite Hnew in El. unfold w0 in El. simpl in El. rewrite <- app_assoc in El. simplify_list_eq.
    split; [|by rewrite Hr]. intros (a & b & [Hin|Hin]%elem_of_cons); [done|].
    by apply (proj1 (Forall_forall _ _) Hl) in Hin.
  - rewrite El, Hnew in Ek. unfold w0 in Ek. simpl in Ek. rewrite <- !app_assoc in Ek. simplify_list_eq.
    split; [|by rewrite app_comm_cons, last_snoc]. intros _. unfold cleaned in *.
    rewrite Hd1, Hl1. exact Hc.
Qed.

(** ** Orphan pods *)

Context (Sscan_int : string → result Z).

(** A pod that outlived its task run: old enough, and of a task run that is
    neither running nor pending. *)
Definition orphan (t : Tables) (pod : Pod) (age : Z) : Prop :=
  (Orphans.orphanPodGrace <= age)%Z ∧ ∃ v id,
    p_Annotations pod !! kontrolerTaskRunID = Some v ∧ v ≠ "" ∧ Sscan_int v = Ok id ∧
    ¬ live_task_run id t.

(** What is read of a task run, without faults and with them. *)
Lemma GetTaskRunStatus_live id s :
  st_tables (GetTaskRunStatus id s).2 = st_tables s ∧
  (nofault s → nofault (GetTaskRunStatus id s).2) ∧
  match (GetTaskRunStatus id s).1 with
  | Ok status => live_task_run id (st_tables s) ↔ status ∈ ["running"; "pending"]
  | Err e => (e = ErrTaskRunNotFound → ¬ live_task_run id (st_tables s)) ∧
             (nofault s → e = ErrTaskRunNotFound)
  end.
Proof.
  unfold GetTaskRunStatus, query_row, query, try, mbind, M_bind, gets.
  pose proof (stmt_tables s) as Hs. pose proof (quiet_stmt s) as Hq.
  destruct (stmt s) as [[[]|e] s'] eqn:E; simpl in *.
  - rewrite Hs. unfold live_task_run.
    destruct (where_ (is_task_run id) (tb_Task_Runs (st_tables s))) as [|tr l]; simpl; split_and!; try done.
    + intros _ (tr & Htr & _). done.
    + split; [by intros (tr' & [= ->] & ?)|]. intros Hin. by exists tr.
  - unfold stmt, nofault in *. destruct (st_faults s) as [|[] f] eqn:Ef; simpl in E; simplify_eq. by split_and!.
Qed.

Lemma delete_orphan_sends pod (w : W) :
  ct_db (Orphans.delete_orphan pod w).2 = ct_db w ∧ (Orphans.delete_orphan pod w).1 = Ok tt ∧
  ct_kube (Orphans.delete_orphan pod w).2 =
    ct_kube w ++ [UpdatePod (p_Namespace pod) (set_Finalizers [] pod);
                  DeletePod (p_Namespace pod) (p_Name pod)].
Proof.
  unfold Orphans.delete_orphan, ignore, on_api, try, mbind, M_bind. simpl.
  by rewrite <- app_assoc.
Qed.

(** A check leaves the tables alone, never fails and sends nothing, or the
    deletion of an orphan. *)
Lemma check_pod_sends pod age (w : W) :
  let out := Orphans.check_pod Sscan_int pod age w in
  st_tables (ct_db out.2) = st_tables (ct_db w) ∧ out.1 = Ok tt ∧
  (nofault (ct_db w) → nofault (ct_db out.2)) ∧
  ((ct_kube out.2 = ct_kube w ∧ (nofault (ct_db w) → ¬ orphan (st_tables (ct_db w)) pod age)) ∨
   (orphan (st_tables (ct_db w)) pod age ∧
    ct_kube out.2 = ct_kube w ++ [UpdatePod (p_Namespace pod) (set_Finalizers [] pod);
                                  DeletePod (p_Namespace pod) (p_Name pod)])).
Proof.
  cbv zeta. unfold Orphans.check_pod.
  destruct (age <? Orphans.orphanPodGrace)%Z eqn:Eage.
  { split_and!; try done. left. split; [done|]. intros _ [Hage _]. lia. }
  destruct (p_Annotations pod !! kontrolerTaskRunID) as [v|] eqn:Ev.
  2: { split_and!; try done. left. split; [done|]. intros _ (_ & v & id & Hv & _). congruence. }
  case_bool_decide as Hv.
  { split_and!; try done. left. split; [done|]. intros _ (_ & v' & id & Hv' & Hne & _). by simplify_eq. }
  destruct (Sscan_int v) as [id|e] eqn:Es.
  2: { split_and!; try done. left. split; [done|]. intros _ (_ & v' & id & Hv' & _ & Hs & _). congruence. }
  assert (orphan (st_tables (ct_db w)) pod age ↔ ¬ live_task_run id (st_tables (ct_db w))) as Ho.
  { split.
    - intros (_ & v' & id' & Hv' & _ & Hs & Hl). assert (v' = v) as -> by congruence. assert (id' = id) as -> by congruence. done.
    - intros Hl. split; [lia|]. by exists v, id. }
  pose proof (GetTaskRunStatus_live id (ct_db w)) as (Ht & Hq & Hst).
  unfold mbind, M_bind, try, on_db.
  change (db_GetTaskRunStatus id (ct_db w)) with (GetTaskRunStatus id (ct_db w)).
  destruct (GetTaskRunStatus id (ct_db w)) as [r s]. simpl in Ht, Hq, Hst.
  pose proof (delete_orphan_sends pod (mkCtl s (ct_kube w) (ct_logs w))) as (Hd1 & Hd2 & Hd3).
  destruct r as [status|e].
  - destruct ((status =b "running") || (status =b "pending")) eqn:Er.
    + split_and!; try done. left. split; [done|]. intros _ Hl%Ho. apply Hl, Hst.
      apply orb_true_iff in Er as [Er|Er]; apply bool_decide_eq_true in Er as ->; set_solver.
    + apply orb_false_iff in Er as [E1 E2]. apply bool_decide_eq_false in E1. apply bool_decide_eq_false in E2.
      split_and!; [by rewrite Hd1|done|by rewrite Hd1|]. right. split; [|done]. apply Ho.
      rewrite Hst. set_solver.
  - case_bool_decide as He.
    + split_and!; [by rewrite Hd1|done|by rewrite Hd1|]. right. split; [|done]. apply Ho. by apply Hst.
    + split_and!; try done. left. split; [done|]. intros Hn. by destruct He; apply Hst.
Qed.

(** The pods that are asked to be deleted, and the orphans of a list. *)
Definition orphans_deleted (t : Tables) (pods : list (Pod * Z)) (new : list Call) : Prop :=
  ∀ namespace name, DeletePod namespace name ∈ new →
    ∃ pod age, (pod, age) ∈ pods ∧ p_Namespace pod = namespace ∧ p_Name pod = name ∧
      orphan t pod age.

Lemma check_pods_sends pods : ∀ w : W,
  let out := foreach (λ p, Orphans.check_pod Sscan_int p.1 p.2) pods w in
  st_tables (ct_db out.2) = st_tables (ct_db w) ∧ out.1 = Ok tt ∧
  ∃ new, ct_kube out.2 = ct_kube w ++ new ∧ orphans_deleted (st_tables (ct_db w)) pods new ∧
    (nofault (ct_db w) → ∀ pod age, (pod, age) ∈ pods → orphan (st_tables (ct_db w)) pod age →
       DeletePod (p_Namespace pod) (p_Name pod) ∈ new).
Proof.
  induction pods as [|[pod age] pods IH]; intros w; cbv zeta.
  { split_and!; try done. exists []. rewrite app_nil_r. split_and!; [done| |].
    - intros ns n Hin. by apply elem_of_nil in Hin.
    - intros _ p a Hin. by apply elem_of_nil in Hin. }
  pose proof (check_pod_sends pod age w) as Hc. cbv zeta in Hc. simpl.
  unfold mbind, M_bind. destruct (Orphans.check_pod Sscan_int pod age w) as [r w1] eqn:E. simpl in Hc.
  destruct Hc as (Ht & -> & Hq & Hc). specialize (IH w1). cbv zeta in IH. rewrite Ht in IH.
  destruct IH as (Ht2 & Hr2 & new & Hk & Hdel & Hall).
  split_and!; [done|done|].
  destruct Hc as [[Hk1 Hno]|[Ho Hk1]].
  - exists new. rewrite Hk, Hk1. split_and!; [done| |].
    + intros ns n (p & a & Hin & Hp)%Hdel. exists p, a. split; [by right|done].
    + intros Hn p a [Heq|Hin]%elem_of_cons Ho; [|by apply (Hall (Hq Hn) p a)]. simplify_eq. by destruct (Hno Hn).
  - exists ([UpdatePod (p_Namespace pod) (set_Finalizers [] pod); DeletePod (p_Namespace pod) (p_Name pod)] ++ new).
    rewrite Hk, Hk1, app_assoc. split_and!; [done| |].
    + intros ns n [Heq|[Heq|Hin]%elem_of_cons]%elem_of_cons; [done| |].
      * simplify_eq. exists pod, age. split; [left|done].
      * apply Hdel in Hin as (p & a & Hin & Hp). exists p, a. split; [by right|done].
    + intros Hn p a [Heq|Hin]%elem_of_cons Ho2; [simplify_eq; right; left|].
      right. right. by apply (Hall (Hq Hn) p a).
Qed.

(** A tick of the orphan reconciler never fails and leaves the database
    alone; it asks only for the deletion of listed pods that are older than the
    grace period and whose task run is neither running nor pending, whichever
    statements fail, and when none fails it asks for the deletion of each of
    them. *)
Theorem orphans_spare_live_pods (w : W) :
  let out := Orphans.reconcile_orphans Sscan_int w in
  let listed := answer srv ListManagedPods (ct_kube w) in
  st_tables (ct_db out.2) = st_tables (ct_db w) ∧ out.1 = Ok tt ∧
  ∃ new, ct_kube out.2 = ct_kube w ++ ListManagedPods :: new ∧
    match listed with
    | Err _ => new = []
    | Ok pods =>
        orphans_deleted (st_tables (ct_db w)) pods new ∧
        (nofault (ct_db w) → ∀ pod age, (pod, age) ∈ pods → orphan (st_tables (ct_db w)) pod age →
           DeletePod (p_Namespace pod) (p_Name pod) ∈ new)
    end.
Proof.
  cbv zeta. unfold Orphans.reconcile_orphans, mbind, M_bind, try, on_api.
  change (pods_List_managed (ct_kube w)) with (call srv ListManagedPods (ct_kube w)). unfold call.
  destruct (answer srv ListManagedPods (ct_kube w)) as [pods|e] eqn:Ea.
  - pose proof (check_pods_sends pods (mkCtl (ct_db w) (ct_kube w ++ [ListManagedPods]) (ct_logs w))) as Hc.
    destruct Hc as (Ht & Hr & new & Hk & Hc). split_and!; [done|done|]. exists new.
    rewrite Hk. simpl. by rewrite <- app_assoc.
  - split_and!; [done|done|]. by exists [].
Qed.

End server.

(** ** Witnesses *)

(** A DagRun of the example DAG, before and during its deletion, and a server that
    knows one DagRun and accepts every patch of one. *)
Definition demo_dagrun (deleting : bool) (id : Z) : DagRun :=
  mkDagRun "run-1" "default" [Runs.dagRunFinalizer] deleting etl_run id.

Definition demo_server (dagRun : DagRun) : Server :=
  mkServer
    (λ c _, match c as c return result (Reply c) with
            | GetDagRun _ _ => Ok dagRun
            | PatchDagRun _ new => Ok new
            | PatchDagRunStatus _ new => Ok new
            | _ => Err (not_found "object")
            end)
    (λ _, true) (λ _, false) (λ _, false).

(** The file store, with nothing in it. *)
#[local] Instance demo_pod_logs : PodLogs Cluster := demo_logs [].

Definition demo_ctl (s : Store) : Ctl Store (list Call) (Logs Cluster Disk) := mkCtl s [] collect_files.

#[local] Abbreviation demo_reconcile dagRun s :=
  (@Runs.Reconcile Store (list Call) (Logs Cluster Disk) (server_manager demo_env)
    (server_api (demo_server dagRun)) (server_client (demo_server dagRun)) File_store
    (mkCtlEnv demo_lib true) "default" "run-1" (demo_ctl s)).

Lemma pair_fst {A B} (p : A * B) a : p.1 = a → p = (a, p.2).
Proof. destruct p. simpl. by intros ->. Qed.

(** The database with the example DAG and no run. *)
Definition demo_dag_stored : Store := run_calls demo_env [CInsertDAG demo_dag "default"] demo_store.

Lemma demo_dag_stored_ok : tables_ok (st_tables demo_dag_stored).
Proof.
  apply (reachable_db_inv demo_env), run_calls_reachable. exact (fresh_reachable demo_env [] 1000 0).
Qed.

Lemma demo_reconcile_ok : (demo_reconcile (demo_dagrun false 0) demo_dag_stored).1 = Ok false.
Proof. vm_compute. reflexivity. Qed.

Lemma demo_reconciled :
  demo_reconcile (demo_dagrun false 0) demo_dag_stored =
    (Ok false, (demo_reconcile (demo_dagrun false 0) demo_dag_stored).2).
Proof. exact (pair_fst _ _ demo_reconcile_ok). Qed.


#[local] Abbreviation demo_deletion := (demo_reconcile (demo_dagrun true 1) demo_run).

(** Deleting the run of the example: the last request is the patch. *)
Lemma demo_deletion_sends :
  demo_deletion.1 = Ok false ∧
  ct_kube demo_deletion.2 =
    [GetDagRun "default" "run-1"; GetPVC "default" "run-1-pvc";
     PatchDagRun (demo_dagrun true 1) (unfinalized (demo_dagrun true 1))].
Proof. vm_compute. done. Qed.

Lemma demo_deleted : demo_deletion = (Ok false, demo_deletion.2).
Proof. exact (pair_fst _ _ (proj1 demo_deletion_sends)). Qed.

Lemma deletion_cleans_first_witness :
  cleaned (mkCtlEnv demo_lib true) (demo_dagrun true 1) (demo_ctl demo_run) demo_deletion.2.
Proof.
  pose proof (deletion_cleans_first demo_env (mkCtlEnv demo_lib true) (demo_server (demo_dagrun true 1))
    "default" "run-1" (demo_dagrun true 1) (demo_ctl demo_run) demo_deletion.2 (Ok false)
    [GetDagRun "default" "run-1"; GetPVC "default" "run-1-pvc";
     PatchDagRun (demo_dagrun true 1) (unfinalized (demo_dagrun true 1))]
    eq_refl eq_refl eq_refl) as H.
  apply (proj1 (H demo_deleted (proj2 demo_deletion_sends))).
  exists (demo_dagrun true 1), (unfinalized (demo_dagrun true 1)). right. right. left.
Defined.
