(* ===== verification/DagControllerSpec.v ===== *)
(** * What the DAG controller lets into the database

    The validation of the controller and the insertion of the SQLite manager
    together: whatever the API server answers and whichever statements fail, no
    stored DAG has a cycle. *)

From S2P Require Import Prelude Api Graph DagValidation DslValidator Kube Store SqliteDag SqliteRun Database StoredDag TaskRelease DagManager LogStore Controllers ApiTrace ControllerSpec.
Import DagDb RunDb Calls Checks.
Local Open Scope kontroler_scope.

(** ** Specification *)

(** The recorded dependencies of every DAG are acyclic. *)
Definition dags_acyclic (t : Tables) : Prop := ∀ id, acyclic (stored_edge t id).

Definition stored_ok (t : Tables) : Prop := db_refs t ∧ dags_acyclic t.

Definition is_InsertDAG (c : DbCall) : bool := match c with CInsertDAG _ _ => true | _ => false end.

(** The database under the DAG controller and every other client: DAGs are
    inserted by the controller only, in answer to a request about an object. *)
Section system.
Context (denv : DbEnv) (parseString : string → GoError + DagDsl.DSLRoot) (digest : string → string)
  (pick : gset string → string).

Definition reconcile_dag (srv : Server) (namespace name : string) : M (Ctl Store (list Call) unit) unit :=
  @Dags.Reconcile Store (list Call) unit (SqliteManager denv) (Server_api srv) (Server_client srv)
    parseString digest pick namespace name.

Inductive dag_step : Store → Store → Prop :=
| dag_reconciled srv history namespace name s :
    dag_step s (ct_db (reconcile_dag srv namespace name (mkCtl s history tt)).2)
| dag_called c s : is_InsertDAG c = false → dag_step s (run_call denv c s).2
| dag_world s faults now zone :
    dag_step s (mkStore (st_tables s) faults now zone (st_uuids s)).

End system.

(** While a DAG is inserted: its edges so far are among those of its spec. *)
Definition inserting_edges (tasks : list TaskSpec) (dagID : Z) (t : Tables) : Prop :=
  inserting dagID t ∧ (∀ id, id ≠ dagID → acyclic (stored_edge t id)) ∧
  ∀ a b, stored_edge t dagID a b → depends tasks a b.

(** ** Edges *)

Lemma acyclic_mono {A} (R R' : A → A → Prop) : (∀ a b, R' a b → R a b) → acyclic R → acyclic R'.
Proof.
  intros H Hac a Ha. apply (Hac a). revert Ha. generalize a at 2 4. intros b Ha.
  induction Ha; eauto using tc_once, tc_l.
Qed.

Lemma stored_edge_sub t t' id a b :
  (∀ d, d ∈ tb_Dependencies t' → d ∈ tb_Dependencies t) →
  (∀ dt, dt ∈ tb_DAG_Tasks t' → dt ∈ tb_DAG_Tasks t) →
  stored_edge t' id a b → stored_edge t id a b.
Proof.
  intros Hd Ht (d & dta & dtb & H1 & H2 & H3 & H). exists d, dta, dtb. auto.
Qed.

Lemma acyclic_sub t t' :
  (∀ d, d ∈ tb_Dependencies t' → d ∈ tb_Dependencies t) →
  (∀ dt, dt ∈ tb_DAG_Tasks t' → dt ∈ tb_DAG_Tasks t) → dags_acyclic t → dags_acyclic t'.
Proof. intros Hd Ht Hac id. eapply acyclic_mono; [|apply Hac]. intros a b. by apply stored_edge_sub. Qed.

Lemma acyclic_same t t' :
  dags_acyclic t → tb_Dependencies t' = tb_Dependencies t → tb_DAG_Tasks t' = tb_DAG_Tasks t →
  dags_acyclic t'.
Proof. intros Hac E1 E2. by eapply acyclic_sub; [by rewrite E1|by rewrite E2|]. Qed.

(** A new task of a DAG has no edges yet. *)
Lemma stored_edge_add_task r t id a b :
  (∀ k, dt_dag_task_id (r k) = k) → refs_ok t →
  stored_edge (add_DAG_Task r t) id a b → stored_edge t id a b.
Proof.
  intros Hr Hrefs (d & dta & dtb & Hd & Ha & Hb & E1 & E2 & E3 & E4 & E5 & E6).
  destruct (rf_deps _ Hrefs d Hd) as [L1 L2]. simpl in Ha, Hb, Hd.
  exists d, dta, dtb. split_and!; try done.
  - apply elem_of_app in Ha as [Ha| ->%list_elem_of_singleton]; [done|]. rewrite Hr in E5. lia.
  - apply elem_of_app in Hb as [Hb| ->%list_elem_of_singleton]; [done|]. rewrite Hr in E6. lia.
Qed.

(** A new dependency adds the edge between the names of its tasks. *)
Lemma stored_edge_add_dependency t dt dt' id a b :
  tables_ok t → dt ∈ tb_DAG_Tasks t → dt' ∈ tb_DAG_Tasks t →
  stored_edge (add_Dependency (mkDependencyRow (dt_dag_task_id dt) (dt_dag_task_id dt')) t) id a b →
  stored_edge t id a b ∨ (id = dt_dag_id dt ∧ a = dt_name dt ∧ b = dt_name dt').
Proof.
  intros Hok Hdt Hdt' (d & dta & dtb & Hd & Ha & Hb & E1 & E2 & E3 & E4 & E5 & E6).
  simpl in Ha, Hb, Hd. apply elem_of_app in Hd as [Hd| ->%list_elem_of_singleton].
  - left. by exists d, dta, dtb.
  - simpl in E5, E6. right.
    rewrite <- E1, <- E3, <- E4, (dag_task_unique t dt dta), (dag_task_unique t dt' dtb) by done. done.
Qed.

(** ** The insertion of a DAG *)

Lemma edges_same tasks dagID t t' :
  inserting dagID t' → tb_Dependencies t' = tb_Dependencies t → tb_DAG_Tasks t' = tb_DAG_Tasks t →
  inserting_edges tasks dagID t → inserting_edges tasks dagID t'.
Proof.
  intros Hi E1 E2 (_ & Ho & He). unfold inserting_edges, stored_edge in *. rewrite E1, E2. by split.
Qed.

(** A statement that touches neither the tasks of DAGs nor the dependencies. *)
Ltac edges_step :=
  match goal with
  | H : inserting_edges _ _ ?t |- _ =>
      pose proof H as ((? & ? & ?) & _); apply (edges_same _ _ t); [|reflexivity|reflexivity|exact H];
      split; [eauto 4 with db|split; [by eapply refs_same|done]]
  end.

Lemma insertTask_edges env tasks dagID task ns v :
  triple (inserting_edges tasks dagID) (insertTask env dagID task ns v)
    (on_ok (λ _ t, inserting_edges tasks dagID t)).
Proof.
  unfold insertTask. eapply triple_bind.
  { apply (triple_keeps (inserting_edges tasks dagID)). keeps_walk.
    edges_step. }
  intros taskId. apply triple_insert. intros t ((Hok & Hr & Hs) & Ho & He) _.
  split; [|split].
  - split; [by apply wf_add_DAG_Task|]. split; [|done]. apply refs_add_DAG_Task; [|done].
    intros k. simpl. lia.
  - intros id Hid. eapply acyclic_mono; [|by apply Ho]. intros a b. by apply stored_edge_add_task.
  - intros a b Hab. apply He. by eapply stored_edge_add_task in Hab.
Qed.

Lemma connect_edges tasks dagID task v dep :
  depends tasks (ts_Name task) dep →
  triple (inserting_edges tasks dagID) (connect_dependency dagID task v dep)
    (on_ok (λ _ t, inserting_edges tasks dagID t)).
Proof.
  intros Hdep. unfold connect_dependency. eapply triple_bind.
  { apply (triple_found _ _ (λ dt t, dt ∈ find_dag_task dagID (ts_Name task) t)).
    by intros t x _ [_ Hx]%elem_of_where. }
  intros [dt|e]; [|apply triple_throw]. eapply triple_bind.
  { apply (triple_found _ _ (λ dt t, dt ∈ find_dag_task dagID dep t)).
    intros t x _ Hx. destruct (first_max _ _) eqn:E; simpl in Hx;
      [apply list_elem_of_singleton in Hx as ->|by apply elem_of_nil in Hx].
    by apply first_max_elem in E. }
  intros [dt'|e]; [|case_match; apply triple_throw].
  apply triple_insert. intros t [[((Hok & Hr & Hs) & Ho & He) Hdt] Hdt'] _.
  apply find_dag_task_elem in Hdt as (Hid & Hn & Hin).
  apply find_dag_task_elem in Hdt' as (Hid' & Hn' & Hin').
  split; [|split].
  - split; [by apply wf_add_Dependency|]. split; [|done].
    apply refs_add_Dependency; [by apply dag_task_le..|done].
  - intros id Hne. eapply acyclic_mono; [|by apply (Ho id)]. intros a b Hab.
    apply stored_edge_add_dependency in Hab as [Hab|(-> & _)]; done.
  - intros a b Hab. apply stored_edge_add_dependency in Hab as [Hab|(_ & -> & ->)];
      [by apply He|by rewrite Hn, Hn'|done..].
Qed.

Lemma insertDAG_acyclic env dag v ns h :
  acyclic (depends (ds_Task (dag_Spec dag))) →
  triple stored_ok (insertDAG env dag v ns h) (on_ok (λ _ t, dags_acyclic t)).
Proof.
  intros Hac. set (tasks := ds_Task (dag_Spec dag)) in *. unfold insertDAG.
  eapply triple_bind; [apply triple_keeps; keeps_walk|]. intros nextTime.
  eapply triple_bind.
  { apply (triple_insert_ret _ _ _ _ _ (inserting_edges tasks)). intros t [[Hok Hr] Ha] Hc.
    split; [split; [eauto 4 with db|split; [by apply refs_add_DAG|done]]|]. split; [intros id _; apply Ha|].
    intros a b (d & dta & dtb & _ & Hin & _ & Hid & _). apply (rf_dag_tasks _ Hr) in Hin. simpl in Hid. lia. }
  intros dagID. eapply triple_bind.
  { apply (triple_keeps (inserting_edges tasks dagID)). unfold insertWorkspace. keeps_walk;
      edges_step. }
  intros []. eapply triple_bind.
  { apply (triple_foreach (λ _, inserting_edges tasks dagID)). intros. apply insertTask_edges. }
  intros []. eapply triple_bind.
  { apply (triple_foreach (λ _, inserting_edges tasks dagID)). intros task rest Htask.
    apply (triple_foreach (λ _, inserting_edges tasks dagID)). intros dep rest' Hdep.
    apply connect_edges. by exists task. }
  intros []. apply triple_weaken with (P := inserting_edges tasks dagID)
    (Q := λ _, inserting_edges tasks dagID); [|done|].
  - apply (triple_foreach (λ _, inserting_edges tasks dagID)). intros p rest _. apply triple_insert.
    intros t H _. pose proof H as ((Hok & Hr & Hs) & _). apply (edges_same _ _ t); [|reflexivity|reflexivity|exact H].
    split; [eauto 4 with db|]. split; [|done].
    apply refs_add_DAG_Parameter; [|done]. intros k. simpl. lia.
  - intros _ t (_ & Ho & He) id. destruct (decide (id = dagID)) as [->|Hne]; [|by apply Ho].
    by eapply acyclic_mono.
Qed.

Lemma InsertDAG_acyclic env dag ns :
  acyclic (depends (ds_Task (dag_Spec dag))) →
  triple stored_ok (InsertDAG env dag ns) (on_ok (λ _ t, dags_acyclic t)).
Proof.
  intros Hac. apply triple_in_tx. eapply triple_bind; [apply triple_row_or_None|]. intros existing.
  destruct (match existing with Some d => _ | None => _ end) as [[[id version] hash] susp] eqn:E.
  eapply triple_bind; [apply triple_keeps, keeps_lift|]. intros hashValue.
  destruct (hash =b hashValue); [destruct (negb (susp =b _))|].
  - apply triple_weaken with (P := dags_acyclic) (Q := λ _, dags_acyclic); [|by intros t [[] ?]|done].
    apply triple_keeps. unfold setSuspended. keeps_walk; by eapply acyclic_same.
  - apply triple_throw.
  - eapply triple_bind.
    + eapply triple_weaken; [by apply insertDAG_acyclic|by intros t [? _]|by intros a t Hx; exact Hx].
    + intros []. unfold setInactive. apply triple_exec. intros t Ht. by eapply acyclic_same.
Qed.

Lemma stored_ok_InsertDAG env dag ns :
  acyclic (depends (ds_Task (dag_Spec dag))) → keeps stored_ok (InsertDAG env dag ns).
Proof.
  intros Hac s Hs. split; [apply keeps_refs_InsertDAG, Hs|].
  pose proof (InsertDAG_acyclic env dag ns Hac s Hs) as Ht.
  assert (atomic (InsertDAG env dag ns)) as Ha by apply atomic_in_tx. specialize (Ha s).
  destruct (InsertDAG env dag ns s) as [[a|e] s']; simpl in *; [done|].
  rewrite Ha by done. apply Hs.
Qed.

Lemma acyclic_other env c : is_InsertDAG c = false → keeps dags_acyclic (run_call env c).
Proof.
  destruct c; intros Hc; try discriminate Hc; clear Hc; simpl; autounfold with db_ops; keeps_walk;
    try (apply keeps_runnable_loop || apply keeps_GetTaskRefsParameters);
    first [by eapply acyclic_same
          |eapply acyclic_sub; [| |done]; [done|]; by intros dt [_ ?]%elem_of_where].
Qed.

Lemma stored_ok_call env c : is_InsertDAG c = false → keeps stored_ok (run_call env c).
Proof.
  intros Hc s [H1 H2]. split; [by apply keeps_refs_call|]. by apply acyclic_other.
Qed.

(** ** The controller *)

Lemma ValidateDAG_acyclic pick refParams dag :
  ValidateDAG pick refParams dag = None → acyclic (depends (ds_Task dag)).
Proof.
  unfold ValidateDAG. rewrite !or_else_None. intros (_ & _ & H & _). by apply checkNoCycles_spec.
Qed.

Section controller.
Context (denv : DbEnv) (parseString : string → GoError + DagDsl.DSLRoot) (digest : string → string)
  (pick : gset string → string).

(** If the tables were as they should be, they still are. *)
Definition still_ok (t t' : Tables) : Prop := stored_ok t → stored_ok t'.

#[local] Instance still_ok_preorder : PreOrder still_ok.
Proof. split; [by intros t Ht|]. intros t1 t2 t3 H1 H2 H. by apply H2, H1. Qed.

#[local] Abbreviation ok_step := (on_tables (C := list Call) (L := unit) still_ok).

Lemma still_ok_db {A} (m : M Store A) : keeps stored_ok m → steps ok_step (on_db m).
Proof.
  intros Hm w Hok. specialize (Hm (ct_db w) Hok). unfold on_db. by destruct (m (ct_db w)).
Qed.

Lemma still_ok_call {A} (m : M Store A) c :
  is_InsertDAG c = false → run_call denv c = done m → steps ok_step (on_db m).
Proof.
  intros Hc Hm. apply still_ok_db. intros s Hs. pose proof (stored_ok_call denv c Hc s Hs) as H.
  rewrite Hm in H. unfold done, mbind, M_bind in H. by destruct (m s) as [[a|e] s'].
Qed.

Lemma reconcile_keeps_ok srv namespace name :
  steps ok_step (reconcile_dag denv parseString digest pick srv namespace name).
Proof.
  unfold reconcile_dag, Dags.Reconcile, Dags.handleDeletion, Dags.removingDagTaskFinalisers,
    Dags.process_dsl, Dags.validate_and_store, Dags.updatingDagTaskFinalisers, Dags.markDAGFailed,
    Dags.markDAGSuccessful, Dags.mark, ignore.
  steps_walk_with ltac:(first
    [ apply tables_api; exact _
    | apply (still_ok_call _ (CDeleteDAG name namespace)); reflexivity
    | eapply (still_ok_call _ (CGetTaskRefsParameters _)); reflexivity
    | apply still_ok_db, stored_ok_InsertDAG; by eapply ValidateDAG_acyclic ]).
Qed.

(** C4: No stored DAG has a cycle: in every state of the database that the DAG
    controller and the other clients reach, whatever the API server answers,
    whatever the objects say and whichever statements fail, the dependencies
    recorded for each DAG are acyclic. *)
Theorem stored_dags_acyclic (s : Store)
    (Hs : rtc (dag_step denv parseString digest pick) empty_store s) :
  dags_acyclic (st_tables s).
Proof.
  assert (stored_ok (st_tables empty_store)) as H0.
  { split; [split; [apply (reachable_db_inv denv empty_store), rtc_refl
                   |apply (reachable_refs denv empty_store), rtc_refl]|].
    intros id a Ha. assert (∃ b, stored_edge emptyTables id a b) as [b (d & _ & _ & Hd & _)].
    { inversion Ha; subst; eauto. }
    by apply elem_of_nil in Hd. }
  assert (stored_ok (st_tables s)) as [_ H]; [|exact H]. revert H0.
  induction Hs as [|s1 s2 s3 Hstep _ IH]; [done|]. intros H1. apply IH.
  destruct Hstep as [srv history namespace name s|c s Hc|s faults now zone]; [|by apply stored_ok_call|done].
  by apply (reconcile_keeps_ok srv namespace name (mkCtl s history tt)).
Qed.

End controller.

(** ** Witness *)

(** A server that knows the example DAG. *)
Definition etl_server : Server :=
  mkServer
    (λ c _, match c as c return result (Reply c) with
            | GetDAG _ _ => Ok demo_dag
            | PatchDAGStatus _ _ new => Ok new
            | _ => Err (EErrorf "not found")
            end)
    (λ _, true) (λ _, false) (λ _, false).

Definition no_dsl (text : string) : GoError + DagDsl.DSLRoot := inl (EErrorf "no DSL").

Definition etl_reconciled : Store :=
  ct_db (reconcile_dag demo_env no_dsl id first_key etl_server "default" "etl" (mkCtl empty_store [] tt)).2.

Lemma stored_dags_acyclic_witness :
  d_name <$> tb_DAGs (st_tables etl_reconciled) = ["etl"] ∧
  length (tb_Dependencies (st_tables etl_reconciled)) = 4 ∧
  dags_acyclic (st_tables etl_reconciled).
Proof.
  split; [vm_compute; reflexivity|]. split; [vm_compute; reflexivity|].
  apply (stored_dags_acyclic demo_env no_dsl id first_key etl_reconciled).
  apply rtc_once. exact (dag_reconciled demo_env no_dsl id first_key etl_server [] "default" "etl" empty_store).
Defined.
