(* ===== verification/Scheduler.v ===== *)
(** * The scheduler (internal/dag/dagScheduler.go)

    Once a minute the DAGs that are due are taken from the database, which
    advances their schedule, and a DagRun object is created for each of them, with
    a bounded number of attempts. *)

From S2P Require Import Prelude Api Store SqliteDag Database StoredDag TaskRelease DagManager Controllers.
Import DagDb Calls.
Local Open Scope kontroler_scope.

(** A DagRun object as it is created. *)
Record NewDagRun := mkNewDagRun {
  nd_APIVersion : string;
  nd_Kind : string;
  nd_Name : string;
  nd_Namespace : string;
  nd_Labels : gmap string string;
  nd_Spec : DagRunSpec
}.

(** The client that creates objects of the library's untyped kind [U], the source
    of UUIDs, and the wait: whether it ended before the context was cancelled. *)
Class DynamicClient (U C : Type) := {
  uuid_NewString : M C string;
  dagruns_Create (namespace : string) (obj : U) : M C unit;
  time_After (ms : Z) : M C bool
}.

(** [strings.ToLower], on ASCII. *)
Definition lower_ascii (c : Ascii.ascii) : Ascii.ascii :=
  let n := Ascii.nat_of_ascii c in
  if bool_decide (65 <= n)%nat && bool_decide (n <= 90)%nat then Ascii.ascii_of_nat (n + 32) else c.

Fixpoint ToLower (s : string) : string :=
  match s with
  | EmptyString => EmptyString
  | String c rest => String (lower_ascii c) (ToLower rest)
  end.

Module Scheduler.

Definition apiVersion : string := "kontroler.greedykomodo/v1alpha1".
Definition kind : string := "DagRun".
Definition createdBy : string := "app.kubernetes.io/created-by".
Definition createdByValue : string := "konductor-operator".

Definition maxCreateDagRunRetries : nat := 5.
(** Milliseconds. *)
Definition initialRetryBackoff : Z := 500.

Definition shouldRetryCreateDagRun (err : GoError) : bool :=
  let msg := ToLower (err_Error err) in
  if contains "failed calling webhook" msg && contains "connection refused" msg then true
  else if contains "failed calling webhook" msg && contains "i/o timeout" msg then true
  else if contains "service unavailable" msg then true
  else false.

Definition CreateDagRunObject (dagInfo : DagInfo) (name : string) : NewDagRun :=
  mkNewDagRun apiVersion kind name (di_Namespace dagInfo) {[ createdBy := createdByValue ]}
    (mkDagRunSpec (di_DagName dagInfo) []).

(** Doubled up to five seconds. *)
Definition next_backoff (backoff : Z) : Z :=
  if bool_decide (backoff < 5000)%Z then
    let backoff := (backoff * 2)%Z in
    if bool_decide (5000 < backoff)%Z then 5000%Z else backoff
  else backoff.

Section scheduler.
Context {U D C L : Type} `{DagManager D} `{DynamicClient U C} (ToUnstructured : NewDagRun → result U).

(** The loop, with the number of attempts that are left. *)
Fixpoint attempt_loop (left : nat) (backoff : Z) (namespace : string) (obj : U) : M C unit :=
  match left with
  | O => mret tt
  | S left' =>
      r ← try (dagruns_Create namespace obj);
      match r with
      | Ok _ => mret tt
      | Err e =>
          if bool_decide (0 < left') && shouldRetryCreateDagRun e then
            waited ← time_After (U := U) backoff;
            if waited : bool then attempt_loop left' (next_backoff backoff) namespace obj
            else mret tt
          else mret tt
      end
  end.

Definition createDagRun (dagInfo : DagInfo) : M C unit :=
  uuid ← uuid_NewString (U := U);
  match ToUnstructured (CreateDagRunObject dagInfo ("dagrun-" +:+ uuid)) with
  | Err _ => mret tt
  | Ok obj => attempt_loop maxCreateDagRunRetries initialRetryBackoff (di_Namespace dagInfo) obj
  end.

(** One tick; the DagRuns are created concurrently, here one after the other. *)
Definition processDags (now : Z) : M (Ctl D C L) unit :=
  r ← try (on_db (db_GetDAGsToStartAndUpdate now));
  match r with
  | Err _ => mret tt
  | Ok dagInfos => foreach (λ dagInfo, on_api (createDagRun dagInfo)) dagInfos
  end.

End scheduler.
End Scheduler.

(** ** A server of which only the requests are known *)

Inductive Request (U : Type) :=
| RCreate (namespace : string) (obj : U)
| RWait (ms : Z).
Arguments RCreate {U}.
Arguments RWait {U}.

Record History (U : Type) := mkHistory { hi_requests : list (Request U); hi_uuids : nat }.
Arguments mkHistory {U}.
Arguments hi_requests {U}.
Arguments hi_uuids {U}.

Record ApiServer (U : Type) := mkApiServer {
  creates : string → U → list (Request U) → result unit;
  waits : Z → list (Request U) → bool;
  uuids : nat → string
}.
Arguments mkApiServer {U}.
Arguments creates {U}.
Arguments waits {U}.
Arguments uuids {U}.

Definition ask {U A} (answer : list (Request U) → result A) (r : Request U) : M (History U) A := λ h,
  (answer (hi_requests h), mkHistory (hi_requests h ++ [r]) (hi_uuids h)).

#[global] Instance ApiServer_dynamic {U} (cl : ApiServer U) : DynamicClient U (History U) := {
  uuid_NewString := λ h, (Ok (uuids cl (hi_uuids h)), mkHistory (hi_requests h) (S (hi_uuids h)));
  dagruns_Create namespace obj := ask (creates cl namespace obj) (RCreate namespace obj);
  time_After ms := ask (λ past, Ok (waits cl ms past)) (RWait ms)
}.

(** ** The attempts *)

Section attempts.
Context {U : Type} (cl : ApiServer U) (ToUnstructured : NewDagRun → result U).
Import Scheduler.
#[local] Instance requests : DynamicClient U (History U) := ApiServer_dynamic cl.

Definition is_create (r : Request U) : bool := match r with RCreate _ _ => true | RWait _ => false end.
Definition wait_of (r : Request U) : Z := match r with RCreate _ _ => 0%Z | RWait ms => ms end.
Definition waited (reqs : list (Request U)) : Z := foldr Z.add 0%Z (wait_of <$> reqs).

(** What the waits of the attempts that are left add up to. *)
Fixpoint wait_budget (left : nat) (backoff : Z) : Z :=
  match left with
  | O => 0%Z
  | S left' =>
      if bool_decide (0 < left') then (backoff + wait_budget left' (next_backoff backoff))%Z else 0%Z
  end.

(** How the attempts end, after the requests that came before. *)
Definition created (past : list (Request U)) (namespace : string) (obj : U) reqs : Prop :=
  ∃ pre, reqs = pre ++ [RCreate namespace obj] ∧ creates cl namespace obj (past ++ pre) = Ok tt.
Definition cancelled (past reqs : list (Request U)) : Prop :=
  ∃ pre ms, reqs = pre ++ [RWait ms] ∧ waits cl ms (past ++ pre) = false.
Definition refused (past : list (Request U)) (namespace : string) (obj : U) (left : nat) reqs : Prop :=
  ∃ pre e, reqs = pre ++ [RCreate namespace obj] ∧ creates cl namespace obj (past ++ pre) = Err e ∧
    (shouldRetryCreateDagRun e = true → length (where_ is_create reqs) = left).

(** The requests of the attempts to create one object. *)
Record attempts (past : list (Request U)) (namespace : string) (obj : U) (left : nat) (budget : Z)
    (reqs : list (Request U)) : Prop := {
  at_first : head reqs = Some (RCreate namespace obj);
  at_object : ∀ ns o, RCreate ns o ∈ reqs → ns = namespace ∧ o = obj;
  at_count : length (where_ is_create reqs) <= left;
  at_waited : (waited reqs <= budget)%Z;
  at_retried : ∀ pre post, reqs = pre ++ RCreate namespace obj :: post → post ≠ [] →
    ∃ e, creates cl namespace obj (past ++ pre) = Err e ∧ shouldRetryCreateDagRun e = true;
  at_end : created past namespace obj reqs ∨ cancelled past reqs ∨ refused past namespace obj left reqs
}.

Lemma next_backoff_pos b : (0 <= b)%Z → (0 <= next_backoff b)%Z.
Proof. unfold next_backoff. intros Hb. repeat case_bool_decide; lia. Qed.

Lemma wait_budget_pos left : ∀ b, (0 <= b)%Z → (0 <= wait_budget left b)%Z.
Proof.
  induction left as [|left IH]; intros b Hb; simpl; [lia|]. case_bool_decide; [|lia].
  specialize (IH _ (next_backoff_pos b Hb)). lia.
Qed.

Lemma wait_budget_S left b :
  0 < left → wait_budget (S left) b = (b + wait_budget left (next_backoff b))%Z.
Proof. intros Hl. cbn [wait_budget]. by rewrite bool_decide_eq_true_2. Qed.

(** One more attempt after a wait. *)
Lemma attempts_step past namespace obj left b e reqs :
  creates cl namespace obj past = Err e → shouldRetryCreateDagRun e = true →
  attempts (past ++ [RCreate namespace obj; RWait b]) namespace obj left (wait_budget left (next_backoff b)) reqs →
  0 < left →
  attempts past namespace obj (S left) (wait_budget (S left) b)
    (RCreate namespace obj :: RWait b :: reqs).
Proof.
  intros He Hr [_ Ho Hc Hw Hre Hend] Hl. split.
  - done.
  - intros ns o [Heq|[Heq|Hin]%elem_of_cons]%elem_of_cons; [by simplify_eq|done|by apply Ho].
  - simpl. lia.
  - rewrite wait_budget_S by done. unfold waited in *. rewrite !fmap_cons. cbn [foldr wait_of]. lia.
  - intros [|x [|y pre]] post Heq Hpost; simplify_list_eq.
    + exists e. by rewrite ?app_nil_r.
    + destruct (Hre pre post eq_refl Hpost) as (e' & He' & Hr'). exists e'.
      by rewrite <- app_assoc in He'.
  - destruct Hend as [(pre & -> & H)|[(pre & ms & -> & H)|(pre & e' & -> & H & Hn)]];
      rewrite <- app_assoc in H; simpl in H.
    + left. by exists (RCreate namespace obj :: RWait b :: pre).
    + right. left. by exists (RCreate namespace obj :: RWait b :: pre), ms.
    + right. right. exists (RCreate namespace obj :: RWait b :: pre), e'. split_and!; [done|done|].
      intros Hr'. exact (f_equal S (Hn Hr')).
Qed.

(** A single attempt, and the wait after it that was cancelled. *)
Lemma attempts_once past namespace obj left b :
  (0 <= b)%Z →
  (∀ e, creates cl namespace obj past = Err e → shouldRetryCreateDagRun e = true → left = 0) →
  attempts past namespace obj (S left) (wait_budget (S left) b) [RCreate namespace obj].
Proof.
  intros Hb He. split.
  - done.
  - intros ns o Heq%list_elem_of_singleton. by simplify_eq.
  - simpl. lia.
  - exact (wait_budget_pos (S left) b Hb).
  - intros [|x pre] post Heq Hpost; [simpl in Heq; congruence|]. by destruct pre.
  - destruct (creates cl namespace obj past) as [[]|e] eqn:E.
    + left. exists []. by rewrite ?app_nil_r.
    + right. right. exists [], e. rewrite ?app_nil_r. split_and!; [done|done|]. intros Hr. simpl.
      by rewrite (He e).
Qed.

Lemma attempts_cancelled past namespace obj left b e :
  (0 <= b)%Z → creates cl namespace obj past = Err e → shouldRetryCreateDagRun e = true → 0 < left →
  waits cl b (past ++ [RCreate namespace obj]) = false →
  attempts past namespace obj (S left) (wait_budget (S left) b) [RCreate namespace obj; RWait b].
Proof.
  intros Hb He Hr Hl Hw. split.
  - done.
  - intros ns o [Heq|Heq%list_elem_of_singleton]%elem_of_cons; by simplify_eq.
  - simpl. lia.
  - pose proof (wait_budget_pos left _ (next_backoff_pos b Hb)). rewrite wait_budget_S by done.
    unfold waited. rewrite !fmap_cons. cbn [foldr wait_of fmap list_fmap]. lia.
  - intros [|x [|y pre]] post Heq Hpost; simplify_list_eq; [|by destruct pre].
    exists e. by rewrite ?app_nil_r.
  - right. left. by exists [RCreate namespace obj], b.
Qed.

Lemma attempt_loop_attempts left : ∀ b namespace obj h, 0 < left → (0 <= b)%Z →
  let out := attempt_loop left b namespace obj h in
  out.1 = Ok tt ∧ hi_uuids out.2 = hi_uuids h ∧ ∃ reqs,
    hi_requests out.2 = hi_requests h ++ reqs ∧
    attempts (hi_requests h) namespace obj left (wait_budget left b) reqs.
Proof.
  induction left as [|left IH]; intros b namespace obj h Hl Hb; [lia|]. cbv zeta.
  cbn [attempt_loop]. unfold mbind, M_bind, try.
  change (dagruns_Create namespace obj h) with (ask (creates cl namespace obj) (RCreate namespace obj) h).
  unfold ask. destruct (creates cl namespace obj (hi_requests h)) as [[]|e] eqn:E.
  { split_and!; [done|done|]. exists [RCreate namespace obj]. split; [done|].
    apply attempts_once; [done|]. by rewrite E. }
  destruct (bool_decide (0 < left) && shouldRetryCreateDagRun e) eqn:Er.
  - apply andb_true_iff in Er as [Hl'%bool_decide_eq_true Hr].
    assert ((hi_requests h ++ [RCreate namespace obj]) ++ [RWait b] =
      hi_requests h ++ [RCreate namespace obj; RWait b]) as Eh by (by rewrite <- app_assoc).
    set (h1 := mkHistory (hi_requests h ++ [RCreate namespace obj]) (hi_uuids h)).
    change (time_After (U := U) b h1) with (ask (λ past, Ok (waits cl b past)) (RWait b) h1).
    unfold ask, h1. cbn [hi_requests hi_uuids]. rewrite Eh.
    destruct (waits cl b (hi_requests h ++ [RCreate namespace obj])) eqn:Ew.
    + destruct (IH (next_backoff b) namespace obj
        (mkHistory (hi_requests h ++ [RCreate namespace obj; RWait b]) (hi_uuids h))
        Hl' (next_backoff_pos b Hb)) as (H1 & H2 & reqs & H3 & H4).
      split_and!; [done|done|]. exists (RCreate namespace obj :: RWait b :: reqs).
      rewrite H3. cbn [hi_requests]. rewrite <- app_assoc. split; [done|]. by eapply attempts_step.
    + split_and!; [done|done|]. exists [RCreate namespace obj; RWait b]. split; [done|].
      by eapply attempts_cancelled.
  - split_and!; [done|done|]. exists [RCreate namespace obj]. split; [done|].
    apply attempts_once; [done|]. intros e' He' Hr'. assert (e' = e) as -> by congruence.
    rewrite Hr', andb_true_r in Er. apply bool_decide_eq_false in Er. lia.
Qed.

Lemma createDagRun_requests (dagInfo : DagInfo) (obj : U) (h : History U) :
  ToUnstructured (CreateDagRunObject dagInfo ("dagrun-" +:+ uuids cl (hi_uuids h))) = Ok obj →
  let out := createDagRun ToUnstructured dagInfo h in
  out.1 = Ok tt ∧ hi_uuids out.2 = S (hi_uuids h) ∧ ∃ reqs,
    hi_requests out.2 = hi_requests h ++ reqs ∧
    attempts (hi_requests h) (di_Namespace dagInfo) obj 5 7500 reqs.
Proof.
  intros Hconv. cbv zeta. unfold createDagRun, mbind, M_bind.
  change (uuid_NewString (U := U) h) with (Ok (uuids cl (hi_uuids h)), mkHistory (hi_requests h) (S (hi_uuids h))).
  cbv iota beta. rewrite Hconv.
  exact (attempt_loop_attempts 5 500 (di_Namespace dagInfo) obj _ ltac:(lia) ltac:(lia)).
Qed.

(** C38: One DagRun is created with at most five requests, all of them for the
    same object under a fresh name, and waits of 7.5 seconds altogether; a
    request follows another only after a transient error, and the attempts end
    with a success, with a cancelled wait, with an error that is not transient, or
    after the fifth. *)
Theorem createDagRun_attempts (dagInfo : DagInfo) (obj : U) (h : History U)
    (Hconv : ToUnstructured (CreateDagRunObject dagInfo ("dagrun-" +:+ uuids cl (hi_uuids h))) = Ok obj) :
  let out := createDagRun ToUnstructured dagInfo h in
  out.1 = Ok tt ∧ hi_uuids out.2 = S (hi_uuids h) ∧ ∃ reqs,
    hi_requests out.2 = hi_requests h ++ reqs ∧
    attempts (hi_requests h) (di_Namespace dagInfo) obj 5 7500 reqs.
Proof. by apply createDagRun_requests. Qed.

End attempts.

(** ** A tick *)

(** The row of a DAG after the tick: when it was due, its next time is the one
    after the manager's clock. *)
Definition advance (env : DbEnv) (tm now : Z) (d : DagRow) : DagRow :=
  if dag_due env tm d
  then match cron_Parse env (d_schedule d) with Ok f => set_nexttime (f now) d | Err _ => d end
  else d.

Definition due_dags (env : DbEnv) (tm : Z) (t : Tables) : list DagRow := where_ (dag_due env tm) (tb_DAGs t).

(** The schedules of the DAGs that are due parse. *)
Definition schedules_parse (env : DbEnv) (tm : Z) (t : Tables) : Prop :=
  ∀ d, d ∈ due_dags env tm t → ∃ f, cron_Parse env (d_schedule d) = Ok f.

Definition next_of (env : DbEnv) (now : Z) (d : DagRow) : Z :=
  match cron_Parse env (d_schedule d) with Ok f => f now | Err _ => 0%Z end.

(** One row, after the update for a due DAG. *)
Definition update_one (env : DbEnv) (now : Z) (d x : DagRow) : DagRow :=
  if d_dag_id d =b d_dag_id x then set_nexttime (next_of env now x) d else d.

Lemma update_one_id env now d x : d_dag_id (update_one env now d x) = d_dag_id d.
Proof. unfold update_one. by case_bool_decide. Qed.

Lemma updates_rows env now l : ∀ rows,
  foldl (λ rows x, update_where (λ d, d_dag_id d =b d_dag_id x) (set_nexttime (next_of env now x)) rows) rows l =
  (λ d, foldl (update_one env now) d l) <$> rows.
Proof.
  induction l as [|x l IH]; intros rows; simpl; [by rewrite list_fmap_id|].
  rewrite IH. unfold update_where. by rewrite <- list_fmap_compose.
Qed.

Lemma updates_other env now l : ∀ d, d_dag_id d ∉ d_dag_id <$> l → foldl (update_one env now) d l = d.
Proof.
  induction l as [|x l IH]; intros d Hd; [done|]. rewrite fmap_cons, not_elem_of_cons in Hd. simpl.
  assert (update_one env now d x = d) as -> by (unfold update_one; by rewrite bool_decide_eq_false_2 by tauto).
  apply IH. tauto.
Qed.

Lemma updates_due env now l d :
  NoDup (d_dag_id <$> l) → d ∈ l → foldl (update_one env now) d l = set_nexttime (next_of env now d) d.
Proof.
  induction l as [|x l IH]; intros Hnd Hd; [by apply elem_of_nil in Hd|].
  rewrite fmap_cons in Hnd. apply NoDup_cons in Hnd as [Hx Hnd]. simpl.
  apply elem_of_cons in Hd as [<-|Hd].
  - assert (update_one env now d d = set_nexttime (next_of env now d) d) as ->
      by (unfold update_one; by rewrite bool_decide_eq_true_2).
    by apply updates_other.
  - assert (update_one env now d x = d) as ->; [|by apply IH].
    unfold update_one. rewrite bool_decide_eq_false_2; [done|]. intros E. apply Hx. rewrite <- E.
    by apply list_elem_of_fmap_2.
Qed.

Lemma updates_advance env tm now t :
  tables_ok t → schedules_parse env tm t →
  (λ d, foldl (update_one env now) d (due_dags env tm t)) <$> tb_DAGs t = advance env tm now <$> tb_DAGs t.
Proof.
  intros Hok Hp. destruct (wf_dags _ Hok) as [Hnd _]. apply list_fmap_ext. intros i d Hi%list_elem_of_lookup_2.
  unfold advance. destruct (dag_due env tm d) eqn:E.
  - assert (d ∈ due_dags env tm t) as Hd by by apply elem_of_where.
    rewrite updates_due by (done || by apply NoDup_where). unfold next_of.
    by destruct (Hp d Hd) as [f ->].
  - apply updates_other. intros (x & Hx & [Ex Hin]%elem_of_where)%list_elem_of_fmap.
    pose proof (where_key d_dag_id _ d Hnd Hi) as Hw.
    assert (x ∈ [d]) as ->%list_elem_of_singleton by (rewrite <- Hw; apply elem_of_where; by rewrite Hx, bool_decide_eq_true_2).
    congruence.
Qed.

Lemma wp_updates env l : ∀ s, nofault s →
  (∀ d, d ∈ l → ∃ f, cron_Parse env (d_schedule d) = Ok f) →
  wp (foreach (λ d : DagRow,
        sched ← lift (cron_Parse env (d_schedule d)); now ← gets st_now;
        exec (upd_DAGs (λ d', d_dag_id d' =b d_dag_id d) (set_nexttime (sched now)))) l) s
    (λ r s', r = Ok tt ∧ nofault s' ∧ st_tables s' =
      set_DAGs (foldl (λ rows x, update_where (λ d, d_dag_id d =b d_dag_id x)
        (set_nexttime (next_of env (st_now s) x)) rows) (tb_DAGs (st_tables s)) l)
        (sq_DAGs (st_tables s)) (st_tables s)).
Proof.
  induction l as [|x l IH]; intros s Hn Hp; simpl.
  { apply wp_ret. split_and!; [done|done|]. by destruct s as [[]]. }
  destruct (Hp x ltac:(left)) as [f Hf]. apply wp_bind, wp_bind. eapply wp_lift_ok; [done|].
  apply wp_bind, wp_gets, wp_exec_nofault; [done|].
  eapply wp_mono; [apply IH; [done|intros d Hd; apply Hp; by right]|].
  intros r s' (-> & Hn' & Ht). split_and!; [done|done|]. rewrite Ht. unfold next_of at 3. by rewrite Hf.
Qed.

Lemma wp_due env tm s :
  nofault s → tables_ok (st_tables s) → schedules_parse env tm (st_tables s) →
  wp (GetDAGsToStartAndUpdate env tm) s (λ r s',
    r = Ok (dag_info <$> due_dags env tm (st_tables s)) ∧
    st_tables s' = set_DAGs (advance env tm (st_now s) <$> tb_DAGs (st_tables s))
                     (sq_DAGs (st_tables s)) (st_tables s)).
Proof.
  intros Hn Hok Hp. apply wp_in_tx_nofault; [done|]. apply wp_bind, wp_query_nofault; [done|].
  apply wp_bind. eapply wp_mono; [by apply (wp_updates env (due_dags env tm (st_tables s)))|].
  intros r s' (-> & Hn' & Ht). apply wp_ret. split_and!; [done|done|].
  by rewrite Ht, updates_rows, updates_advance.
Qed.

Section tick.
Context {U L : Type} (cl : ApiServer U) (env : DbEnv) (ToUnstructured : NewDagRun → result U).
Import Scheduler.
#[local] Hint Extern 0 (DynamicClient _ _) => exact (requests cl) : typeclass_instances.
#[local] Instance tick_manager : DagManager Store := SqliteManager env.

(** The object of a DAG. *)
Definition object_of (d : DagRow) (obj : U) : Prop :=
  ∃ n, ToUnstructured (CreateDagRunObject (dag_info d) ("dagrun-" +:+ uuids cl n)) = Ok obj.

Lemma foreach_creates (l : list DagRow) : (∀ o, ∃ u, ToUnstructured o = Ok u) →
  ∀ w : Ctl Store (History U) L,
  let out := foreach (λ i, on_api (createDagRun ToUnstructured i)) (dag_info <$> l) w in
  out.1 = Ok tt ∧ ct_db out.2 = ct_db w ∧ ∃ reqs,
    hi_requests (ct_kube out.2) = hi_requests (ct_kube w) ++ reqs ∧
    (∀ ns obj, RCreate ns obj ∈ reqs → ∃ d, d ∈ l ∧ ns = d_namespace d ∧ object_of d obj) ∧
    (∀ d, d ∈ l → ∃ obj, RCreate (d_namespace d) obj ∈ reqs ∧ object_of d obj).
Proof.
  intros Hconv. induction l as [|d l IH]; intros w; cbv zeta.
  { split_and!; [done|done|]. exists []. rewrite app_nil_r. split_and!; [done| |].
    - intros ns obj Hin. by apply elem_of_nil in Hin.
    - intros d Hd. by apply elem_of_nil in Hd. }
  rewrite fmap_cons. cbn [foreach]. unfold mbind, M_bind.
  destruct (Hconv (CreateDagRunObject (dag_info d) ("dagrun-" +:+ uuids cl (hi_uuids (ct_kube w))))) as [obj Hobj].
  pose proof (createDagRun_requests cl ToUnstructured (dag_info d) obj (ct_kube w) Hobj) as Hc. cbv zeta in Hc.
  destruct (createDagRun ToUnstructured (dag_info d) (ct_kube w)) as [r h] eqn:Ec.
  assert (on_api (createDagRun ToUnstructured (dag_info d)) w = (r, mkCtl (ct_db w) h (ct_logs w))) as ->
    by (unfold on_api; by rewrite Ec).
  simpl in Hc. destruct Hc as (-> & _ & reqs & Hr & [Hfirst Hobjs _ _ _ _]).
  destruct (IH (mkCtl (ct_db w) h (ct_logs w))) as (H1 & H2 & reqs' & H3 & H4 & H5).
  split_and!; [done|done|]. exists (reqs ++ reqs'). rewrite H3, app_assoc. simpl. rewrite Hr.
  assert (object_of d obj) as Hd by by eexists.
  split_and!; [done| |].
  - intros ns o [Hin|Hin]%elem_of_app.
    + apply Hobjs in Hin as [-> ->]. exists d. split_and!; [left|done|done].
    + apply H4 in Hin as (d' & Hd' & H). exists d'. split; [by right|done].
  - intros d' [->|Hd']%elem_of_cons.
    + exists obj. split; [|done]. apply elem_of_app. left. destruct reqs; simplify_eq/=. left.
    + apply H5 in Hd' as (o & Hin & Ho). exists o. split; [|done]. apply elem_of_app. by right.
Qed.


End tick.

(** ** Examples *)

(** Servers that take objects as they are: one that is unavailable twice, one that
    refuses everything, one that accepts everything. *)
Definition flaky : ApiServer NewDagRun :=
  mkApiServer
    (λ _ _ past, if bool_decide (length past < 4) then Err (EErrorf "503 Service Unavailable") else Ok tt)
    (λ _ _, true) pretty.
Definition refusing : ApiServer NewDagRun :=
  mkApiServer (λ _ _ _, Err (EErrorf "namespaces is forbidden")) (λ _ _, true) pretty.
Definition accepting : ApiServer NewDagRun := mkApiServer (λ _ _ _, Ok tt) (λ _ _, true) pretty.

Definition etl_info : DagInfo := mkDagInfo 0 "etl" "default" false "" false.
Definition no_history : History NewDagRun := mkHistory [] 0.

Lemma createDagRun_attempts_witness : ∃ reqs,
  hi_requests (@Scheduler.createDagRun NewDagRun _ (requests flaky) Ok etl_info no_history).2 = [] ++ reqs ∧
  attempts flaky [] "default" (Scheduler.CreateDagRunObject etl_info "dagrun-0") 5 7500 reqs.
Proof.
  exact (proj2 (proj2 (createDagRun_attempts flaky Ok etl_info
    (Scheduler.CreateDagRunObject etl_info "dagrun-0") no_history eq_refl))).
Defined.

(** The attempts with the flaky server: the third succeeds. *)
Example flaky_requests :
  hi_requests (@Scheduler.createDagRun NewDagRun _ (requests flaky) Ok etl_info no_history).2 =
  let create := RCreate "default" (Scheduler.CreateDagRunObject etl_info "dagrun-0") in
  [create; RWait 500; create; RWait 1000; create].
Proof. vm_compute. reflexivity. Qed.

(** The example DAG with a schedule, applied at second 1000, and the clock later. *)
Definition minute_dag : DAG :=
  mkDAG "etl" ∅ [] false
    (mkDAGSpec "* * * * *" (ds_Task (dag_Spec demo_dag)) (ds_Parameters (dag_Spec demo_dag))
       (ds_Webhook (dag_Spec demo_dag)) (ds_Workspace (dag_Spec demo_dag)) false "") (mkDAGStatus "" "").

Definition at_second (now : Z) (s : Store) : Store := mkStore (st_tables s) [] now (st_zone s) (st_uuids s).

Definition scheduled_store : Store :=
  at_second 1100 (run_calls demo_env [CInsertDAG minute_dag "default"] demo_store).

Definition scheduled : Ctl Store (History NewDagRun) unit := mkCtl scheduled_store no_history tt.

Definition tick (cl : ApiServer NewDagRun) (tm : Z) (w : Ctl Store (History NewDagRun) unit) :=
  (@Scheduler.processDags NewDagRun Store _ unit (tick_manager demo_env) (requests cl) Ok tm w).2.

Lemma scheduled_ok : tables_ok (st_tables scheduled_store).
Proof.
  apply (reachable_db_inv demo_env), (rtc_r _ _ _
    (run_calls_reachable demo_env [CInsertDAG minute_dag "default"] demo_store (fresh_reachable demo_env [] 1000 0))).
  apply (db_world demo_env).
Qed.

Lemma scheduled_parse : schedules_parse demo_env 1100 (st_tables scheduled_store).
Proof.
  unfold schedules_parse.
  assert (Forall (λ d, d_schedule d = "* * * * *") (due_dags demo_env 1100 (st_tables scheduled_store))) as H
    by (vm_compute; repeat constructor).
  intros d Hd. rewrite (proj1 (Forall_forall _ _) H d Hd). by eexists.
Qed.


(** A slot whose DagRun is refused is lost: the tick has advanced the schedule
    before it asks for the object, so that the next tick, with a server that would
    accept it, asks for nothing. *)
Theorem refused_slot_is_lost :
  let refused := tick refusing 1100 scheduled in
  hi_requests (ct_kube refused) =
    [RCreate "default" (Scheduler.CreateDagRunObject etl_info "dagrun-0")] ∧
  let later := tick accepting 1159 (mkCtl (at_second 1159 (ct_db refused)) (ct_kube refused) tt) in
  hi_requests (ct_kube later) = hi_requests (ct_kube refused).
Proof. vm_compute. done. Qed.
