(* ===== verification/PostgresDag.v ===== *)
(** * DAG definitions in PostgreSQL (internal/db/postgresDAGManager.go)

    The operations of [postgresDAGManager] on DAGs and reusable tasks, over the
    tables of the PostgreSQL schema (migrations/postgresql), which has the
    columns of the SQLite one.  PostgreSQL enforces the foreign keys: an INSERT
    that names a missing row fails, and a DELETE takes along the rows that refer
    to what it deletes.  A value too wide for its column makes its statement
    fail, as any other fault does. *)

From S2P Require Import Prelude Api Store SqliteDag SqliteRun.
Local Open Scope kontroler_scope.

Module PgSchema.

(** ** Keys *)

Definition has_dag (k : Z) (t : Tables) : bool := bool_decide (k ∈ d_dag_id <$> tb_DAGs t).
Definition has_task (k : Z) (t : Tables) : bool := bool_decide (k ∈ tk_task_id <$> tb_Tasks t).
Definition has_dag_task (k : Z) (t : Tables) : bool :=
  bool_decide (k ∈ dt_dag_task_id <$> tb_DAG_Tasks t).
Definition has_run (k : Z) (t : Tables) : bool := bool_decide (k ∈ r_run_id <$> tb_DAG_Runs t).
Definition has_task_run (k : Z) (t : Tables) : bool :=
  bool_decide (k ∈ trn_task_run_id <$> tb_Task_Runs t).

(** ** DELETE with its ON DELETE CASCADE *)

Definition delete_Task_Runs (p : TaskRunRow → bool) (t : Tables) : Tables :=
  let gone := trn_task_run_id <$> where_ p (tb_Task_Runs t) in
  let t := set_Task_Pods (except (λ x, bool_decide (pod_task_run_id x ∈ gone)) (tb_Task_Pods t)) t in
  set_Task_Runs (except p (tb_Task_Runs t)) (sq_Task_Runs t) t.

Definition delete_DAG_Tasks (p : DagTaskRow → bool) (t : Tables) : Tables :=
  let gone := dt_dag_task_id <$> where_ p (tb_DAG_Tasks t) in
  let t := set_Dependencies
    (except (λ d, bool_decide (dep_depends_on d ∈ gone))
       (except (λ d, bool_decide (dep_task_id d ∈ gone)) (tb_Dependencies t))) t in
  let t := delete_Task_Runs (λ r, bool_decide (trn_task_id r ∈ gone)) t in
  set_DAG_Tasks (except p (tb_DAG_Tasks t)) (sq_DAG_Tasks t) t.

Definition delete_DAG_Runs (p : RunRow → bool) (t : Tables) : Tables :=
  let gone := r_run_id <$> where_ p (tb_DAG_Runs t) in
  let t := set_DAG_Run_Parameters
    (except (λ x, bool_decide (rpr_run_id x ∈ gone)) (tb_DAG_Run_Parameters t))
    (sq_DAG_Run_Parameters t) t in
  let t := delete_Task_Runs (λ r, bool_decide (trn_run_id r ∈ gone)) t in
  set_DAG_Runs (except p (tb_DAG_Runs t)) (sq_DAG_Runs t) t.

Definition delete_Tasks (p : TaskRow → bool) (t : Tables) : Tables :=
  let gone := tk_task_id <$> where_ p (tb_Tasks t) in
  let t := delete_DAG_Tasks (λ dt, bool_decide (dt_task_id dt ∈ gone)) t in
  set_Tasks (except p (tb_Tasks t)) (sq_Tasks t) t.

Definition delete_DAGs (p : DagRow → bool) (t : Tables) : Tables :=
  let gone := d_dag_id <$> where_ p (tb_DAGs t) in
  let t := set_DAG_Workspaces
    (except (λ w, bool_decide (wk_dag_id w ∈ gone)) (tb_DAG_Workspaces t))
    (sq_DAG_Workspaces t) t in
  let t := set_DAG_Parameters
    (except (λ x, bool_decide (dpr_dag_id x ∈ gone)) (tb_DAG_Parameters t))
    (sq_DAG_Parameters t) t in
  let t := delete_DAG_Tasks (λ dt, bool_decide (dt_dag_id dt ∈ gone)) t in
  let t := delete_DAG_Runs (λ r, bool_decide (r_dag_id r ∈ gone)) t in
  set_DAGs (except p (tb_DAGs t)) (sq_DAGs t) t.

(** ** Statements *)

(** [errors.go]: the text of a [DBError]. *)
Definition wrapError (op : string) (e : GoError) : GoError :=
  EErrorf ("database operation '" +:+ op +:+ "' failed: " +:+ err_Error e).

Definition withTx {A} : M Store A → M Store A :=
  in_tx (wrapError "begin_transaction") (wrapError "commit_transaction").

(** [QueryRow(...).Scan(...)]: the first row, or [pgx.ErrNoRows]. *)
Definition query_row {A} (f : Tables → list A) : M Store A :=
  query f ≫= λ rows, match rows with [] => throw pgx_ErrNoRows | x :: _ => mret x end.

(** [if err != nil && err != pgx.ErrNoRows]: the variables keep their zero
    values. *)
Definition row_or {A} (dflt : A) (m : M Store A) : M Store A :=
  try m ≫= λ r, match r with
                | Ok a => mret a
                | Err e => if e =b pgx_ErrNoRows then mret dflt else throw e
                end.

(** An [UPDATE ... RETURNING] scanned by [QueryRow]. *)
Definition update_returning {A} (rows : Tables → list A) (f : Tables → Tables) : M Store A :=
  stmt ≫= λ _, gets (λ s, rows (st_tables s)) ≫= λ l,
  modify (λ s, set_tables (f (st_tables s)) s) ≫= λ _,
  match l with [] => throw pgx_ErrNoRows | x :: _ => mret x end.

End PgSchema.

Module PgDag.
Import RunDb PgSchema.

#[local] Existing Instance DagDb.taskData_eq_dec.

Section operations.
Context (env : DbEnv).

(** ** Identity *)

Definition GetID : M Store string :=
  try (query_row tb_IdTable) ≫= λ r,
  match r with
  | Ok uniqueID => mret uniqueID
  | Err e =>
      if e =b pgx_ErrNoRows then
        uniqueID ← new_uuid (uuid_New env);
        wrap_err "failed to insert new unique_id"
          (insert "IdTable" (λ t, bool_decide (uniqueID ∈ tb_IdTable t))
             (λ t, set_IdTable (tb_IdTable t ++ [uniqueID]) t)) ≫= λ _,
        mret uniqueID
      else throw (EWrap "failed to query IdTable" e)
  end.

(** ** Inserting a DAG *)

Definition setSuspended (dagName namespace : string) (suspended : bool) : M Store unit :=
  wrap_err "failed to set suspended"
    (exec (upd_DAGs (DagDb.is_dag dagName namespace) (DagDb.set_suspended suspended))).

Definition setInactive (name namespace : string) (prevVersion : Z) : M Store unit :=
  exec (upd_DAGs (λ d, DagDb.is_dag name namespace d && (d_version d =b prevVersion))
          (DagDb.set_active false)).

Definition insertWorkspace (dagID : Z) (workspace : PVC) : M Store unit :=
  insert "DAG_Workspaces" (λ t, negb (has_dag dagID t))
    (add_DAG_Workspace (λ k, mkWorkspaceRow k dagID workspace)).

Definition insertParameter (dagID : Z) (parameter : DagParameterSpec) : M Store unit :=
  let isSecret := dp_DefaultValue parameter =b "" in
  let value := if negb isSecret then dp_DefaultValue parameter
               else dp_DefaultFromSecret parameter in
  insert "DAG_Parameters" (λ t, negb (has_dag dagID t))
    (add_DAG_Parameter (λ k, mkDagParameterRow k dagID (dp_Name parameter) isSecret value)).

Definition inline_row (name : string) (task : TaskSpec) (namespace : string) (version k : Z)
    : TaskRow :=
  mkTaskRow k name (ts_Command task) (ts_Args task) (ts_Image task) (ts_Parameters task)
    (bo_Limit (ts_Backoff task)) (co_Enabled (ts_Conditional task)) (ts_PodTemplate task)
    (co_RetryCodes (ts_Conditional task)) (ts_Script task) (ts_ScriptInjectorImage task) true
    namespace version None.

Definition ref_error (ref : TaskRef) (e : GoError) : GoError :=
  EErrorf ("failed to get task ref when inserting dag: " +:+ err_Error e +:+ ", name: "
           +:+ tr_Name ref +:+ ", version: " +:+ pretty (tr_Version ref)).

Definition insertTask (dagID : Z) (task : TaskSpec) (namespace : string) (version : Z)
    : M Store unit :=
  taskId ←
    match ts_TaskRef task with
    | Some ref =>
        r ← try (query_row (λ t, tk_task_id <$>
              where_ (λ k, (tk_name k =b tr_Name ref) && negb (tk_inline k)
                           && (tk_version k =b tr_Version ref)) (tb_Tasks t)));
        match r with Ok taskId => mret taskId | Err e => throw (ref_error ref e) end
    | None =>
        newUUID ← new_uuid (uuid_New env);
        wrap_err "failed to insert line task"
          (insert_ret "Tasks" (DagDb.task_clash newUUID version namespace)
             (add_Task (inline_row newUUID task namespace version)) sq_Tasks)
    end;
  wrap_err "failed to insert dag task"
    (insert "DAG_Tasks" (λ t, negb (has_dag dagID t && has_task taskId t))
       (add_DAG_Task (λ k, mkDagTaskRow k dagID taskId (ts_Name task) version))).

(** The map of dependency names to ids: of two rows of a name, which come by
    descending version, the later one stays. *)
Definition depMap (rows : list DagTaskRow) : gmap string Z :=
  foldl (λ m dt, <[dt_name dt := dt_dag_task_id dt]> m) ∅ rows.

Definition copy_dependencies (taskId : Z) (deps : list Z) (t : Tables) : Tables :=
  foldl (λ t dep, add_Dependency (mkDependencyRow taskId dep) t) t deps.

Definition createDependencyConnection (dagID : Z) (task : TaskSpec) (version : Z)
    : M Store unit :=
  if ts_RunAfter task =b [] then mret tt
  else
    r ← try (query_row (λ t, where_ (λ dt, dt_version dt =b version)
                               (DagDb.find_dag_task dagID (ts_Name task) t)));
    match r with
    | Err _ => throw (EErrorf ("task " +:+ ts_Name task +:+ " not found for version "
                               +:+ pretty version))
    | Ok taskRow =>
        rows ← query (λ t, order_desc dt_version
          (where_ (λ dt, (dt_dag_id dt =b dagID) && bool_decide (dt_name dt ∈ ts_RunAfter task))
             (tb_DAG_Tasks t)));
        match where_ (λ dep, depMap rows !! dep =b None) (ts_RunAfter task) with
        | dep :: _ => throw (EErrorf ("dependency task " +:+ dep +:+ " not found"))
        | [] =>
            let deps := omap (λ depName, depMap rows !! depName) (ts_RunAfter task) in
            wrap_err "failed to insert dependencies"
              (insert "dependencies"
                 (λ t, negb (has_dag_task (dt_dag_task_id taskRow) t
                             && forallb (λ dep, has_dag_task dep t) deps))
                 (copy_dependencies (dt_dag_task_id taskRow) deps))
        end
    end.

Definition dag_row (dag : DAG) (version : Z) (namespace hash : string) (nextTime : option Z)
    (k : Z) : DagRow :=
  let spec := dag_Spec dag in
  mkDagRow k (dag_Name dag) version hash (ds_Schedule spec) namespace true
    (Z.of_nat (length (ds_Task spec))) nextTime (wh_URL (ds_Webhook spec))
    (wh_VerifySSL (ds_Webhook spec)) (Some (ws_Enabled (ds_Workspace spec))) (ds_Suspended spec).

Definition insertDAG (dag : DAG) (version : Z) (namespace hash : string) : M Store unit :=
  let spec := dag_Spec dag in
  nextTime ←
    (if negb (ds_Schedule spec =b "") then
       sched ← wrap_err "failed when parsing" (DagDb.lift (cron_Parse env (ds_Schedule spec)));
       now ← gets st_now;
       mret (Some (sched now))
     else mret None);
  dagID ← wrap_err "failed inserting DAG"
    (insert_ret "DAGs" (DagDb.dag_clash (dag_Name dag) version namespace)
       (add_DAG (dag_row dag version namespace hash nextTime)) sq_DAGs);
  (if ws_Enabled (ds_Workspace spec)
   then wrap_err "failed to insert workspace" (insertWorkspace dagID (ws_PvcSpec (ds_Workspace spec)))
   else mret tt) ≫= λ _,
  foreach (λ task, insertTask dagID task namespace (DagDb.getTaskVersion task)) (ds_Task spec)
    ≫= λ _,
  foreach (λ task, wrap_err "failed to create dependency connection"
    (createDependencyConnection dagID task (DagDb.getTaskVersion task))) (ds_Task spec) ≫= λ _,
  foreach (λ parameter,
    r ← try (insertParameter dagID parameter);
    match r with
    | Ok _ => mret tt
    | Err e => throw (EErrorf ("failed to insert parameter '" +:+ dp_Name parameter +:+ "': "
                               +:+ err_Error e))
    end) (ds_Parameters spec).

Definition InsertDAG (dag : DAG) (namespace : string) : M Store unit :=
  withTx (
    r ← try (row_or None (row ← query_row (λ t,
          option_list (DagDb.latest_dag (dag_Name dag) namespace t)); mret (Some row)));
    existing ← match r with
               | Ok existing => mret existing
               | Err e => throw (wrapError "query_existing_dag" e)
               end;
    let '(existingDAGID, version, hash, suspended) :=
      match existing with
      | Some d => (d_dag_id d, d_version d, d_hash d, d_suspended d)
      | None => (0, 0, "", false)%Z
      end in
    hashValue ← match DagDb.hashDagSpec env (dag_Spec dag) with
                | Ok h => mret h
                | Err e => throw (wrapError "hash_dag_spec" e)
                end;
    if hash =b hashValue then
      if negb (suspended =b ds_Suspended (dag_Spec dag))
      then setSuspended (dag_Name dag) namespace (ds_Suspended (dag_Spec dag))
      else throw DagDb.same_dag_error
    else
      let version := if negb (existingDAGID =b 0%Z) then (version + 1)%Z else version in
      insertDAG dag version namespace hashValue ≫= λ _,
      setInactive (dag_Name dag) namespace (version - 1)).

(** ** Starting the DAGs that are due *)

(** The fields set from the row: the id that is read is not among them. *)
Definition scan_dag_info (d : DagRow) : result DagInfo :=
  match d_workspaceEnabled d with
  | Some workEnabled =>
      Ok (mkDagInfo 0 (d_name d) (d_namespace d) workEnabled (d_webhookUrl d) (d_sslVerification d))
  | None => Err (EScan "workspaceenabled")
  end.

(** One queued UPDATE: the next time and the id it is for. *)
Definition queue_update (row : string * DagInfo) : M Store (Z * Z) :=
  sched ← DagDb.lift (cron_Parse env row.1);
  now ← gets st_now;
  mret (sched now, di_DagId row.2).

Definition GetDAGsToStartAndUpdate (tm : Z) : M Store (list DagInfo) :=
  plain_tx (
    rows ← query (λ t, where_ (DagDb.dag_due env tm) (tb_DAGs t));
    namespaces ← mapMM (λ d, DagDb.lift (scan_dag_info d)) rows;
    batch ← mapMM queue_update (zip (d_schedule <$> rows) namespaces);
    foreach (λ update : Z * Z,
      exec (upd_DAGs (λ d, d_dag_id d =b update.2) (DagDb.set_nexttime update.1))) batch ≫= λ _,
    mret namespaces).

(** ** Reading DAGs *)

Definition dagNameToDagId (dagName : string) : M Store Z :=
  dagId ← query_row (λ t, d_dag_id <$> option_list (DagDb.latest_by_name dagName t));
  if dagId =b (-1)%Z then throw (EErrorf "could not find dag") else mret dagId.

Definition GetDagParameters (dagName : string) : M Store (gmap string DbParameter) :=
  rows ← query (λ t, where_ (λ p, bool_decide (dpr_dag_id p ∈
            d_dag_id <$> option_list (DagDb.latest_by_name dagName t))) (tb_DAG_Parameters t));
  mret (foldl (λ m p, <[dpr_name p := row_param p]> m) ∅ rows).

Definition DagExists (dagName : string) : M Store (bool * Z) :=
  dagId ← row_or (-1)%Z (query_row (λ t,
            d_dag_id <$> where_ (λ d, d_name d =b dagName) (tb_DAGs t)));
  mret (negb (dagId =b (-1)%Z), dagId).

(** The DAG of a run, by a scalar subquery. *)
Definition dag_of_run (runId : Z) (t : Tables) : option Z :=
  r_dag_id <$> head (where_ (is_run runId) (tb_DAG_Runs t)).

Definition GetWebhookDetails (dagRunID : Z) : M Store Webhook :=
  query_row (λ t, (λ d, mkWebhook (d_webhookUrl d) (d_sslVerification d)) <$>
    where_ (λ d, Some (d_dag_id d) =b dag_of_run dagRunID t) (tb_DAGs t)).

Definition GetWorkspacePVCTemplate (dagId : Z) : M Store (option PVC) :=
  row_or None (query_row (λ t,
    (λ w, Some (wk_pvc w)) <$> where_ (λ w, wk_dag_id w =b dagId) (tb_DAG_Workspaces t))).

(** ** Reusable tasks *)

Definition task_row (task : DagTask) (namespace hash : string) (version k : Z) : TaskRow :=
  let spec := dgt_Spec task in
  mkTaskRow k (dgt_Name task) (dts_Command spec) (dts_Args spec) (dts_Image spec)
    (dts_Parameters spec) (bo_Limit (dts_Backoff spec)) (co_Enabled (dts_Conditional spec))
    (dts_PodTemplate spec) (co_RetryCodes (dts_Conditional spec)) (dts_Script spec)
    (dts_ScriptInjectorImage spec) false namespace version (Some hash).

Definition AddTask (task : DagTask) (namespace : string) : M Store unit :=
  plain_tx (
    existing ← row_or None (row ← query_row (λ t,
      option_list (DagDb.latest_task (dgt_Name task) namespace t)); mret (Some row));
    hashValue ← DagDb.lift (digest_task env (dgt_Spec task));
    if (existing ≫= tk_hash) =b Some hashValue then throw DagDb.same_task_error
    else
      let newVersion := (match existing with Some k => tk_version k | None => 0 end + 1)%Z in
      insert "Tasks" (DagDb.task_clash (dgt_Name task) newVersion namespace)
        (add_Task (task_row task namespace hashValue newVersion))).

(** [(name = .. AND version = ..) OR ...], reusable tasks only. *)
Definition ref_rows (taskRefs : list TaskRef) (t : Tables) : list TaskRow :=
  where_ (λ k, existsb (λ ref, (tk_name k =b tr_Name ref) && (tk_version k =b tr_Version ref))
                 taskRefs && negb (tk_inline k)) (tb_Tasks t).

Definition ref_map (rows : list TaskRow) : gmap TaskRef (list string) :=
  foldl (λ m k, <[mkTaskRef (tk_name k) (tk_version k) := tk_parameters k]> m) ∅ rows.

Definition missing_refs_error : GoError := EErrorf "not all requested tasks were found".

Definition GetTaskRefsParameters (taskRefs : list TaskRef) : M Store (gmap TaskRef (list string)) :=
  if taskRefs =b [] then mret ∅
  else
    rows ← query (ref_rows taskRefs);
    if negb (size (ref_map rows) =b length taskRefs) then throw missing_refs_error
    else mret (ref_map rows).

Definition DeleteTask (taskName namespace : string) : M Store unit :=
  plain_tx (exec (delete_Tasks (λ k, (tk_name k =b taskName) && (tk_namespace k =b namespace)
                                     && negb (tk_inline k)))).

Definition GetTaskScriptAndInjectorImage (taskId : Z) : M Store (string * string) :=
  query_row (λ t, (λ k, (tk_script k, tk_scriptInjectorImage k)) <$>
    where_ (λ k, Some (tk_task_id k) =b
              (dt_task_id <$> head (where_ (λ dt, dt_dag_task_id dt =b taskId) (tb_DAG_Tasks t))))
      (tb_Tasks t)).

(** ** Deleting a DAG *)

Definition getTaskDeletionData (name namespace : string) : M Store (list DagDb.taskData) :=
  query (λ t, dedup (
    flat_map (λ k, flat_map (λ dt, flat_map (λ d,
      if (tk_task_id k =b dt_task_id dt) && (d_dag_id d =b dt_dag_id dt)
         && DagDb.is_dag name namespace d && negb (tk_inline k)
      then [DagDb.mkTaskData (tk_task_id k) (tk_name k) (tk_namespace k)] else [])
      (tb_DAGs t)) (tb_DAG_Tasks t)) (tb_Tasks t))).

Definition DeleteDAG (name namespace : string) : M Store (list string) :=
  plain_tx (
    taskDatas ← getTaskDeletionData name namespace;
    counts ← mapMM (λ task : DagDb.taskData, query (λ t,
      length (DagDb.other_users (DagDb.td_TaskName task) name namespace t))) taskDatas;
    let unusedTaskNames :=
      (λ p, DagDb.td_TaskName p.1) <$> where_ (λ p, p.2 =b 0) (zip taskDatas counts) in
    taskIds ← query (DagDb.inline_task_ids name);
    exec (delete_DAGs (DagDb.is_dag name namespace)) ≫= λ _,
    (if bool_decide (0 < length taskIds)
     then exec (delete_Tasks (λ k, bool_decide (tk_task_id k ∈ taskIds)))
     else mret tt) ≫= λ _,
    mret unusedTaskNames).

End operations.
End PgDag.
