(* ===== verification/PostgresRun.v ===== *)
(** * DAG runs and claims in PostgreSQL (internal/db/postgresDAGManager.go)

    The operations of [postgresDAGManager] on runs, task runs and pods, and on
    the claims of workers.  Conditions on single rows and changes of single rows
    are those of the SQLite manager where the two managers write the same SQL;
    the statements, their order and their errors are this manager's. *)

From S2P Require Import Prelude Api Store SqliteDag SqliteRun SqliteClaim PostgresDag.
Local Open Scope kontroler_scope.

Module PgRun.
Import RunDb PgSchema.

Section operations.
(** The text that a JSONB column gives back for a text, if it is JSON. *)
Context (jsonb : string → result string).

(** ** Runs *)

Definition run_param_row (dagRunID : Z) (param : ParameterSpec) (k : Z) : RunParameterRow :=
  let value := if negb (ps_FromSecret param =b "") then ps_FromSecret param else ps_Value param in
  mkRunParameterRow k dagRunID (ps_Name param) value (negb (ps_FromSecret param =b "")).

Definition copy_run_params (dagRunID : Z) (params : list ParameterSpec) (t : Tables) : Tables :=
  foldl (λ t param, add_DAG_Run_Parameter (run_param_row dagRunID param) t) t params.

Definition CreateDAGRun (name : string) (dag : DagRunSpec)
    (parameters : gmap string ParameterSpec) (pvcName : option string) : M Store Z :=
  dagId ← PgDag.dagNameToDagId (drs_DagName dag);
  r ← try (query_row (λ t, r_run_id <$> where_ (λ r, r_name r =b name) (tb_DAG_Runs t)));
  match r with
  | Ok existingRunID => mret existingRunID
  | Err e =>
      if e =b pgx_ErrNoRows then
        withTx (
          now ← gets st_now;
          dagRunID ← insert_ret "DAG_Runs" (λ t, run_clash name t || negb (has_dag dagId t))
            (add_DAG_Run (λ k, mkRunRow k name dagId "running" 0 0 0 now pvcName)) sq_DAG_Runs;
          let params := (map_to_list parameters).*2 in
          (if bool_decide (0 < length params) then
             wrap_err "failed to batch insert parameters"
               (insert "dag_run_parameters" (λ t, negb (has_run dagRunID t))
                  (copy_run_params dagRunID params))
           else mret tt) ≫= λ _,
          mret dagRunID)
      else throw e
  end.

Definition TaskRunExists (runId dagTaskId : Z) : M Store bool :=
  query (λ t, existsb (λ tr, (trn_run_id tr =b runId) && (trn_task_id tr =b dagTaskId))
                (tb_Task_Runs t)).

Definition MarkDAGRunOutcome (dagRunId : Z) (outcome : string) : M Store unit :=
  withTx (exec (upd_DAG_Runs (is_run dagRunId) (set_status outcome))).

Definition FindExistingDAGRun (name : string) : M Store bool :=
  query (λ t, existsb (λ r, r_name r =b name) (tb_DAG_Runs t)).

Definition DagrunExists (dagrunId : Z) : M Store bool :=
  wrap_err "failed to check dagrun existence"
    (query (λ t, existsb (is_run dagrunId) (tb_DAG_Runs t))).

Definition DeleteDagRun (dagRunId : Z) : M Store unit :=
  withTx (wrap_err "failed to delete dag run" (exec (delete_DAG_Runs (is_run dagRunId)))).

(** The pods of the running task runs of a run. *)
Definition running_pods (dagRunId : Z) (t : Tables) : list RunningPodInfo :=
  flat_map (λ p, flat_map (λ tr,
    if (pod_task_run_id p =b trn_task_run_id tr) && (trn_run_id tr =b dagRunId)
       && (trn_status tr =b "running")
    then [mkRunningPodInfo (pod_name p) (pod_namespace p)] else [])
    (tb_Task_Runs t)) (tb_Task_Pods t).

Definition SuspendDagRun (dagRunId : Z) : M Store (list RunningPodInfo) :=
  withTx (
    pods ← wrap_err "failed to query running pods" (query (running_pods dagRunId));
    wrap_err "failed to suspend dag run"
      (exec (upd_DAG_Runs (is_run dagRunId) (set_status "suspended"))) ≫= λ _,
    mret pods).

Definition counters (dagRunID : Z) (t : Tables) : list (Z * Z * Z * Z) :=
  (λ r, (Z.of_nat (length (where_ (λ dt, dt_dag_id dt =b r_dag_id r) (tb_DAG_Tasks t))),
         r_successfulCount r, r_failedCount r, r_suspendedCount r))
  <$> where_ (is_run dagRunID) (tb_DAG_Runs t).

Definition CheckIfAllTasksDone (dagRunID : Z) : M Store bool :=
  row ← query_row (counters dagRunID);
  let '(taskCount, successCount, failedCount, suspendedCount) := row in
  mret (taskCount =b wrap64 (wrap64 (successCount + failedCount) + suspendedCount)).

(** ** Tasks to run *)

Definition GetStartingTasks (dagName : string) (dagrun : Z) : M Store (list Task) :=
  rows ← query (starting_rows dagName dagrun);
  let paramsForTasks := (λ row : Task * list string * Z, row.1.2) <$> rows in
  let dagIDForParams := default (-1)%Z (snd <$> last rows) in
  if bool_decide (0 < length paramsForTasks) then
    let flattened := dedup (mjoin paramsForTasks) in
    rowsParams ← query (dag_params dagIDForParams flattened);
    let paramMap : gmap string DbParameter :=
      foldl (λ m p, <[dpr_name p := row_param p]> m) ∅ rowsParams in
    match where_ (λ name, paramMap !! name =b None) flattened with
    | name :: _ => throw (EErrorf ("failed to get parameter '" +:+ name +:+ "'"))
    | [] =>
        mret ((λ row : Task * list string * Z,
          with_Parameters (omap (λ pname, paramMap !! pname) row.1.2) row.1.1) <$> rows)
    end
  else mret [].

(** An INSERT into Task_Runs, with its two foreign keys. *)
Definition insert_task_run (runId taskId : Z) (status : string) (attempts : Z) : M Store Z :=
  insert_ret "Task_Runs" (λ t, negb (has_run runId t && has_dag_task taskId t))
    (add_Task_Run (new_task_run runId taskId status attempts)) sq_Task_Runs.

Definition MarkTaskAsStarted (runId taskId : Z) : M Store Z :=
  insert_task_run runId taskId "running" 1.

Definition AddPendingTaskRun (runId dagTaskId : Z) : M Store Z :=
  insert_task_run runId dagTaskId "pending" 0.

Definition IncrementAttempts (taskRunId : Z) : M Store unit :=
  withTx (exec (upd_Task_Runs (is_task_run taskRunId) (set_trn_attempts (λ n, n + 1)%Z))).

Definition SaveRetryEnv (taskRunId : Z) (envJSON : string) : M Store unit :=
  text ← DagDb.lift (jsonb envJSON);
  exec (upd_Task_Runs (is_task_run taskRunId) (set_trn_retry_env text)).

Definition GetTaskRunStatus (taskRunId : Z) : M Store string :=
  r ← try (query_row (λ t, trn_status <$> where_ (is_task_run taskRunId) (tb_Task_Runs t)));
  match r with
  | Ok status => mret status
  | Err e => if e =b pgx_ErrNoRows then throw ErrTaskRunNotFound else throw e
  end.

Definition MarkTaskAsFailed (taskRunId : Z) : M Store unit :=
  withTx (
    exec (upd_Task_Runs (is_task_run taskRunId) (set_trn_status "failed")) ≫= λ _,
    exec (λ t, upd_DAG_Runs (λ r, bool_decide (r_run_id r ∈
            trn_run_id <$> where_ (is_task_run taskRunId) (tb_Task_Runs t))) add_failure t)).

(** ** Success and the tasks it releases *)

Definition getDAGIdFromRun (runId : Z) : M Store Z :=
  query_row (λ t, r_dag_id <$> where_ (is_run runId) (tb_DAG_Runs t)).

Definition getDependencyCounts (dagId : Z) : M Store (gmap Z Z) :=
  query (λ t, count_map (dependency_keys dagId t)).

Definition getMetDependencies (dagId runID : Z) : M Store (gmap Z Z) :=
  query (λ t, count_map (met_keys dagId runID t)).

(** The loop over [dependencyCounts]; the query compares run_id with the id of
    the task run, as the source does. *)
Fixpoint runnable_loop (counts : list (Z * Z)) (metDependencies : gmap Z Z) (taskRunId : Z)
    : M Store (list Z) :=
  match counts with
  | [] => mret []
  | (taskId, totalDeps) :: rest =>
      let metDeps := default 0%Z (metDependencies !! taskId) in
      if negb (totalDeps =b metDeps) then runnable_loop rest metDependencies taskRunId
      else
        r ← try (query_row (λ t, trn_status <$>
              where_ (λ tr, (trn_task_id tr =b taskId) && (trn_run_id tr =b taskRunId))
                (tb_Task_Runs t)));
        match r with
        | Err e =>
            if e =b pgx_ErrNoRows
            then ids ← runnable_loop rest metDependencies taskRunId; mret (taskId :: ids)
            else throw e
        | Ok _ => runnable_loop rest metDependencies taskRunId
        end
  end.

Definition getRunnableTasks (dependencyCounts metDependencies : gmap Z Z) (taskRunId : Z)
    : M Store (list Z) :=
  runnable_loop (map_to_list dependencyCounts) metDependencies taskRunId.

Definition getTasksByIds (taskIds : list Z) (dagrunId : Z)
    : M Store (list Task * list (list string)) :=
  if taskIds =b [] then mret ([], [])
  else rows ← query (task_rows taskIds dagrunId); mret (rows.*1, rows.*2).

Definition getNextRunnableTasks (taskRunId runId dagId : Z)
    : M Store (list Task * list (list string)) :=
  dependencyCounts ← getDependencyCounts dagId;
  metDependencies ← getMetDependencies dagId runId;
  runnableTasks ← getRunnableTasks dependencyCounts metDependencies taskRunId;
  getTasksByIds runnableTasks runId.

Definition fetchTaskParameters (dagId : Z) (tasks : list Task) (parameters : list (list string))
    : M Store (list Task) :=
  let flattenedParams := dedup (mjoin parameters) in
  if flattenedParams =b [] then mret (with_Parameters [] <$> tasks)
  else
    rows ← query (dag_params dagId flattenedParams);
    mret (zip_with (λ task names, with_Parameters (params_of rows names) task) tasks parameters).

Definition MarkSuccessAndGetNextTasks (taskRunId : Z) : M Store (list Task) :=
  withTx (
    runId ← row_or 0%Z (update_returning
      (λ t, trn_run_id <$> where_ (is_task_run taskRunId) (tb_Task_Runs t))
      (upd_Task_Runs (is_task_run taskRunId) (set_trn_status "success")));
    exec (upd_DAG_Runs (is_run runId) add_success) ≫= λ _,
    status ← row_or "" (update_returning
      (λ t, (λ _, "success") <$> where_ (run_complete runId t) (tb_DAG_Runs t))
      (λ t, upd_DAG_Runs (run_complete runId t) (set_status "success") t));
    if status =b "success" then mret []
    else
      dagId ← getDAGIdFromRun runId;
      next ← getNextRunnableTasks taskRunId runId dagId;
      fetchTaskParameters dagId next.1 next.2).

(** ** Retries *)

(** The one EXISTS query. *)
Definition rerun_needed (taskRunid exitCode : Z) (t : Tables) : bool :=
  existsb (λ k, existsb (λ dt, existsb (λ r,
    (tk_task_id k =b dt_task_id dt) && (dt_dag_task_id dt =b trn_task_id r)
    && is_task_run taskRunid r && (trn_attempts r <=b tk_backoffLimit k)
    && (negb (tk_isConditional k) || bool_decide (exitCode ∈ tk_retryCodes k)))
    (tb_Task_Runs t)) (tb_DAG_Tasks t)) (tb_Tasks t).

Definition ShouldRerun (taskRunid exitCode : Z) : M Store bool :=
  query (rerun_needed taskRunid exitCode).

(** ** Pods *)

(** The rows that the conflict clause updates: [RowsAffected] counts them. *)
Definition not_newer (podUid : string) (tStamp : Z) (p : PodRow) : bool :=
  (pod_Pod_UID p =b podUid) && (pod_updated_at p <=b tStamp).

(** [INSERT ... ON CONFLICT (Pod_UID) DO UPDATE ... WHERE ...] with its
    [RowsAffected]; the foreign key is checked for a new row. *)
Definition upsert_pod (podUid name : string) (taskRunID : Z) (status : string) (tStamp : Z)
    (exitCode : option Z) (namespace : string) : M Store Z :=
  conflict ← query (pod_clash podUid);
  if conflict : bool then
    rows ← gets (λ s, count_where (not_newer podUid tStamp) (tb_Task_Pods (st_tables s)));
    modify (λ s, set_tables (upd_Task_Pods (not_newer podUid tStamp)
      (set_pod_status status tStamp exitCode) (st_tables s)) s) ≫= λ _,
    mret rows
  else
    known ← gets (λ s, has_task_run taskRunID (st_tables s));
    if known : bool then
      modify (λ s, set_tables (add_Task_Pod
        (mkPodRow podUid taskRunID exitCode name status namespace tStamp None) (st_tables s)) s)
        ≫= λ _, mret 1%Z
    else throw (EConstraint "Task_Pods").

Definition stale_pod_error : GoError := EErrorf "pod status not updated".

Definition MarkPodStatus (podUid name : string) (taskRunID : Z) (status : string) (tStamp : Z)
    (exitCode : option Z) (namespace : string) : M Store unit :=
  plain_tx (
    row_or tt (query_row (λ t, (λ _, tt) <$> where_ (is_pod podUid taskRunID) (tb_Task_Pods t)))
      ≫= λ _,
    rows ← upsert_pod podUid name taskRunID status tStamp exitCode namespace;
    if rows =b 0%Z then throw stale_pod_error else mret tt).

Definition AddPodDuration (taskRunId durationSec : Z) : M Store unit :=
  withTx (exec (upd_Task_Pods (λ p, pod_task_run_id p =b taskRunId)
                  (set_pod_duration durationSec))).

(** ** Suspending what a failed task holds back *)

(** One round of the recursive query: the tasks that depend on those of the
    last round, with their names. *)
Definition chain_round (t : Tables) (ids : list Z) : list (Z * string) :=
  flat_map (λ id, flat_map (λ d, flat_map (λ dt,
    if (dep_depends_on d =b id) && (dep_task_id d =b dt_dag_task_id dt)
    then [(dep_task_id d, dt_name dt)] else [])
    (tb_DAG_Tasks t)) (tb_Dependencies t)) ids.

(** [UNION ALL] of the rounds until one is empty, each row with its depth; the
    query does not end while the fuel lasts out. *)
Fixpoint task_chain (fuel : nat) (t : Tables) (ids : list Z) (depth : nat)
    : option (list (Z * string * nat)) :=
  match fuel with
  | O => None
  | S fuel' =>
      match chain_round t ids with
      | [] => Some []
      | round =>
          rest ← task_chain fuel' t round.*1 (S depth);
          Some (((λ row, (row, depth)) <$> round) ++ rest)
      end
  end.

(** A path of the dependencies of an acyclic table visits a row once. *)
Definition chain_fuel (t : Tables) : nat := S (S (length (tb_Dependencies t))).

(** The loop over the rows: each task is taken once. *)
Fixpoint take_new (seen : list Z) (rows : list (Z * string * nat)) : list (Z * string) :=
  match rows with
  | [] => []
  | (taskID, taskName, _) :: rest =>
      if bool_decide (taskID ∈ seen) then take_new seen rest
      else (taskID, taskName) :: take_new (taskID :: seen) rest
  end.

(** The recursive query, [SELECT DISTINCT ... ORDER BY depth]: the rounds come
    by depth. *)
Definition dependents (dagRunId taskRunId : Z) (t : Tables) : option (list (Z * string * nat)) :=
  rows ← task_chain (chain_fuel t) t (trn_task_id <$> where_ (is_task_run taskRunId) (tb_Task_Runs t)) 1;
  let existing := trn_task_id <$> where_ (λ r, trn_run_id r =b dagRunId) (tb_Task_Runs t) in
  Some (dedup (where_ (λ row : Z * string * nat, negb (bool_decide (row.1.1 ∈ existing))) rows)).

Definition copy_suspended (dagRunId : Z) (ids : list Z) (t : Tables) : Tables :=
  foldl (λ t id, add_Task_Run (new_task_run dagRunId id "suspended" 0) t) t ids.

(** A query that the server gives up. *)
Definition endless_query_error : GoError := EErrorf "canceling statement".

Definition MarkConnectingTasksAsSuspended (dagRunId taskRunId : Z) : M Store (list string) :=
  withTx (
    r ← wrap_err "failed to get dependent tasks" (query (dependents dagRunId taskRunId));
    rows ← match r with
           | Some rows => mret rows
           | None => throw (EWrap "error iterating tasks" endless_query_error)
           end;
    let updates := take_new [] rows in
    if updates =b [] then mret []
    else
      wrap_err "failed to insert suspended tasks"
        (insert "task_runs"
           (λ t, negb (has_run dagRunId t && forallb (λ u, has_dag_task u t) updates.*1))
           (copy_suspended dagRunId updates.*1)) ≫= λ _,
      wrap_err "failed to update suspended count"
        (exec (upd_DAG_Runs (is_run dagRunId) (add_suspended (Z.of_nat (length updates)))))
        ≫= λ _,
      mret updates.*2).

(** ** Reading a task of a run *)

Definition GetTaskRunInfo (taskRunId : Z) : M Store (string * string * string) :=
  wrap_err "failed to get task run info" (query_row (λ t,
    flat_map (λ tr, flat_map (λ dr, flat_map (λ d, flat_map (λ dt,
      if (trn_run_id tr =b r_run_id dr) && (r_dag_id dr =b d_dag_id d)
         && (trn_task_id tr =b dt_dag_task_id dt) && is_task_run taskRunId tr
      then [(d_name d, dt_name dt, d_namespace d)] else [])
      (tb_DAG_Tasks t)) (tb_DAGs t)) (tb_DAG_Runs t)) (tb_Task_Runs t))).

Definition GetTaskForRun (runId dagTaskId : Z) : M Store (Task * string * string) :=
  row ← query_row (task_for_run_rows runId dagTaskId);
  let '(k, dat, dr, d, retryEnv) := row in
  let task := mkTask (dt_dag_task_id dat) (dt_name dat) (tk_image k) (tk_command k) (tk_args k) []
                (Some (pod_template k dr)) (tk_script k) (tk_scriptInjectorImage k) in
  task ←
    (if bool_decide (0 < length (tk_parameters k)) then
       withTx (
         dagId ← getDAGIdFromRun runId;
         tasks ← fetchTaskParameters dagId [task] [tk_parameters k];
         mret (default task (head tasks)))
     else mret task);
  mret (task, d_namespace d, default "" retryEnv).

End operations.
End PgRun.
