(* ===== verification/PostgresClaim.v ===== *)
(** * Claims and leases in PostgreSQL (internal/db/postgresDAGManager.go)

    One statement per operation: PostgreSQL's clock [now()] is used on both
    sides of every comparison, and a bulk claim selects its rows with
    [FOR UPDATE SKIP LOCKED] and excludes the rows under a running lease.  The
    manager is a second implementation of [DagManager]. *)

From S2P Require Import Prelude Api Store SqliteDag SqliteRun SqliteClaim DagManager PostgresDag PostgresRun.
Local Open Scope kontroler_scope.

Module PgClaim.
Import RunDb ClaimDb PgSchema.

(** Pending, due, and free or held under an expired lease. *)
Definition candidate (now : Z) (r : TaskRunRow) : bool :=
  claimable now r && ((trn_claimed_by r =b None) || lease_expired now r).

Definition claim_by (workerId : string) (leaseTTL now : Z) : TaskRunRow → TaskRunRow :=
  set_claim (Some workerId) (Some now) (Some (now + leaseTTL)%Z).

(** The rows of the inner SELECT. *)
Definition candidates (now limit : Z) (t : Tables) : list TaskRunRow :=
  take (Z.to_nat limit) (where_ (candidate now) (tb_Task_Runs t)).

Definition ClaimTasks (limit : Z) (workerId : string) (leaseTTL : Z) : M Store (list TaskClaim) :=
  stmt ≫= λ _,
  now ← gets st_now;
  if bool_decide (limit < 0)%Z then throw (EErrorf "LIMIT must not be negative")
  else
    rows ← gets (λ s, candidates now limit (st_tables s));
    modify (λ s, set_tables (upd_Task_Runs
      (λ r, bool_decide (trn_task_run_id r ∈ trn_task_run_id <$> rows) && candidate now r)
      (claim_by workerId leaseTTL now) (st_tables s)) s) ≫= λ _,
    mret (claim_of <$> rows).

Definition RenewLease (taskRunId : Z) (workerId : string) (leaseTTL : Z) : M Store unit :=
  now ← gets st_now;
  rows ← exec_count (λ t, count_where (owned taskRunId workerId) (tb_Task_Runs t))
           (upd_Task_Runs (owned taskRunId workerId) (set_lease (now + leaseTTL)));
  if rows =b 0%Z then throw (not_owner "renew lease") else mret tt.

Definition FinalizeClaimToRunning (taskRunId : Z) (workerId podUID : string) : M Store unit :=
  update_returning (λ t, trn_run_id <$> where_ (owned taskRunId workerId) (tb_Task_Runs t))
    (upd_Task_Runs (owned taskRunId workerId) finalize) ≫= λ _, mret tt.

Definition RecoverExpiredLeases : M Store Z :=
  now ← gets st_now;
  let expired r := lease_expired now r && (trn_status r =b "pending") in
  exec_count (λ t, count_where expired (tb_Task_Runs t))
    (upd_Task_Runs expired (set_claim None None None)).

Definition ClaimTaskByID (taskRunId : Z) (workerId : string) (leaseTTL : Z) : M Store TaskClaim :=
  now ← gets st_now;
  update_returning
    (λ t, claim_of <$> where_ (free_to_claim taskRunId now) (tb_Task_Runs t))
    (upd_Task_Runs (free_to_claim taskRunId now) (claim_by workerId leaseTTL now)).

End PgClaim.

(** [NewPostgresDAGManager] as the implementation. *)
Definition PostgresManager (env : DbEnv) (jsonb : string → result string) : DagManager Store := {|
  db_GetDAGsToStartAndUpdate := PgDag.GetDAGsToStartAndUpdate env;
  db_InsertDAG := PgDag.InsertDAG env;
  db_CreateDAGRun := PgRun.CreateDAGRun;
  db_GetStartingTasks := PgRun.GetStartingTasks;
  db_TaskRunExists := PgRun.TaskRunExists;
  db_IncrementAttempts := PgRun.IncrementAttempts;
  db_MarkSuccessAndGetNextTasks := PgRun.MarkSuccessAndGetNextTasks;
  db_GetDagParameters := PgDag.GetDagParameters;
  db_DagExists := PgDag.DagExists;
  db_ShouldRerun := PgRun.ShouldRerun;
  db_MarkTaskAsFailed := PgRun.MarkTaskAsFailed;
  db_MarkPodStatus := PgRun.MarkPodStatus;
  db_DeleteDAG := PgDag.DeleteDAG;
  db_AddTask := PgDag.AddTask env;
  db_DeleteTask := PgDag.DeleteTask;
  db_GetTaskRefsParameters := PgDag.GetTaskRefsParameters;
  db_GetWebhookDetails := PgDag.GetWebhookDetails;
  db_GetWorkspacePVCTemplate := PgDag.GetWorkspacePVCTemplate;
  db_CheckIfAllTasksDone := PgRun.CheckIfAllTasksDone;
  db_MarkConnectingTasksAsSuspended := PgRun.MarkConnectingTasksAsSuspended;
  db_AddPodDuration := PgRun.AddPodDuration;
  db_SuspendDagRun := PgRun.SuspendDagRun;
  db_DeleteDagRun := PgRun.DeleteDagRun;
  db_DagrunExists := PgRun.DagrunExists;
  db_GetTaskRunInfo := PgRun.GetTaskRunInfo;
  db_ClaimTasks := PgClaim.ClaimTasks;
  db_RenewLease := PgClaim.RenewLease;
  db_FinalizeClaimToRunning := PgClaim.FinalizeClaimToRunning;
  db_AddPendingTaskRun := PgRun.AddPendingTaskRun;
  db_GetTaskForRun := PgRun.GetTaskForRun;
  db_ClaimTaskByID := PgClaim.ClaimTaskByID;
  db_SaveRetryEnv := PgRun.SaveRetryEnv jsonb;
  db_GetTaskRunStatus := PgRun.GetTaskRunStatus
|}.
