(* ===== verification/PostgresKeys.v ===== *)
(** * The PostgreSQL database under any sequence of calls

    The calls of [DBDAGManager] on the PostgreSQL manager, the invariant that
    they keep - unique keys, valid foreign keys, only latest versions active -
    and the theorem that a call that fails changes nothing, without the
    exception that the SQLite manager has. *)

From S2P Require Import Prelude Api Store SqliteDag SqliteRun SqliteClaim Database PostgresDag PostgresRun PostgresClaim.
Import Calls PgSchema.
Local Open Scope kontroler_scope.

Module PgCalls.
Import PgDag PgRun PgClaim.

Definition run_call (env : DbEnv) (jsonb : string → result string) (c : DbCall) : M Store unit :=
  match c with
  | CGetID => done (GetID env)
  | CGetDAGsToStartAndUpdate tm => done (GetDAGsToStartAndUpdate env tm)
  | CInsertDAG dag ns => done (InsertDAG env dag ns)
  | CCreateDAGRun n d ps pvc => done (CreateDAGRun n d ps pvc)
  | CGetStartingTasks n r => done (GetStartingTasks n r)
  | CTaskRunExists r t => done (TaskRunExists r t)
  | CMarkTaskAsStarted r t => done (MarkTaskAsStarted r t)
  | CIncrementAttempts t => done (IncrementAttempts t)
  | CMarkSuccessAndGetNextTasks t => done (MarkSuccessAndGetNextTasks t)
  | CMarkDAGRunOutcome r o => done (MarkDAGRunOutcome r o)
  | CGetDagParameters n => done (GetDagParameters n)
  | CDagExists n => done (DagExists n)
  | CShouldRerun t c => done (ShouldRerun t c)
  | CMarkTaskAsFailed t => done (MarkTaskAsFailed t)
  | CMarkPodStatus u n t st ts c ns => done (MarkPodStatus u n t st ts c ns)
  | CDeleteDAG n ns => done (DeleteDAG n ns)
  | CFindExistingDAGRun n => done (FindExistingDAGRun n)
  | CGetTaskScriptAndInjectorImage t => done (GetTaskScriptAndInjectorImage t)
  | CAddTask t ns => done (AddTask env t ns)
  | CDeleteTask n ns => done (DeleteTask n ns)
  | CGetTaskRefsParameters rs => done (GetTaskRefsParameters rs)
  | CGetWebhookDetails r => done (GetWebhookDetails r)
  | CGetWorkspacePVCTemplate d => done (GetWorkspacePVCTemplate d)
  | CCheckIfAllTasksDone r => done (CheckIfAllTasksDone r)
  | CMarkConnectingTasksAsSuspended r t => done (MarkConnectingTasksAsSuspended r t)
  | CAddPodDuration t d => done (AddPodDuration t d)
  | CSuspendDagRun r => done (SuspendDagRun r)
  | CDeleteDagRun r => done (DeleteDagRun r)
  | CDagrunExists r => done (DagrunExists r)
  | CGetTaskRunInfo t => done (GetTaskRunInfo t)
  | CClaimTasks l w ttl => done (ClaimTasks l w ttl)
  | CRenewLease t w ttl => done (RenewLease t w ttl)
  | CFinalizeClaimToRunning t w u => done (FinalizeClaimToRunning t w u)
  | CRecoverExpiredLeases => done RecoverExpiredLeases
  | CAddPendingTaskRun r t => done (AddPendingTaskRun r t)
  | CGetTaskForRun r t => done (GetTaskForRun r t)
  | CClaimTaskByID t w ttl => done (ClaimTaskByID t w ttl)
  | CSaveRetryEnv t e => done (SaveRetryEnv jsonb t e)
  | CGetTaskRunStatus t => done (GetTaskRunStatus t)
  end.

(** A step of the system: a call, or the world outside (the clock, the faults
    to come). *)
Inductive pg_step (env : DbEnv) (jsonb : string → result string) : Store → Store → Prop :=
| pg_call c s : pg_step env jsonb s (run_call env jsonb c s).2
| pg_world s faults now zone :
    pg_step env jsonb s (mkStore (st_tables s) faults now zone (st_uuids s)).

Definition run_calls (env : DbEnv) (jsonb : string → result string) (cs : list DbCall) (s : Store)
    : Store := foldl (λ s c, (run_call env jsonb c s).2) s cs.

Definition pg_reachable (env : DbEnv) (jsonb : string → result string) (s : Store) : Prop :=
  rtc (pg_step env jsonb) empty_store s.

(** Every row of a table names a key of another one. *)
Definition refs {A} (fk : A → Z) (children : list A) (keys : list Z) : Prop :=
  ∀ c, c ∈ children → fk c ∈ keys.

(** The foreign keys of the schema. *)
Record fk_ok (t : Tables) : Prop := {
  fk_workspaces : refs wk_dag_id (tb_DAG_Workspaces t) (d_dag_id <$> tb_DAGs t);
  fk_params : refs dpr_dag_id (tb_DAG_Parameters t) (d_dag_id <$> tb_DAGs t);
  fk_dag_tasks_dag : refs dt_dag_id (tb_DAG_Tasks t) (d_dag_id <$> tb_DAGs t);
  fk_dag_tasks_task : refs dt_task_id (tb_DAG_Tasks t) (tk_task_id <$> tb_Tasks t);
  fk_deps_task : refs dep_task_id (tb_Dependencies t) (dt_dag_task_id <$> tb_DAG_Tasks t);
  fk_deps_on : refs dep_depends_on (tb_Dependencies t) (dt_dag_task_id <$> tb_DAG_Tasks t);
  fk_runs : refs r_dag_id (tb_DAG_Runs t) (d_dag_id <$> tb_DAGs t);
  fk_run_params : refs rpr_run_id (tb_DAG_Run_Parameters t) (r_run_id <$> tb_DAG_Runs t);
  fk_task_runs_run : refs trn_run_id (tb_Task_Runs t) (r_run_id <$> tb_DAG_Runs t);
  fk_task_runs_task : refs trn_task_id (tb_Task_Runs t) (dt_dag_task_id <$> tb_DAG_Tasks t);
  fk_pods : refs pod_task_run_id (tb_Task_Pods t) (trn_task_run_id <$> tb_Task_Runs t)
}.

Definition pg_inv (t : Tables) : Prop := tables_ok t ∧ fk_ok t ∧ active_latest (tb_DAGs t).

End PgCalls.
Import PgCalls PgDag PgRun PgClaim.

(** ** References *)

Create HintDb fk.

Lemma refs_except {A} (fk : A → Z) p cs ks : refs fk cs ks → refs fk (except p cs) ks.
Proof. intros H c [_ Hc]%elem_of_where. auto. Qed.

Lemma refs_add {A} (fk : A → Z) cs c ks : refs fk cs ks → fk c ∈ ks → refs fk (cs ++ [c]) ks.
Proof. intros H Hc x [Hx| ->%list_elem_of_singleton]%elem_of_app; auto. Qed.

Lemma refs_new_key {A B} (fk : A → Z) (key : B → Z) cs ps p :
  refs fk cs (key <$> ps) → refs fk cs (key <$> (ps ++ [p])).
Proof. intros H c Hc. rewrite fmap_app, elem_of_app. left. auto. Qed.

(** Deleting rows takes along the rows that refer to them. *)
Lemma refs_cascade {A B} (fk : A → Z) (key : B → Z) p cs ps :
  refs fk cs (key <$> ps) →
  refs fk (except (λ c, bool_decide (fk c ∈ key <$> where_ p ps)) cs) (key <$> except p ps).
Proof.
  intros H c [Hc Hin]%elem_of_where.
  apply negb_true_iff, bool_decide_eq_false_1 in Hc.
  apply H, list_elem_of_fmap in Hin as (x & Hx & Hin). rewrite Hx in *.
  apply list_elem_of_fmap_2, elem_of_where. split; [|done].
  destruct (p x) eqn:E; [|done]. destruct Hc.
  by apply list_elem_of_fmap_2, elem_of_where.
Qed.

Lemma refs_update_key {A B} (fk : A → Z) (key : B → Z) cs p f ps :
  (∀ x, key (f x) = key x) → refs fk cs (key <$> ps) → refs fk cs (key <$> update_where p f ps).
Proof. intros Hf H. by rewrite fmap_update_where. Qed.

Lemma refs_update {A} (fk : A → Z) p f cs ks :
  (∀ x, fk (f x) = fk x) → refs fk cs ks → refs fk (update_where p f cs) ks.
Proof.
  intros Hf H x (y & Hy & ->)%elem_of_update_where. destruct (p y); rewrite ?Hf; auto.
Qed.

#[export] Hint Resolve refs_except refs_add refs_new_key refs_cascade refs_update refs_update_key : fk.

#[local] Ltac fk_table :=
  let H := fresh in intros H; destruct H; constructor; simpl; eauto 6 with fk.

(** ** Deleting with cascade *)

Lemma wf_delete_DAG_Workspaces p t : tables_ok t →
  tables_ok (set_DAG_Workspaces (except p (tb_DAG_Workspaces t)) (sq_DAG_Workspaces t) t).
Proof. wf_table. Qed.

Lemma wf_delete_DAG_Parameters p t : tables_ok t →
  tables_ok (set_DAG_Parameters (except p (tb_DAG_Parameters t)) (sq_DAG_Parameters t) t).
Proof. wf_table. Qed.

Lemma wf_delete_Dependencies l t : tables_ok t → tables_ok (set_Dependencies l t).
Proof. wf_table. Qed.

Lemma wf_cascade_Task_Runs p t : tables_ok t → tables_ok (delete_Task_Runs p t).
Proof.
  intros H. unfold delete_Task_Runs.
  apply (wf_delete_Task_Runs p (set_Task_Pods _ t)). by apply wf_delete_Task_Pods.
Qed.

Lemma wf_cascade_DAG_Tasks p t : tables_ok t → tables_ok (delete_DAG_Tasks p t).
Proof.
  intros H. unfold delete_DAG_Tasks.
  apply (wf_delete_DAG_Tasks p (delete_Task_Runs _ (set_Dependencies _ t))).
  by apply wf_cascade_Task_Runs, wf_delete_Dependencies.
Qed.

Lemma wf_cascade_DAG_Runs p t : tables_ok t → tables_ok (delete_DAG_Runs p t).
Proof.
  intros H. unfold delete_DAG_Runs.
  apply (wf_delete_DAG_Runs p (delete_Task_Runs _ (set_DAG_Run_Parameters _ _ t))).
  by apply wf_cascade_Task_Runs, wf_delete_DAG_Run_Parameters.
Qed.

Lemma wf_cascade_Tasks p t : tables_ok t → tables_ok (delete_Tasks p t).
Proof.
  intros H. unfold delete_Tasks. apply (wf_delete_Tasks p (delete_DAG_Tasks _ t)).
  by apply wf_cascade_DAG_Tasks.
Qed.

Lemma wf_cascade_DAGs p t : tables_ok t → tables_ok (delete_DAGs p t).
Proof.
  intros H. unfold delete_DAGs.
  apply (wf_delete_DAGs p (delete_DAG_Runs _ (delete_DAG_Tasks _
    (set_DAG_Parameters _ _ (set_DAG_Workspaces _ _ t))))).
  apply wf_cascade_DAG_Runs, wf_cascade_DAG_Tasks.
  apply (wf_delete_DAG_Parameters _ (set_DAG_Workspaces _ _ t)).
  by apply wf_delete_DAG_Workspaces.
Qed.

Lemma fk_cascade_DAG_Tasks p t : fk_ok t → fk_ok (delete_DAG_Tasks p t).
Proof. fk_table. Qed.
Lemma fk_cascade_DAG_Runs p t : fk_ok t → fk_ok (delete_DAG_Runs p t).
Proof. fk_table. Qed.
Lemma fk_cascade_Tasks p t : fk_ok t → fk_ok (delete_Tasks p t).
Proof. fk_table. Qed.
Lemma fk_cascade_DAGs p t : fk_ok t → fk_ok (delete_DAGs p t).
Proof. fk_table. Qed.

(** ** Inserting under the foreign keys *)

Lemma fk_add_DAG r t : fk_ok t → fk_ok (add_DAG r t).
Proof. fk_table. Qed.
Lemma fk_add_Task r t : fk_ok t → fk_ok (add_Task r t).
Proof. fk_table. Qed.
Lemma fk_set_IdTable l t : fk_ok t → fk_ok (set_IdTable l t).
Proof. fk_table. Qed.

Lemma fk_add_DAG_Workspace r t :
  (∀ k, has_dag (wk_dag_id (r k)) t = true) → fk_ok t → fk_ok (add_DAG_Workspace r t).
Proof. intros Hr. fk_table. apply refs_add; [done|]. by apply (bool_decide_eq_true_1 _), Hr. Qed.

Lemma fk_add_DAG_Parameter r t :
  (∀ k, has_dag (dpr_dag_id (r k)) t = true) → fk_ok t → fk_ok (add_DAG_Parameter r t).
Proof. intros Hr. fk_table. apply refs_add; [done|]. by apply (bool_decide_eq_true_1 _), Hr. Qed.

Lemma fk_add_DAG_Task r t :
  (∀ k, has_dag (dt_dag_id (r k)) t && has_task (dt_task_id (r k)) t = true) →
  fk_ok t → fk_ok (add_DAG_Task r t).
Proof.
  intros Hr. specialize (Hr (sq_DAG_Tasks t + 1)%Z).
  apply andb_true_iff in Hr as [H1%bool_decide_eq_true_1 H2%bool_decide_eq_true_1].
  fk_table; by apply refs_add.
Qed.

Lemma fk_add_DAG_Run r t :
  (∀ k, has_dag (r_dag_id (r k)) t = true) → fk_ok t → fk_ok (add_DAG_Run r t).
Proof. intros Hr. fk_table. apply refs_add; [done|]. by apply (bool_decide_eq_true_1 _), Hr. Qed.

Lemma fk_add_DAG_Run_Parameter r t :
  (∀ k, has_run (rpr_run_id (r k)) t = true) → fk_ok t → fk_ok (add_DAG_Run_Parameter r t).
Proof. intros Hr. fk_table. apply refs_add; [done|]. by apply (bool_decide_eq_true_1 _), Hr. Qed.

Lemma fk_add_Task_Run r t :
  (∀ k, has_run (trn_run_id (r k)) t && has_dag_task (trn_task_id (r k)) t = true) →
  fk_ok t → fk_ok (add_Task_Run r t).
Proof.
  intros Hr. specialize (Hr (sq_Task_Runs t + 1)%Z).
  apply andb_true_iff in Hr as [H1%bool_decide_eq_true_1 H2%bool_decide_eq_true_1].
  fk_table; by apply refs_add.
Qed.

Lemma fk_add_Task_Pod r t :
  has_task_run (pod_task_run_id r) t = true → fk_ok t → fk_ok (add_Task_Pod r t).
Proof. intros Hr%bool_decide_eq_true_1. fk_table. Qed.

Lemma fk_add_Dependency d t :
  has_dag_task (dep_task_id d) t = true → has_dag_task (dep_depends_on d) t = true →
  fk_ok t → fk_ok (add_Dependency d t).
Proof.
  intros H1%bool_decide_eq_true_1 H2%bool_decide_eq_true_1. fk_table; by apply refs_add.
Qed.

Lemma fk_upd_DAGs p f t :
  (∀ d, d_dag_id (f d) = d_dag_id d) → fk_ok t → fk_ok (upd_DAGs p f t).
Proof. intros Hf. fk_table. Qed.

Lemma fk_upd_DAG_Runs p f t :
  (∀ r, r_run_id (f r) = r_run_id r) → (∀ r, r_dag_id (f r) = r_dag_id r) →
  fk_ok t → fk_ok (upd_DAG_Runs p f t).
Proof. intros Hf Hg. fk_table. Qed.

Lemma fk_upd_Task_Runs p f t :
  (∀ r, trn_task_run_id (f r) = trn_task_run_id r) → (∀ r, trn_run_id (f r) = trn_run_id r) →
  (∀ r, trn_task_id (f r) = trn_task_id r) → fk_ok t → fk_ok (upd_Task_Runs p f t).
Proof. intros Hf Hg Hh. fk_table. Qed.

Lemma fk_upd_Task_Pods p f t :
  (∀ r, pod_task_run_id (f r) = pod_task_run_id r) → fk_ok t → fk_ok (upd_Task_Pods p f t).
Proof. intros Hf. fk_table. Qed.

(** The batches: their rows name keys that the batch does not change. *)
Lemma copy_dependencies_ok k deps t :
  has_dag_task k t = true → forallb (λ dep, has_dag_task dep t) deps = true →
  tables_ok t → fk_ok t →
  tables_ok (copy_dependencies k deps t) ∧ fk_ok (copy_dependencies k deps t).
Proof.
  unfold copy_dependencies. revert t. induction deps as [|d deps IH]; [done|].
  intros t Hk [Hd Hds]%andb_true_iff Hok Hfk. simpl. apply IH; [done|done| |].
  - by apply wf_add_Dependency.
  - by apply fk_add_Dependency.
Qed.

Lemma copy_run_params_ok k params t :
  has_run k t = true → tables_ok t → fk_ok t →
  tables_ok (copy_run_params k params t) ∧ fk_ok (copy_run_params k params t).
Proof.
  unfold copy_run_params. revert t. induction params as [|p ps IH]; [done|].
  intros t Hk Hok Hfk. simpl. apply IH; [done| |].
  - by apply wf_add_DAG_Run_Parameter.
  - by apply fk_add_DAG_Run_Parameter.
Qed.

Lemma copy_suspended_ok k ids t :
  has_run k t = true → forallb (λ u, has_dag_task u t) ids = true → tables_ok t → fk_ok t →
  tables_ok (copy_suspended k ids t) ∧ fk_ok (copy_suspended k ids t).
Proof.
  unfold copy_suspended. revert t. induction ids as [|d ids IH]; [done|].
  intros t Hk [Hd Hds]%andb_true_iff Hok Hfk. simpl. apply IH; [done|done| |].
  - by apply wf_add_Task_Run.
  - apply fk_add_Task_Run; [|done]. intros j. simpl. by rewrite Hk, Hd.
Qed.

(** Both invariants of the tables, statement by statement. *)
Definition keyed_ok (t : Tables) : Prop := tables_ok t ∧ fk_ok t.

(** ** Operations *)

Lemma keeps_pg_query_row {A} I (f : Tables → list A) : keeps I (query_row f).
Proof. apply keeps_bind; [apply keeps_query|]. intros []; apply keeps_ret || apply keeps_throw. Qed.

Lemma keeps_pg_row_or {A} I (dflt : A) m : keeps I m → keeps I (row_or dflt m).
Proof.
  intros Hm. apply keeps_bind; [by apply keeps_try|].
  intros [a|e]; [apply keeps_ret|]. case_match; apply keeps_ret || apply keeps_throw.
Qed.

Lemma keeps_pg_update_returning {A} I (rows : Tables → list A) f :
  (∀ t, I t → I (f t)) → keeps I (update_returning rows f).
Proof.
  intros Hf. apply keeps_bind; [apply keeps_stmt|]. intros _.
  apply keeps_bind; [apply keeps_gets|]. intros l.
  apply keeps_bind; [by intros s HI; simpl; auto|].
  intros _. destruct l; apply keeps_ret || apply keeps_throw.
Qed.

(** A change of the tables that depends on nothing read outside it. *)
Lemma keeps_modify I f : (∀ t, I t → I (f t)) → keeps I (modify (λ s, set_tables (f (st_tables s)) s)).
Proof. intros Hf s HI. simpl. auto. Qed.

Lemma keeps_pg_runnable_loop I counts met tr : keeps I (runnable_loop counts met tr).
Proof.
  induction counts as [|[k n] counts IH]; simpl; [apply keeps_ret|].
  cbv zeta. destruct (negb _); [done|]. apply keeps_bind; [apply keeps_try, keeps_pg_query_row|].
  intros [a|e]; [done|]. case_match; [|apply keeps_throw].
  apply keeps_bind; [done|]. intros. apply keeps_ret.
Qed.

Ltac pg_keeps_step :=
  first
    [ apply keeps_pg_query_row | apply keeps_pg_row_or | apply keeps_pg_runnable_loop
    | apply keeps_pg_update_returning; intros ? ?
    | apply keeps_modify; intros ? ? ].

Ltac pg_keeps_walk := repeat first [ progress keeps_walk | pg_keeps_step ].

Create HintDb pg_ops.
#[export] Hint Unfold done GetID GetDAGsToStartAndUpdate InsertDAG insertDAG setSuspended
  setInactive insertWorkspace insertParameter dagNameToDagId
  queue_update withTx
  GetDagParameters DagExists GetWebhookDetails GetWorkspacePVCTemplate AddTask DeleteTask
  GetTaskRefsParameters GetTaskScriptAndInjectorImage getTaskDeletionData DeleteDAG CreateDAGRun
  MarkDAGRunOutcome FindExistingDAGRun DagrunExists DeleteDagRun SuspendDagRun
  CheckIfAllTasksDone GetStartingTasks insert_task_run MarkTaskAsStarted AddPendingTaskRun
  TaskRunExists IncrementAttempts SaveRetryEnv GetTaskRunStatus MarkTaskAsFailed getDAGIdFromRun
  getDependencyCounts getMetDependencies getRunnableTasks getTasksByIds getNextRunnableTasks
  fetchTaskParameters MarkSuccessAndGetNextTasks ShouldRerun MarkPodStatus
  AddPodDuration MarkConnectingTasksAsSuspended GetTaskRunInfo GetTaskForRun ClaimTasks RenewLease
  FinalizeClaimToRunning RecoverExpiredLeases ClaimTaskByID : pg_ops.

(** What the check of an INSERT gives. *)
Ltac clash_facts :=
  repeat match goal with
  | H : _ || _ = false |- _ => apply orb_false_iff in H as [? ?]
  | H : negb _ = false |- _ => apply negb_false_iff in H
  end.

#[export] Hint Resolve fk_add_DAG fk_add_Task fk_set_IdTable fk_add_DAG_Workspace
  fk_add_DAG_Parameter fk_add_DAG_Task fk_add_DAG_Run fk_add_DAG_Run_Parameter fk_add_Task_Run
  fk_add_Task_Pod fk_cascade_DAG_Tasks fk_cascade_DAG_Runs fk_cascade_Tasks fk_cascade_DAGs : pgdb.
#[export] Hint Extern 3 (fk_ok (upd_DAGs _ _ _)) => (apply fk_upd_DAGs; [done|]) : pgdb.
#[export] Hint Extern 3 (fk_ok (upd_DAG_Runs _ _ _)) => (apply fk_upd_DAG_Runs; [done|done|]) : pgdb.
#[export] Hint Extern 3 (fk_ok (upd_Task_Runs _ _ _)) =>
  (apply fk_upd_Task_Runs; [done|done|done|]) : pgdb.
#[export] Hint Extern 3 (fk_ok (upd_Task_Pods _ _ _)) => (apply fk_upd_Task_Pods; [done|]) : pgdb.
#[export] Hint Resolve wf_cascade_DAG_Tasks wf_cascade_DAG_Runs wf_cascade_Tasks
  wf_cascade_DAGs : db.

Ltac pg_table :=
  match goal with
  | H : keyed_ok _ |- keyed_ok _ =>
      destruct H as [? ?]; clash_facts;
      solve [ split; [eauto 4 with db|eauto 4 with pgdb] ]
  end.

Lemma keeps_insertTask env dagID task ns v : keeps keyed_ok (insertTask env dagID task ns v).
Proof.
  unfold insertTask. apply keeps_bind.
  - destruct (ts_TaskRef task); [pg_keeps_walk|].
    apply keeps_bind; [apply keeps_uuid|intros u]. pg_keeps_walk; pg_table.
  - intros taskId. pg_keeps_walk; pg_table.
Qed.

Lemma keeps_createDependencyConnection dagID task v :
  keeps keyed_ok (createDependencyConnection dagID task v).
Proof.
  unfold createDependencyConnection. pg_keeps_walk.
  match goal with H : keyed_ok _ |- _ => destruct H end. clash_facts.
  match goal with H : _ && _ = true |- _ => apply andb_true_iff in H as [? ?] end.
  by apply copy_dependencies_ok.
Qed.

(** What the upsert does to the tables. *)
Definition upserted (podUid name : string) (taskRunID : Z) (status : string) (tStamp : Z)
    (exitCode : option Z) (namespace : string) (t : Tables) : Tables :=
  if SqliteRun.RunDb.pod_clash podUid t
  then upd_Task_Pods (not_newer podUid tStamp)
         (SqliteRun.RunDb.set_pod_status status tStamp exitCode) t
  else add_Task_Pod (mkPodRow podUid taskRunID exitCode name status namespace tStamp None) t.

Lemma upsert_pod_cases u n id st ts ec ns s :
  let r := upsert_pod u n id st ts ec ns s in
  let t := st_tables s in
  st_tables r.2 = t ∨
  (SqliteRun.RunDb.pod_clash u t = true ∨ has_task_run id t = true) ∧
  st_tables r.2 = upserted u n id st ts ec ns t.
Proof.
  unfold upsert_pod, upserted, query, mbind, M_bind, gets, modify, mret, M_ret, throw.
  cbv zeta. pose proof (stmt_tables s) as Hs. destruct (stmt s) as [[[]|e] s1]; simpl in *; [|by left].
  rewrite Hs. destruct (RunDb.pod_clash u (st_tables s)) eqn:Ec; simpl; rewrite ?Hs; [by right; auto|].
  destruct (has_task_run id (st_tables s)) eqn:Et; simpl; rewrite ?Hs; auto.
Qed.

Lemma keeps_upsert_pod u n id st ts ec ns : keeps keyed_ok (upsert_pod u n id st ts ec ns).
Proof.
  intros s [Hok Hfk]. destruct (upsert_pod_cases u n id st ts ec ns s) as [->|[Hc ->]]; [by split|].
  unfold upserted. destruct (RunDb.pod_clash u (st_tables s)) eqn:E.
  - split; [by apply wf_upd_Task_Pods|by apply fk_upd_Task_Pods].
  - destruct Hc as [?|Hc]; [done|]. split; [by eapply wf_new_pod|by apply fk_add_Task_Pod].
Qed.

#[local] Opaque insertTask createDependencyConnection upsert_pod update_returning.

Lemma keeps_keyed_call env jsonb c : keeps keyed_ok (run_call env jsonb c).
Proof.
  destruct c; simpl; autounfold with pg_ops; pg_keeps_walk;
    try apply keeps_insertTask; try apply keeps_createDependencyConnection;
    try apply keeps_upsert_pod; try pg_table;
    match goal with H : keyed_ok _ |- _ => destruct H end; clash_facts;
    try match goal with H : _ && _ = true |- _ => apply andb_true_iff in H as [? ?] end.
  - by apply copy_run_params_ok.
  - by apply copy_suspended_ok.
Qed.

(** ** The active version *)

Definition latest_active (t : Tables) : Prop := active_latest (tb_DAGs t).

(** The inserts of tasks, dependencies and parameters leave the DAGs alone. *)
Lemma copy_dependencies_DAGs k deps t : tb_DAGs (copy_dependencies k deps t) = tb_DAGs t.
Proof. unfold copy_dependencies. revert t. induction deps as [|d deps IH]; [done|]. intros t. simpl. by rewrite IH. Qed.
Lemma copy_run_params_DAGs k ps t : tb_DAGs (copy_run_params k ps t) = tb_DAGs t.
Proof. unfold copy_run_params. revert t. induction ps as [|d ps IH]; [done|]. intros t. simpl. by rewrite IH. Qed.
Lemma copy_suspended_DAGs k ids t : tb_DAGs (copy_suspended k ids t) = tb_DAGs t.
Proof. unfold copy_suspended. revert t. induction ids as [|d ids IH]; [done|]. intros t. simpl. by rewrite IH. Qed.

Lemma pg_triple_wrap_err {A} P msg (m : M Store A) (Q : A → Tables → Prop) :
  triple P m (on_ok Q) → triple P (RunDb.wrap_err msg m) (on_ok Q).
Proof.
  intros Hm s HP. specialize (Hm s HP). unfold RunDb.wrap_err, try, mbind, M_bind.
  by destruct (m s) as [[a|e] s'].
Qed.

Section dags.
Context (I : list DagRow → Prop).

Lemma keeps_DAGs_insertTask env dagID task ns v :
  keeps (λ t, I (tb_DAGs t)) (insertTask env dagID task ns v).
Proof.
  #[local] Transparent insertTask. unfold insertTask. apply keeps_bind.
  - destruct (ts_TaskRef task); [pg_keeps_walk|].
    apply keeps_bind; [apply keeps_uuid|intros u]. pg_keeps_walk; done.
  - intros taskId. pg_keeps_walk; done.
Qed.

Lemma keeps_DAGs_connect dagID task v :
  keeps (λ t, I (tb_DAGs t)) (createDependencyConnection dagID task v).
Proof.
  #[local] Transparent createDependencyConnection. unfold createDependencyConnection.
  pg_keeps_walk. by rewrite copy_dependencies_DAGs.
Qed.

Lemma keeps_DAGs_upsert_pod u n id st ts ec ns :
  keeps (λ t, I (tb_DAGs t)) (upsert_pod u n id st ts ec ns).
Proof.
  intros s HI. destruct (upsert_pod_cases u n id st ts ec ns s) as [->|[_ ->]]; [done|].
  unfold upserted. by destruct (RunDb.pod_clash u (st_tables s)).
Qed.

End dags.

#[local] Opaque insertTask createDependencyConnection upsert_pod.

Lemma pg_insertDAG_almost env dag v ns h :
  triple (λ t, latest_active t ∧ next_version (dag_Name dag) ns v (tb_DAGs t))
    (insertDAG env dag v ns h)
    (on_ok (λ _ t, almost_latest (dag_Name dag) ns v (tb_DAGs t))).
Proof.
  unfold insertDAG. eapply triple_bind; [apply triple_keeps; keeps_walk|]. intros nextTime.
  eapply triple_bind.
  { apply pg_triple_wrap_err, (triple_insert_ret _ _ _ _ _
      (λ _ t, almost_latest (dag_Name dag) ns v (tb_DAGs t))).
    intros t [Ha Hn] _. simpl. apply almost_add; [|done|done|done]. by apply is_dag_true. }
  intros dagID. apply triple_keeps. autounfold with pg_ops. pg_keeps_walk;
    try apply (keeps_DAGs_insertTask (almost_latest (dag_Name dag) ns v));
    try apply (keeps_DAGs_connect (almost_latest (dag_Name dag) ns v)); assumption.
Qed.

Lemma triple_pg_row_or_None {A} P (f : Tables → option A) :
  triple P (try (row_or None (row ← query_row (λ t, option_list (f t)); mret (Some row))))
    (on_ok (λ r t, match r with Ok o => P t ∧ o = f t | Err _ => True end)).
Proof.
  intros s HP. unfold row_or, query_row, query, try, mbind, M_bind, gets, stmt.
  destruct (default false _); simpl; [done|].
  by destruct (f (st_tables s)) eqn:E; simpl; rewrite ?E.
Qed.

Lemma keeps_inv_InsertDAG env dag ns : keeps pg_inv (InsertDAG env dag ns).
Proof.
  apply keeps_tx. apply (triple_weaken pg_inv _ _ (λ _ t, keyed_ok t ∧ latest_active t));
    [|done|by intros _ t [[] ?]].
  apply triple_and.
  { apply (triple_weaken keyed_ok _ _ (λ _ t, keyed_ok t)); [|by intros t (? & ? & ?)|done].
    apply triple_keeps. autounfold with pg_ops. pg_keeps_walk;
      try apply keeps_insertTask; try apply keeps_createDependencyConnection; pg_table. }
  set (Found (o : option DagRow) t := pg_inv t ∧ o = DagDb.latest_dag (dag_Name dag) ns t).
  eapply (triple_bind _ _ _ (λ r t, match r with Ok o => Found o t | Err _ => True end));
    [apply triple_pg_row_or_None|]. intros r.
  eapply (triple_bind _ _ _ Found).
  { destruct r as [o|e]; [by apply triple_ret|apply triple_throw]. }
  intros existing.
  destruct (match existing with Some d => _ | None => _ end) as [[[id version] hash] susp] eqn:E.
  eapply (triple_bind _ _ _ (λ _, Found existing)).
  { apply triple_keeps. pg_keeps_walk. }
  intros hashValue. destruct (hash =b hashValue); [destruct (negb (susp =b _))|].
  - apply triple_weaken with (P := latest_active) (Q := λ _, latest_active);
      [|by intros t [(? & ? & ?) ?]|done].
    apply triple_keeps. unfold setSuspended. pg_keeps_walk; by apply active_latest_update.
  - apply triple_throw.
  - eapply triple_bind.
    + eapply triple_weaken; [apply pg_insertDAG_almost| |by intros a t Hx; exact Hx].
      intros t [(Hok & _ & Ha) ->]. split; [done|].
      pose proof (latest_next (dag_Name dag) ns t) as Hn.
      destruct (DagDb.latest_dag (dag_Name dag) ns t) as [d|] eqn:Ed; simplify_eq.
      * rewrite bool_decide_eq_false_2 by (by eapply latest_id). done.
      * done.
    + intros []. unfold setInactive. apply triple_exec. intros t Ht. by apply almost_deactivate.
Qed.

Lemma keeps_active_pg env jsonb c :
  match c with
  | CInsertDAG _ _ => True
  | _ => keeps latest_active (run_call env jsonb c)
  end.
Proof.
  destruct c; simpl; try done; autounfold with pg_ops; pg_keeps_walk;
    try apply (keeps_DAGs_upsert_pod active_latest); unfold latest_active in *;
    rewrite ?copy_run_params_DAGs, ?copy_suspended_DAGs; try assumption;
    (by apply active_latest_update) || (by apply active_latest_except).
Qed.

Lemma keeps_pg_inv_call env jsonb c : keeps pg_inv (run_call env jsonb c).
Proof.
  intros s (H1 & H2 & H3). pose proof (keeps_keyed_call env jsonb c s (conj H1 H2)) as [? ?].
  pose proof (keeps_active_pg env jsonb c) as Ho.
  destruct c; try (split_and!; [done|done|exact (Ho s H3)]).
  assert (keeps pg_inv (run_call env jsonb (CInsertDAG dag namespace))) as Hp; [|by apply Hp].
  apply keeps_bind; [apply keeps_inv_InsertDAG | intros; apply keeps_ret].
Qed.

Lemma pg_reachable_inv env jsonb s : pg_reachable env jsonb s → pg_inv (st_tables s).
Proof.
  assert (pg_inv (st_tables empty_store)) as H0.
  { split; [|split].
    - constructor; simpl; (apply NoDup_nil_2 || (split_and!; [apply NoDup_nil_2|lia|];
        intros x Hx; by apply elem_of_nil in Hx)).
    - constructor; intros x Hx; by apply elem_of_nil in Hx.
    - intros d d' Hd. by apply elem_of_nil in Hd. }
  unfold pg_reachable. intros H. revert H0.
  induction H as [|s1 s2 s3 Hstep _ IH]; [done|]. intros H1. apply IH.
  destruct Hstep; [by apply keeps_pg_inv_call | done].
Qed.

Lemma pg_run_calls_reachable env jsonb cs s :
  pg_reachable env jsonb s → pg_reachable env jsonb (run_calls env jsonb cs s).
Proof.
  revert s. induction cs as [|c cs IH]; intros s Hs; [done|]. apply IH.
  eapply rtc_r; [exact Hs|apply pg_call].
Qed.

Lemma pg_fresh_reachable env jsonb faults now zone :
  pg_reachable env jsonb (mkStore emptyTables faults now zone 0).
Proof. apply rtc_once, (pg_world env jsonb empty_store). Qed.

(** ** Failing calls *)

Lemma reads_pg_query_row {A} (f : Tables → list A) : reads (query_row f).
Proof. apply reads_bind; [apply reads_query|]. intros []; [apply reads_throw|apply reads_ret]. Qed.

Lemma reads_pg_row_or {A} (dflt : A) m : reads m → reads (row_or dflt m).
Proof.
  intros Hm. apply reads_bind; [by apply reads_try|].
  intros [a|e]; [apply reads_ret|]. case_match; [apply reads_ret|apply reads_throw].
Qed.

Lemma reads_in_tx {A} ob oc (m : M Store A) : reads m → reads (in_tx ob oc m).
Proof.
  intros Hm s. unfold in_tx. pose proof (stmt_tables s) as H0.
  destruct (stmt s) as [[[]|e] s0]; simpl in *; [|done].
  specialize (Hm s0). destruct (m s0) as [[a|e] s1]; simpl in *; [|done].
  pose proof (stmt_tables s1) as H1. destruct (stmt s1) as [[[]|e] s2]; simpl in *; congruence.
Qed.

Ltac pg_reads_walk :=
  repeat first
    [ apply reads_pg_query_row | apply reads_pg_row_or | apply reads_in_tx | progress reads_walk ].

#[local] Transparent update_returning.

(** An update that returns no row has changed none. *)
Lemma atomic_returning {A} (p : TaskRunRow → bool) f (g : TaskRunRow → A) :
  atomic (update_returning (λ t, g <$> where_ p (tb_Task_Runs t)) (upd_Task_Runs p f)).
Proof.
  intros s. unfold update_returning, mbind, M_bind, gets, modify. pose proof (stmt_tables s) as Hs.
  destruct (stmt s) as [[[]|e'] s']; simpl in *; [|done].
  destruct (where_ p (tb_Task_Runs (st_tables s'))) as [|r l] eqn:E; [|done].
  simpl. intros _. unfold upd_Task_Runs. rewrite update_where_none, set_Task_Runs_same; [done|].
  unfold count_where. by rewrite E.
Qed.

Lemma atomic_ClaimTasks limit w ttl : atomic (ClaimTasks limit w ttl).
Proof.
  intros s. unfold ClaimTasks, mbind, M_bind, gets, modify. pose proof (stmt_tables s) as Hs.
  destruct (stmt s) as [[[]|e'] s']; simpl in *; [|done]. by destruct (bool_decide _).
Qed.

Lemma atomic_pg_call env jsonb c : atomic (run_call env jsonb c).
Proof.
  destruct c; apply atomic_done;
    try apply atomic_in_tx; try apply atomic_insert_ret; try apply atomic_exec;
    try apply atomic_returning; try apply atomic_ClaimTasks;
    try (apply atomic_reads; autounfold with pg_ops; pg_reads_walk; done).
  - apply atomic_bind_read; [apply reads_try, reads_pg_query_row|].
    intros [u|e]; [apply atomic_reads, reads_ret|].
    destruct (e =b pgx_ErrNoRows); [|apply atomic_reads, reads_throw].
    apply atomic_bind_read; [apply reads_uuid|]. intros u.
    apply (atomic_bind_ret _ (λ _, u)). apply (atomic_try_map _ id), atomic_insert.
  - apply atomic_bind_read; [autounfold with pg_ops; pg_reads_walk|]. intros dagId.
    apply atomic_bind_read; [pg_reads_walk|].
    intros [u|e]; [apply atomic_reads, reads_ret|].
    destruct (e =b pgx_ErrNoRows); [apply atomic_in_tx|apply atomic_reads, reads_throw].
  - apply atomic_bind_read; [apply reads_gets|]. intros now. apply atomic_counted.
  - apply (atomic_bind_ret _ (λ _, tt)), atomic_returning.
  - apply atomic_bind_read; [apply reads_gets|]. intros now. apply atomic_exec_count.
  - apply atomic_bind_read; [apply reads_gets|]. intros now. apply atomic_returning.
  - apply atomic_bind_read; [apply reads_lift|]. intros text. apply atomic_exec.
Qed.

(** ** Properties *)

(** C30: In every state that the PostgreSQL database can reach, through any calls
    with any of their statements failing, the keys are unique, every row refers
    to rows that are there, and only the latest version of a DAG is active. *)
Theorem pg_database_invariant (env : DbEnv) (jsonb : string → result string) (s : Store)
    (Hs : pg_reachable env jsonb s) :
  tables_ok (st_tables s) ∧ fk_ok (st_tables s) ∧
  ∀ d d', d ∈ tb_DAGs (st_tables s) → d' ∈ tb_DAGs (st_tables s) →
    d_name d = d_name d' → d_namespace d = d_namespace d' → d_active d = true →
    (d_version d' <= d_version d)%Z.
Proof. exact (pg_reachable_inv env jsonb s Hs). Qed.

(** Every text is JSON for the examples. *)
Definition demo_jsonb : string → result string := Ok.

(** The example DAG is inserted, run once and deleted. *)
Definition demo_pg_calls : list DbCall :=
  [CInsertDAG demo_dag "default"; CCreateDAGRun "etl-1" (mkDagRunSpec "etl" []) ∅ None;
   CAddPendingTaskRun 1 1; CDeleteDAG "etl" "default"].

Lemma pg_database_invariant_witness :
  fk_ok (st_tables (run_calls demo_env demo_jsonb demo_pg_calls empty_store)).
Proof.
  apply (pg_database_invariant demo_env demo_jsonb).
  apply pg_run_calls_reachable, rtc_refl.
Defined.

(** A call that fails leaves the tables as they were, whichever of its
    statements failed: on PostgreSQL this holds for every call. *)
Theorem pg_failed_calls_change_nothing (env : DbEnv) (jsonb : string → result string) (c : DbCall)
    (s : Store) (Hf : is_ok (run_call env jsonb c s).1 = false) :
  st_tables (run_call env jsonb c s).2 = st_tables s.
Proof. by apply atomic_pg_call. Qed.

(** A task run for a run that is not there: the foreign key refuses it. *)
Lemma pg_failed_calls_change_nothing_witness :
  st_tables (run_call demo_env demo_jsonb (CAddPendingTaskRun 7 1) empty_store).2 = emptyTables.
Proof.
  apply (pg_failed_calls_change_nothing demo_env demo_jsonb (CAddPendingTaskRun 7 1) empty_store).
  vm_compute. reflexivity.
Defined.
