(* ===== verification/PostgresLeases.v ===== *)
(** * Claims of concurrent workers (internal/db/postgresDAGManager.go)

    PostgreSQL runs the statements of several workers at a time: a statement
    takes the time [now()] when it begins, locks the rows that it changes one by
    one - checking its condition on the row that it locked, and, under
    [SKIP LOCKED], leaving aside the rows of others - and changes them when it
    commits.  Leases exclude other workers however the statements interleave,
    and each operation of the manager is one such statement run alone. *)

From S2P Require Import Prelude Api Store SqliteDag SqliteRun SqliteClaim Database Leases PostgresDag PostgresRun PostgresClaim PostgresKeys.
Import RunDb ClaimDb Calls PgSchema PgClaim.
Local Open Scope kontroler_scope.

Module Locks.

(** The statements on claims. *)
Inductive Statement :=
| SClaimTasks (limit : Z) (workerId : string) (leaseTTL : Z)
| SClaimTaskByID (taskRunId : Z) (workerId : string) (leaseTTL : Z)
| SRenewLease (taskRunId : Z) (workerId : string) (leaseTTL : Z)
| SFinalizeClaim (taskRunId : Z) (workerId : string)
| SRecoverExpired.

(** Its WHERE clause. *)
Definition guard (st : Statement) (now : Z) (r : TaskRunRow) : bool :=
  match st with
  | SClaimTasks _ _ _ => candidate now r
  | SClaimTaskByID id _ _ => free_to_claim id now r
  | SRenewLease id w _ | SFinalizeClaim id w => owned id w r
  | SRecoverExpired => lease_expired now r && (trn_status r =b "pending")
  end.

(** Its SET clause. *)
Definition effect (st : Statement) (now : Z) : TaskRunRow → TaskRunRow :=
  match st with
  | SClaimTasks _ w ttl | SClaimTaskByID _ w ttl => claim_by w ttl now
  | SRenewLease _ _ ttl => set_lease (now + ttl)
  | SFinalizeClaim _ _ => finalize
  | SRecoverExpired => set_claim None None None
  end.

(** [LIMIT]: whether one more row may be taken. *)
Definition room (st : Statement) (taken : nat) : Prop :=
  match st with SClaimTasks limit _ _ => (Z.of_nat taken < limit)%Z | _ => True end.

Definition worker_of (st : Statement) : option string :=
  match st with
  | SClaimTasks _ w _ | SClaimTaskByID _ w _ | SRenewLease _ w _ | SFinalizeClaim _ w => Some w
  | SRecoverExpired => None
  end.

(** A statement that runs: its [now()] and the rows it has locked. *)
Record Running := mkRunning { rn_statement : Statement; rn_now : Z; rn_locked : list Z }.

Record Server := mkServer {
  sv_rows : list TaskRunRow;
  sv_now : Z;
  sv_running : list Running
}.

Definition locked_ids (running : list Running) : list Z := flat_map rn_locked running.

(** The rows that a statement changes when it commits. *)
Definition taken (a : Running) (r : TaskRunRow) : bool :=
  bool_decide (trn_task_run_id r ∈ rn_locked a) && guard (rn_statement a) (rn_now a) r.

Definition commit (a : Running) (rows : list TaskRunRow) : list TaskRunRow :=
  update_where (taken a) (effect (rn_statement a) (rn_now a)) rows.

Definition with_lock (a : Running) (id : Z) : Running :=
  mkRunning (rn_statement a) (rn_now a) (rn_locked a ++ [id]).

Inductive step : Server → Server → Prop :=
| step_tick rows now now' running :
    (now <= now')%Z → step (mkServer rows now running) (mkServer rows now' running)
| step_begin rows now l1 l2 st :
    step (mkServer rows now (l1 ++ l2)) (mkServer rows now (l1 ++ mkRunning st now [] :: l2))
| step_lock rows now l1 l2 a r :
    r ∈ rows → guard (rn_statement a) (rn_now a) r = true →
    trn_task_run_id r ∉ locked_ids (l1 ++ a :: l2) →
    room (rn_statement a) (length (rn_locked a)) →
    step (mkServer rows now (l1 ++ a :: l2))
         (mkServer rows now (l1 ++ with_lock a (trn_task_run_id r) :: l2))
| step_commit rows now l1 l2 a :
    step (mkServer rows now (l1 ++ a :: l2)) (mkServer (commit a rows) now (l1 ++ l2))
| step_rollback rows now l1 l2 a :
    step (mkServer rows now (l1 ++ a :: l2)) (mkServer rows now (l1 ++ l2)).

(** A server with task runs of different ids, at rest. *)
Definition at_rest (s : Server) : Prop :=
  NoDup (trn_task_run_id <$> sv_rows s) ∧ sv_running s = [].

Definition reachable (s : Server) : Prop := ∃ s0, at_rest s0 ∧ rtc step s0 s.

(** The lease a claiming statement of a worker writes. *)
Definition claims_until (w : string) (a : Running) (until : Z) : Prop :=
  match rn_statement a with
  | SClaimTasks _ w' ttl | SClaimTaskByID _ w' ttl => w' = w ∧ until = (rn_now a + ttl)%Z
  | _ => False
  end.

(** The worker has no statement on the server. *)
Definition silent (w : string) (s : Server) : Prop :=
  ∀ b, b ∈ sv_running s → worker_of (rn_statement b) ≠ Some w.

(** A step of the others, before the lease ends. *)
Definition others_step (w : string) (until : Z) (s s' : Server) : Prop :=
  step s s' ∧ silent w s' ∧ (sv_now s' < until)%Z.

(** The calls of the manager that run these statements. *)
Definition claim_call (st : Statement) : M Store unit :=
  match st with
  | SClaimTasks limit w ttl => done (ClaimTasks limit w ttl)
  | SClaimTaskByID id w ttl => done (ClaimTaskByID id w ttl)
  | SRenewLease id w ttl => RenewLease id w ttl
  | SFinalizeClaim id w => FinalizeClaimToRunning id w ""
  | SRecoverExpired => done RecoverExpiredLeases
  end.

Definition server_of (s : Store) : Server := mkServer (tb_Task_Runs (st_tables s)) (st_now s) [].

End Locks.
Import Locks.

(** ** The invariant of the server *)

(** No row is locked twice; a locked row satisfies the condition under which it
    was locked. *)
Record server_inv (s : Server) : Prop := {
  si_ids : NoDup (trn_task_run_id <$> sv_rows s);
  si_locks : NoDup (locked_ids (sv_running s));
  si_time : ∀ a, a ∈ sv_running s → (rn_now a <= sv_now s)%Z;
  si_guard : ∀ a id, a ∈ sv_running s → id ∈ rn_locked a →
    ∃ r, r ∈ sv_rows s ∧ trn_task_run_id r = id ∧ guard (rn_statement a) (rn_now a) r = true
}.

Lemma locked_ids_middle l1 a l2 :
  locked_ids (l1 ++ a :: l2) ≡ₚ rn_locked a ++ locked_ids (l1 ++ l2).
Proof.
  unfold locked_ids. rewrite !flat_map_app. simpl. rewrite !app_assoc.
  by rewrite (Permutation_app_comm (flat_map _ l1) (rn_locked a)).
Qed.

Lemma locked_ids_elem running a id : a ∈ running → id ∈ rn_locked a → id ∈ locked_ids running.
Proof.
  intros Ha Hid. unfold locked_ids. rewrite list_elem_of_In, in_flat_map. exists a.
  by rewrite <- !list_elem_of_In.
Qed.

Lemma effect_id st now r : trn_task_run_id (effect st now r) = trn_task_run_id r.
Proof. by destruct st. Qed.

Lemma elem_of_middle {A} (x a : A) l1 l2 : x ∈ l1 ++ a :: l2 ↔ x = a ∨ x ∈ l1 ++ l2.
Proof. rewrite !elem_of_app, elem_of_cons. tauto. Qed.

(** A row that a statement has not locked stays when it commits. *)
Lemma commit_other a r rows :
  trn_task_run_id r ∉ rn_locked a → r ∈ rows → r ∈ commit a rows.
Proof.
  intros Hr Hin. apply elem_of_update_where. exists r. split; [done|].
  unfold taken. by rewrite bool_decide_eq_false_2.
Qed.

Lemma locks_step_inv s s' : step s s' → server_inv s → server_inv s'.
Proof.
  intros Hs [Hids Hlocks Htime Hguard]. destruct Hs as
    [rows now now' running Hle|rows now l1 l2 st|rows now l1 l2 a r Hr Hg Hfree Hroom
    |rows now l1 l2 a|rows now l1 l2 a]; simpl in *.
  - split; simpl; [done|done| |done]. intros b Hb. apply Htime in Hb. lia.
  - split; simpl; [done|by rewrite locked_ids_middle| |].
    + intros b [->|Hb]%elem_of_middle; simpl; [lia|auto].
    + intros b id [->|Hb]%elem_of_middle; [by intros ?%elem_of_nil|auto].
  - rewrite locked_ids_middle in Hfree, Hlocks. split; simpl; [done| | |].
    + rewrite locked_ids_middle. simpl. rewrite <- app_assoc. simpl.
      rewrite <- Permutation_middle. by apply NoDup_cons.
    + intros b [->|Hb]%elem_of_middle; [apply (Htime a)|apply Htime]; apply elem_of_middle; auto.
    + intros b id [->|Hb]%elem_of_middle; [|apply Hguard; apply elem_of_middle; auto].
      simpl. intros [Hid| ->%list_elem_of_singleton]%elem_of_app; [|by exists r].
      apply (Hguard a); [apply elem_of_middle; auto|done].
  - rewrite locked_ids_middle in Hlocks. apply NoDup_app in Hlocks as (_ & Hdis & Hlocks).
    split; simpl; [|done| |].
    + unfold commit. rewrite fmap_update_where; [done|]. intros; apply effect_id.
    + intros b Hb. apply Htime, elem_of_middle. auto.
    + intros b id Hb Hid. destruct (Hguard b id) as (r & Hr & <- & Hg);
        [by apply elem_of_middle; right|done|].
      exists r. split; [|done]. apply commit_other; [|done]. intros Ha.
      apply (Hdis _ Ha). by eapply locked_ids_elem.
  - rewrite locked_ids_middle in Hlocks. apply NoDup_app in Hlocks as (_ & _ & Hlocks).
    split; simpl; [done|done| |].
    + intros b Hb. apply Htime, elem_of_middle. auto.
    + intros b id Hb. apply Hguard, elem_of_middle. auto.
Qed.

Lemma locks_reachable_inv s : reachable s → server_inv s.
Proof.
  intros (s0 & [Hids Hrest] & Hs).
  assert (server_inv s0) as H0.
  { split; [done|rewrite Hrest; apply NoDup_nil_2| |]; intros a; rewrite Hrest;
      [intros H|intros ? H]; by apply elem_of_nil in H. }
  clear Hids Hrest. induction Hs; eauto using locks_step_inv.
Qed.

(** ** Holding a lease *)

Definition held_by (w : string) (until : Z) (r : TaskRunRow) : Prop :=
  trn_status r = "pending" ∧ trn_claimed_by r = Some w ∧ trn_lease_expires_at r = Some until.

Lemma held_excludes w until st now r :
  worker_of st ≠ Some w → (now < until)%Z → held_by w until r → guard st now r = false.
Proof.
  intros Hw Hnow (Hp & Hby & Hat).
  assert (lease_expired now r = false) as He.
  { unfold lease_expired. rewrite Hat. apply bool_decide_eq_false. lia. }
  destruct st; simpl in *; unfold candidate, free_to_claim, owned; rewrite ?He, ?Hby;
    rewrite ?(bool_decide_eq_false_2 (Some w = _)) by congruence; by rewrite ?andb_false_r.
Qed.

Lemma held_step w until r s s' :
  server_inv s → others_step w until s s' → silent w s → r ∈ sv_rows s → held_by w until r →
  r ∈ sv_rows s'.
Proof.
  intros [Hids Hlocks Htime Hguard] (Hs & _ & Hnow) Hsil Hr Hheld.
  destruct Hs as [| | |rows now l1 l2 a|]; simpl in *; try done.
  apply elem_of_update_where. exists r. split; [done|].
  assert (a ∈ l1 ++ a :: l2) as Ha by (apply elem_of_middle; auto).
  unfold taken. rewrite (held_excludes w until); [by rewrite andb_false_r|by apply Hsil| |done].
  apply Htime in Ha. simpl in *. lia.
Qed.

Lemma held_steps w until r s s' :
  server_inv s → rtc (others_step w until) s s' → silent w s → r ∈ sv_rows s →
  held_by w until r → server_inv s' ∧ silent w s' ∧ r ∈ sv_rows s' ∧ (s = s' ∨ sv_now s' < until)%Z.
Proof.
  intros Hinv Hs. induction Hs as [s|s1 s2 s3 Hst Hs IH]; [by auto|]. intros Hsil Hr Hheld.
  pose proof (held_step _ _ _ _ _ Hinv Hst Hsil Hr Hheld) as Hr2.
  destruct Hst as (Hst & Hsil2 & Hnow). destruct IH as (? & ? & ? & [<-|?]);
    eauto 6 using locks_step_inv.
Qed.

(** No statement of another worker has the row. *)
Lemma held_not_locked w until r s b :
  server_inv s → silent w s → (sv_now s < until)%Z → r ∈ sv_rows s → held_by w until r →
  b ∈ sv_running s → trn_task_run_id r ∉ rn_locked b.
Proof.
  intros [Hids Hlocks Htime Hguard] Hsil Hnow Hr Hheld Hb Hid.
  destruct (Hguard b _ Hb Hid) as (r' & Hr' & Hid' & Hg).
  assert (r' = r) as ->.
  { pose proof (where_key trn_task_run_id _ _ Hids Hr) as E.
    assert (r' ∈ where_ (λ y, bool_decide (trn_task_run_id y = trn_task_run_id r)) (sv_rows s)) as Hin
      by (apply elem_of_where; by rewrite bool_decide_eq_true_2).
    rewrite E in Hin. by apply list_elem_of_singleton in Hin. }
  rewrite (held_excludes w until) in Hg; [done|by apply Hsil| |done].
  apply Htime in Hb. lia.
Qed.

(** What a claiming statement leaves. *)
Lemma claim_commits w until l1 l2 a rows now id :
  server_inv (mkServer rows now (l1 ++ a :: l2)) → claims_until w a until → id ∈ rn_locked a →
  ∃ r, r ∈ commit a rows ∧ trn_task_run_id r = id ∧ held_by w until r.
Proof.
  intros Hinv Hc Hid. destruct Hinv as [_ _ _ Hguard]; simpl in *.
  destruct (Hguard a id) as (r & Hr & <- & Hg); [by apply elem_of_middle; left|done|].
  exists (effect (rn_statement a) (rn_now a) r).
  split; [|split; [apply effect_id|]].
  - apply elem_of_update_where. exists r. split; [done|]. unfold taken.
    by rewrite bool_decide_eq_true_2, Hg by done.
  - unfold claims_until in Hc. destruct (rn_statement a); try done; destruct Hc as [<- ->];
      simpl in Hg; split_and!; simpl; try done;
      unfold candidate, claimable, free_to_claim in Hg;
      rewrite !andb_true_iff, ?bool_decide_eq_true in Hg; tauto.
Qed.

(** ** A statement run alone *)

Lemma lock_rows st now L rows locked :
  (∀ r, r ∈ L → r ∈ rows ∧ guard st now r = true) →
  NoDup (locked ++ (trn_task_run_id <$> L)) →
  (∀ n, n < length locked + length L → room st n) →
  rtc step (mkServer rows now [mkRunning st now locked])
    (mkServer rows now [mkRunning st now (locked ++ (trn_task_run_id <$> L))]).
Proof.
  revert locked. induction L as [|r L IH]; intros locked HL Hnd Hroom.
  { simpl. by rewrite app_nil_r. }
  rewrite fmap_cons in *.
  eapply rtc_l.
  - destruct (HL r) as [Hr Hg]; [left|].
    apply (step_lock rows now [] [] (mkRunning st now locked) r); [done|done| |apply Hroom; simpl; lia].
    unfold locked_ids. simpl. rewrite app_nil_r. intros Hin.
    apply NoDup_app in Hnd as (_ & Hd & _). apply (Hd _ Hin). left.
  - unfold with_lock. simpl.
    replace (locked ++ trn_task_run_id r :: (trn_task_run_id <$> L))
      with ((locked ++ [trn_task_run_id r]) ++ (trn_task_run_id <$> L)) in * by by rewrite <- app_assoc.
    apply IH; [|done|].
    + intros x Hx. apply HL. by right.
    + intros n Hn. apply Hroom. rewrite length_app in Hn. simpl in *. lia.
Qed.

(** The changes of a statement that locks the rows [L] and commits. *)
Lemma run_alone st now L rows :
  NoDup (trn_task_run_id <$> L) → (∀ r, r ∈ L → r ∈ rows ∧ guard st now r = true) →
  (∀ n, n < length L → room st n) →
  rtc step (mkServer rows now [])
    (mkServer (commit (mkRunning st now (trn_task_run_id <$> L)) rows) now []).
Proof.
  intros Hnd HL Hroom. eapply rtc_l; [apply (step_begin rows now [] [] st)|].
  eapply rtc_r; [by apply (lock_rows st now L rows [])|].
  apply (step_commit rows now [] []).
Qed.

(** A statement that takes all the rows it wants. *)
Lemma run_all st now rows :
  NoDup (trn_task_run_id <$> rows) → (∀ n, room st n) →
  rtc step (mkServer rows now []) (mkServer (update_where (guard st now) (effect st now) rows) now []).
Proof.
  intros Hnd Hroom.
  replace (update_where (guard st now) (effect st now) rows)
    with (commit (mkRunning st now (trn_task_run_id <$> where_ (guard st now) rows)) rows).
  - apply run_alone; [by apply NoDup_where| |auto]. intros r [??]%elem_of_where. done.
  - unfold commit, update_where, taken. simpl. apply list_fmap_ext. intros i r Hr.
    apply list_elem_of_lookup_2 in Hr. destruct (guard st now r) eqn:E; [|by rewrite andb_false_r].
    rewrite bool_decide_eq_true_2; [done|]. by apply list_elem_of_fmap_2, elem_of_where.
Qed.

Lemma take_where_sub {A} n (p : A → bool) (l : list A) x : x ∈ take n (where_ p l) → x ∈ l ∧ p x = true.
Proof.
  intros H. assert (x ∈ where_ p l) as [??]%elem_of_where; [|done].
  rewrite <- (take_drop n (where_ p l)), elem_of_app. by left.
Qed.

(** What a call does to the rows: nothing, or the change of its statement. *)
Lemma claim_call_cases st s :
  let rows := tb_Task_Runs (st_tables s) in
  let s' := (claim_call st s).2 in
  st_now s' = st_now s ∧
  (tb_Task_Runs (st_tables s') = rows ∨
   match st with
   | SClaimTasks limit _ _ =>
       (0 <= limit)%Z ∧
       tb_Task_Runs (st_tables s') = commit (mkRunning st (st_now s)
         (trn_task_run_id <$> take (Z.to_nat limit) (where_ (guard st (st_now s)) rows))) rows
   | _ => tb_Task_Runs (st_tables s') = update_where (guard st (st_now s)) (effect st (st_now s)) rows
   end).
Proof.
  destruct st; simpl;
    unfold done, ClaimTasks, ClaimTaskByID, RenewLease, FinalizeClaimToRunning, RecoverExpiredLeases,
      exec_count, update_returning, mbind, M_bind, stmt, gets, modify, mret, M_ret, throw;
    simpl; destruct (default false (head (st_faults s))); simpl; auto.
  - case_bool_decide as Hl; simpl; [by auto|]. split; [done|]. right. split; [lia|].
    reflexivity.
  - by destruct (_ <$> where_ _ _); simpl; auto.
  - by case_bool_decide; simpl; auto.
  - by destruct (_ <$> where_ _ _); simpl; auto.
Qed.

(** ** Properties *)

(** C6: Once the claim of a worker commits - in bulk or by id, while any other
    statements run - the task run stays pending and claimed by it until its
    lease ends: whatever the others begin, lock, commit or roll back, none of
    their statements gets hold of the row. *)
Theorem pg_claims_exclusive (w : string) (until : Z) (rows : list TaskRunRow) (now : Z)
    (l1 l2 : list Running) (a : Running) (id : Z) (s' : Server)
    (Hreach : reachable (mkServer rows now (l1 ++ a :: l2)))
    (Hclaim : claims_until w a until) (Hid : id ∈ rn_locked a) (Hnow : (now < until)%Z)
    (Hsilent : silent w (mkServer (commit a rows) now (l1 ++ l2)))
    (Hs : rtc (others_step w until) (mkServer (commit a rows) now (l1 ++ l2)) s') :
  (∃ r, r ∈ sv_rows s' ∧ trn_task_run_id r = id ∧ trn_status r = "pending" ∧
        trn_claimed_by r = Some w ∧ trn_lease_expires_at r = Some until) ∧
  (∀ b, b ∈ sv_running s' → id ∉ rn_locked b).
Proof.
  pose proof (locks_reachable_inv _ Hreach) as Hinv.
  destruct (claim_commits w until _ _ _ _ _ id Hinv Hclaim Hid) as (r & Hr & <- & Hheld).
  pose proof (locks_step_inv _ _ (step_commit rows now l1 l2 a) Hinv) as Hinv1.
  destruct (held_steps _ _ r _ _ Hinv1 Hs Hsilent Hr Hheld) as (Hinv2 & Hsil2 & Hr2 & Hnow2).
  split; [exists r; destruct Hheld as (? & ? & ?); auto|].
  intros b. apply (held_not_locked w until r s'); try done.
  destruct Hnow2 as [<-|?]; done.
Qed.

Definition demo_rows : list TaskRunRow :=
  [RunDb.new_task_run 1 1 "pending" 0 1; RunDb.new_task_run 1 2 "pending" 0 2].
Definition demo_bulk (w : string) (locked : list Z) : Running :=
  mkRunning (SClaimTasks 10 w 30) 100 locked.

(** Two workers claim in bulk at the same time: the second one skips the row
    that the first one has locked. *)
Lemma pg_claims_exclusive_witness :
  ∃ r, r ∈ commit (demo_bulk "w1" [1%Z]) demo_rows ∧ trn_task_run_id r = 1%Z ∧
    trn_claimed_by r = Some "w1".
Proof.
  assert (reachable (mkServer demo_rows 100 ([] ++ demo_bulk "w1" [1%Z] :: [demo_bulk "w2" [2%Z]])))
    as Hreach.
  { exists (mkServer demo_rows 100 []). split.
    { split; [|done]. apply (bool_decide_unpack _). vm_compute. exact I. }
    eapply rtc_l; [apply (step_begin demo_rows 100 [] [] (SClaimTasks 10 "w2" 30))|].
    eapply rtc_l; [apply (step_begin demo_rows 100 [] [demo_bulk "w2" []] (SClaimTasks 10 "w1" 30))|].
    eapply rtc_l.
    { apply (step_lock demo_rows 100 [] [demo_bulk "w2" []] (demo_bulk "w1" [])
        (RunDb.new_task_run 1 1 "pending" 0 1)); [left|reflexivity| |simpl; lia].
      apply (bool_decide_unpack _). vm_compute. exact I. }
    apply rtc_once.
    apply (step_lock demo_rows 100 [demo_bulk "w1" [1%Z]] [] (demo_bulk "w2" [])
        (RunDb.new_task_run 1 2 "pending" 0 2)); [right; left|reflexivity| |simpl; lia].
    apply (bool_decide_unpack _). vm_compute. exact I. }
  destruct (pg_claims_exclusive "w1" 130 demo_rows 100 [] [demo_bulk "w2" [2%Z]] (demo_bulk "w1" [1%Z])
    1 (mkServer (commit (demo_bulk "w1" [1%Z]) demo_rows) 100 [demo_bulk "w2" [2%Z]]) Hreach)
    as [(r & Hr & Hid & _ & Hby & _) _].
  - split; reflexivity.
  - left.
  - lia.
  - intros b Hb E. apply list_elem_of_singleton in Hb as ->. discriminate E.
  - apply rtc_refl.
  - exists r. auto.
Defined.

(** Each call of the manager on claims, with or without failing statements, is
    an execution of the server in which one statement begins, locks its rows
    and commits, or nothing happens. *)
Theorem pg_claim_calls_refine (st : Statement) (s : Store) (Hok : tables_ok (st_tables s)) :
  rtc step (server_of s) (server_of (claim_call st s).2).
Proof.
  destruct (wf_task_runs _ Hok) as (Hnd & _ & _). unfold server_of.
  destruct (claim_call_cases st s) as [-> [->|H]]; [apply rtc_refl|].
  destruct st; try (rewrite H; apply run_all; [exact Hnd|by intros n]).
  destruct H as [Hl ->]. apply run_alone.
  - eapply sublist_NoDup; [exact (NoDup_where (guard (SClaimTasks limit workerId leaseTTL) (st_now s)) _ _ Hnd)|].
    apply fmap_sublist, sublist_take.
  - intros r Hr. by eapply take_where_sub.
  - intros n Hn. rewrite length_take in Hn. simpl. lia.
Qed.

(** The bulk claim of a database with one run in progress. *)
Definition demo_waiting : Store := PgCalls.run_calls demo_env demo_jsonb (take 3 demo_pg_calls) empty_store.

Lemma pg_claim_calls_refine_witness :
  length (sv_rows (server_of demo_waiting)) = 1 ∧
  trn_claimed_by <$> sv_rows (server_of (claim_call (SClaimTasks 5 "w" 30) demo_waiting).2) = [Some "w"] ∧
  rtc step (server_of demo_waiting) (server_of (claim_call (SClaimTasks 5 "w" 30) demo_waiting).2).
Proof.
  split_and!; [vm_compute; reflexivity|vm_compute; reflexivity|].
  apply pg_claim_calls_refine.
  exact (proj1 (pg_reachable_inv demo_env demo_jsonb _ (pg_run_calls_reachable _ _ _ _ (rtc_refl _ _)))).
Defined.
