(* ===== verification/PostgresAgree.v ===== *)
(** * The two database managers agree (sqliteManager.go, postgresDAGManager.go)

    Operations that the two managers write in the same SQL, with different
    helpers, errors and shortcuts: on a database whose statements do not fail,
    and whose local time is UTC, they give the same answers and leave the same
    tables. *)

From S2P Require Import Prelude Api Store SqliteDag SqliteRun SqliteClaim Database StoredDag TaskRelease Leases Retries PostgresDag PostgresRun PostgresClaim PostgresKeys.
Import Calls.
Local Open Scope kontroler_scope.

(** ** Same outcome *)

(** Equal states, and equal answers or an error from both. *)
Definition same_outcome {A} (x y : result A * Store) : Prop :=
  x.2 = y.2 ∧
  match x.1, y.1 with Ok a, Ok b => a = b | Err _, Err _ => True | _, _ => False end.

Definition agrees {A} (m m' : M Store A) : Prop :=
  ∀ s, nofault s → nofault (m s).2 ∧ same_outcome (m s) (m' s).

Lemma stmt_nofault s : nofault s → stmt s = (Ok tt, s).
Proof. unfold nofault, stmt. destruct s; simpl. by intros ->. Qed.

Lemma query_nofault {A} (f : Tables → A) s : nofault s → query f s = (Ok (f (st_tables s)), s).
Proof. intros Hs. unfold query, mbind, M_bind. by rewrite stmt_nofault. Qed.

Lemma agrees_refl {A} (m : M Store A) : quiet m → agrees m m.
Proof. intros Hq s Hs. split; [by apply Hq|]. split; [done|]. by destruct (m s).1. Qed.

Lemma agrees_bind {A B} (m m' : M Store A) (f f' : A → M Store B) :
  agrees m m' → (∀ a, agrees (f a) (f' a)) → agrees (m ≫= f) (m' ≫= f').
Proof.
  intros Hm Hf s Hs. specialize (Hm s Hs) as (Hn & E & Ha). unfold mbind, M_bind.
  destruct (m s) as [[a|e] s1], (m' s) as [[a'|e'] s1']; simpl in *; try done; subst.
  by apply Hf.
Qed.

Lemma agrees_throw {A} e e' : agrees (throw (A := A) e) (throw e').
Proof. by intros s Hs. Qed.

Lemma agrees_ret {A} (a : A) : agrees (mret a) (mret a).
Proof. by intros s Hs. Qed.

Lemma agrees_in_tx {A} ob oc ob' oc' (m m' : M Store A) :
  agrees m m' → agrees (in_tx ob oc m) (in_tx ob' oc' m').
Proof.
  intros Hm s Hs. unfold in_tx. rewrite (stmt_nofault s Hs).
  specialize (Hm s Hs) as (Hn & E & Ha).
  destruct (m s) as [[a|e] s1], (m' s) as [[a'|e'] s1']; simpl in *; try done; subst; [|done].
  by rewrite (stmt_nofault s1' Hn).
Qed.

Lemma agrees_query {A} (f : Tables → A) : agrees (query f) (query f).
Proof. intros s Hs. by rewrite query_nofault. Qed.

Lemma agrees_query_row {A} (f : Tables → list A) :
  agrees (Store.query_row f) (PgSchema.query_row f).
Proof. apply agrees_bind; [apply agrees_query|]. intros []; [apply agrees_throw|apply agrees_ret]. Qed.

(** Both managers take a missing row for the zero value, each by its own
    sentinel. *)
Lemma agrees_row_or {A} (dflt : A) (f : Tables → list A) :
  agrees (DagDb.row_or dflt (Store.query_row f)) (PgSchema.row_or dflt (PgSchema.query_row f)).
Proof.
  intros s Hs. unfold DagDb.row_or, PgSchema.row_or, Store.query_row, PgSchema.query_row, try,
    mbind, M_bind. rewrite (query_nofault f s Hs). by destruct (f (st_tables s)).
Qed.

Lemma agrees_wrap_err {A} msg (m m' : M Store A) :
  agrees m m' → agrees (RunDb.wrap_err msg m) m'.
Proof.
  intros Hm s Hs. specialize (Hm s Hs) as (Hn & E & Ha).
  unfold RunDb.wrap_err, try, mbind, M_bind.
  destruct (m s) as [[a|e] s1], (m' s) as [[a'|e'] s1']; simpl in *; done.
Qed.

Lemma agrees_sym {A} (m m' : M Store A) : agrees m m' → agrees m' m.
Proof.
  intros Hm s Hs. specialize (Hm s Hs) as (Hn & E & Ha). rewrite E in Hn. split; [done|].
  split; [done|]. by destruct (m s).1, (m' s).1.
Qed.

Lemma agrees_wrap_both {A} msg msg' (m m' : M Store A) :
  agrees m m' → agrees (RunDb.wrap_err msg m) (RunDb.wrap_err msg' m').
Proof. intros Hm. apply agrees_wrap_err, agrees_sym, agrees_wrap_err, agrees_sym, Hm. Qed.

Lemma agrees_exec f : agrees (exec f) (exec f).
Proof. apply agrees_refl. intros s Hs. unfold exec, mbind, M_bind. by rewrite stmt_nofault. Qed.

Lemma agrees_exec_count n f : agrees (exec_count n f) (exec_count n f).
Proof. apply agrees_refl. intros s Hs. unfold exec_count, mbind, M_bind. by rewrite stmt_nofault. Qed.

Lemma agrees_gets {A} (f : Store → A) : agrees (gets f) (gets f).
Proof. by intros s Hs. Qed.

(** Step through two operations of the same shape. *)
Ltac agree_walk :=
  repeat first
    [ apply agrees_ret | apply agrees_throw | apply agrees_gets | apply agrees_query
    | apply agrees_query_row | apply agrees_row_or | apply agrees_exec | apply agrees_exec_count
    | apply agrees_in_tx | apply agrees_wrap_both | apply agrees_wrap_err
    | apply agrees_bind; [|intros ?]
    | progress case_match ].

(** ** Success *)

Lemma agrees_runnable_loop counts met tr :
  agrees (RunDb.runnable_loop counts met tr) (PgRun.runnable_loop counts met tr).
Proof.
  induction counts as [|[k n] counts IH]; simpl; [apply agrees_ret|].
  destruct (negb _); [done|].
  set (f t := trn_status <$> where_ (λ r, (trn_task_id r =b k) && (trn_run_id r =b tr)) (tb_Task_Runs t)).
  intros s Hs. unfold Store.query_row, PgSchema.query_row, try, mbind, M_bind.
  rewrite (query_nofault f s Hs). destruct (f (st_tables s)); [|exact (IH s Hs)].
  unfold throw. rewrite bool_decide_eq_true_2 by done.
  exact (agrees_bind _ _ (λ ids, mret (k :: ids)) (λ ids, mret (k :: ids)) IH
    (λ ids, agrees_ret (k :: ids)) s Hs).
Qed.

Lemma task_rows_no_ids runId t : RunDb.task_rows [] runId t = [].
Proof.
  unfold RunDb.task_rows. apply flat_map_nil. intros k _. apply flat_map_nil. intros dt _.
  apply flat_map_nil. intros r _. by rewrite (bool_decide_eq_false_2 (_ ∈ [])), andb_false_r by apply not_elem_of_nil.
Qed.

Lemma agrees_getTasksByIds ids runId :
  agrees (RunDb.getTasksByIds ids runId) (PgRun.getTasksByIds ids runId).
Proof.
  unfold RunDb.getTasksByIds, PgRun.getTasksByIds. case_bool_decide as E.
  - subst. intros s Hs. unfold mbind, M_bind. by rewrite query_nofault, task_rows_no_ids.
  - agree_walk.
Qed.

Lemma agrees_update_returning {A} (rows : Tables → list A) f :
  agrees (RunDb.update_returning rows f) (PgSchema.update_returning rows f).
Proof.
  intros s Hs. unfold RunDb.update_returning, PgSchema.update_returning, mbind, M_bind.
  rewrite stmt_nofault by done. simpl. by destruct (rows (st_tables s)).
Qed.

Lemma agrees_row_or_returning {A} (dflt : A) (rows : Tables → list A) f :
  agrees (DagDb.row_or dflt (RunDb.update_returning rows f))
    (PgSchema.row_or dflt (PgSchema.update_returning rows f)).
Proof.
  intros s Hs. unfold DagDb.row_or, PgSchema.row_or, RunDb.update_returning,
    PgSchema.update_returning, try, mbind, M_bind.
  rewrite stmt_nofault by done. simpl. by destruct (rows (st_tables s)).
Qed.

(** What follows the first statement. *)
Definition release_rest (taskRunId runId : Z) : M Store (list Task) :=
  exec (upd_DAG_Runs (RunDb.is_run runId) RunDb.add_success) ≫= λ _,
  status ← PgSchema.row_or "" (PgSchema.update_returning
    (λ t, (λ _, "success") <$> where_ (RunDb.run_complete runId t) (tb_DAG_Runs t))
    (λ t, upd_DAG_Runs (RunDb.run_complete runId t) (RunDb.set_status "success") t));
  if status =b "success" then mret []
  else
    dagId ← PgRun.getDAGIdFromRun runId;
    next ← PgRun.getNextRunnableTasks taskRunId runId dagId;
    PgRun.fetchTaskParameters dagId next.1 next.2.

Lemma set_tables_same s : set_tables (st_tables s) s = s.
Proof. by destruct s. Qed.

(** Without the run the rest fails and has changed nothing. *)
Lemma release_rest_missing taskRunId runId s :
  nofault s → (∀ r, r ∈ tb_DAG_Runs (st_tables s) → RunDb.is_run runId r = false) →
  release_rest taskRunId runId s = (Err pgx_ErrNoRows, s).
Proof.
  intros Hs Hrun. assert (∀ r, r ∈ tb_DAG_Runs (st_tables s) →
    RunDb.run_complete runId (st_tables s) r = false) as Hrun2.
  { intros r Hr. unfold RunDb.run_complete. by rewrite Hrun. }
  unfold release_rest, exec, PgSchema.row_or, PgSchema.update_returning,
    PgRun.getDAGIdFromRun, PgSchema.query_row, query, try, mbind, M_bind, modify, gets.
  rewrite (stmt_nofault s Hs), upd_DAG_Runs_nop, set_tables_same by done.
  rewrite (stmt_nofault s Hs), upd_DAG_Runs_nop, set_tables_same by done.
  rewrite (proj2 (where_nil _ _) Hrun2). simpl.
  rewrite (stmt_nofault s Hs). by rewrite (proj2 (where_nil _ _) Hrun).
Qed.

Definition sqlite_rest (taskRunId runId : Z) : M Store (list Task) :=
  exec (upd_DAG_Runs (RunDb.is_run runId) RunDb.add_success) ≫= λ _,
  status ← DagDb.row_or "" (RunDb.update_returning
    (λ t, (λ _, "success") <$> where_ (RunDb.run_complete runId t) (tb_DAG_Runs t))
    (λ t, upd_DAG_Runs (RunDb.run_complete runId t) (RunDb.set_status "success") t));
  if status =b "success" then mret []
  else
    dagId ← RunDb.getDAGIdFromRun runId;
    next ← RunDb.getNextRunnableTasks taskRunId runId dagId;
    RunDb.fetchTaskParameters dagId next.1 next.2.

Lemma agrees_rest taskRunId runId : agrees (sqlite_rest taskRunId runId) (release_rest taskRunId runId).
Proof.
  unfold sqlite_rest, release_rest. apply agrees_bind; [apply agrees_exec|intros _].
  apply agrees_bind; [apply agrees_row_or_returning|intros status].
  case_match; [apply agrees_ret|]. apply agrees_bind; [apply agrees_query_row|intros dagId].
  apply agrees_bind.
  - unfold RunDb.getNextRunnableTasks, PgRun.getNextRunnableTasks.
    apply agrees_bind; [apply agrees_query|intros counts].
    apply agrees_bind; [apply agrees_query|intros met].
    apply agrees_bind; [apply agrees_runnable_loop|intros ids]. apply agrees_getTasksByIds.
  - intros next. unfold RunDb.fetchTaskParameters, PgRun.fetchTaskParameters. agree_walk.
Qed.

Lemma in_tx_outcome {A} ob oc ob' oc' (m m' : M Store A) s :
  nofault s → nofault (m s).2 ∧ same_outcome (m s) (m' s) →
  nofault (in_tx ob oc m s).2 ∧ same_outcome (in_tx ob oc m s) (in_tx ob' oc' m' s).
Proof.
  intros Hs (Hn & E & Ha). unfold in_tx. rewrite (stmt_nofault s Hs).
  destruct (m s) as [[a|e] s1], (m' s) as [[a'|e'] s1']; simpl in *; try done; subst; [|done].
  by rewrite (stmt_nofault s1' Hn).
Qed.

(** The first statement: SQLite fails when the task run is not there,
    PostgreSQL goes on with run 0. *)
Definition mark_success (taskRunId : Z) : Tables → Tables :=
  upd_Task_Runs (RunDb.is_task_run taskRunId) (RunDb.set_trn_status "success").

Definition run_of (taskRunId : Z) (t : Tables) : list Z :=
  trn_run_id <$> where_ (RunDb.is_task_run taskRunId) (tb_Task_Runs t).

Definition sqlite_body (taskRunId : Z) : M Store (list Task) :=
  r ← try (RunDb.update_returning (run_of taskRunId) (mark_success taskRunId));
  runId ← match r with
          | Ok runId => mret runId
          | Err e => if e =b pgx_ErrNoRows then mret 0%Z else throw e
          end;
  sqlite_rest taskRunId runId.

Definition pg_body (taskRunId : Z) : M Store (list Task) :=
  runId ← PgSchema.row_or 0%Z
    (PgSchema.update_returning (run_of taskRunId) (mark_success taskRunId));
  release_rest taskRunId runId.

Lemma sqlite_body_eq taskRunId s :
  nofault s →
  sqlite_body taskRunId s =
  match run_of taskRunId (st_tables s) with
  | [] => (Err ENoRows, set_tables (mark_success taskRunId (st_tables s)) s)
  | runId :: _ =>
      sqlite_rest taskRunId runId (set_tables (mark_success taskRunId (st_tables s)) s)
  end.
Proof.
  intros Hs. unfold sqlite_body, RunDb.update_returning, try, mbind, M_bind, gets, modify.
  rewrite (stmt_nofault s Hs). by destruct (run_of taskRunId (st_tables s)).
Qed.

Lemma pg_body_eq taskRunId s :
  nofault s →
  pg_body taskRunId s =
  release_rest taskRunId (default 0%Z (head (run_of taskRunId (st_tables s))))
    (set_tables (mark_success taskRunId (st_tables s)) s).
Proof.
  intros Hs. unfold pg_body, PgSchema.row_or, PgSchema.update_returning, try, mbind, M_bind, gets, modify.
  rewrite (stmt_nofault s Hs). by destruct (run_of taskRunId (st_tables s)).
Qed.

Lemma body_agrees taskRunId s :
  nofault s → tables_ok (st_tables s) →
  nofault (sqlite_body taskRunId s).2 ∧ same_outcome (sqlite_body taskRunId s) (pg_body taskRunId s).
Proof.
  intros Hs Hok. rewrite sqlite_body_eq, pg_body_eq by done.
  set (s1 := set_tables _ s). assert (nofault s1) as Hs1 by done.
  destruct (run_of taskRunId (st_tables s)) as [|runId l]; [|by apply agrees_rest].
  rewrite release_rest_missing; [done|done|].
  intros r Hr. destruct (wf_runs _ Hok) as (_ & _ & Hb). apply Hb in Hr.
  unfold RunDb.is_run. apply bool_decide_eq_false_2. simpl. lia.
Qed.

Lemma MarkSuccess_agrees taskRunId s :
  nofault s → tables_ok (st_tables s) →
  same_outcome (RunDb.MarkSuccessAndGetNextTasks taskRunId s)
    (PgRun.MarkSuccessAndGetNextTasks taskRunId s).
Proof. intros Hs Hok. by apply (in_tx_outcome id id _ _ _ _ s Hs), body_agrees. Qed.

(** ** The other operations *)

(** A claim by id: one statement here, an update and a query in SQLite. *)
Lemma ClaimTaskByID_agrees id w ttl s :
  nofault s → st_zone s = 0%Z → tables_ok (st_tables s) →
  same_outcome (ClaimDb.ClaimTaskByID id w ttl s) (PgClaim.ClaimTaskByID id w ttl s).
Proof.
  intros Hs Hz Hok.
  unfold ClaimDb.ClaimTaskByID, ClaimDb.lease_at, PgClaim.ClaimTaskByID, PgSchema.update_returning,
    exec_count, Store.query_row, query, mbind, M_bind, gets, modify.
  rewrite (stmt_nofault s Hs), Hz, Z.add_0_r. cbn [st_tables st_now set_tables].
  set (p := ClaimDb.free_to_claim id (st_now s)). unfold PgClaim.claim_by.
  set (f := ClaimDb.set_claim (Some w) (Some (st_now s)) (Some (st_now s + ttl)%Z)).
  unfold count_where.
  destruct (where_ p (tb_Task_Runs (st_tables s))) as [|r l] eqn:E; simpl; [done|].
  rewrite (stmt_nofault (set_tables _ s)) by done. simpl.
  assert (r ∈ r :: l) as Hr by left. rewrite <- E in Hr. apply elem_of_where in Hr as [Hp Hr].
  pose proof Hp as Hid. unfold p, ClaimDb.free_to_claim in Hid.
  rewrite !andb_true_iff in Hid. destruct Hid as [[Hid _] _].
  pose proof (task_run_rows _ id r Hok Hr (bool_decide_eq_true_1 _ Hid)) as Hrow.
  assert (where_ (RunDb.is_task_run id) (update_where p f (tb_Task_Runs (st_tables s))) = [f r]) as ->.
  { pose proof (Leases.rows_of_upd id p f (st_tables s) ltac:(done)) as H.
    unfold Leases.rows_of in H. simpl in H. rewrite H, Hrow. simpl. by rewrite Hp. }
  split; [done|]. by destruct (r).
Qed.

Lemma counted_agrees (p : TaskRunRow → bool) f e s :
  nofault s →
  same_outcome
    ((rows ← exec_count (λ t, count_where p (tb_Task_Runs t)) (upd_Task_Runs p f);
      if rows =b 0%Z then throw e else mret tt) s)
    ((PgSchema.update_returning (λ t, trn_run_id <$> where_ p (tb_Task_Runs t)) (upd_Task_Runs p f)
        ≫= λ _, mret tt) s).
Proof.
  intros Hs. unfold exec_count, PgSchema.update_returning, mbind, M_bind, gets, modify, count_where.
  rewrite (stmt_nofault s Hs). simpl. by destruct (where_ p (tb_Task_Runs (st_tables s))).
Qed.

Lemma existsb_elem {A} (p : A → bool) l : existsb p l = true ↔ ∃ x, x ∈ l ∧ p x = true.
Proof.
  rewrite existsb_exists. by setoid_rewrite <- list_elem_of_In.
Qed.

(** The EXISTS query asks for a row of the join with an attempt left. *)
Lemma rerun_needed_iff id code t :
  PgRun.rerun_needed id code t = true ↔
  ∃ limit cond codes attempts, (limit, cond, codes, attempts) ∈ RunDb.rerun_rows id t ∧
    (attempts <= limit)%Z ∧ (cond = false ∨ code ∈ codes).
Proof.
  unfold PgRun.rerun_needed. rewrite existsb_elem. setoid_rewrite existsb_elem.
  setoid_rewrite existsb_elem. split.
  - intros (k & Hk & dt & Hdt & r & Hr & H). unfold RunDb.is_task_run in H.
    rewrite !andb_true_iff, orb_true_iff, negb_true_iff, !bool_decide_eq_true in H.
    destruct H as [[[[H1 H2] H3] H4] H5].
    exists (tk_backoffLimit k), (tk_isConditional k), (tk_retryCodes k), (trn_attempts r).
    split; [|done]. apply elem_of_rerun_rows. exists k, dt, r. by split_and!.
  - intros (limit & cond & codes & attempts & Hx & Hle & Hc).
    apply elem_of_rerun_rows in Hx as (k & dt & r & Hk & Hdt & Hr & H1 & H2 & H3 & [= -> -> -> ->]).
    exists k. split; [done|]. exists dt. split; [done|]. exists r. split; [done|].
    unfold RunDb.is_task_run.
    by rewrite !andb_true_iff, orb_true_iff, negb_true_iff, !bool_decide_eq_true.
Qed.

Lemma ShouldRerun_agrees id code s :
  nofault s → tables_ok (st_tables s) →
  (∀ k, k ∈ tb_Tasks (st_tables s) → forallb is_int32 (tk_retryCodes k) = true) →
  same_outcome (RunDb.ShouldRerun id code s) (PgRun.ShouldRerun id code s).
Proof.
  intros Hs Hok Hcodes. unfold PgRun.ShouldRerun. rewrite query_nofault by done.
  pose proof (rerun_needed_iff id code (st_tables s)) as Hiff.
  destruct (RunDb.rerun_rows id (st_tables s)) as [|x rest] eqn:E.
  - assert (RunDb.ShouldRerun id code s = (Ok false, s)) as ->.
    { unfold RunDb.ShouldRerun, Store.query_row, try, mbind, M_bind.
      by rewrite query_nofault, E. }
    split; [done|]. simpl. destruct (PgRun.rerun_needed _ _ _); [|done].
    destruct (proj1 Hiff eq_refl) as (? & ? & ? & ? & Hx & _). by apply elem_of_nil in Hx.
  - assert (x ∈ RunDb.rerun_rows id (st_tables s)) as Hx by (rewrite E; left).
    pose proof Hx as Hx0.
    apply elem_of_rerun_rows in Hx as (k & dt & r & Hk & Hdt & Hr & H1 & H2 & <- & ->).
    assert (task_of_run (st_tables s) r dt k) as Ht by by split.
    destruct (wp_ShouldRerun r dt k code s Hs Hok Ht) as [E1 E2].
    split; [done|]. rewrite E2. simpl. unfold rerun_decision. rewrite (Hcodes k Hk).
    assert (PgRun.rerun_needed (trn_task_run_id r) code (st_tables s) = true ↔
      (trn_attempts r <= tk_backoffLimit k)%Z ∧
      (tk_isConditional k = false ∨ code ∈ tk_retryCodes k)) as Hdec.
    { rewrite Hiff, <- E. split.
      - intros (l & c & cs & n & Hy & Hle & Hc).
        apply (rerun_rows_unique _ r dt k) in Hy; [|done..]. by simplify_eq.
      - intros [Hle Hc]. by do 4 eexists. }
    case_bool_decide as Hle.
    + destruct (PgRun.rerun_needed _ _ _); [|done].
      destruct (proj1 Hdec eq_refl). lia.
    + destruct (tk_isConditional k); simpl; [|symmetry; apply Hdec; split; [lia|by left]].
      apply eq_true_iff_eq. rewrite Hdec, existsb_elem.
      setoid_rewrite bool_decide_eq_true. split.
      * intros (c & Hc & ->). split; [lia|by right].
      * intros [_ [?|Hc]]; [done|]. by exists code.
Qed.

(** ** Properties *)

(** The database at a time when no statement fails, with UTC as local time. *)
Record healthy (s : Store) : Prop := {
  he_nofault : nofault s;
  he_zone : st_zone s = 0%Z;
  he_ok : tables_ok (st_tables s);
  he_codes : ∀ k, k ∈ tb_Tasks (st_tables s) → forallb is_int32 (tk_retryCodes k) = true
}.


