(* ===== verification/PostgresSpec.v ===== *)
(** * What the PostgreSQL operations do (internal/db/postgresDAGManager.go)

    The scheduling query, the status of pods, the parameters of task references
    and the task of a claim, on a database whose statements do not fail. *)

From S2P Require Import Prelude Api DagValidation Store SqliteDag SqliteRun SqliteClaim Database StoredDag TaskRelease Retries PostgresDag PostgresRun PostgresClaim PostgresKeys PostgresAgree.
Import Calls PgCalls.
Local Open Scope kontroler_scope.

(** ** Starting the DAGs that are due *)

(** What the query returns for a DAG. *)
Definition pg_info (d : DagRow) : DagInfo :=
  mkDagInfo 0 (d_name d) (d_namespace d) (default false (d_workspaceEnabled d)) (d_webhookUrl d)
    (d_sslVerification d).

Definition due_dags (env : DbEnv) (tm : Z) (t : Tables) : list DagRow :=
  where_ (DagDb.dag_due env tm) (tb_DAGs t).

(** Its schedule can be parsed and its columns can be scanned. *)
Definition startable (env : DbEnv) (d : DagRow) : Prop :=
  (∃ f, cron_Parse env (d_schedule d) = Ok f) ∧ is_Some (d_workspaceEnabled d).

Lemma wp_scan_infos env rows s :
  (∀ d, d ∈ rows → startable env d) →
  wp (mapMM (λ d, DagDb.lift (PgDag.scan_dag_info d)) rows) s
    (λ r s', s' = s ∧ r = Ok (pg_info <$> rows)).
Proof.
  induction rows as [|d rows IH]; intros H; cbn [mapMM]; [by apply wp_ret|].
  destruct (H d) as [_ [b Hb]]; [left|]. apply wp_bind.
  assert (PgDag.scan_dag_info d = Ok (pg_info d)) as ->
    by (unfold PgDag.scan_dag_info, pg_info; by rewrite Hb).
  apply wp_ret, wp_bind. eapply wp_mono; [apply IH; intros; apply H; by right|].
  intros r s' [-> ->]. by apply wp_ret.
Qed.

(** Every queued update is for id 0. *)
Lemma wp_queue_updates env rows s :
  (∀ d, d ∈ rows → startable env d) →
  wp (mapMM (PgDag.queue_update env) (zip (d_schedule <$> rows) (pg_info <$> rows))) s
    (λ r s', s' = s ∧ ∃ batch, r = Ok batch ∧ ∀ u, u ∈ batch → u.2 = 0%Z).
Proof.
  induction rows as [|d rows IH]; intros H; cbn -[pg_info].
  { apply wp_ret. split; [done|]. exists []. split; [done|]. by intros u ?%elem_of_nil. }
  destruct (H d) as [[f Hf] _]; [left|]. apply wp_bind. unfold PgDag.queue_update at 1.
  cbn [fst snd]. rewrite Hf. apply wp_bind, wp_ret, wp_bind, wp_gets, wp_ret, wp_bind.
  eapply wp_mono; [apply IH; intros; apply H; by right|].
  intros r s' (-> & batch & -> & Hb). apply wp_ret. split; [done|]. eexists. split; [done|].
  intros u [->|Hu]%elem_of_cons; [done|auto].
Qed.

Lemma wp_updates_nothing (batch : list (Z * Z)) s :
  nofault s → tables_ok (st_tables s) → (∀ u, u ∈ batch → u.2 = 0%Z) →
  wp (foreach (λ update : Z * Z,
        exec (upd_DAGs (λ d, d_dag_id d =b update.2) (DagDb.set_nexttime update.1))) batch) s
    (λ r s', s' = s ∧ r = Ok tt).
Proof.
  intros Hs Hok. induction batch as [|u batch IH]; intros H; cbn [foreach]; [by apply wp_ret|].
  apply wp_bind, wp_exec_nofault; [done|].
  assert (upd_DAGs (λ d, d_dag_id d =b u.2) (DagDb.set_nexttime u.1) (st_tables s) = st_tables s) as ->.
  { unfold upd_DAGs. rewrite update_where_nop; [by destruct (st_tables s)|].
    intros d Hd. rewrite (H u) by left. apply bool_decide_eq_false_2.
    destruct (wf_dags _ Hok) as (_ & _ & Hb). apply Hb in Hd. lia. }
  rewrite set_tables_same. apply IH. intros v Hv. apply H. by right.
Qed.

(** ** The status of a pod *)

Definition pods_of (uid : string) (t : Tables) : list PodRow :=
  where_ (λ p, pod_Pod_UID p =b uid) (tb_Task_Pods t).

(** A report about a pod: status, time, exit code. *)
Record PodReport := mkPodReport { pe_status : string; pe_time : Z; pe_code : option Z }.

Definition report (uid name : string) (taskRunId : Z) (ns : string) (e : PodReport) : M Store unit :=
  PgRun.MarkPodStatus uid name taskRunId (pe_status e) (pe_time e) (pe_code e) ns.

Definition reports (uid name : string) (taskRunId : Z) (ns : string) (es : list PodReport)
    (s : Store) : Store := foldl (λ s e, (report uid name taskRunId ns e s).2) s es.

(** The row holds a report that no report of the list is later than. *)
Definition holds_latest (es : list PodReport) (p : PodRow) : Prop :=
  ∃ e, e ∈ es ∧ (∀ e', e' ∈ es → (pe_time e' <= pe_time e)%Z) ∧
    pod_status p = pe_status e ∧ pod_updated_at p = pe_time e ∧ pod_exitCode p = pe_code e.

Lemma pods_of_upd uid p f t :
  (∀ r, pod_Pod_UID (f r) = pod_Pod_UID r) →
  pods_of uid (upd_Task_Pods p f t) = update_where p f (pods_of uid t).
Proof.
  intros Hf. unfold pods_of, upd_Task_Pods. simpl. induction (tb_Task_Pods t) as [|r l IH]; [done|].
  change (update_where p f (r :: l)) with ((if p r then f r else r) :: update_where p f l).
  rewrite !where_cons, IH.
  assert (pod_Pod_UID (if p r then f r else r) = pod_Pod_UID r) as -> by (by destruct (p r)).
  by case_bool_decide.
Qed.

Lemma pod_clash_pods uid t : RunDb.pod_clash uid t = false ↔ pods_of uid t = [].
Proof. unfold RunDb.pod_clash, pods_of. by rewrite existsb_false, where_nil. Qed.

Lemma pod_uid_of uid t p l : pods_of uid t = p :: l → pod_Pod_UID p = uid ∧ p ∈ tb_Task_Pods t.
Proof.
  intros E. assert (p ∈ p :: l) as Hp by left. rewrite <- E in Hp.
  apply elem_of_where in Hp as [Hp Hin]. by apply bool_decide_eq_true in Hp.
Qed.

Lemma one_pod uid t p l : tables_ok t → pods_of uid t = p :: l → l = [].
Proof.
  intros Hok E. destruct (pod_uid_of _ _ _ _ E) as [<- Hin].
  pose proof (where_key pod_Pod_UID _ p (wf_pods _ Hok) Hin) as Hw.
  unfold pods_of in E. rewrite Hw in E. by simplify_eq.
Qed.

(** The look at the old row decides nothing. *)
Lemma wp_report uid name id ns e s (Q : result unit → Store → Prop) :
  nofault s →
  wp (PgRun.upsert_pod uid name id (pe_status e) (pe_time e) (pe_code e) ns) s
    (λ r s', match r with
             | Ok rows => nofault s' ∧
                 if rows =b 0%Z then Q (Err PgRun.stale_pod_error) (set_tables (st_tables s) s')
                 else Q (Ok tt) s'
             | Err er => Q (Err er) (set_tables (st_tables s) s')
             end) →
  wp (report uid name id ns e) s Q.
Proof.
  intros Hs HQ. apply wp_in_tx_nofault; [done|]. apply wp_bind.
  unfold wp at 1, PgSchema.row_or, PgSchema.query_row, try, mbind, M_bind.
  rewrite query_nofault by done.
  destruct (where_ _ _); simpl;
    (apply wp_bind; eapply wp_mono; [exact HQ|]; intros [rows|er] s'; [|done]; intros [Hn H];
     case_bool_decide; [by apply wp_throw|by apply wp_ret]).
Qed.

(** The first report of a pod inserts its row. *)
Lemma wp_first_report uid name id ns e s :
  nofault s → pods_of uid (st_tables s) = [] → PgSchema.has_task_run id (st_tables s) = true →
  wp (report uid name id ns e) s (λ r s', r = Ok tt ∧ nofault s' ∧ st_tables s' = add_Task_Pod
    (mkPodRow uid id (pe_code e) name (pe_status e) ns (pe_time e) None) (st_tables s)).
Proof.
  intros Hs Hp Hid. apply wp_report; [done|]. unfold PgRun.upsert_pod.
  apply wp_bind, wp_query_nofault; [done|]. apply pod_clash_pods in Hp. rewrite Hp.
  apply wp_bind, wp_gets. by rewrite Hid.
Qed.

(** A later report replaces it unless it is older. *)
Lemma wp_next_report uid name id ns e p s :
  nofault s → tables_ok (st_tables s) → pods_of uid (st_tables s) = [p] →
  wp (report uid name id ns e) s (λ r s', nofault s' ∧ tables_ok (st_tables s') ∧
    if pod_updated_at p <=b pe_time e
    then r = Ok tt ∧ pods_of uid (st_tables s') =
           [RunDb.set_pod_status (pe_status e) (pe_time e) (pe_code e) p]
    else r = Err PgRun.stale_pod_error ∧ st_tables s' = st_tables s).
Proof.
  intros Hs Hok Hp. apply wp_report; [done|]. unfold PgRun.upsert_pod.
  destruct (pod_uid_of _ _ _ _ Hp) as [Huid Hin].
  assert (RunDb.pod_clash uid (st_tables s) = true) as Hc.
  { destruct (RunDb.pod_clash uid (st_tables s)) eqn:E; [done|].
    apply pod_clash_pods in E. by rewrite Hp in E. }
  apply wp_bind, wp_query_nofault; [done|]. rewrite Hc. apply wp_bind, wp_gets.
  assert (where_ (PgRun.not_newer uid (pe_time e)) (tb_Task_Pods (st_tables s)) =
    if pod_updated_at p <=b pe_time e then [p] else []) as Hw.
  { transitivity (where_ (λ x, pod_updated_at x <=b pe_time e) (pods_of uid (st_tables s))).
    - unfold pods_of, PgRun.not_newer. clear Hin. induction (tb_Task_Pods (st_tables s)) as [|x l IH]; [done|].
      rewrite !where_cons, IH. destruct (pod_Pod_UID x =b uid); [|done].
      rewrite where_cons. done.
    - rewrite Hp, where_cons. by destruct (pod_updated_at p <=b pe_time e). }
  unfold count_where. rewrite Hw. apply wp_bind. unfold wp at 1, modify. cbn [fst snd].
  case_bool_decide as Hle; (split; [done|]).
  - rewrite (bool_decide_eq_false_2 (Z.of_nat (length [p]) = 0%Z)) by done.
    cbn [st_tables set_tables]. split; [done|]. split; [by apply wf_upd_Task_Pods|].
    split; [done|]. cbn [mret M_ret snd st_tables set_tables].
    rewrite pods_of_upd, Hp by done. simpl. unfold PgRun.not_newer.
    by rewrite !bool_decide_eq_true_2 by done.
  - by rewrite bool_decide_eq_true_2.
Qed.

Lemma reports_latest uid name id ns es seen p s :
  nofault s → tables_ok (st_tables s) → pods_of uid (st_tables s) = [p] →
  holds_latest seen p → pod_task_run_id p = id →
  ∃ p', pods_of uid (st_tables (reports uid name id ns es s)) = [p'] ∧
    holds_latest (seen ++ es) p' ∧ pod_task_run_id p' = id.
Proof.
  revert seen p s. induction es as [|e es IH]; intros seen p s Hs Hok Hp Hl Hid.
  { exists p. by rewrite app_nil_r. }
  rewrite cons_middle, app_assoc. cbn [reports foldl].
  pose proof (wp_next_report uid name id ns e p s Hs Hok Hp) as (Hs' & Hok' & H).
  destruct Hl as (e0 & He0 & Hmax & Hst & Hup & Hcode).
  case_bool_decide as Hle; destruct H as [_ Hp'].
  - eapply IH; [exact Hs'|exact Hok'|exact Hp'| |exact Hid].
    exists e. rewrite elem_of_app. split; [right; left|]. split; [|done].
    intros e' [He'| ->%list_elem_of_singleton]%elem_of_app; [|lia]. apply Hmax in He'. lia.
  - rewrite <- Hp' in Hp. eapply IH; [exact Hs'|exact Hok'|exact Hp| |exact Hid].
    exists e0. rewrite elem_of_app. split; [by left|]. split; [|done].
    intros e' [He'| ->%list_elem_of_singleton]%elem_of_app; [auto|lia].
Qed.

(** ** The parameters of task references *)

(** A reusable task with the name and the version of the reference. *)
Definition ref_task (ref : TaskRef) (k : TaskRow) : Prop :=
  tk_name k = tr_Name ref ∧ tk_version k = tr_Version ref ∧ tk_inline k = false.

Lemma elem_of_ref_rows refs t k :
  k ∈ PgDag.ref_rows refs t ↔ k ∈ tb_Tasks t ∧ ∃ ref, ref ∈ refs ∧ ref_task ref k.
Proof.
  unfold PgDag.ref_rows, ref_task. rewrite elem_of_where, andb_true_iff, existsb_elem, negb_true_iff.
  setoid_rewrite andb_true_iff. setoid_rewrite bool_decide_eq_true. naive_solver.
Qed.

(** The map has a key for each reference with a task. *)
Lemma ref_map_keys refs t ref :
  is_Some (PgDag.ref_map (PgDag.ref_rows refs t) !! ref) ↔
  ref ∈ refs ∧ ∃ k, k ∈ tb_Tasks t ∧ ref_task ref k.
Proof.
  assert (∀ rows (m : gmap TaskRef (list string)),
    is_Some (foldl (λ m k, <[mkTaskRef (tk_name k) (tk_version k) := tk_parameters k]> m) m rows !! ref)
    ↔ is_Some (m !! ref) ∨ ∃ k, k ∈ rows ∧ mkTaskRef (tk_name k) (tk_version k) = ref) as H.
  { induction rows as [|k rows IH]; intros m; simpl.
    - split; [by left|]. intros [?|(k & Hk & _)]; [done|]. by apply elem_of_nil in Hk.
    - rewrite IH, lookup_insert_is_Some. setoid_rewrite elem_of_cons. split.
      + intros [[?|[_ ?]]|(k' & ? & ?)]; [right; exists k; auto|by left|right; exists k'; auto].
      + intros [?|(k' & [->|?] & ?)]; [|by left; left|right; by exists k'].
        left. destruct (decide (mkTaskRef (tk_name k) (tk_version k) = ref)); auto. }
  unfold PgDag.ref_map. rewrite H, lookup_empty. setoid_rewrite elem_of_ref_rows. split.
  - intros [[? [=]]|(k & (Hk & ref' & Hin & E1 & E2 & E3) & <-)].
    assert (ref' = mkTaskRef (tk_name k) (tk_version k)) as -> by (destruct ref'; simpl in *; congruence).
    split; [done|]. by exists k.
  - intros [Hin (k & Hk & E)]. right. exists k. split; [split; [done|by exists ref]|].
    destruct E as (E1 & E2 & _). rewrite E1, E2. by destruct ref.
Qed.

(** A list of distinct values out of [l] is as long as [l] when [l] has no
    duplicates and it has all of [l]. *)
Lemma full_length {A} (keys l : list A) :
  NoDup keys → (∀ x, x ∈ keys → x ∈ l) →
  length keys = length l ↔ NoDup l ∧ ∀ x, x ∈ l → x ∈ keys.
Proof.
  intros Hk Hsub. pose proof (NoDup_submseteq _ _ Hk Hsub) as Hs. split.
  - intros E. pose proof (submseteq_length_Permutation _ _ Hs ltac:(lia)) as Hp.
    split; [by rewrite <- Hp|]. intros x. by rewrite Hp.
  - intros [Hl Hall]. apply Nat.le_antisymm; [by apply submseteq_length|].
    by apply submseteq_length, NoDup_submseteq.
Qed.

Lemma ref_map_complete refs t :
  size (PgDag.ref_map (PgDag.ref_rows refs t)) = length refs ↔
  NoDup refs ∧ ∀ ref, ref ∈ refs → ∃ k, k ∈ tb_Tasks t ∧ ref_task ref k.
Proof.
  set (m := PgDag.ref_map (PgDag.ref_rows refs t)).
  assert (∀ ref, ref ∈ (map_to_list m).*1 ↔ is_Some (m !! ref)) as Hkeys.
  { intros ref. rewrite list_elem_of_fmap. split.
    - intros ([k v] & -> & H%elem_of_map_to_list). by exists v.
    - intros [v H%elem_of_map_to_list]. by exists (ref, v). }
  rewrite <- length_map_to_list, <- (length_fmap fst), full_length.
  - setoid_rewrite Hkeys. unfold m. setoid_rewrite ref_map_keys. naive_solver.
  - apply NoDup_fst_map_to_list.
  - intros ref. rewrite Hkeys. unfold m. by intros [? _]%ref_map_keys.
Qed.

(** ** The task of a claim *)

(** The rows of a task of a run. *)
Record rows_for_run (t : Tables) (k : TaskRow) (dat : DagTaskRow) (dr : RunRow) (d : DagRow) : Prop := {
  rfr_task : k ∈ tb_Tasks t;
  rfr_dag_task : dat ∈ tb_DAG_Tasks t;
  rfr_run : dr ∈ tb_DAG_Runs t;
  rfr_dag : d ∈ tb_DAGs t;
  rfr_task_id : dt_task_id dat = tk_task_id k;
  rfr_dag_id : dt_dag_id dat = r_dag_id dr;
  rfr_run_dag : r_dag_id dr = d_dag_id d
}.

(** The environment saved for a retry: that of some task run of the task. *)
Definition saved_env (t : Tables) (runId dagTaskId : Z) (env : option string) : Prop :=
  (env = None ∧ ∀ tr, tr ∈ tb_Task_Runs t → trn_run_id tr = runId → trn_task_id tr ≠ dagTaskId) ∨
  ∃ tr, tr ∈ tb_Task_Runs t ∧ trn_run_id tr = runId ∧ trn_task_id tr = dagTaskId ∧
    env = trn_retry_env tr.

Lemma elem_of_saved_env {A} t runId dagTaskId (x : A) (y : A * option string) :
  y ∈ match where_ (λ tr, (trn_run_id tr =b runId) && (trn_task_id tr =b dagTaskId)) (tb_Task_Runs t) with
      | [] => [(x, None)]
      | trs => (λ tr, (x, trn_retry_env tr)) <$> trs
      end → ∃ env, y = (x, env) ∧ saved_env t runId dagTaskId env.
Proof.
  destruct (where_ _ _) as [|tr trs] eqn:E.
  - intros ->%list_elem_of_singleton. exists None. split; [done|]. left. split; [done|].
    intros tr Htr Hr Ht. pose proof (proj1 (where_nil _ _) E tr Htr) as H. simpl in H.
    by rewrite Hr, Ht, !bool_decide_eq_true_2 in H.
  - rewrite list_elem_of_fmap. intros (tr' & -> & Htr). exists (trn_retry_env tr').
    split; [done|]. right. rewrite <- E in Htr. apply elem_of_where in Htr as [H Hin].
    rewrite andb_true_iff, !bool_decide_eq_true in H. exists tr'. tauto.
Qed.

Lemma elem_of_task_for_run runId id t y :
  y ∈ RunDb.task_for_run_rows runId id t →
  ∃ k dat dr d env, y = (k, dat, dr, d, env) ∧ rows_for_run t k dat dr d ∧
    r_run_id dr = runId ∧ dt_dag_task_id dat = id ∧ saved_env t runId id env.
Proof.
  unfold RunDb.task_for_run_rows, RunDb.is_run. rewrite elem_of_flat_map.
  intros (k & Hk & Hy). apply elem_of_flat_map in Hy as (dat & Hdat & Hy).
  apply elem_of_flat_map in Hy as (dr & Hdr & Hy). apply elem_of_flat_map in Hy as (d & Hd & Hy).
  apply elem_of_if in Hy as [H Hy]. rewrite !andb_true_iff, !bool_decide_eq_true in H.
  destruct H as [[[[H1 H2] H3] H4] H5]. rewrite H4, H5 in Hy.
  apply elem_of_saved_env in Hy as (env & -> & Henv). do 5 eexists. split; [done|].
  by split.
Qed.

Lemma task_for_run_found t k dat dr d :
  rows_for_run t k dat dr d →
  RunDb.task_for_run_rows (r_run_id dr) (dt_dag_task_id dat) t ≠ [].
Proof.
  intros [H1 H2 H3 H4 H5 H6 H7] E. unfold RunDb.task_for_run_rows in E.
  pose proof (proj1 (flat_map_nil _ _) E k H1) as Ek. cbv beta in Ek.
  pose proof (proj1 (flat_map_nil _ _) Ek dat H2) as Edat. cbv beta in Edat.
  pose proof (proj1 (flat_map_nil _ _) Edat dr H3) as Edr. cbv beta in Edr.
  pose proof (proj1 (flat_map_nil _ _) Edr d H4) as Ed. cbv beta in Ed.
  unfold RunDb.is_run in Ed. rewrite !bool_decide_eq_true_2 in Ed by done. simpl in Ed.
  by destruct (where_ _ _).
Qed.

(** The rows of the join are the given ones. *)
Lemma task_for_run_head t k dat dr d :
  tables_ok t → rows_for_run t k dat dr d →
  ∃ env rest, RunDb.task_for_run_rows (r_run_id dr) (dt_dag_task_id dat) t =
    (k, dat, dr, d, env) :: rest ∧ saved_env t (r_run_id dr) (dt_dag_task_id dat) env.
Proof.
  intros Hok H. pose proof (task_for_run_found _ _ _ _ _ H) as Hne.
  destruct (RunDb.task_for_run_rows _ _ t) as [|y rest] eqn:E; [done|].
  assert (y ∈ y :: rest) as Hy by left. rewrite <- E in Hy.
  apply elem_of_task_for_run in Hy as (k' & dat' & dr' & d' & env & -> & H' & Hr & Hid & Henv).
  destruct H as [H1 H2 H3 H4 H5 H6 H7], H' as [H1' H2' H3' H4' H5' H6' H7'].
  assert (dat' = dat) as -> by (by apply (dag_task_unique t)).
  assert (dr' = dr) as -> by (eapply Retries.key_unique; [apply (wf_runs _ Hok)|done..]).
  assert (k' = k) as -> by (eapply Retries.key_unique; [apply (wf_tasks _ Hok)|done|done|congruence]).
  assert (d' = d) as -> by (eapply Retries.key_unique; [apply (wf_dags _ Hok)|done|done|congruence]).
  by exists env, rest.
Qed.

(** The parameters of a task are those of its DAG that it names. *)
Definition params_for (t : Tables) (dagId : Z) (names : list string) (ps : list DbParameter) : Prop :=
  ∀ p, p ∈ ps ↔ ∃ row, row ∈ tb_DAG_Parameters t ∧ dpr_dag_id row = dagId ∧
    dpr_name row ∈ names ∧ p = RunDb.row_param row.

Lemma params_of_spec t dagId names :
  params_for t dagId names
    (RunDb.params_of (RunDb.dag_params dagId (dedup (mjoin [names])) t) names).
Proof.
  intros p. unfold RunDb.params_of, RunDb.dag_params. rewrite elem_of_flat_map.
  assert (∀ x, x ∈ dedup (mjoin [names]) ↔ x ∈ names) as Hn
    by (intros x; rewrite elem_of_dedup; simpl; by rewrite app_nil_r).
  split.
  - intros (row & Hrow & Hp). apply elem_of_where in Hrow as [Hrow Hin].
    rewrite andb_true_iff, !bool_decide_eq_true, Hn in Hrow.
    apply list_elem_of_fmap in Hp as (n & -> & _). exists row. tauto.
  - intros (row & Hin & Hdag & Hname & ->). exists row. split.
    + apply elem_of_where. by rewrite andb_true_iff, !bool_decide_eq_true, Hn.
    + apply list_elem_of_fmap. exists (dpr_name row). split; [done|]. apply elem_of_where.
      by rewrite bool_decide_eq_true_2.
Qed.

Lemma run_dag t dr : tables_ok t → dr ∈ tb_DAG_Runs t →
  where_ (RunDb.is_run (r_run_id dr)) (tb_DAG_Runs t) = [dr].
Proof. intros Hok Hr. exact (where_key r_run_id _ dr (proj1 (wf_runs _ Hok)) Hr). Qed.

Lemma wp_GetTaskForRun k dat dr d s :
  nofault s → tables_ok (st_tables s) → rows_for_run (st_tables s) k dat dr d →
  wp (PgRun.GetTaskForRun (r_run_id dr) (dt_dag_task_id dat)) s (λ r s', s' = s ∧ ∃ ps env,
    r = Ok (mkTask (dt_dag_task_id dat) (dt_name dat) (tk_image k) (tk_command k) (tk_args k) ps
              (Some (RunDb.pod_template k dr)) (tk_script k) (tk_scriptInjectorImage k),
            d_namespace d, default "" env) ∧
    params_for (st_tables s) (r_dag_id dr) (tk_parameters k) ps ∧
    saved_env (st_tables s) (r_run_id dr) (dt_dag_task_id dat) env).
Proof.
  intros Hs Hok Hrows. destruct (task_for_run_head _ _ _ _ _ Hok Hrows) as (env & rest & E & Henv).
  unfold PgRun.GetTaskForRun. apply wp_bind. unfold PgSchema.query_row at 1.
  apply wp_bind, wp_query_nofault; [done|]. rewrite E. apply wp_ret.
  cbv beta iota zeta. apply wp_bind. case_bool_decide as Hlen.
  - eapply wp_mono; [apply wp_in_tx_nofault; [done|]|].
    + unfold PgRun.getDAGIdFromRun, PgSchema.query_row. apply wp_bind, wp_bind, wp_query_nofault; [done|].
      rewrite run_dag by (done || apply Hrows). apply wp_ret. cbn [fmap list_fmap].
      unfold PgRun.fetchTaskParameters. cbv zeta.
      rewrite bool_decide_eq_false_2.
      * apply wp_bind, wp_bind, wp_query_nofault; [done|]. apply wp_ret, wp_ret.
        split; [done|]. instantiate (1 := λ r s', s' = s ∧ ∃ ps, r = Ok (mkTask (dt_dag_task_id dat) (dt_name dat)
          (tk_image k) (tk_command k) (tk_args k) ps (Some (RunDb.pod_template k dr)) (tk_script k)
          (tk_scriptInjectorImage k)) ∧ params_for (st_tables s) (r_dag_id dr) (tk_parameters k) ps).
        split; [done|]. eexists. split; [reflexivity|]. apply params_of_spec.
      * intros Hd. destruct (tk_parameters k) as [|n l]; [simpl in Hlen; lia|]. by simpl in Hd.
    + intros r s' (-> & ps & -> & Hps). apply wp_ret. split; [done|]. by exists ps, env.
  - apply wp_ret, wp_ret. split; [done|]. exists [], env. split; [done|]. split; [|done].
    destruct (tk_parameters k); [|simpl in Hlen; lia]. intros p. split; [by intros ?%elem_of_nil|].
    intros (row & _ & _ & H & _). by apply elem_of_nil in H.
Qed.

(** ** Properties *)

(** Fetching the DAGs that are due returns them and advances none: the id that
    the query reads is not kept, so the new times are written for id 0.  Every
    DAG that is due stays due, and is started again at every tick. *)
Theorem pg_due_dags_stay_due (env : DbEnv) (tm : Z) (s : Store)
    (Hs : nofault s) (Hok : tables_ok (st_tables s))
    (Hstart : ∀ d, d ∈ due_dags env tm (st_tables s) → startable env d) :
  (PgDag.GetDAGsToStartAndUpdate env tm s).1 = Ok (pg_info <$> due_dags env tm (st_tables s)) ∧
  st_tables (PgDag.GetDAGsToStartAndUpdate env tm s).2 = st_tables s.
Proof.
  enough (wp (PgDag.GetDAGsToStartAndUpdate env tm) s (λ r s',
    r = Ok (pg_info <$> due_dags env tm (st_tables s)) ∧ st_tables s' = st_tables s)) as H by exact H.
  apply wp_in_tx_nofault; [done|]. apply wp_bind, wp_query_nofault; [done|].
  apply wp_bind. eapply wp_mono; [by apply (wp_scan_infos env)|]. intros r s' [-> ->].
  apply wp_bind. eapply wp_mono; [by apply wp_queue_updates|]. intros r s' (-> & batch & -> & Hb).
  apply wp_bind. eapply wp_mono; [by apply wp_updates_nothing|]. intros r s' [-> ->].
  by apply wp_ret.
Qed.

(** A DAG with a schedule, inserted at time 1000: due from 1060 on. *)
Definition hourly_dag : DAG :=
  mkDAG "hourly" ∅ [] false
    (mkDAGSpec "@hourly" (ds_Task diamond) [] (ds_Webhook diamond) (ds_Workspace diamond) false
       (ds_DSL diamond)) (mkDAGStatus "" "").

Definition hourly_store : Store :=
  run_calls demo_env demo_jsonb [CInsertDAG hourly_dag "default"] demo_store.

Lemma hourly_ok : pg_inv (st_tables hourly_store).
Proof. apply (pg_reachable_inv demo_env demo_jsonb), pg_run_calls_reachable, pg_fresh_reachable. Qed.

Lemma pg_due_dags_stay_due_witness :
  let once := PgDag.GetDAGsToStartAndUpdate demo_env 1060 hourly_store in
  once.1 = Ok [mkDagInfo 0 "hourly" "default" false "" false] ∧
  st_tables once.2 = st_tables hourly_store.
Proof.
  assert (due_dags demo_env 1060 (st_tables hourly_store) = tb_DAGs (st_tables hourly_store)) as E
    by (vm_compute; reflexivity).
  destruct (pg_due_dags_stay_due demo_env 1060 hourly_store) as [H1 H2].
  - vm_compute. reflexivity.
  - exact (proj1 hourly_ok).
  - intros d Hd. rewrite E in Hd. revert d Hd. apply Forall_forall.
    assert (tb_DAGs (st_tables hourly_store) = [mkDagRow 1 "hourly" 0 "@hourly,a,b,c,d" "@hourly"
      "default" true 4 (Some 1060%Z) "" false (Some false) false]) as -> by (vm_compute; reflexivity).
    constructor; [|constructor]. split; [by eexists|by eexists].
  - split; [|exact H2]. rewrite H1. vm_compute. reflexivity.
Defined.

(** The status of a pod is that of its latest report, in whatever order the
    reports come: the others are refused or replaced. *)
Theorem latest_report_wins (uid name ns : string) (taskRunId : Z) (es : list PodReport) (s : Store)
    (Hs : nofault s) (Hok : tables_ok (st_tables s)) (Hnew : pods_of uid (st_tables s) = [])
    (Hrun : PgSchema.has_task_run taskRunId (st_tables s) = true) (Hes : es ≠ []) :
  ∃ p, pods_of uid (st_tables (reports uid name taskRunId ns es s)) = [p] ∧ holds_latest es p ∧
    pod_task_run_id p = taskRunId.
Proof.
  destruct es as [|e es]; [done|]. cbn [reports foldl].
  destruct (wp_first_report uid name taskRunId ns e s Hs Hnew Hrun) as (_ & Hs1 & Ht).
  set (p := mkPodRow uid taskRunId (pe_code e) name (pe_status e) ns (pe_time e) None) in *.
  apply (reports_latest uid name taskRunId ns es [e] p); [done| | | |done].
  - rewrite Ht. apply (wf_new_pod uid); [by apply pod_clash_pods|done|done].
  - rewrite Ht. unfold pods_of, where_. simpl. rewrite List.filter_app. simpl.
    rewrite bool_decide_eq_true_2 by done. unfold pods_of, where_ in Hnew. by rewrite Hnew.
  - exists e. split; [left|]. split; [|done]. by intros e' ->%list_elem_of_singleton.
Qed.

Definition demo_pg_run : Store :=
  run_calls demo_env demo_jsonb (take 3 demo_pg_calls) empty_store.

Lemma demo_pg_run_ok : pg_inv (st_tables demo_pg_run).
Proof. apply (pg_reachable_inv demo_env demo_jsonb), pg_run_calls_reachable, rtc_refl. Qed.

(** The report that the pod runs comes after the one that it succeeded. *)
Lemma latest_report_wins_witness :
  ∃ p, pods_of "uid-1" (st_tables (reports "uid-1" "pod-1" 1 "default"
         [mkPodReport "Pending" 10 None; mkPodReport "Succeeded" 30 (Some 0%Z);
          mkPodReport "Running" 20 None] demo_pg_run)) = [p] ∧ pod_status p = "Succeeded".
Proof.
  destruct (latest_report_wins "uid-1" "pod-1" "default" 1
    [mkPodReport "Pending" 10 None; mkPodReport "Succeeded" 30 (Some 0%Z);
     mkPodReport "Running" 20 None] demo_pg_run) as (p & Hp & (e & He & Hmax & Hst & _) & _).
  - vm_compute. reflexivity.
  - exact (proj1 demo_pg_run_ok).
  - vm_compute. reflexivity.
  - vm_compute. reflexivity.
  - discriminate.
  - exists p. split; [exact Hp|]. rewrite Hst.
    apply elem_of_cons in He as [->|He]; [specialize (Hmax (mkPodReport "Succeeded" 30 (Some 0%Z)));
      simpl in Hmax; exfalso; assert (30 <= 10)%Z by (apply Hmax; right; left); lia|].
    apply elem_of_cons in He as [->|He]; [reflexivity|].
    apply list_elem_of_singleton in He as ->.
    specialize (Hmax (mkPodReport "Succeeded" 30 (Some 0%Z))). simpl in Hmax.
    exfalso. assert (30 <= 20)%Z by (apply Hmax; right; left). lia.
Defined.

(** The parameters of task references are found exactly when no two references
    are the same and each has a reusable task: a DAG with two tasks of one
    reference is refused. *)
Theorem GetTaskRefsParameters_accepts (taskRefs : list TaskRef) (s : Store) (Hs : nofault s) :
  is_ok (PgDag.GetTaskRefsParameters taskRefs s).1 = true ↔
  NoDup taskRefs ∧ ∀ ref, ref ∈ taskRefs → ∃ k, k ∈ tb_Tasks (st_tables s) ∧ ref_task ref k.
Proof.
  unfold PgDag.GetTaskRefsParameters. case_bool_decide as E.
  - subst. split; [|done]. intros _. split; [constructor|]. by intros ref ?%elem_of_nil.
  - unfold mbind, M_bind. rewrite query_nofault by done. rewrite <- ref_map_complete.
    case_bool_decide as Hsz; simpl; split; try done.
Qed.

Lemma GetTaskRefsParameters_accepts_witness :
  let ref := mkTaskRef "shared" 1 in
  is_ok (PgDag.GetTaskRefsParameters [ref; ref]
    (run_calls demo_env demo_jsonb [CAddTask (mkDagTask "shared"
       (mkDagTaskSpec ["sh"] [] "alpine" [] (mkBackoff 0) (mkConditional false []) [] None "" ""))
       "default"] empty_store)).1 = false.
Proof.
  intros ref. destruct (is_ok _) eqn:E; [|reflexivity]. exfalso.
  apply GetTaskRefsParameters_accepts in E; [|vm_compute; reflexivity].
  destruct E as [E _]. apply NoDup_cons in E as [E _]. apply E. left.
Defined.

(** A worker is given the whole task of its claim: the fields of the task, the
    pod template with the workspace of the run, the parameters of the DAG that
    the task names, the namespace of the DAG, and the environment saved for a
    retry. *)
Theorem GetTaskForRun_returns (k : TaskRow) (dat : DagTaskRow) (dr : RunRow) (d : DagRow) (s : Store)
    (Hs : nofault s) (Hok : tables_ok (st_tables s))
    (Hrows : rows_for_run (st_tables s) k dat dr d) :
  st_tables (PgRun.GetTaskForRun (r_run_id dr) (dt_dag_task_id dat) s).2 = st_tables s ∧
  ∃ ps env, (PgRun.GetTaskForRun (r_run_id dr) (dt_dag_task_id dat) s).1 =
    Ok (mkTask (dt_dag_task_id dat) (dt_name dat) (tk_image k) (tk_command k) (tk_args k) ps
          (Some (RunDb.pod_template k dr)) (tk_script k) (tk_scriptInjectorImage k),
        d_namespace d, default "" env) ∧
    params_for (st_tables s) (r_dag_id dr) (tk_parameters k) ps ∧
    saved_env (st_tables s) (r_run_id dr) (dt_dag_task_id dat) env.
Proof.
  destruct (wp_GetTaskForRun k dat dr d s Hs Hok Hrows) as [E H]. by rewrite E.
Qed.

Lemma GetTaskForRun_returns_witness :
  ∃ task, (PgRun.GetTaskForRun 1 2 demo_pg_run).1 = Ok (task, "default", "") ∧ t_Name task = "b" ∧
    t_Command task = ["sh"].
Proof.
  assert (∃ k dat dr d, tb_Tasks (st_tables demo_pg_run) !! 1 = Some k ∧
    tb_DAG_Tasks (st_tables demo_pg_run) !! 1 = Some dat ∧ tb_DAG_Runs (st_tables demo_pg_run) = [dr] ∧
    tb_DAGs (st_tables demo_pg_run) = [d] ∧ dt_task_id dat = tk_task_id k ∧
    dt_dag_id dat = r_dag_id dr ∧ r_dag_id dr = d_dag_id d ∧ r_run_id dr = 1%Z ∧
    dt_dag_task_id dat = 2%Z ∧ dt_name dat = "b" ∧ tk_command k = ["sh"] ∧ d_namespace d = "default")
    as (k & dat & dr & d & Hk & Hdat & Hdr & Hd & E1 & E2 & E3 & E4 & E5 & E6 & E7 & E8).
  { do 4 eexists. split_and!; vm_compute; reflexivity. }
  destruct (GetTaskForRun_returns k dat dr d demo_pg_run) as (_ & ps & env & H & _ & Henv).
  - vm_compute. reflexivity.
  - exact (proj1 demo_pg_run_ok).
  - split; [by apply list_elem_of_lookup_2 in Hk|by apply list_elem_of_lookup_2 in Hdat| | |done..].
    + rewrite Hdr. left.
    + rewrite Hd. left.
  - rewrite E4, E5, E8 in H.
    assert (Forall (λ tr, trn_retry_env tr = None) (tb_Task_Runs (st_tables demo_pg_run))) as Hnone
      by (apply (bool_decide_unpack _); vm_compute; exact I).
    assert (default "" env = "") as Hd0.
    { destruct Henv as [[-> _]|(tr & Htr & _ & _ & ->)]; [done|].
      by rewrite (proj1 (Forall_forall _ _) Hnone tr Htr). }
    rewrite Hd0 in H. eexists. split; [exact H|]. by split.
Defined.

(** Deleting a DAG takes the inline tasks of a DAG of the same name in another
    namespace along, and with them its DAG tasks, dependencies and task runs. *)
Theorem delete_dag_breaks_namesake :
  let s := run_calls demo_env demo_jsonb
    [CInsertDAG demo_dag "team-a"; CInsertDAG demo_dag "team-b"; CDeleteDAG "etl" "team-a"]
    empty_store in
  (d_namespace <$> tb_DAGs (st_tables s)) = ["team-b"] ∧ tb_DAG_Tasks (st_tables s) = [] ∧
  tb_Dependencies (st_tables s) = [].
Proof. vm_compute. split_and!; reflexivity. Qed.
