(* ===== verification/PostgresSuspension.v ===== *)
(** * What a failure suspends on PostgreSQL (internal/db/postgresDAGManager.go)

    [MarkConnectingTasksAsSuspended] finds the tasks to suspend with one
    recursive query.  On an acyclic dependency relation the query ends, and it
    finds every task downstream of the failed one that has no task run - also
    behind tasks that have one, where the SQLite manager stops. *)

From S2P Require Import Prelude Graph Api DagValidation Store SqliteDag SqliteRun Database StoredDag TaskRelease Suspension PostgresDag PostgresRun PostgresClaim PostgresKeys PostgresAgree PostgresSpec.
Import Calls PgCalls.
Local Open Scope kontroler_scope.

(** ** Specification *)

(** Task [k] depends on task [j]. *)
Definition dep_edge (t : Tables) (j k : Z) : Prop :=
  ∃ d, d ∈ tb_Dependencies t ∧ dep_depends_on d = j ∧ dep_task_id d = k.

(** [k] is downstream of the failed task and has no task run in the run. *)
Definition downstream (t : Tables) (runId start k : Z) : Prop :=
  tc (dep_edge t) start k ∧ k ∉ tasks_with_runs runId t.

(** A path of [n] tasks ends in [k]. *)
Definition trail (t : Tables) (n : nat) (k : Z) : Prop :=
  ∃ l, NoDup l ∧ length l = n ∧
    ∀ x, x ∈ l → x ∈ dep_task_id <$> tb_Dependencies t ∧ (x = k ∨ tc (dep_edge t) x k).

(** ** The recursive query *)

Lemma elem_of_chain_round t ids k name :
  (k, name) ∈ PgRun.chain_round t ids ↔ ∃ j, j ∈ ids ∧ dep_edge t j k ∧ named t k name.
Proof.
  unfold PgRun.chain_round, dep_edge, named. rewrite elem_of_flat_map. split.
  - intros (j & Hj & H). apply elem_of_flat_map in H as (d & Hd & H).
    apply elem_of_flat_map in H as (dt & Hdt & H). apply elem_of_if in H as [E H].
    rewrite andb_true_iff, !bool_decide_eq_true in E. apply list_elem_of_singleton in H.
    simplify_eq. exists j. destruct E as [E1 E2]. split; [done|]. split; [by exists d|].
    by exists dt.
  - intros (j & Hj & (d & Hd & <- & <-) & dt & Hdt & E & <-). exists (dep_depends_on d).
    split; [done|]. apply elem_of_flat_map. exists d. split; [done|]. apply elem_of_flat_map.
    exists dt. split; [done|]. apply elem_of_if. split; [|by left].
    by rewrite !bool_decide_eq_true_2.
Qed.

Lemma trail_step t n j k : acyclic (dep_edge t) → trail t n j → dep_edge t j k → trail t (S n) k.
Proof.
  intros Hac (l & Hnd & Hlen & Hl) He. exists (k :: l).
  assert (∀ x, x ∈ l → tc (dep_edge t) x k) as Htc.
  { intros x Hx. destruct (Hl x Hx) as [_ [->|H]]; [by apply tc_once|by eapply tc_r]. }
  split; [|split; [simpl; by rewrite Hlen|]].
  - apply NoDup_cons. split; [|done]. intros Hk. apply (Hac k). by apply Htc.
  - intros x [->|Hx]%elem_of_cons; [|destruct (Hl x Hx); auto].
    destruct He as (d & Hd & _ & <-). split; [by apply list_elem_of_fmap_2|by left].
Qed.

Lemma trail_length t n k : trail t n k → n <= length (tb_Dependencies t).
Proof.
  intros (l & Hnd & <- & Hl). rewrite <- (length_fmap dep_task_id).
  apply submseteq_length, NoDup_submseteq; [done|]. intros x Hx. by apply Hl.
Qed.

(** The fuel is enough: the query ends. *)
Lemma task_chain_ends t fuel : ∀ n ids depth,
  acyclic (dep_edge t) → (∀ k, k ∈ ids → trail t n k) → ids ≠ [] ∨ 0 < fuel →
  length (tb_Dependencies t) < n + fuel → ∃ rows, PgRun.task_chain fuel t ids depth = Some rows.
Proof.
  induction fuel as [|fuel IH]; intros n ids depth Hac Htrail Hne Hfuel.
  { destruct Hne as [Hne|?]; [|lia]. destruct ids as [|k ids]; [done|].
    pose proof (trail_length t n k (Htrail k ltac:(left))). lia. }
  cbn [PgRun.task_chain]. destruct (PgRun.chain_round t ids) as [|row round] eqn:E; [by eexists|].
  destruct (IH (S n) (row :: round).*1 (S depth)) as [rows Hrows]; [done| |by left|lia|].
  - intros k Hk. apply list_elem_of_fmap in Hk as ([k' name] & -> & Hin). rewrite <- E in Hin.
    apply elem_of_chain_round in Hin as (j & Hj & He & _). by eapply trail_step; [|apply Htrail|].
  - rewrite Hrows. by eexists.
Qed.

Lemma task_chain_sound t fuel : ∀ ids depth rows k name n,
  PgRun.task_chain fuel t ids depth = Some rows → (k, name, n) ∈ rows →
  named t k name ∧ ∃ j, j ∈ ids ∧ tc (dep_edge t) j k.
Proof.
  induction fuel as [|fuel IH]; intros ids depth rows k name n; [done|]. cbn [PgRun.task_chain].
  destruct (PgRun.chain_round t ids) as [|row round] eqn:E.
  { intros [= <-] H. by apply elem_of_nil in H. }
  destruct (PgRun.task_chain fuel t _ _) as [rest|] eqn:Er; [|done].
  intros [= <-] H.
  change ((k, name, n) ∈ ((λ row, (row, depth)) <$> (row :: round)) ++ rest) in H.
  apply elem_of_app in H as [H|H].
  - apply list_elem_of_fmap in H as (row' & [= <- _] & Hin). rewrite <- E in Hin.
    apply elem_of_chain_round in Hin as (j & Hj & He & Hn). split; [done|]. exists j.
    split; [done|by apply tc_once].
  - destruct (IH _ _ _ _ _ _ Er H) as (Hn & j & Hj & Htc). split; [done|].
    apply list_elem_of_fmap in Hj as ([j' name'] & -> & Hin). rewrite <- E in Hin.
    apply elem_of_chain_round in Hin as (i & Hi & He & _). exists i.
    split; [done|by eapply tc_l].
Qed.

Lemma task_chain_complete t fuel : ∀ ids depth rows j k,
  (∀ i i', dep_edge t i i' → ∃ name, named t i' name) →
  PgRun.task_chain fuel t ids depth = Some rows → j ∈ ids → tc (dep_edge t) j k →
  ∃ name n, (k, name, n) ∈ rows.
Proof.
  induction fuel as [|fuel IH]; intros ids depth rows j k Hnamed; [done|]. cbn [PgRun.task_chain].
  intros Hrows Hj Htc.
  assert (∃ i name, (i, name) ∈ PgRun.chain_round t ids ∧ (i = k ∨ tc (dep_edge t) i k)) as (i & name & Hi & Hik).
  { destruct Htc as [j k He|j i k He Htc]; destruct (Hnamed _ _ He) as [name Hn];
      do 2 eexists; (split; [apply elem_of_chain_round; by exists j|auto]). }
  destruct (PgRun.chain_round t ids) as [|row round] eqn:E; [by apply elem_of_nil in Hi|].
  destruct (PgRun.task_chain fuel t _ _) as [rest|] eqn:Er; [|done]. simplify_eq/=.
  destruct Hik as [->|Hik].
  - exists name, depth.
    change ((k, name, depth) ∈ ((λ row, (row, depth)) <$> (row :: round)) ++ rest).
    apply elem_of_app. left. apply list_elem_of_fmap. by exists (k, name).
  - destruct (IH (row :: round).*1 (S depth) rest i k Hnamed Er) as (name' & n & H); [|done|].
    + apply list_elem_of_fmap. by exists (i, name).
    + exists name', n. change ((k, name', n) ∈ ((λ row, (row, depth)) <$> (row :: round)) ++ rest).
      apply elem_of_app. by right.
Qed.

(** ** The rows of the query, once each *)

Lemma take_new_spec rows : ∀ seen,
  NoDup (PgRun.take_new seen rows).*1 ∧
  (∀ k, k ∈ (PgRun.take_new seen rows).*1 ↔ k ∉ seen ∧ ∃ name n, (k, name, n) ∈ rows) ∧
  (∀ k name, (k, name) ∈ PgRun.take_new seen rows → ∃ n, (k, name, n) ∈ rows).
Proof.
  induction rows as [|[[i name] n] rows IH]; intros seen; simpl.
  { split; [constructor|]. split; [|by intros ? ? ?%elem_of_nil].
    intros k. split; [by intros ?%elem_of_nil|]. intros (_ & ? & ? & H). by apply elem_of_nil in H. }
  case_bool_decide as Hi.
  - destruct (IH seen) as (H1 & H2 & H3). split; [done|]. split.
    + intros k. rewrite H2. setoid_rewrite elem_of_cons. split; [naive_solver|].
      intros (Hk & name' & n' & [[= -> -> ->]|H]); [done|naive_solver].
    + intros k name' Hk. destruct (H3 _ _ Hk) as [n' ?]. exists n'. by right.
  - destruct (IH (i :: seen)) as (H1 & H2 & H3). cbn [fmap list_fmap fst]. split; [|split].
    + apply NoDup_cons. split; [|done]. rewrite H2. intros [H _]. apply H. left.
    + intros k. rewrite elem_of_cons, H2. setoid_rewrite elem_of_cons. split.
      * intros [->|(Hk & name' & n' & H)]; [split; [done|]; do 2 eexists; by left|].
        split; [tauto|]. do 2 eexists. right. exact H.
      * intros (Hk & name' & n' & [[= -> -> ->]|H]); [by left|].
        destruct (decide (k = i)); [by left|right]. split; [tauto|by do 2 eexists].
    + intros k name'. rewrite elem_of_cons. intros [[= -> ->]|Hk]; [exists n; by left|].
      destruct (H3 _ _ Hk) as [n' ?]. exists n'. by right.
Qed.

(** ** The operation *)

(** The last edge of a path. *)
Lemma tc_last_edge {A} (R : A → A → Prop) x y : tc R x y → ∃ z, R z y.
Proof. induction 1; eauto. Qed.

(** The foreign keys name every task that depends on another. *)
Lemma edge_named t : fk_ok t → ∀ j k, dep_edge t j k → ∃ name, named t k name.
Proof.
  intros Hfk j k (d & Hd & _ & <-). apply (fk_deps_task _ Hfk) in Hd.
  apply list_elem_of_fmap in Hd as (dt & -> & Hdt). by exists (dt_name dt), dt.
Qed.

(** What the loop over the rows of the query collects. *)
Definition updates_of (runId taskRunId : Z) (t : Tables) : list (Z * string) :=
  PgRun.take_new [] (default [] (PgRun.dependents runId taskRunId t)).

Lemma dependents_spec runId tr t :
  tables_ok t → fk_ok t → acyclic (dep_edge t) → tr ∈ tb_Task_Runs t →
  let updates := updates_of runId (trn_task_run_id tr) t in
  is_Some (PgRun.dependents runId (trn_task_run_id tr) t) ∧
  NoDup updates.*1 ∧ Forall2 (named t) updates.*1 updates.*2 ∧
  ∀ k, k ∈ updates.*1 ↔ downstream t runId (trn_task_id tr) k.
Proof.
  intros Hok Hfk Hac Htr. unfold updates_of, PgRun.dependents.
  rewrite (task_run_rows t (trn_task_run_id tr) tr) by done.
  destruct (task_chain_ends t (PgRun.chain_fuel t) 0 (trn_task_id <$> [tr]) 1 Hac) as [rows Hrows].
  { intros k _. exists []. split; [constructor|]. split; [done|]. by intros x ?%elem_of_nil. }
  { unfold PgRun.chain_fuel. lia. }
  { unfold PgRun.chain_fuel. lia. }
  rewrite Hrows. cbn [mbind option_bind default]. split; [by eexists|].
  set (found := dedup _).
  assert (∀ k name n, (k, name, n) ∈ found ↔ (k, name, n) ∈ rows ∧ k ∉ tasks_with_runs runId t) as Hfound.
  { intros k name n. unfold found. rewrite elem_of_dedup, elem_of_where, negb_true_iff,
      bool_decide_eq_false. simpl. unfold tasks_with_runs. tauto. }
  destruct (take_new_spec found []) as (Hnd & Hids & Hnames). split; [done|]. split.
  - rewrite Forall2_fmap. apply Forall_Forall2_diag, Forall_forall. intros [k name] Hk.
    apply Hnames in Hk as [n Hk]. apply Hfound in Hk as [Hk _].
    exact (proj1 (task_chain_sound _ _ _ _ _ _ _ _ Hrows Hk)).
  - intros k. rewrite Hids. unfold downstream. setoid_rewrite Hfound. split.
    + intros (_ & name & n & Hk & Hrun). split; [|done].
      apply (task_chain_sound _ _ _ _ _ _ _ _ Hrows) in Hk as (_ & j & Hj & Htc).
      by apply list_elem_of_singleton in Hj as ->.
    + intros [Htc Hrun]. split; [apply not_elem_of_nil|].
      destruct (task_chain_complete t _ _ _ _ (trn_task_id tr) k (edge_named t Hfk) Hrows)
        as (name & n & Hk); [left|done|]. by exists name, n.
Qed.

Lemma suspend_all_nil runId t : suspend_all runId [] t = t.
Proof.
  transitivity (set_DAG_Runs (tb_DAG_Runs t) (sq_DAG_Runs t) t); [|by destruct t].
  unfold suspend_all, upd_DAG_Runs. cbn [foldl]. f_equal.
  unfold update_where. rewrite <- (list_fmap_id (tb_DAG_Runs t)) at 2.
  apply list_fmap_ext. intros i r _. destruct (RunDb.is_run runId r); [|done].
  unfold RunDb.add_suspended. simpl. rewrite Z.add_0_r. by destruct r.
Qed.

(** ** Properties *)

(** When a task fails, exactly the tasks downstream of it that have no task run
    are suspended, once each: they are given a suspended task run, counted in
    the run, and returned by name; nothing else changes.  The recursive query
    ends because the dependencies have no cycle. *)
Theorem pg_suspends_downstream (runId : Z) (tr : TaskRunRow) (s : Store)
    (Hs : nofault s) (Hok : tables_ok (st_tables s)) (Hfk : fk_ok (st_tables s))
    (Hac : acyclic (dep_edge (st_tables s)))
    (Htr : tr ∈ tb_Task_Runs (st_tables s)) (Hrun : trn_run_id tr = runId) :
  ∃ l names,
    (PgRun.MarkConnectingTasksAsSuspended runId (trn_task_run_id tr) s).1 = Ok names ∧
    st_tables (PgRun.MarkConnectingTasksAsSuspended runId (trn_task_run_id tr) s).2 =
      suspend_all runId l (st_tables s) ∧
    Forall2 (named (st_tables s)) l names ∧ NoDup l ∧
    ∀ k, k ∈ l ↔ downstream (st_tables s) runId (trn_task_id tr) k.
Proof.
  pose proof (dependents_spec runId tr _ Hok Hfk Hac Htr) as (Hsome & Hnd & Hnames & Hk).
  set (updates := updates_of runId (trn_task_run_id tr) (st_tables s)) in *.
  exists updates.*1, updates.*2.
  enough (wp (PgRun.MarkConnectingTasksAsSuspended runId (trn_task_run_id tr)) s (λ r s',
    r = Ok updates.*2 ∧ st_tables s' = suspend_all runId updates.*1 (st_tables s))) as [H1 H2] by done.
  apply wp_in_tx_nofault; [done|]. apply wp_bind, wp_wrap_err, wp_query_nofault; [done|].
  destruct Hsome as [rows Hrows].
  assert (PgRun.take_new [] rows = updates) as Hupd by (unfold updates, updates_of; by rewrite Hrows).
  clearbody updates. rewrite Hrows. apply wp_bind, wp_ret. cbv zeta. rewrite Hupd.
  case_bool_decide as He.
  - apply wp_ret. split; [done|]. rewrite He. split; [done|]. symmetry. apply suspend_all_nil.
  - apply wp_bind, wp_wrap_err, wp_insert_nofault; [done|].
    assert (PgSchema.has_run runId (st_tables s) &&
      forallb (λ u, PgSchema.has_dag_task u (st_tables s)) updates.*1 = true) as ->.
    { apply andb_true_iff. split.
      - apply bool_decide_eq_true. rewrite <- Hrun. by apply (fk_task_runs_run _ Hfk).
      - apply forallb_forall. intros k Hin%list_elem_of_In. apply bool_decide_eq_true.
        apply Hk in Hin as [Htc _]. apply tc_last_edge in Htc as (j & He').
        destruct (edge_named _ Hfk _ _ He') as (name & dt & Hdt & <- & _).
        by apply list_elem_of_fmap_2. }
    apply wp_bind, wp_wrap_err, wp_exec_nofault; [done|]. apply wp_ret.
    split; [done|]. split; [done|]. unfold suspend_all. by rewrite length_fmap.
Qed.

(** The diamond after its first task failed. *)
Lemma pg_suspends_downstream_witness :
  ∃ l names, (PgRun.MarkConnectingTasksAsSuspended 1 1 demo_pg_run).1 = Ok names ∧ NoDup l ∧
    ∀ k, k ∈ l ↔ downstream (st_tables demo_pg_run) 1 1 k.
Proof.
  destruct demo_pg_run_ok as (Hok & Hfk & _).
  assert (tb_Dependencies (st_tables demo_pg_run) = [mkDependencyRow 2 1; mkDependencyRow 3 1;
    mkDependencyRow 4 2; mkDependencyRow 4 3]) as Hdeps by (vm_compute; reflexivity).
  assert (∀ j k, dep_edge (st_tables demo_pg_run) j k → (j < k)%Z) as Hlt.
  { intros j k (d & Hd & <- & <-). rewrite Hdeps in Hd. revert d Hd. apply Forall_forall.
    repeat constructor. }
  destruct (pg_suspends_downstream 1 demo_a demo_pg_run) as (l & names & H1 & _ & _ & H2 & H3).
  - vm_compute. reflexivity.
  - exact Hok.
  - exact Hfk.
  - intros k Hk. assert (∀ x y, tc (dep_edge (st_tables demo_pg_run)) x y → (x < y)%Z) as Htc.
    { induction 1 as [x y H|x y z H _ IH]; apply Hlt in H; lia. }
    apply Htc in Hk. lia.
  - assert (tb_Task_Runs (st_tables demo_pg_run) = [demo_a]) as -> by (vm_compute; reflexivity). left.
  - reflexivity.
  - exists l, names. auto.
Defined.
