(* ===== verification/Auth.v ===== *)
(** * Accounts and sessions (internal/server/auth)

    The login of the server: the interface [AuthManager] of authManager.go and
    its two implementations, authSqliteManager.go (Module [SqliteAuth]) and
    authPostgresManager.go (Module [PgAuth]), over the tables of accounts and
    tokens they create.  bcrypt, pgcrypto, the JWT library and the random ids
    are parameters.  A time is a number of seconds. *)

From S2P Require Import Prelude.
Local Open Scope kontroler_scope.

(** ** Data *)

Record Credentials := mkCredentials { cr_Username : string; cr_Password : string }.

Record CreateAccountReq := mkCreateAccountReq {
  ca_Username : string;
  ca_Password : string;
  ca_Role : string
}.

Record ChangeCredentials := mkChangeCredentials { cc_OldPassword : string; cc_Password : string }.

Record User := mkUser { us_Username : string; us_Role : string }.

Record AccountRow := mkAccountRow {
  ac_id : string;
  ac_username : string;
  ac_password_hash : string;
  ac_role : string;
  ac_created_at : Z;
  ac_updated_at : Z
}.

Record TokenRow := mkTokenRow {
  tok_account_id : string;
  tok_token : string;
  tok_expires_at : Z;
  tok_revoked : bool;
  tok_created_at : Z
}.

(** A claim of a token as it is decoded into [jwt.MapClaims]. *)
Inductive ClaimValue := CString (s : string) | CNumber (n : Z) | COther.
Abbreviation MapClaims := (gmap string ClaimValue).

(** The database of the accounts: its tables, the statements that will fail,
    the clock, how far local time is ahead of UTC, and how much random data was
    drawn. *)
Record AuthStore := mkAuthStore {
  as_accounts : list AccountRow;
  as_tokens : list TokenRow;
  as_faults : list bool;
  as_now : Z;
  as_zone : Z;
  as_random : nat
}.

(** ** The interface ([AuthManager]) *)

Class AuthManager (S : Type) := {
  auth_InitialiseDatabase : M S unit;
  auth_CreateAccount : CreateAccountReq → M S unit;
  auth_Login : Credentials → M S (string * string);
  auth_IsValidLogin : string → M S (string * string);
  auth_RevokeToken : string → M S unit;
  auth_GetUsers : Z → Z → M S (list User);
  auth_GetUserPageCount : Z → M S Z;
  auth_DeleteUser : string → M S unit;
  auth_ChangePassword : string → ChangeCredentials → M S unit
}.

(** ** What the managers call *)

Record AuthEnv := mkAuthEnv {
  (** [bcrypt.GenerateFromPassword] with the salt that is drawn *)
  ae_GenerateFromPassword : nat → string → result string;
  (** [bcrypt.CompareHashAndPassword] *)
  ae_CompareHashAndPassword : string → string → bool;
  (** pgcrypto: [crypt(password, salt)] and [gen_salt('bf')] *)
  ae_crypt : string → string → string;
  ae_gen_salt : nat → string;
  (** the DEFAULT of the ids, and [uuid.New().String()] *)
  ae_id : nat → string;
  ae_uuid : nat → string;
  (** [jwt.NewWithClaims(HS256, claims).SignedString(secretKey)] *)
  ae_SignedString : MapClaims → result string;
  (** [jwt.Parse] at a time: the claims of a token that is signed with the key
      and valid at that time *)
  ae_Parse : Z → string → option MapClaims
}.

(** ** Statements *)

Module AuthDb.

Definition stmt : M AuthStore unit := λ s,
  let s' := mkAuthStore (as_accounts s) (as_tokens s) (tail (as_faults s)) (as_now s) (as_zone s)
              (as_random s) in
  if default false (head (as_faults s)) then (Err EDriver, s') else (Ok tt, s').

Definition set_accounts (l : list AccountRow) (s : AuthStore) : AuthStore :=
  mkAuthStore l (as_tokens s) (as_faults s) (as_now s) (as_zone s) (as_random s).
Definition set_tokens (l : list TokenRow) (s : AuthStore) : AuthStore :=
  mkAuthStore (as_accounts s) l (as_faults s) (as_now s) (as_zone s) (as_random s).

(** The number of the next piece of random data. *)
Definition draw : M AuthStore nat := λ s,
  (Ok (as_random s),
   mkAuthStore (as_accounts s) (as_tokens s) (as_faults s) (as_now s) (as_zone s) (S (as_random s))).

Definition query {A} (f : AuthStore → A) : M AuthStore A := stmt ≫= λ _, gets f.

(** [QueryRow(...).Scan(...)]; the callers tell a missing row from the other
    errors. *)
Definition query_row {A} (f : AuthStore → list A) : M AuthStore A :=
  query f ≫= λ rows, match rows with [] => throw ENoRows | x :: _ => mret x end.

Definition exec (f : AuthStore → AuthStore) : M AuthStore unit := stmt ≫= λ _, modify f.

(** An INSERT: it fails on a unique key or, where they are enforced, on a
    foreign key. *)
Definition insert (table : string) (refused : AuthStore → bool) (f : AuthStore → AuthStore)
    : M AuthStore unit :=
  stmt ≫= λ _, b ← gets refused;
  if b : bool then throw (EConstraint table) else modify f.

(** [if err != nil { return fmt.Errorf(msg + ": %w", err) }] *)
Definition wrap {A} (msg : string) (m : M AuthStore A) : M AuthStore A :=
  try m ≫= λ r, match r with Ok a => mret a | Err e => throw (EWrap msg e) end.

(** A query whose missing row has a message of its own. *)
Definition row_or_error {A} (missing msg : string) (m : M AuthStore A) : M AuthStore A :=
  try m ≫= λ r, match r with
                | Ok a => mret a
                | Err e => if e =b ENoRows then throw (EErrorf missing) else throw (EWrap msg e)
                end.

Definition has_username (u : string) (a : AccountRow) : bool := ac_username a =b u.
Definition has_account_id (id : string) (a : AccountRow) : bool := ac_id a =b id.
Definition has_token (t : string) (r : TokenRow) : bool := tok_token r =b t.

Definition username_taken (u : string) (s : AuthStore) : bool :=
  bool_decide (u ∈ ac_username <$> as_accounts s).

Definition add_account (id username hash role : string) (s : AuthStore) : AuthStore :=
  set_accounts (as_accounts s ++ [mkAccountRow id username hash role (as_now s) (as_now s)]) s.

Definition set_password (hash : string) (now : Z) (a : AccountRow) : AccountRow :=
  mkAccountRow (ac_id a) (ac_username a) hash (ac_role a) (ac_created_at a) now.

Definition revoke (r : TokenRow) : TokenRow :=
  mkTokenRow (tok_account_id r) (tok_token r) (tok_expires_at r) true (tok_created_at r).

(** [24 * time.Hour] *)
Definition sessionTTL : Z := 24 * 60 * 60.

Definition login_claims (accountId jti role : string) (now : Z) : MapClaims :=
  <["account_id" := CString accountId]> (<["exp" := CNumber (now + sessionTTL)]>
  (<["iat" := CNumber now]> (<["jti" := CString jti]> (<["role" := CString role]> ∅)))).

Definition invalid_credentials : GoError := EErrorf "invalid credentials".

(** [claims["role"].(string)] *)
Definition role_claim (claims : MapClaims) : option string :=
  match claims !! "role" with Some (CString r) => Some r | _ => None end.

(** ** What both managers do alike *)

Section shared.
Context (env : AuthEnv).

(** Sign a token for the account and store it: [expires_at] is what the
    database holds for the end of the session, [refused] tells whether a key
    refuses the row. *)
Definition new_session (expires_at : AuthStore → Z) (refused : string → AuthStore → bool)
    (accountId role : string) : M AuthStore (string * string) :=
  now ← gets as_now;
  n ← draw;
  match ae_SignedString env (login_claims accountId (ae_uuid env n) role now) with
  | Err e => throw (EWrap "failed to sign token" e)
  | Ok signedToken =>
      wrap "failed to store token" (insert "tokens" (refused signedToken)
        (λ s, set_tokens (as_tokens s ++
                [mkTokenRow accountId signedToken (expires_at s) false (as_now s)]) s)) ≫= λ _,
      mret (signedToken, role)
  end.

(** [IsValidLogin]; [live now expires_at] is the test
    [expires_at > CURRENT_TIMESTAMP]. *)
Definition valid_login (live : Z → Z → bool) (tokenString : string) : M AuthStore (string * string) :=
  now ← gets as_now;
  match ae_Parse env now tokenString with
  | None => throw (EErrorf "invalid token")
  | Some claims =>
      match role_claim claims with
      | None => throw (EErrorf "role not found in token")
      | Some role =>
          row ← row_or_error "invalid or expired token" "failed to query token"
            (query_row (λ s, where_ (λ r, has_token tokenString r && live (as_now s) (tok_expires_at r))
                               (as_tokens s)));
          if tok_revoked row then throw (EErrorf "token has been revoked")
          else
            username ← row_or_error "could not find username" "failed to query for username"
              (query_row (λ s, ac_username <$> where_ (has_account_id (tok_account_id row))
                                                 (as_accounts s)));
            mret (username, role)
      end
  end.

End shared.

Definition RevokeToken (tokenString : string) : M AuthStore unit :=
  wrap "failed to revoke token"
    (exec (λ s, set_tokens (update_where (has_token tokenString) revoke (as_tokens s)) s)).

Definition newest_first (s : AuthStore) : list User :=
  (λ a, mkUser (ac_username a) (ac_role a)) <$> order_desc ac_created_at (as_accounts s).

Definition division_by_zero : GoError := EErrorf "runtime error: integer divide by zero".

(** The number of pages; a limit of zero makes the division panic. *)
Definition page_count (count limit : Z) : M AuthStore Z :=
  if limit =b 0%Z then throw division_by_zero
  else mret (Z.quot count limit + (if bool_decide (0 < Z.rem count limit)%Z then 1 else 0))%Z.

Definition GetUserPageCount (limit : Z) : M AuthStore Z :=
  count ← query (λ s, Z.of_nat (length (as_accounts s)));
  page_count count limit.

Definition delete_admin_error : GoError := EErrorf "cannot delete the admin account".

End AuthDb.

(** ** SQLite

    Foreign keys are not enforced (SQLite's default, which the manager leaves as
    it is): deleting an account leaves its tokens.  The end of a session is
    stored as the text of the local time, which goes on after the seconds, and
    compared with CURRENT_TIMESTAMP, the text of UTC. *)

Module SqliteAuth.
Import AuthDb.

Section operations.
Context (env : AuthEnv).

Definition hashPassword (password : string) : M AuthStore string :=
  n ← draw;
  match ae_GenerateFromPassword env n password with
  | Ok hash => mret hash
  | Err e => throw e
  end.

Definition insert_account (username hash role : string) : M AuthStore unit :=
  n ← draw;
  insert "accounts" (username_taken username) (add_account (ae_id env n) username hash role).

Definition InitialiseDatabase : M AuthStore unit :=
  wrap "failed to initialize database" stmt ≫= λ _,
  taken ← wrap "failed to check for default account" (query (username_taken "admin"));
  if taken : bool then mret tt
  else
    hashedPassword ← hashPassword "adminpassword";
    wrap "failed to create default account" (insert_account "admin" hashedPassword "admin").

Definition ChangePassword (username : string) (changeCredentials : ChangeCredentials)
    : M AuthStore unit :=
  storedPasswordHash ← row_or_error "user not found" "failed to query for user"
    (query_row (λ s, ac_password_hash <$> where_ (has_username username) (as_accounts s)));
  if negb (ae_CompareHashAndPassword env storedPasswordHash (cc_OldPassword changeCredentials))
  then throw (EErrorf "incorrect old password")
  else
    newPasswordHash ← wrap "failed to hash new password" (hashPassword (cc_Password changeCredentials));
    wrap "failed to update password"
      (exec (λ s, set_accounts (update_where (has_username username)
                                  (set_password newPasswordHash (as_now s)) (as_accounts s)) s)).

Definition CreateAccount (credentials : CreateAccountReq) : M AuthStore unit :=
  hashedPassword ← hashPassword (ca_Password credentials);
  wrap "failed to create account"
    (insert_account (ca_Username credentials) hashedPassword (ca_Role credentials)).

Definition DeleteUser (user : string) : M AuthStore unit :=
  if user =b "admin" then throw delete_admin_error
  else exec (λ s, set_accounts (where_ (λ a, negb (has_username user a)) (as_accounts s)) s).

Definition GetUsers (limit offset : Z) : M AuthStore (list User) :=
  query (λ s, limit_offset limit offset (newest_first s)).

Definition live (now expires_at : Z) : bool := now <=b expires_at.

Definition IsValidLogin (tokenString : string) : M AuthStore (string * string) :=
  valid_login env live tokenString.

Definition Login (credentials : Credentials) : M AuthStore (string * string) :=
  a ← row_or_error "invalid credentials" "failed to query user"
    (query_row (λ s, where_ (has_username (cr_Username credentials)) (as_accounts s)));
  if negb (ae_CompareHashAndPassword env (ac_password_hash a) (cr_Password credentials))
  then throw invalid_credentials
  else new_session env (λ s, as_now s + as_zone s + sessionTTL)%Z
         (λ t s, bool_decide (t ∈ tok_token <$> as_tokens s)) (ac_id a) (ac_role a).

End operations.
End SqliteAuth.

(** ** PostgreSQL

    Passwords are hashed and compared by pgcrypto.  The foreign key is enforced:
    deleting an account deletes its tokens. *)

Module PgAuth.
Import AuthDb.

Section operations.
Context (env : AuthEnv).

(** [INSERT INTO accounts ... VALUES ($1, crypt($2, gen_salt('bf')), $3)] *)
Definition insert_account (username password role : string) : M AuthStore unit :=
  n ← draw; k ← draw;
  insert "accounts" (username_taken username)
    (add_account (ae_id env k) username (ae_crypt env password (ae_gen_salt env n)) role).

(** [password_hash = crypt($2, password_hash)] *)
Definition password_of (password : string) (a : AccountRow) : bool :=
  ac_password_hash a =b ae_crypt env password (ac_password_hash a).

Definition InitialiseDatabase : M AuthStore unit :=
  wrap "failed to initialize database" stmt ≫= λ _,
  taken ← wrap "failed to check for default account" (query (username_taken "admin"));
  if taken : bool then mret tt
  else wrap "failed to create default account" (insert_account "admin" "adminpassword" "admin").

Definition CreateAccount (credentials : CreateAccountReq) : M AuthStore unit :=
  wrap "failed to create account"
    (insert_account (ca_Username credentials) (ca_Password credentials) (ca_Role credentials)).

(** [expires_at] refers to an account and a token of its own. *)
Definition token_refused (accountId t : string) (s : AuthStore) : bool :=
  bool_decide (t ∈ tok_token <$> as_tokens s)
  || negb (bool_decide (accountId ∈ ac_id <$> as_accounts s)).

Definition Login (credentials : Credentials) : M AuthStore (string * string) :=
  a ← row_or_error "invalid credentials" "failed to query user"
    (query_row (λ s, where_ (λ a, has_username (cr_Username credentials) a
                                  && password_of (cr_Password credentials) a) (as_accounts s)));
  new_session env (λ s, as_now s + sessionTTL)%Z (token_refused (ac_id a)) (ac_id a) (ac_role a).

Definition live (now expires_at : Z) : bool := bool_decide (now < expires_at)%Z.

Definition IsValidLogin (tokenString : string) : M AuthStore (string * string) :=
  valid_login env live tokenString.

Definition GetUsers (limit offset : Z) : M AuthStore (list User) :=
  stmt ≫= λ _,
  if bool_decide (limit < 0)%Z then throw (EErrorf "LIMIT must not be negative")
  else if bool_decide (offset < 0)%Z then throw (EErrorf "OFFSET must not be negative")
  else gets (λ s, limit_offset limit offset (newest_first s)).

Definition DeleteUser (user : string) : M AuthStore unit :=
  if user =b "admin" then throw delete_admin_error
  else exec (λ s,
    let gone := ac_id <$> where_ (has_username user) (as_accounts s) in
    set_accounts (where_ (λ a, negb (has_username user a)) (as_accounts s))
      (set_tokens (where_ (λ r, negb (bool_decide (tok_account_id r ∈ gone))) (as_tokens s)) s)).

Definition ChangePassword (username : string) (changeCredentials : ChangeCredentials)
    : M AuthStore unit :=
  passwordCorrect ← query (λ s, existsb (λ a, has_username username a
      && password_of (cc_OldPassword changeCredentials) a) (as_accounts s));
  if negb passwordCorrect then throw (EErrorf "incorrect old password")
  else
    n ← draw;
    let hash := ae_crypt env (cc_Password changeCredentials) (ae_gen_salt env n) in
    exec (λ s, set_accounts (update_where (has_username username)
                               (set_password hash (as_now s)) (as_accounts s)) s).

End operations.
End PgAuth.

(** ** The implementations *)

Definition SqliteAuthManager (env : AuthEnv) : AuthManager AuthStore := {|
  auth_InitialiseDatabase := SqliteAuth.InitialiseDatabase env;
  auth_CreateAccount := SqliteAuth.CreateAccount env;
  auth_Login := SqliteAuth.Login env;
  auth_IsValidLogin := SqliteAuth.IsValidLogin env;
  auth_RevokeToken := AuthDb.RevokeToken;
  auth_GetUsers := SqliteAuth.GetUsers;
  auth_GetUserPageCount := AuthDb.GetUserPageCount;
  auth_DeleteUser := SqliteAuth.DeleteUser;
  auth_ChangePassword := SqliteAuth.ChangePassword env
|}.

Definition PostgresAuthManager (env : AuthEnv) : AuthManager AuthStore := {|
  auth_InitialiseDatabase := PgAuth.InitialiseDatabase env;
  auth_CreateAccount := PgAuth.CreateAccount env;
  auth_Login := PgAuth.Login env;
  auth_IsValidLogin := PgAuth.IsValidLogin env;
  auth_RevokeToken := AuthDb.RevokeToken;
  auth_GetUsers := PgAuth.GetUsers;
  auth_GetUserPageCount := AuthDb.GetUserPageCount;
  auth_DeleteUser := PgAuth.DeleteUser;
  auth_ChangePassword := PgAuth.ChangePassword env
|}.
