(* ===== verification/AuthSpec.v ===== *)
(** * What the login of the server promises

    An abstract session table, and the theorem that both managers of accounts
    implement it: with whatever statements failing and time passing between the
    calls, every answer they give is an answer of the table.  The users a token
    stands for are those who logged in with it, until they log out, the account
    is deleted, or a day has passed. *)

From S2P Require Import Prelude Auth.
Local Open Scope kontroler_scope.

Module Sessions.

(** ** Calls *)

Inductive Call :=
| KInitialise
| KCreate (req : CreateAccountReq)
| KLogin (c : Credentials)
| KIsValid (token : string)
| KRevoke (token : string)
| KUsers (limit offset : Z)
| KPages (limit : Z)
| KDelete (user : string)
| KChange (user : string) (c : ChangeCredentials).

Inductive Answer :=
| ADone
| APair (a role : string)
| AUsers (l : list User)
| ACount (n : Z).

Definition run_call {S} (mgr : AuthManager S) (c : Call) : M S Answer :=
  match c with
  | KInitialise => auth_InitialiseDatabase ≫= λ _, mret ADone
  | KCreate req => auth_CreateAccount req ≫= λ _, mret ADone
  | KLogin c => auth_Login c ≫= λ p, mret (APair p.1 p.2)
  | KIsValid t => auth_IsValidLogin t ≫= λ p, mret (APair p.1 p.2)
  | KRevoke t => auth_RevokeToken t ≫= λ _, mret ADone
  | KUsers limit offset => auth_GetUsers limit offset ≫= λ l, mret (AUsers l)
  | KPages limit => auth_GetUserPageCount limit ≫= λ n, mret (ACount n)
  | KDelete u => auth_DeleteUser u ≫= λ _, mret ADone
  | KChange u c => auth_ChangePassword u c ≫= λ _, mret ADone
  end.

(** ** The session table *)

Record Account := mkAccount { sa_hash : string; sa_role : string }.
Record Session := mkSession { se_username : string; se_role : string; se_start : Z }.

Record State := mkState {
  sp_accounts : gmap string Account;
  sp_sessions : gmap string Session
}.

Definition initial : State := mkState ∅ ∅.

(** How passwords are kept: [check hash p] accepts [p]; [hashes p hash] may be
    stored for [p]. *)
Record Passwords := mkPasswords {
  pw_check : string → string → bool;
  pw_hashes : string → string → Prop
}.

Definition set_account (u : string) (a : Account) (st : State) : State :=
  mkState (<[u := a]> (sp_accounts st)) (sp_sessions st).

Inductive spec_step (pw : Passwords) (now : Z) (st : State) : Call → result Answer → State → Prop :=
| spec_error c e : spec_step pw now st c (Err e) st
| spec_initialised : is_Some (sp_accounts st !! "admin") → spec_step pw now st KInitialise (Ok ADone) st
| spec_initialise h :
    sp_accounts st !! "admin" = None → pw_hashes pw "adminpassword" h →
    spec_step pw now st KInitialise (Ok ADone) (set_account "admin" (mkAccount h "admin") st)
| spec_create req h :
    sp_accounts st !! ca_Username req = None → pw_hashes pw (ca_Password req) h →
    spec_step pw now st (KCreate req) (Ok ADone)
      (set_account (ca_Username req) (mkAccount h (ca_Role req)) st)
| spec_login c a token :
    sp_accounts st !! cr_Username c = Some a →
    pw_check pw (sa_hash a) (cr_Password c) = true →
    sp_sessions st !! token = None →
    spec_step pw now st (KLogin c) (Ok (APair token (sa_role a)))
      (mkState (sp_accounts st)
         (<[token := mkSession (cr_Username c) (sa_role a) now]> (sp_sessions st)))
| spec_valid token se :
    sp_sessions st !! token = Some se → (now < se_start se + AuthDb.sessionTTL)%Z →
    spec_step pw now st (KIsValid token) (Ok (APair (se_username se) (se_role se))) st
| spec_revoke token :
    spec_step pw now st (KRevoke token) (Ok ADone)
      (mkState (sp_accounts st) (delete token (sp_sessions st)))
| spec_users limit offset l :
    (∀ u, u ∈ l → ∃ a, sp_accounts st !! us_Username u = Some a ∧ us_Role u = sa_role a) →
    spec_step pw now st (KUsers limit offset) (Ok (AUsers l)) st
| spec_pages limit n :
    (0 < limit → (n - 1) * limit < Z.of_nat (size (sp_accounts st)) <= n * limit)%Z →
    spec_step pw now st (KPages limit) (Ok (ACount n)) st
| spec_delete u :
    u ≠ "admin" →
    spec_step pw now st (KDelete u) (Ok ADone)
      (mkState (delete u (sp_accounts st))
         (filter (λ p : string * Session, se_username p.2 ≠ u) (sp_sessions st)))
| spec_change u c a h :
    sp_accounts st !! u = Some a → pw_check pw (sa_hash a) (cc_OldPassword c) = true →
    pw_hashes pw (cc_Password c) h →
    spec_step pw now st (KChange u c) (Ok ADone) (set_account u (mkAccount h (sa_role a)) st).

(** A history of answers, each at its time. *)
Inductive spec_trace (pw : Passwords) : State → list (Z * Call * result Answer) → State → Prop :=
| trace_nil st : spec_trace pw st [] st
| trace_snoc st tr st' now c r st'' :
    spec_trace pw st tr st' → spec_step pw now st' c r st'' →
    spec_trace pw st (tr ++ [(now, c, r)]) st''.

(** ** The managers under load *)

(** A call, the time and the zone it is made at, and what fails of it. *)
Record Input := mkInput { in_now : Z; in_zone : Z; in_faults : list bool; in_call : Call }.

Definition at_input (i : Input) (s : AuthStore) : AuthStore :=
  mkAuthStore (as_accounts s) (as_tokens s) (in_faults i) (in_now i) (in_zone i) (as_random s).

Definition serve1 (mgr : AuthManager AuthStore) (i : Input) (s : AuthStore)
    : (Z * Call * result Answer) * AuthStore :=
  let '(r, s') := run_call mgr (in_call i) (at_input i s) in ((in_now i, in_call i, r), s').

Fixpoint serve (mgr : AuthManager AuthStore) (inputs : list Input) (s : AuthStore)
    : list (Z * Call * result Answer) * AuthStore :=
  match inputs with
  | [] => ([], s)
  | i :: rest => let '(x, s') := serve1 mgr i s in
                 let '(tr, s'') := serve mgr rest s' in (x :: tr, s'')
  end.

Definition empty_auth : AuthStore := mkAuthStore [] [] [] 0 0 0.

Inductive Backend := SQLite | PostgreSQL.

Definition manager (b : Backend) (env : AuthEnv) : AuthManager AuthStore :=
  match b with SQLite => SqliteAuthManager env | PostgreSQL => PostgresAuthManager env end.

Definition passwords (b : Backend) (env : AuthEnv) : Passwords :=
  match b with
  | SQLite => mkPasswords (ae_CompareHashAndPassword env)
                (λ p h, ∃ n, ae_GenerateFromPassword env n p = Ok h)
  | PostgreSQL => mkPasswords (λ h p, h =b ae_crypt env p h)
                    (λ p h, ∃ n, h = ae_crypt env p (ae_gen_salt env n))
  end.

(** What the JWT library and the random ids are relied on for. *)
Class AuthLaws (env : AuthEnv) : Prop := {
  law_id_inj : Inj (=) (=) (ae_id env);
  law_uuid_inj : Inj (=) (=) (ae_uuid env);
  law_signed claims token now claims' :
    ae_SignedString env claims = Ok token → ae_Parse env now token = Some claims' →
    claims' = claims;
  law_exp now token claims e :
    ae_Parse env now token = Some claims → claims !! "exp" = Some (CNumber e) → (now < e)%Z
}.

End Sessions.

Import AuthDb Sessions.

(** ** A logic of statements

    What a manager depends on is the [View] of the database; an error must leave
    a view that satisfies [I]. *)

Record View := mkView {
  vw_accounts : list AccountRow;
  vw_tokens : list TokenRow;
  vw_now : Z;
  vw_random : nat
}.

Definition view (s : AuthStore) : View :=
  mkView (as_accounts s) (as_tokens s) (as_now s) (as_random s).

Section logic.
Context (I : View → Prop).

Definition hoare {A} (P : View → Prop) (m : M AuthStore A) (Q : A → View → Prop) : Prop :=
  ∀ s, P (view s) → wp m s (λ r s', match r with Ok a => Q a (view s') | Err _ => I (view s') end).

Lemma hoare_ret {A} (P : View → Prop) (a : A) (Q : A → View → Prop) :
  (∀ v, P v → Q a v) → hoare P (mret a) Q.
Proof. intros H s HP. apply wp_ret. auto. Qed.

Lemma hoare_throw {A} (P : View → Prop) e (Q : A → View → Prop) :
  (∀ v, P v → I v) → hoare P (throw e) Q.
Proof. intros H s HP. apply wp_throw. auto. Qed.

Lemma hoare_bind {A B} (P : View → Prop) (m : M AuthStore A) (f : A → M AuthStore B)
    (R : A → View → Prop) (Q : B → View → Prop) :
  hoare P m R → (∀ a, hoare (R a) (f a) Q) → hoare P (m ≫= f) Q.
Proof.
  intros Hm Hf s HP. apply wp_bind. eapply wp_mono; [by apply Hm|].
  intros [a|e] s' H; [|exact H]. by apply Hf.
Qed.

Lemma hoare_weaken {A} (P P' : View → Prop) (m : M AuthStore A) (Q Q' : A → View → Prop) :
  hoare P m Q → (∀ v, P' v → P v) → (∀ a v, Q a v → Q' a v) → hoare P' m Q'.
Proof.
  intros Hm HP HQ s HP'. eapply wp_mono; [by apply Hm, HP|]. intros [a|e] s' H; auto.
Qed.

Lemma hoare_stmt (P : View → Prop) : (∀ v, P v → I v) → hoare P stmt (λ _, P).
Proof.
  intros HI s HP. unfold wp, stmt. destruct (default false _); simpl; [by apply HI|done].
Qed.

Lemma hoare_draw (P : View → Prop) (Q : nat → View → Prop) :
  (∀ a t now n, P (mkView a t now n) → Q n (mkView a t now (S n))) → hoare P draw Q.
Proof. intros H s HP. unfold wp, draw, view in *. simpl. auto. Qed.

Lemma hoare_gets {A} (P : View → Prop) (f : AuthStore → A) (Q : A → View → Prop) :
  (∀ s, P (view s) → Q (f s) (view s)) → hoare P (gets f) Q.
Proof. intros H s HP. apply wp_gets. auto. Qed.

Lemma hoare_query {A} (P : View → Prop) (f : AuthStore → A) (Q : A → View → Prop) :
  (∀ v, P v → I v) → (∀ s, P (view s) → Q (f s) (view s)) → hoare P (query f) Q.
Proof.
  intros HI HQ. apply (hoare_bind _ _ _ (λ _, P)); [by apply hoare_stmt|]. intros _. by apply hoare_gets.
Qed.

Lemma hoare_query_row {A} (P : View → Prop) (f : AuthStore → list A) (Q : A → View → Prop) :
  (∀ v, P v → I v) → (∀ s x l, P (view s) → f s = x :: l → Q x (view s)) →
  hoare P (query_row f) Q.
Proof.
  intros HI HQ.
  apply (hoare_bind _ _ _ (λ rows v, P v ∧ ∃ s, view s = v ∧ f s = rows)).
  { apply hoare_query; [done|]. eauto. }
  intros [|x l].
  - apply hoare_throw. intros v [HP _]. auto.
  - apply hoare_ret. intros v (HP & s & <- & Hf). eauto.
Qed.

Lemma hoare_exec (P : View → Prop) (f : AuthStore → AuthStore) (Q : unit → View → Prop) :
  (∀ v, P v → I v) → (∀ s, P (view s) → Q tt (view (f s))) → hoare P (exec f) Q.
Proof.
  intros HI HQ. apply (hoare_bind _ _ _ (λ _, P)); [by apply hoare_stmt|]. intros _ s HP.
  unfold wp, modify. simpl. auto.
Qed.

Lemma hoare_insert (P : View → Prop) table refused (f : AuthStore → AuthStore)
    (Q : unit → View → Prop) :
  (∀ v, P v → I v) → (∀ s, P (view s) → refused s = false → Q tt (view (f s))) →
  hoare P (insert table refused f) Q.
Proof.
  intros HI HQ. apply (hoare_bind _ _ _ (λ _, P)); [by apply hoare_stmt|]. intros _ s HP.
  unfold wp, mbind, M_bind, gets. destruct (refused s) eqn:E; simpl; auto.
Qed.

Lemma hoare_wrap {A} (P : View → Prop) msg (m : M AuthStore A) (Q : A → View → Prop) :
  hoare P m Q → hoare P (wrap msg m) Q.
Proof.
  intros H s HP. specialize (H s HP). unfold wp, wrap, mbind, M_bind, try in *.
  by destruct (m s) as [[a|e] s'].
Qed.

Lemma hoare_row_or_error {A} (P : View → Prop) missing msg (m : M AuthStore A) (Q : A → View → Prop) :
  hoare P m Q → hoare P (row_or_error missing msg m) Q.
Proof.
  intros H s HP. specialize (H s HP). unfold wp, row_or_error, mbind, M_bind, try in *.
  destruct (m s) as [[a|e] s']; [done|]. by destruct (e =b ENoRows)%K.
Qed.

End logic.

(** ** The tables as a session table *)

Section proofs.
Context (env : AuthEnv) `{!AuthLaws env}.

Definition account_of (a : AccountRow) : Account := mkAccount (ac_password_hash a) (ac_role a).

(** A token that stands for a session of an account. *)
Definition session_row (accounts : list AccountRow) (tokens : list TokenRow) (t : string)
    (se : Session) (r : TokenRow) (a : AccountRow) : Prop :=
  r ∈ tokens ∧ a ∈ accounts ∧ tok_token r = t ∧ tok_revoked r = false ∧
  tok_account_id r = ac_id a ∧ se = mkSession (ac_username a) (ac_role a) (tok_created_at r).

Record refines (st : State) (v : View) : Prop := {
  rf_usernames : NoDup (ac_username <$> vw_accounts v);
  rf_ids : NoDup (ac_id <$> vw_accounts v);
  rf_tokens : NoDup (tok_token <$> vw_tokens v);
  rf_drawn a : a ∈ vw_accounts v → ∃ n, n < vw_random v ∧ ac_id a = ae_id env n;
  rf_drawn_tokens r : r ∈ vw_tokens v → ∃ n, n < vw_random v ∧ tok_account_id r = ae_id env n;
  rf_accounts u x :
    sp_accounts st !! u = Some x ↔
    ∃ a, a ∈ vw_accounts v ∧ ac_username a = u ∧ x = account_of a;
  rf_sessions t se :
    sp_sessions st !! t = Some se ↔
    ∃ r a, session_row (vw_accounts v) (vw_tokens v) t se r a;
  rf_signed r :
    r ∈ vw_tokens v → ∃ k role, k < vw_random v ∧
    ae_SignedString env (login_claims (tok_account_id r) (ae_uuid env k) role (tok_created_at r))
      = Ok (tok_token r) ∧
    ∀ a, a ∈ vw_accounts v → tok_account_id r = ac_id a → role = ac_role a
}.

Lemma refines_random st a t now now' n n' :
  n <= n' → refines st (mkView a t now n) → refines st (mkView a t now' n').
Proof.
  intros Hn [H1 H2 H3 H4 H5 H6 H7 H8]. split; simpl in *; auto.
  - intros x Hx. destruct (H4 x Hx) as (k & ? & ?). exists k. split; [lia|done].
  - intros x Hx. destruct (H5 x Hx) as (k & ? & ?). exists k. split; [lia|done].
  - intros x Hx. destruct (H8 x Hx) as (k & role & ? & ?). exists k, role. split; [lia|done].
Qed.

(** The row of a user name, and of an id, is unique. *)
Lemma refines_username st v a b :
  refines st v → a ∈ vw_accounts v → b ∈ vw_accounts v → ac_username a = ac_username b → a = b.
Proof. intros H Ha Hb E. by eapply (NoDup_key ac_username); [apply H|..]. Qed.

Lemma refines_id st v a b :
  refines st v → a ∈ vw_accounts v → b ∈ vw_accounts v → ac_id a = ac_id b → a = b.
Proof. intros H Ha Hb E. by eapply (NoDup_key ac_id); [apply H|..]. Qed.

Lemma refines_add_account st a t now n u h role n' now' c1 c2 :
  refines st (mkView a t now n) → u ∉ ac_username <$> a → n < n' →
  refines (set_account u (mkAccount h role) st)
    (mkView (a ++ [mkAccountRow (ae_id env n) u h role c1 c2]) t now' n').
Proof.
  intros [H1 H2 H3 H4 H5 H6 H7 H8] Hu Hn. simpl in *.
  assert (Hfresh : ∀ k, k < n → ae_id env k ≠ ae_id env n).
  { intros k Hk E. apply law_id_inj in E. lia. }
  split; simpl; auto.
  - rewrite fmap_app. apply NoDup_app. split_and!; [done| |apply NoDup_singleton].
    intros x Hx ->%list_elem_of_singleton. done.
  - rewrite fmap_app. apply NoDup_app. split_and!; [done| |apply NoDup_singleton].
    intros x (b & -> & Hb)%list_elem_of_fmap E%list_elem_of_singleton.
    destruct (H4 b Hb) as (k & Hk & E'). apply (Hfresh k Hk). simpl in E. congruence.
  - intros b [Hb| ->%list_elem_of_singleton]%elem_of_app; [|by exists n].
    destruct (H4 b Hb) as (k & ? & ?). exists k. split; [lia|done].
  - intros r Hr. destruct (H5 r Hr) as (k & ? & ?). exists k. split; [lia|done].
  - intros u' x. rewrite lookup_insert_Some, H6. split.
    + intros [[<- <-]|(Hne & b & Hb & Eu & ->)].
      * eexists. split; [apply elem_of_app; right; by apply list_elem_of_singleton|done].
      * exists b. split; [apply elem_of_app; by left|done].
    + intros (b & [Hb| ->%list_elem_of_singleton]%elem_of_app & Eu & ->); [right|by left].
      split; [|by exists b]. intros ->. apply Hu. apply list_elem_of_fmap. by exists b.
  - intros tk se. rewrite H7. split; intros (r & b & Hs); exists r, b.
    + destruct Hs as (? & ? & ?). split_and!; try tauto. apply elem_of_app. by left.
    + destruct Hs as (Hr & [Hb| ->%list_elem_of_singleton]%elem_of_app & ? & ? & E & ?).
      * split_and!; auto.
      * destruct (H5 r Hr) as (k & Hk & E'). exfalso. apply (Hfresh k Hk). simpl in E. congruence.
  - intros r Hr. destruct (H8 r Hr) as (k & rl & Hk & Hs & Hrl). exists k, rl. split_and!; [lia|done|].
    intros b [Hb| ->%list_elem_of_singleton]%elem_of_app E; [by apply Hrl|].
    destruct (H5 r Hr) as (k' & Hk' & E'). exfalso. apply (Hfresh k' Hk'). simpl in E. congruence.
Qed.

Lemma refines_add_token st a t now n x tk e c :
  refines st (mkView a t now n) → x ∈ a → tk ∉ tok_token <$> t →
  (∃ k, k < n ∧ ae_SignedString env (login_claims (ac_id x) (ae_uuid env k) (ac_role x) c) = Ok tk) →
  refines (mkState (sp_accounts st) (<[tk := mkSession (ac_username x) (ac_role x) c]> (sp_sessions st)))
    (mkView a (t ++ [mkTokenRow (ac_id x) tk e false c]) now n).
Proof.
  intros Href Hx Htk Hsig. pose proof Href as [H1 H2 H3 H4 H5 H6 H7 H8]. simpl in *.
  split; simpl; auto.
  - rewrite fmap_app. apply NoDup_app. split_and!; [done| |apply NoDup_singleton].
    intros y Hy ->%list_elem_of_singleton. done.
  - intros r [Hr| ->%list_elem_of_singleton]%elem_of_app; [by apply H5|by apply H4].
  - intros t' se. rewrite lookup_insert_Some, H7. split.
    + intros [[<- <-]|(Hne & r & b & Hr & Hs)].
      * eexists _, x. split; [apply elem_of_app; right; by apply list_elem_of_singleton|done].
      * exists r, b. split; [apply elem_of_app; by left|done].
    + intros (r & b & [Hr| ->%list_elem_of_singleton]%elem_of_app & Hb & Et & Erev & Eid & ->).
      * right. split; [|by exists r, b]. intros ->. apply Htk. rewrite <- Et.
        apply list_elem_of_fmap. by exists r.
      * left. split; [done|]. simpl in Eid. by rewrite (refines_id st _ x b Href Hx Hb Eid).
  - intros r [Hr| ->%list_elem_of_singleton]%elem_of_app; [by apply H8|].
    destruct Hsig as (k & Hk & Hs). exists k, (ac_role x). split_and!; [done..|].
    intros b Hb E. simpl in E. by rewrite (refines_id st _ x b Href Hx Hb E).
Qed.

Lemma refines_revoke st a t now n tk :
  refines st (mkView a t now n) →
  refines (mkState (sp_accounts st) (delete tk (sp_sessions st)))
    (mkView a (update_where (has_token tk) revoke t) now n).
Proof.
  intros [H1 H2 H3 H4 H5 H6 H7 H8]. simpl in *. split; simpl; auto.
  - by rewrite fmap_update_where.
  - intros r (y & Hy & ->)%elem_of_update_where. destruct (has_token tk y); exact (H5 y Hy).
  - intros t' se. rewrite lookup_delete_Some, H7. split.
    + intros (Hne & r & b & Hr & Hb & Et & Hs). exists r, b. split_and!; try tauto.
      apply elem_of_update_where. exists r. split; [done|].
      unfold has_token. rewrite bool_decide_false; congruence.
    + intros (r & b & (y & Hy & ->)%elem_of_update_where & Hb & Et & Erev & Hs).
      destruct (has_token tk y) eqn:E; [by simpl in Erev|].
      unfold has_token in E. apply bool_decide_eq_false in E.
      split; [congruence|]. exists y, b. unfold session_row. tauto.
  - intros r (y & Hy & ->)%elem_of_update_where. destruct (has_token tk y); exact (H8 y Hy).
Qed.

(** Deleting an account: its tokens may stay, those of the others do. *)
Lemma refines_delete st a t t' now n u :
  refines st (mkView a t now n) → t' `sublist_of` t →
  (∀ r b, r ∈ t → b ∈ a → tok_account_id r = ac_id b → ac_username b ≠ u → r ∈ t') →
  refines (mkState (delete u (sp_accounts st))
             (filter (λ p : string * Session, se_username p.2 ≠ u) (sp_sessions st)))
    (mkView (where_ (λ b, negb (has_username u b)) a) t' now n).
Proof.
  intros [H1 H2 H3 H4 H5 H6 H7 H8] Hsub Hkept. simpl in *.
  assert (Hw : ∀ b, b ∈ where_ (λ b, negb (has_username u b)) a ↔ b ∈ a ∧ ac_username b ≠ u).
  { intros b. rewrite elem_of_where, negb_true_iff. unfold has_username.
    rewrite bool_decide_eq_false. tauto. }
  assert (Hs : ∀ r, r ∈ t' → r ∈ t) by (intros r Hr; by eapply elem_of_sublist).
  split; simpl.
  - by apply NoDup_where.
  - by apply NoDup_where.
  - eapply sublist_NoDup; [exact H3|by apply fmap_sublist].
  - intros b [Hb _]%Hw. auto.
  - auto.
  - intros u' x. rewrite lookup_delete_Some, H6. split.
    + intros (Hne & b & Hb & <- & ->). exists b. split; [by apply Hw|done].
    + intros (b & [Hb Hne]%Hw & <- & ->). split; [done|by exists b].
  - intros tk se. rewrite map_lookup_filter_Some, H7. simpl. split.
    + intros [(r & b & Hr & Hb & Et & Erev & Eid & ->) Hne]. exists r, b. simpl in Hne.
      split_and!; eauto. by apply Hw.
    + intros (r & b & Hr & [Hb Hne]%Hw & Et & Erev & Eid & ->). split; [|done].
      exists r, b. by split_and!; auto.
  - intros r Hr. destruct (H8 r (Hs r Hr)) as (k & rl & Hk & Hsig & Hrl). exists k, rl.
    split_and!; [done..|]. intros b [Hb _]%Hw. auto.
Qed.

Lemma refines_set_password st a t now n u x h c :
  refines st (mkView a t now n) → x ∈ a → ac_username x = u →
  refines (set_account u (mkAccount h (ac_role x)) st)
    (mkView (update_where (has_username u) (set_password h c) a) t now n).
Proof.
  intros Href Hx Hu. pose proof Href as [H1 H2 H3 H4 H5 H6 H7 H8]. simpl in *.
  set (a' := update_where _ _ a).
  assert (Hm : ∀ b, b ∈ a' ↔ ∃ y, y ∈ a ∧ b = if has_username u y then set_password h c y else y).
  { intros b. unfold a'. rewrite elem_of_update_where. naive_solver. }
  assert (Hk : ∀ y, let b := if has_username u y then set_password h c y else y in
    ac_id b = ac_id y ∧ ac_username b = ac_username y ∧ ac_role b = ac_role y).
  { intros y. by destruct (has_username u y). }
  split; simpl; auto.
  - unfold a'. rewrite fmap_update_where; done.
  - unfold a'. rewrite fmap_update_where; done.
  - intros b (y & Hy & ->)%Hm. destruct (Hk y) as (-> & _). auto.
  - intros u' z. rewrite lookup_insert_Some, H6. split.
    + intros [[<- <-]|(Hne & b & Hb & <- & ->)].
      * exists (set_password h c x). split_and!; [|done..]. apply Hm. exists x. split; [done|].
        unfold has_username. by rewrite bool_decide_true.
      * exists b. split_and!; [|done..]. apply Hm. exists b. split; [done|].
        unfold has_username. by rewrite bool_decide_false.
    + intros (b & (y & Hy & ->)%Hm & <- & ->). destruct (Hk y) as (_ & -> & _).
      unfold has_username. case_bool_decide as Eu.
      * left. rewrite <- (refines_username st _ x y Href Hx Hy) by (simpl; congruence). by rewrite Hu.
      * right. split; [congruence|]. exists y. by split_and!.
  - intros tk se. rewrite H7. unfold session_row. split.
    + intros (r & b & Hr & Hb & Et & Erev & Eid & ->).
      exists r, (if has_username u b then set_password h c b else b).
      destruct (Hk b) as (E1 & E2 & E3). rewrite E1, E2, E3. split_and!; auto. apply Hm. by exists b.
    + intros (r & b & Hr & (y & Hy & ->)%Hm & Et & Erev & Eid & ->). exists r, y.
      destruct (Hk y) as (E1 & E2 & E3). rewrite E1 in Eid. rewrite E2, E3. by split_and!.
  - intros r Hr. destruct (H8 r Hr) as (k & rl & Hk' & Hs & Hrl). exists k, rl. split_and!; [done..|].
    intros b (y & Hy & ->)%Hm E. destruct (Hk y) as (E1 & _ & E3). rewrite E1 in E. rewrite E3. auto.
Qed.

(** ** The statements of the managers *)

Definition at_rest (st : State) (now : Z) (v : View) : Prop := refines st v ∧ vw_now v = now.

(** The random number [n] is drawn and not used. *)
Definition drawn (st : State) (now : Z) (n : nat) (v : View) : Prop :=
  refines st (mkView (vw_accounts v) (vw_tokens v) (vw_now v) n) ∧ vw_now v = now ∧ n < vw_random v.

Lemma at_rest_refines st now v : at_rest st now v → refines st v.
Proof. by intros []. Qed.

Lemma drawn_at_rest st now n v : drawn st now n v → at_rest st now v.
Proof.
  intros (H & Hn & Hlt). split; [|done]. destruct v. eapply refines_random, H. simpl in *. lia.
Qed.

(** Drawing random data keeps what is known of the accounts. *)
Lemma hoare_draw_at_rest (F : list AccountRow → Prop) st now :
  hoare (refines st) (λ v, at_rest st now v ∧ F (vw_accounts v)) draw
    (λ n v, drawn st now n v ∧ F (vw_accounts v)).
Proof.
  apply hoare_draw. intros a t now' n [[H E] HF]. split; [|exact HF].
  split; [|split; [exact E|simpl; lia]]. exact H.
Qed.

#[local] Hint Resolve at_rest_refines drawn_at_rest : core.

Lemma some_account st v u :
  refines st v → is_Some (sp_accounts st !! u) ↔ u ∈ ac_username <$> vw_accounts v.
Proof.
  intros H. unfold is_Some. setoid_rewrite (rf_accounts _ _ H). rewrite list_elem_of_fmap. naive_solver.
Qed.

Lemma no_account st v u :
  refines st v → sp_accounts st !! u = None ↔ u ∉ ac_username <$> vw_accounts v.
Proof. intros H. by rewrite eq_None_not_Some, (some_account _ _ _ H). Qed.

Lemma the_account st v a :
  refines st v → a ∈ vw_accounts v → sp_accounts st !! ac_username a = Some (account_of a).
Proof. intros H Ha. apply (rf_accounts _ _ H). by exists a. Qed.

Lemma hoare_add_account st now n u h role :
  hoare (refines st) (drawn st now n)
    (insert "accounts" (username_taken u) (add_account (ae_id env n) u h role))
    (λ _ v, sp_accounts st !! u = None ∧ refines (set_account u (mkAccount h role) st) v).
Proof.
  apply hoare_insert; [eauto|]. intros s (H & Hnow & Hlt) Hu.
  unfold username_taken in Hu. apply bool_decide_eq_false in Hu.
  split; [by apply (no_account _ _ _ H)|]. by eapply refines_add_account.
Qed.

Lemma hoare_username_taken st now :
  hoare (refines st) (at_rest st now) (query (username_taken "admin"))
    (λ b v, at_rest st now v ∧ b = bool_decide (is_Some (sp_accounts st !! "admin"))).
Proof.
  apply hoare_query; [eauto|]. intros s [H Hn]. split; [done|].
  apply bool_decide_ext. symmetry. exact (some_account _ _ _ H).
Qed.

Lemma hoare_new_session st now expires refused a :
  (∀ t s, refused t s = false → t ∉ tok_token <$> as_tokens s) →
  hoare (refines st) (λ v, at_rest st now v ∧ a ∈ vw_accounts v)
    (new_session env expires refused (ac_id a) (ac_role a))
    (λ p v, p.2 = ac_role a ∧ sp_sessions st !! p.1 = None ∧
      refines (mkState (sp_accounts st)
        (<[p.1 := mkSession (ac_username a) (ac_role a) now]> (sp_sessions st))) v).
Proof.
  intros Hrefused. unfold new_session.
  apply (hoare_bind _ _ _ _ (λ now' v, (at_rest st now v ∧ a ∈ vw_accounts v) ∧ now' = now)).
  { apply hoare_gets. intros s [[H <-] Ha]. by split_and!. }
  intros now'. apply (hoare_bind _ _ _ _ (λ k v, ((at_rest st now v ∧ a ∈ vw_accounts v) ∧ now' = now) ∧ k < vw_random v)).
  { apply hoare_draw. intros x t n k [[[H E] Ha] ->]. simpl in *. split_and!; [|done..|lia]. split; [|done].
    eapply refines_random, H. lia. }
  intros k. destruct (ae_SignedString env _) as [token|e] eqn:Es; [|apply hoare_throw; naive_solver].
  apply (hoare_bind _ _ _ _ (λ _ v, sp_sessions st !! token = None ∧
    refines (mkState (sp_accounts st)
      (<[token := mkSession (ac_username a) (ac_role a) now]> (sp_sessions st))) v)).
  - apply hoare_wrap, hoare_insert; [naive_solver|]. intros s [[[[H Hn] Ha] ->] Hk] Hr.
    apply Hrefused in Hr. split.
    + apply eq_None_not_Some. intros [se (r & b & Hrow & _ & <- & _)%(rf_sessions _ _ H)].
      apply Hr. by apply list_elem_of_fmap_2.
    + simpl in Hn. unfold view. simpl. rewrite Hn. apply refines_add_token; eauto. by rewrite <- Hn.
  - intros _. apply hoare_ret. intros v [H1 H2]. by split_and!.
Qed.

Lemma login_claims_role id jti role now : role_claim (login_claims id jti role now) = Some role.
Proof. reflexivity. Qed.

Lemma login_claims_exp id jti role now :
  login_claims id jti role now !! "exp" = Some (CNumber (now + sessionTTL)).
Proof. reflexivity. Qed.

(** A token that is accepted stands for a session that has not ended. *)
Lemma accepted_session st v now t claims role r a :
  refines st v → vw_now v = now → ae_Parse env now t = Some claims → role_claim claims = Some role →
  r ∈ vw_tokens v → tok_token r = t → tok_revoked r = false →
  a ∈ vw_accounts v → tok_account_id r = ac_id a →
  ∃ se, sp_sessions st !! t = Some se ∧ (now < se_start se + sessionTTL)%Z ∧
    ac_username a = se_username se ∧ role = se_role se.
Proof.
  intros H Hn Hp Hrole Hr Et Erev Ha Eid.
  destruct (rf_signed _ _ H r Hr) as (k & rl & _ & Hs & Hrl). rewrite Et in Hs.
  pose proof (law_signed _ _ _ _ Hs Hp) as ->. rewrite login_claims_role in Hrole. simplify_eq.
  rewrite (Hrl a Ha Eid) in *.
  exists (mkSession (ac_username a) (ac_role a) (tok_created_at r)). split_and!; [|simpl..].
  - apply (rf_sessions _ _ H). by exists r, a.
  - eapply (law_exp _ _ _ _ Hp), login_claims_exp.
  - done.
  - done.
Qed.

Lemma hoare_valid_login st now live t :
  hoare (refines st) (at_rest st now) (valid_login env live t)
    (λ p v, at_rest st now v ∧ ∃ se, sp_sessions st !! t = Some se ∧
       (now < se_start se + sessionTTL)%Z ∧ p = (se_username se, se_role se)).
Proof.
  unfold valid_login. apply (hoare_bind _ _ _ _ (λ now' v, at_rest st now v ∧ now' = now)).
  { apply hoare_gets. by intros s [H <-]. }
  intros now'. destruct (ae_Parse env now' t) as [claims|] eqn:Ep; [|apply hoare_throw; naive_solver].
  destruct (role_claim claims) as [role|] eqn:Er; [|apply hoare_throw; naive_solver].
  apply (hoare_bind _ _ _ _ (λ row v, (at_rest st now v ∧ now' = now) ∧
    row ∈ vw_tokens v ∧ tok_token row = t)).
  { apply hoare_row_or_error, hoare_query_row; [naive_solver|]. intros s row l [H ->] Hw.
    assert (Hrow : row ∈ row :: l) by apply list_elem_of_here. rewrite <- Hw in Hrow.
    apply elem_of_where in Hrow as [[Ht _]%andb_true_iff Hrow].
    unfold has_token in Ht. apply bool_decide_eq_true in Ht. by split_and!. }
  intros row. destruct (tok_revoked row) eqn:Erev; [apply hoare_throw; naive_solver|].
  apply (hoare_bind _ _ _ _ (λ username v, ((at_rest st now v ∧ now' = now) ∧
    row ∈ vw_tokens v ∧ tok_token row = t) ∧
    ∃ a, a ∈ vw_accounts v ∧ tok_account_id row = ac_id a ∧ username = ac_username a)).
  { apply hoare_row_or_error, hoare_query_row; [naive_solver|]. intros s u l HP Hw. split; [exact HP|].
    assert (Hu : u ∈ u :: l) by apply list_elem_of_here. rewrite <- Hw in Hu.
    apply list_elem_of_fmap in Hu as (a & -> & Ha). apply elem_of_where in Ha as [Hid Ha].
    unfold has_account_id in Hid. apply bool_decide_eq_true in Hid. by exists a. }
  intros username. apply hoare_ret. intros v [[[[H Hn] ->] [Hr Et]] (a & Ha & Eid & ->)].
  split; [done|].
  destruct (accepted_session _ _ _ _ _ _ _ _ H Hn Ep Er Hr Et Erev Ha Eid) as (se & Hse & Hlt & E1 & E2).
  exists se. by rewrite <- E1, <- E2.
Qed.

(** ** The calls *)

Definition answers (pw : Passwords) (c : Call) (m : M AuthStore Answer) : Prop :=
  ∀ st now, hoare (refines st) (at_rest st now) m
    (λ ans v, ∃ st', spec_step pw now st c (Ok ans) st' ∧ refines st' v).

(** The session table after a call that answers nothing. *)
Lemma answers_done pw c (m : M AuthStore unit) :
  (∀ st now, hoare (refines st) (at_rest st now) m
     (λ _ v, ∃ st', spec_step pw now st c (Ok ADone) st' ∧ refines st' v)) →
  answers pw c (m ≫= λ _, mret ADone).
Proof.
  intros H st now. eapply hoare_bind; [apply H|]. intros []. apply hoare_ret. by intros v.
Qed.

Lemma answers_login pw c (m : M AuthStore (string * string)) :
  (∀ st now, hoare (refines st) (at_rest st now) m
     (λ p v, ∃ st', spec_step pw now st c (Ok (APair p.1 p.2)) st' ∧ refines st' v)) →
  answers pw c (m ≫= λ p, mret (APair p.1 p.2)).
Proof.
  intros H st now. eapply hoare_bind; [apply H|]. intros p. apply hoare_ret. by intros v.
Qed.

Lemma spec_same pw st now c ans v :
  at_rest st now v → spec_step pw now st c (Ok ans) st →
  ∃ st', spec_step pw now st c (Ok ans) st' ∧ refines st' v.
Proof. intros [H _] Hs. by exists st. Qed.

Lemma answers_valid pw live t :
  answers pw (KIsValid t) (valid_login env live t ≫= λ p, mret (APair p.1 p.2)).
Proof.
  apply answers_login. intros st now. eapply hoare_weaken; [apply hoare_valid_login|done|].
  intros p v (H & se & Hse & Hlt & ->). eapply spec_same; [exact H|]. by apply spec_valid.
Qed.

Lemma answers_revoke pw t : answers pw (KRevoke t) (RevokeToken t ≫= λ _, mret ADone).
Proof.
  apply answers_done. intros st now. apply hoare_wrap, hoare_exec; [eauto|]. intros s [H _].
  eexists. split; [apply spec_revoke|]. exact (refines_revoke _ _ _ _ _ _ H).
Qed.

Lemma newest_first_accounts st s u :
  refines st (view s) → u ∈ newest_first s →
  ∃ a, sp_accounts st !! us_Username u = Some a ∧ us_Role u = sa_role a.
Proof.
  intros H (a & -> & Ha)%list_elem_of_fmap. rewrite order_desc_perm in Ha.
  exists (account_of a). split; [by eapply the_account|done].
Qed.

Lemma limit_offset_elem {A} limit offset (l : list A) x : x ∈ limit_offset limit offset l → x ∈ l.
Proof.
  intros Hx. eapply elem_of_sublist; [exact Hx|]. unfold limit_offset.
  case_bool_decide; [apply sublist_drop|etrans; [apply sublist_take|apply sublist_drop]].
Qed.

Lemma size_accounts st v : refines st v → size (sp_accounts st) = length (vw_accounts v).
Proof.
  intros H. set (l := (λ a, (ac_username a, account_of a)) <$> vw_accounts v).
  assert (Hl : l.*1 = ac_username <$> vw_accounts v) by (unfold l; by rewrite <- list_fmap_compose).
  assert (Hnd : NoDup l.*1) by (rewrite Hl; apply H).
  assert (sp_accounts st = list_to_map l) as ->.
  { apply map_eq. intros u. apply option_eq. intros x. rewrite (rf_accounts _ _ H).
    rewrite <- elem_of_list_to_map by done. unfold l. rewrite list_elem_of_fmap. naive_solver. }
  rewrite <- length_map_to_list, map_to_list_to_map by done. unfold l. by rewrite length_fmap.
Qed.

Lemma answers_pages pw limit :
  answers pw (KPages limit) (GetUserPageCount limit ≫= λ n, mret (ACount n)).
Proof.
  intros st now. unfold GetUserPageCount.
  apply (hoare_bind _ _ _ _ (λ n v, at_rest st now v ∧
    (0 < limit → (n - 1) * limit < Z.of_nat (size (sp_accounts st)) <= n * limit)%Z)).
  - apply (hoare_bind _ _ _ _ (λ n v, at_rest st now v ∧ n = Z.of_nat (size (sp_accounts st)))).
    { apply hoare_query; [eauto|]. intros s [H Hn]. by rewrite (size_accounts _ _ H). }
    intros n. unfold page_count. case_bool_decide; [apply hoare_throw; naive_solver|].
    apply hoare_ret. intros v [H' ->]. split; [done|]. intros Hl.
    rewrite Z.rem_mod_nonneg, Z.quot_div_nonneg by lia.
    pose proof (Z.div_mod (Z.of_nat (size (sp_accounts st))) limit).
    pose proof (Z.mod_pos_bound (Z.of_nat (size (sp_accounts st))) limit Hl).
    case_bool_decide; nia.
  - intros n. apply hoare_ret. intros v [H Hn]. eapply spec_same; [exact H|]. by apply spec_pages.
Qed.

(** *** Accounts *)

(** An account is added: the call is one of the two that add accounts. *)
Definition adds (pw : Passwords) (c : Call) (u password role : string) : Prop :=
  ∀ st now h, sp_accounts st !! u = None → pw_hashes pw password h →
    spec_step pw now st c (Ok ADone) (set_account u (mkAccount h role) st).

Lemma adds_create pw req : adds pw (KCreate req) (ca_Username req) (ca_Password req) (ca_Role req).
Proof. intros st now h H1 H2. by apply spec_create. Qed.

Lemma adds_admin pw : adds pw KInitialise "admin" "adminpassword" "admin".
Proof. intros st now h H1 H2. by apply spec_initialise. Qed.

(** The result of adding an account. *)
Definition added (pw : Passwords) (st : State) (now : Z) (c : Call) {A} (_ : A) (v : View) : Prop :=
  ∃ st', spec_step pw now st c (Ok ADone) st' ∧ refines st' v.

Lemma hoare_hashPassword (F : list AccountRow → Prop) st now p :
  hoare (refines st) (λ v, at_rest st now v ∧ F (vw_accounts v)) (SqliteAuth.hashPassword env p)
    (λ h v, (at_rest st now v ∧ F (vw_accounts v)) ∧ pw_hashes (passwords SQLite env) p h).
Proof.
  unfold SqliteAuth.hashPassword. eapply hoare_bind; [apply hoare_draw_at_rest|]. intros n.
  destruct (ae_GenerateFromPassword env n p) eqn:E; [|apply hoare_throw; naive_solver].
  apply hoare_ret. intros v [H HF]. split; [eauto|]. by exists n.
Qed.

(** Nothing is known of the accounts. *)
Definition anything (_ : list AccountRow) : Prop := True.

Lemma sqlite_insert_account c u p h role st now :
  adds (passwords SQLite env) c u p role → pw_hashes (passwords SQLite env) p h →
  hoare (refines st) (λ v, at_rest st now v ∧ anything (vw_accounts v))
    (SqliteAuth.insert_account env u h role) (added (passwords SQLite env) st now c).
Proof.
  intros Hadd Hh. unfold SqliteAuth.insert_account. eapply hoare_bind; [apply hoare_draw_at_rest|].
  intros n. eapply hoare_weaken; [apply (hoare_add_account st now)|by intros v []|].
  intros [] v [Hn Hr]. eexists. split; [|exact Hr]. by apply Hadd.
Qed.

(** Hash the password, then add the account. *)
Lemma sqlite_add_account c u p role msg st now :
  adds (passwords SQLite env) c u p role →
  hoare (refines st) (at_rest st now)
    (SqliteAuth.hashPassword env p ≫= λ h, wrap msg (SqliteAuth.insert_account env u h role))
    (added (passwords SQLite env) st now c).
Proof.
  intros Hadd. eapply hoare_bind.
  - eapply hoare_weaken; [apply (hoare_hashPassword anything st now)|by intros v|done].
  - intros h s [H Hh].
    exact (hoare_wrap _ _ _ _ _ (sqlite_insert_account c u p h role st now Hadd Hh) s H).
Qed.

Lemma pg_insert_account c u p role st now :
  adds (passwords PostgreSQL env) c u p role →
  hoare (refines st) (at_rest st now) (PgAuth.insert_account env u p role)
    (added (passwords PostgreSQL env) st now c).
Proof.
  intros Hadd. unfold PgAuth.insert_account. eapply hoare_bind.
  { eapply hoare_weaken; [apply (hoare_draw_at_rest anything st now)|by intros v|done]. }
  intros n. eapply hoare_bind.
  { eapply hoare_weaken; [apply (hoare_draw_at_rest anything st now)| |done].
    intros v [H _]. split; [by eapply drawn_at_rest|done]. }
  intros k. eapply hoare_weaken; [apply (hoare_add_account st now)|by intros v []|].
  intros [] v [Hn Hr]. eexists. split; [|exact Hr]. apply Hadd; [done|]. by exists n.
Qed.

Lemma answers_create b req :
  answers (passwords b env) (KCreate req) (run_call (manager b env) (KCreate req)).
Proof.
  destruct b; apply answers_done; intros st now; simpl.
  - apply sqlite_add_account, adds_create.
  - apply hoare_wrap, (pg_insert_account _ _ _ _ _ _ (adds_create _ req)).
Qed.

Lemma answers_initialise b :
  answers (passwords b env) KInitialise (run_call (manager b env) KInitialise).
Proof.
  assert (Hadmin : ∀ pw m, (∀ st now, hoare (refines st) (at_rest st now) m (added pw st now KInitialise)) →
    ∀ st now, hoare (refines st) (at_rest st now)
      (wrap "failed to initialize database" stmt ≫= λ _,
       wrap "failed to check for default account" (query (username_taken "admin")) ≫= λ taken : bool,
       if taken then mret tt else m) (added pw st now KInitialise)).
  { intros pw m Hm st now.
    eapply hoare_bind; [apply hoare_wrap, hoare_stmt; apply at_rest_refines|]. intros [].
    eapply hoare_bind; [apply hoare_wrap, hoare_username_taken|]. intros [|].
    - apply hoare_ret. intros v [H E]. symmetry in E. apply bool_decide_eq_true in E.
      eapply spec_same; [exact H|]. by apply spec_initialised.
    - eapply hoare_weaken; [apply Hm|by intros v []|done]. }
  destruct b; apply answers_done; intros st now; apply Hadmin; clear st now; intros st now.
  - apply sqlite_add_account, adds_admin.
  - apply hoare_wrap, (pg_insert_account _ _ _ _ _ _ (adds_admin _)).
Qed.

Lemma answers_users b limit offset :
  answers (passwords b env) (KUsers limit offset) (run_call (manager b env) (KUsers limit offset)).
Proof.
  assert (Hl : ∀ pw st now, hoare (refines st) (at_rest st now)
    (gets (λ s, limit_offset limit offset (newest_first s)))
    (λ l v, ∃ st', spec_step pw now st (KUsers limit offset) (Ok (AUsers l)) st' ∧ refines st' v)).
  { intros pw st now. apply hoare_gets. intros s H. eapply spec_same; [exact H|].
    apply spec_users. intros u Hu. eapply newest_first_accounts; [apply H|]. by eapply limit_offset_elem. }
  intros st now. eapply hoare_bind; [|intros l; apply hoare_ret; intros v H; exact H].
  destruct b; simpl.
  - apply (hoare_bind _ _ _ _ (λ _, at_rest st now)); [apply hoare_stmt; eauto|]. intros _. apply Hl.
  - apply (hoare_bind _ _ _ _ (λ _, at_rest st now)); [apply hoare_stmt; eauto|]. intros _.
    case_bool_decide; [apply hoare_throw; eauto|]. case_bool_decide; [apply hoare_throw; eauto|]. apply Hl.
Qed.

Lemma answers_delete b u :
  answers (passwords b env) (KDelete u) (run_call (manager b env) (KDelete u)).
Proof.
  destruct b; apply answers_done; intros st now; simpl; unfold SqliteAuth.DeleteUser, PgAuth.DeleteUser;
    (case_bool_decide as Eu; [apply hoare_throw; eauto|]);
    (apply hoare_exec; [eauto|]; intros s [H _]; eexists; split; [by apply spec_delete|]).
  - by apply (refines_delete _ _ _ _ _ _ u H).
  - apply (refines_delete _ _ _ _ _ _ u H); [apply where_sublist|].
    intros r a Hr Ha E Hne. apply elem_of_where. split; [|done]. apply negb_true_iff, bool_decide_eq_false.
    intros (a' & E' & Ha')%list_elem_of_fmap. apply elem_of_where in Ha' as [Hu Ha'].
    unfold has_username in Hu. apply bool_decide_eq_true in Hu. apply Hne.
    rewrite <- Hu. f_equal. apply (refines_id _ _ _ _ H); simpl; congruence || done.
Qed.

(** *** Passwords *)

(** The row that a query of the accounts gives. *)
Lemma hoare_account_row st now missing msg (p : AccountRow → bool) :
  hoare (refines st) (at_rest st now)
    (row_or_error missing msg (query_row (λ s, where_ p (as_accounts s))))
    (λ a v, at_rest st now v ∧ a ∈ vw_accounts v ∧ p a = true).
Proof.
  apply hoare_row_or_error, hoare_query_row; [eauto|]. intros s a l H Hw.
  assert (Ha : a ∈ a :: l) by apply list_elem_of_here. rewrite <- Hw in Ha.
  apply elem_of_where in Ha as [Hp Ha]. by split_and!.
Qed.

Lemma has_username_eq u a : has_username u a = true → ac_username a = u.
Proof. apply bool_decide_eq_true. Qed.

(** A session is opened for the account that the password opens. *)
Lemma login_session pw c a st now expires refused :
  (∀ t s, refused t s = false → t ∉ tok_token <$> as_tokens s) →
  (∀ v, at_rest st now v → pw_check pw (ac_password_hash a) (cr_Password c) = true) →
  ac_username a = cr_Username c →
  hoare (refines st) (λ v, at_rest st now v ∧ a ∈ vw_accounts v)
    (new_session env expires refused (ac_id a) (ac_role a))
    (λ p v, ∃ st', spec_step pw now st (KLogin c) (Ok (APair p.1 p.2)) st' ∧ refines st' v).
Proof.
  intros Hrefused Hcheck Hu s [H Ha].
  eapply wp_mono; [by apply (hoare_new_session st now expires refused a)|].
  intros [[t role]|e] s'; [|done]. simpl. intros (-> & Hnew & Hr). eexists. split; [|exact Hr].
  pose proof (the_account _ _ _ (at_rest_refines _ _ _ H) Ha) as Hacc. rewrite Hu in *.
  apply (spec_login pw now st c (account_of a)); [done| |done]. by eapply Hcheck.
Qed.

Lemma answers_login_call b c :
  answers (passwords b env) (KLogin c) (run_call (manager b env) (KLogin c)).
Proof.
  destruct b; apply answers_login; intros st now; simpl; unfold SqliteAuth.Login, PgAuth.Login.
  - eapply hoare_bind; [apply hoare_account_row|]. intros a.
    destruct (ae_CompareHashAndPassword env (ac_password_hash a) (cr_Password c)) eqn:E;
      simpl; [|apply hoare_throw; naive_solver].
    intros s (H & Ha & Hu%has_username_eq). apply login_session; [|intros; exact E|done|by split].
    intros t s'. by rewrite bool_decide_eq_false.
  - eapply hoare_bind; [apply hoare_account_row|].
    intros a s (H & Ha & [Hu%has_username_eq Hp]%andb_true_iff).
    apply login_session; [|intros; exact Hp|done|by split].
    intros t s'. unfold PgAuth.token_refused. rewrite orb_false_iff, bool_decide_eq_false. tauto.
Qed.

Lemma change_password pw u c a h st now cur v :
  at_rest st now v → a ∈ vw_accounts v → ac_username a = u →
  pw_check pw (ac_password_hash a) (cc_OldPassword c) = true → pw_hashes pw (cc_Password c) h →
  ∃ st', spec_step pw now st (KChange u c) (Ok ADone) st' ∧
    refines st' (mkView (update_where (has_username u) (set_password h cur) (vw_accounts v))
                   (vw_tokens v) (vw_now v) (vw_random v)).
Proof.
  intros [H Hn] Ha Hu Hcheck Hh. eexists. split.
  - pose proof (the_account _ _ _ H Ha) as Hacc. rewrite Hu in Hacc.
    by apply (spec_change pw now st u c (account_of a) h).
  - destruct v. by eapply refines_set_password.
Qed.

(** The password of a user name is replaced. *)
Lemma hoare_set_password pw u c h st now :
  hoare (refines st)
    (λ v, (at_rest st now v ∧ ∃ a, a ∈ vw_accounts v ∧ ac_username a = u ∧
             pw_check pw (ac_password_hash a) (cc_OldPassword c) = true) ∧
          pw_hashes pw (cc_Password c) h)
    (exec (λ s, set_accounts (update_where (has_username u) (set_password h (as_now s))
                                (as_accounts s)) s))
    (λ _ v, ∃ st', spec_step pw now st (KChange u c) (Ok ADone) st' ∧ refines st' v).
Proof.
  apply hoare_exec; [naive_solver|]. intros s [[H (a & Ha & Hu & Hc)] Hh].
  exact (change_password pw u c a h st now (as_now s) (view s) H Ha Hu Hc Hh).
Qed.

Lemma answers_change b u c :
  answers (passwords b env) (KChange u c) (run_call (manager b env) (KChange u c)).
Proof.
  destruct b; apply answers_done; intros st now; simpl;
    unfold SqliteAuth.ChangePassword, PgAuth.ChangePassword.
  - set (pw := passwords SQLite env).
    set (F hash (l : list AccountRow) := ∃ a, a ∈ l ∧ ac_username a = u ∧ ac_password_hash a = hash).
    apply (hoare_bind _ _ _ _ (λ hash v, at_rest st now v ∧ F hash (vw_accounts v))).
    { apply hoare_row_or_error, hoare_query_row; [eauto|]. intros s hash l H Hw. split; [done|].
      assert (Hh : hash ∈ hash :: l) by apply list_elem_of_here. rewrite <- Hw in Hh.
      apply list_elem_of_fmap in Hh as (a & -> & [Hu%has_username_eq Ha]%elem_of_where). by exists a. }
    intros hash. destruct (ae_CompareHashAndPassword env hash (cc_OldPassword c)) eqn:E;
      simpl; [|apply hoare_throw; naive_solver].
    eapply hoare_bind; [apply hoare_wrap, (hoare_hashPassword (F hash) st now)|]. intros h.
    apply hoare_wrap. eapply hoare_weaken; [apply (hoare_set_password pw u c h st now)| |done].
    intros v [[H (a & Ha & Hu & <-)] Hh]. split; [|done]. split; [done|]. by exists a.
  - set (pw := passwords PostgreSQL env).
    set (F (b : bool) (l : list AccountRow) := b = true → ∃ a, a ∈ l ∧ ac_username a = u ∧
      pw_check pw (ac_password_hash a) (cc_OldPassword c) = true).
    apply (hoare_bind _ _ _ _ (λ b v, at_rest st now v ∧ F b (vw_accounts v))).
    { apply hoare_query; [eauto|]. intros s H. split; [done|].
      intros (a & Ha & [Hu%has_username_eq Hp]%andb_true_iff)%existsb_exists.
      exists a. split_and!; [by apply list_elem_of_In|done..]. }
    intros [|]; simpl; [|apply hoare_throw; naive_solver].
    eapply hoare_bind; [apply (hoare_draw_at_rest (F true) st now)|]. intros n.
    eapply hoare_weaken; [apply (hoare_set_password pw u c _ st now)| |done].
    intros v [H HF]. split; [split; [eauto|by apply HF]|]. by exists n.
Qed.

(** ** The managers implement the session table *)

Lemma call_answers b c : answers (passwords b env) c (run_call (manager b env) c).
Proof.
  destruct c.
  - apply answers_initialise.
  - apply answers_create.
  - apply answers_login_call.
  - destruct b; apply answers_valid.
  - destruct b; apply answers_revoke.
  - apply answers_users.
  - destruct b; apply answers_pages.
  - apply answers_delete.
  - apply answers_change.
Qed.

Lemma serve1_refines b i s st :
  refines st (view s) →
  ∃ st', spec_step (passwords b env) (in_now i) st (in_call i) (serve1 (manager b env) i s).1.2 st' ∧
    (serve1 (manager b env) i s).1.1 = (in_now i, in_call i) ∧
    refines st' (view (serve1 (manager b env) i s).2).
Proof.
  intros H. assert (Hat : at_rest st (in_now i) (view (at_input i s))).
  { split; [|done]. eapply (refines_random st _ _ _ _ (as_random s)), H. done. }
  pose proof (call_answers b (in_call i) st (in_now i) _ Hat) as Hw. unfold wp, serve1 in *.
  destruct (run_call (manager b env) (in_call i) (at_input i s)) as [[ans|e] s']; simpl in *.
  - destruct Hw as (st' & Hs & Hr). by exists st'.
  - exists st. split_and!; [apply spec_error|done|exact Hw].
Qed.

Lemma spec_trace_app pw st tr st' tr' st'' :
  spec_trace pw st tr st' → spec_trace pw st' tr' st'' → spec_trace pw st (tr ++ tr') st''.
Proof.
  intros H1 H2. induction H2 as [|st1 tr1 st2 now c r st3 _ IH Hs]; [by rewrite app_nil_r|].
  rewrite app_assoc. by eapply trace_snoc; [apply IH|].
Qed.

Lemma serve_refines b inputs : ∀ s st, refines st (view s) →
  ∃ st', spec_trace (passwords b env) st (serve (manager b env) inputs s).1 st' ∧
    refines st' (view (serve (manager b env) inputs s).2).
Proof.
  induction inputs as [|i rest IH]; intros s st H; simpl; [exists st; split; [constructor|done]|].
  destruct (serve1_refines b i s st H) as (st1 & Hs & E & H1).
  destruct (serve1 (manager b env) i s) as [[[now c] r] s1]. simpl in *. injection E as -> ->.
  destruct (IH s1 st1 H1) as (st2 & Htr & H2).
  destruct (serve (manager b env) rest s1) as [tr s2]. exists st2. simpl in *. split; [|done].
  apply (spec_trace_app _ _ [(in_now i, in_call i, r)] st1); [|exact Htr].
  by apply (trace_snoc _ _ [] st), Hs; constructor.
Qed.

Lemma refines_empty : refines initial (view empty_auth).
Proof.
  split; simpl; try (by constructor); try (intros ? H; by apply elem_of_nil in H).
  - intros u x. rewrite lookup_empty. split; [done|]. intros (a & Ha & _). by apply elem_of_nil in Ha.
  - intros t se. rewrite lookup_empty. split; [done|]. intros (r & a & Hr & _). by apply elem_of_nil in Hr.
Qed.

End proofs.

(** ** Sessions in a history *)

(** What ends the session of a token of a user: logging out with it, and
    deleting the user. *)
Definition ends (token user : string) (x : Z * Call * result Answer) : Prop :=
  x.2 = Ok ADone ∧ (x.1.2 = KRevoke token ∨ x.1.2 = KDelete user).

(** The session was opened by a login in the history, and nothing ended it. *)
Definition opened (tr : list (Z * Call * result Answer)) (token : string) (se : Session) : Prop :=
  ∃ before c after,
    tr = before ++ (se_start se, KLogin c, Ok (APair token (se_role se))) :: after ∧
    cr_Username c = se_username se ∧
    ∀ x, x ∈ after → ¬ ends token (se_username se) x.

Lemma opened_snoc tr token se x :
  opened tr token se → ¬ ends token (se_username se) x → opened (tr ++ [x]) token se.
Proof.
  intros (before & c & after & -> & Hu & Hafter) Hx. exists before, c, (after ++ [x]).
  split; [by rewrite <- app_assoc|]. split; [done|].
  intros y [Hy| ->%list_elem_of_singleton]%elem_of_app; [by apply Hafter|done].
Qed.

Lemma trace_opened pw tr st token se :
  spec_trace pw initial tr st → sp_sessions st !! token = Some se → opened tr token se.
Proof.
  intros Htr. remember initial as st0 eqn:E0. revert token se.
  induction Htr as [|st tr st1 now c r st2 Htr IH Hs]; intros token se.
  { subst st. unfold initial. simpl. by rewrite lookup_empty. }
  specialize (IH E0). inversion Hs; subst; simpl;
    try (intros Hse; apply opened_snoc; [by apply IH|]; by intros [? [|]]).
  - rewrite lookup_insert_Some. intros [[<- <-]|[_ Hse]].
    + exists tr, c0, []. split_and!; [done..|]. intros x Hx. by apply elem_of_nil in Hx.
    + apply opened_snoc; [by apply IH|]. by intros [? [|]].
  - rewrite lookup_delete_Some. intros [Hne Hse]. apply opened_snoc; [by apply IH|].
    intros [_ [E|E]]; simpl in E; congruence.
  - rewrite map_lookup_filter_Some. intros [Hse Hne]. apply opened_snoc; [by apply IH|].
    intros [_ [E|E]]; simpl in *; congruence.
Qed.

Lemma trace_last pw st tr now c r st' :
  spec_trace pw st (tr ++ [(now, c, r)]) st' →
  ∃ st1, spec_trace pw st tr st1 ∧ spec_step pw now st1 c r st'.
Proof.
  remember (tr ++ [(now, c, r)]) as l eqn:El. intros H.
  destruct H as [st|st tr' st1 now' c' r' st2 Htr Hs]; [by destruct tr|].
  apply app_inj_tail in El as [-> [= -> -> ->]]. by exists st1.
Qed.

Lemma trace_prefix pw st tr1 tr2 st' :
  spec_trace pw st (tr1 ++ tr2) st' → ∃ st1, spec_trace pw st tr1 st1 ∧ spec_trace pw st1 tr2 st'.
Proof.
  revert st'. induction tr2 as [|x tr2 IH] using rev_ind; intros st' H.
  - rewrite app_nil_r in H. exists st'. split; [done|constructor].
  - rewrite app_assoc in H. remember ((tr1 ++ tr2) ++ [x]) as l eqn:El.
    destruct x as [[now c] r]. subst l. apply trace_last in H as (st2 & Htr & Hs).
    destruct (IH _ Htr) as (st1 & H1 & H2). exists st1. split; [done|]. by eapply trace_snoc.
Qed.

(** ** A session on a healthy database *)

(** What logging in relies on: bcrypt takes passwords of up to 72 bytes, a hash
    accepts its password, claims can be signed, and a signed token is accepted
    from its [iat] up to its [exp]. *)
Class AuthWorks (env : AuthEnv) : Prop := {
  works_bcrypt n p :
    String.length p <= 72 →
    ∃ h, ae_GenerateFromPassword env n p = Ok h ∧ ae_CompareHashAndPassword env h p = true;
  works_crypt p n :
    ae_crypt env p (ae_crypt env p (ae_gen_salt env n)) = ae_crypt env p (ae_gen_salt env n);
  works_sign claims : ∃ token, ae_SignedString env claims = Ok token;
  works_parse claims token now i e :
    ae_SignedString env claims = Ok token →
    claims !! "iat" = Some (CNumber i) → claims !! "exp" = Some (CNumber e) → (i <= now < e)%Z →
    ae_Parse env now token = Some claims
}.

Section healthy.
Context (env : AuthEnv) `{!AuthLaws env, !AuthWorks env} (b : Backend).
Let mgr := manager b env.

(** The account opened by the password. *)
Definition opens (p : string) (a : AccountRow) : Prop :=
  pw_check (passwords b env) (ac_password_hash a) p = true.

Lemma create_healthy a t now z n u p role :
  u ∉ ac_username <$> a → String.length p <= 72 →
  ∃ row n', opens p row ∧ ac_username row = u ∧ ac_role row = role ∧
    run_call mgr (KCreate (mkCreateAccountReq u p role)) (mkAuthStore a t [] now z n)
    = (Ok ADone, mkAuthStore (a ++ [row]) t [] now z n').
Proof.
  intros Hu Hp. unfold mgr, opens. destruct b; simpl.
  - destruct (works_bcrypt n p Hp) as (h & Hh & Hc).
    exists (mkAccountRow (ae_id env (S n)) u h role now now), (S (S n)).
    split_and!; [done..|]. unfold SqliteAuth.CreateAccount, SqliteAuth.hashPassword,
      SqliteAuth.insert_account, wrap, insert, try, mbind, M_bind, draw, stmt, gets. simpl.
    rewrite Hh. simpl. unfold username_taken. simpl. by rewrite bool_decide_false.
  - exists (mkAccountRow (ae_id env (S n)) u (ae_crypt env p (ae_gen_salt env n)) role now now), (S (S n)).
    split_and!; simpl; [by rewrite works_crypt, bool_decide_true|done..|].
    unfold PgAuth.CreateAccount, PgAuth.insert_account, wrap, insert, try, mbind, M_bind, draw,
      stmt, gets. simpl. unfold username_taken. simpl. by rewrite bool_decide_false.
Qed.

Lemma where_both {A} (p q : A → bool) (l : list A) :
  where_ (λ x, p x && q x) l = where_ q (where_ p l).
Proof.
  induction l as [|x l IH]; [done|]. rewrite !where_cons, IH. destruct (p x); cbn [andb]; [|done].
  by rewrite where_cons.
Qed.

Lemma where_username u a row :
  NoDup (ac_username <$> a) → row ∈ a → ac_username row = u → where_ (has_username u) a = [row].
Proof. intros Hnd Hrow <-. by apply (where_key ac_username). Qed.

(** When a session of a login at [now] in the zone [z] ends. *)
Definition session_end (now z : Z) : Z :=
  (now + sessionTTL + match b with SQLite => z | PostgreSQL => 0 end)%Z.

Lemma new_session_healthy expires refused row a t now z n token :
  ae_SignedString env (login_claims (ac_id row) (ae_uuid env n) (ac_role row) now) = Ok token →
  refused token (mkAuthStore a t [] now z (S n)) = false →
  new_session env expires refused (ac_id row) (ac_role row) (mkAuthStore a t [] now z n)
  = (Ok (token, ac_role row),
     mkAuthStore a (t ++ [mkTokenRow (ac_id row) token (expires (mkAuthStore a t [] now z (S n))) false now])
       [] now z (S n)).
Proof.
  intros Hs Hr. unfold new_session, wrap, insert, try, mbind, M_bind, draw, stmt, gets. simpl.
  rewrite Hs. simpl. by rewrite Hr.
Qed.

Lemma login_healthy a t now z n p row token :
  NoDup (ac_username <$> a) → row ∈ a → opens p row →
  ae_SignedString env (login_claims (ac_id row) (ae_uuid env n) (ac_role row) now) = Ok token →
  token ∉ tok_token <$> t →
  run_call mgr (KLogin (mkCredentials (ac_username row) p)) (mkAuthStore a t [] now z n)
  = (Ok (APair token (ac_role row)),
     mkAuthStore a (t ++ [mkTokenRow (ac_id row) token (session_end now z) false now]) [] now z (S n)).
Proof.
  intros Hnd Hrow Hp Hs Hfresh. unfold mgr, opens, session_end in *. destruct b; simpl in *.
  - unfold SqliteAuth.Login, row_or_error, query_row, query, try, mbind, M_bind, stmt, gets. simpl.
    rewrite (where_username _ _ row) by done. simpl. rewrite Hp. simpl.
    rewrite (new_session_healthy _ _ row a t now z n token Hs); [|by rewrite bool_decide_false].
    simpl. do 5 f_equal. lia.
  - unfold PgAuth.Login, row_or_error, query_row, query, try, mbind, M_bind, stmt, gets. simpl.
    rewrite where_both, (where_username _ _ row) by done. simpl.
    unfold PgAuth.password_of. rewrite Hp. simpl.
    rewrite (new_session_healthy _ _ row a t now z n token Hs); [by rewrite Z.add_0_r|].
    unfold PgAuth.token_refused. simpl. rewrite bool_decide_false by done.
    rewrite bool_decide_true; [done|]. by apply list_elem_of_fmap_2.
Qed.

Lemma valid_healthy a t row token now e now' z' n :
  NoDup (ac_id <$> a) → row ∈ a → NoDup (tok_token <$> t) → token ∉ tok_token <$> t →
  ae_SignedString env (login_claims (ac_id row) (ae_uuid env n) (ac_role row) now) = Ok token →
  (now <= now' < now + sessionTTL)%Z → (now' < e)%Z →
  (run_call mgr (KIsValid token)
    (mkAuthStore a (t ++ [mkTokenRow (ac_id row) token e false now]) [] now' z' (S n))).1
  = Ok (APair (ac_username row) (ac_role row)).
Proof.
  intros Hnd Hrow Hndt Hfresh Hs Hnow He.
  assert (Hlive : ∀ live : Z → Z → bool, (∀ x y, (x < y)%Z → live x y = true) →
    (valid_login env live token
      (mkAuthStore a (t ++ [mkTokenRow (ac_id row) token e false now]) [] now' z' (S n))).1
    = Ok (ac_username row, ac_role row)).
  { intros live Hlive. set (r := mkTokenRow (ac_id row) token e false now).
    assert (Hr : where_ (has_token token) (t ++ [r]) = [r]).
    { apply (where_key tok_token (t ++ [r]) r); [|apply elem_of_app; right; by apply list_elem_of_singleton].
      rewrite fmap_app. apply NoDup_app. split_and!; [done| |apply NoDup_singleton].
      intros x Hx ->%list_elem_of_singleton. done. }
    assert (Ha : where_ (has_account_id (ac_id row)) a = [row]) by by apply (where_key ac_id).
    unfold valid_login, row_or_error, query_row, query, try, mbind, M_bind, stmt, gets. simpl.
    rewrite (works_parse _ _ now' now (now + sessionTTL)%Z Hs) by (reflexivity || done).
    rewrite login_claims_role. simpl. rewrite where_both, Hr. simpl. rewrite Hlive by done. simpl.
    by rewrite Ha. }
  assert (Hrun : ∀ (m : M AuthStore (string * string)) s, (m s).1 = Ok (ac_username row, ac_role row) →
    ((m ≫= λ p, mret (APair p.1 p.2)) s).1 = Ok (APair (ac_username row) (ac_role row))).
  { intros m s Hm. unfold mbind, M_bind. by destruct (m s) as [[]]; simplify_eq/=. }
  unfold mgr. destruct b; apply Hrun, Hlive; intros x y Hxy.
  - apply bool_decide_eq_true. lia.
  - by apply bool_decide_eq_true.
Qed.

Lemma login_claims_jti id jti role now : login_claims id jti role now !! "jti" = Some (CString jti).
Proof. reflexivity. Qed.

(** A newly signed token is not in the table. *)
Lemma token_fresh st v id role now token :
  refines env st v →
  ae_SignedString env (login_claims id (ae_uuid env (vw_random v)) role now) = Ok token →
  token ∉ tok_token <$> vw_tokens v.
Proof.
  intros H Hs (r & -> & Hr)%list_elem_of_fmap.
  destruct (rf_signed _ _ _ H r Hr) as (k & rl & Hk & Hs' & _).
  assert (Hp : ae_Parse env now (tok_token r) = Some (login_claims id (ae_uuid env (vw_random v)) role now)).
  { apply (works_parse _ _ now now (now + sessionTTL)%Z Hs); [reflexivity..|]. unfold sessionTTL. lia. }
  pose proof (law_signed _ _ _ _ Hs' Hp) as E. apply (f_equal (λ c : MapClaims, c !! "jti")) in E.
  rewrite !login_claims_jti in E. injection E as E. apply law_uuid_inj in E. lia.
Qed.

End healthy.

(** ** An instance, for the examples *)

#[global] Instance ClaimValue_eq_dec : EqDecision ClaimValue.
Proof. solve_decision. Defined.

#[global] Instance ClaimValue_countable : Countable ClaimValue :=
  inj_countable'
    (λ c, match c with CString s => inl s | CNumber n => inr (inl n) | COther => inr (inr ()) end)
    (λ x, match x with inl s => CString s | inr (inl n) => CNumber n | inr (inr _) => COther end)
    ltac:(by intros []).

(** A text for a positive number. *)
Fixpoint bits (p : positive) : string :=
  match p with
  | xH => ""
  | xO p => String (Ascii.ascii_of_nat 48) (bits p)
  | xI p => String (Ascii.ascii_of_nat 49) (bits p)
  end.

Fixpoint unbits (s : string) : positive :=
  match s with
  | EmptyString => xH
  | String c s => if Ascii.eqb c (Ascii.ascii_of_nat 49) then xI (unbits s) else xO (unbits s)
  end.

Lemma unbits_bits p : unbits (bits p) = p.
Proof. induction p as [p IH|p IH|]; simpl; by rewrite ?IH. Qed.

Definition in_time (now : Z) (claims : gmap string ClaimValue) : bool :=
  match claims !! "exp" with Some (CNumber e) => bool_decide (now < e)%Z | _ => true end
  && match claims !! "iat" with Some (CNumber i) => i <=b now | _ => true end.

(** A signature is an encoding of the claims, a hash the password marked. *)
Definition demo_auth : AuthEnv := {|
  ae_GenerateFromPassword := λ _ p, Ok ("hash of " +:+ p);
  ae_CompareHashAndPassword := λ h p, h =b ("hash of " +:+ p);
  ae_crypt := λ p _, "crypt of " +:+ p;
  ae_gen_salt := λ n, pretty n;
  ae_id := λ n, pretty n;
  ae_uuid := λ n, pretty n;
  ae_SignedString := λ claims, Ok (bits (encode (claims : gmap string ClaimValue)));
  ae_Parse := λ now token,
    match decode (unbits token) : option (gmap string ClaimValue) with
    | Some claims => if in_time now claims then Some claims else None
    | None => None
    end
|}.

#[global] Instance demo_auth_laws : AuthLaws demo_auth.
Proof.
  split; [apply _|apply _|..]; simpl.
  - intros claims token now claims' [= <-]. rewrite unbits_bits, decode_encode.
    by destruct (in_time now claims); intros [= ->].
  - intros now token claims e. destruct (decode (unbits token)) as [c|]; [|done].
    destruct (in_time now c) eqn:E; [|done]. intros [= ->] He. unfold in_time in E. rewrite He in E.
    apply andb_true_iff in E as [E _]. by apply bool_decide_eq_true in E.
Qed.

#[global] Instance demo_auth_works : AuthWorks demo_auth.
Proof.
  split; simpl; [|done|eauto|].
  - intros n p _. eexists. split; [done|]. by apply bool_decide_eq_true.
  - intros claims token now i e [= <-] Hi He Hnow. rewrite unbits_bits, decode_encode.
    unfold in_time. rewrite Hi, He, !bool_decide_true by lia. done.
Qed.

(** The server starts, an editor is added and logs in, is seen, logs out, and is
    seen no more; the database then fails. *)
Definition demo_token (b : Backend) : string :=
  match (serve (manager b demo_auth)
    [mkInput 0 0 [] KInitialise; mkInput 1 0 [] (KCreate (mkCreateAccountReq "ada" "lovelace1" "editor"));
     mkInput 2 0 [] (KLogin (mkCredentials "ada" "lovelace1"))] empty_auth).1 !! 2 with
  | Some (_, _, Ok (APair token _)) => token
  | _ => ""
  end.

Definition demo_inputs (b : Backend) : list Input :=
  [mkInput 0 0 [] KInitialise; mkInput 1 0 [] (KCreate (mkCreateAccountReq "ada" "lovelace1" "editor"));
   mkInput 2 0 [] (KLogin (mkCredentials "ada" "lovelace1")); mkInput 60 0 [] (KIsValid (demo_token b));
   mkInput 61 0 [] (KRevoke (demo_token b)); mkInput 62 0 [] (KIsValid (demo_token b));
   mkInput 63 0 [true] (KPages 10)].

(** C17: Both managers of accounts implement the session table: whatever calls
    come, at whatever times and in whatever zones, and whichever of their
    statements fail, every answer is one that the table gives at that point -
    the users, their roles and their number, who may log in, what a token stands
    for and until when - and a failed call changes nothing. *)
Theorem auth_managers_refine (env : AuthEnv) (Hlaws : AuthLaws env) (b : Backend)
    (inputs : list Input) :
  ∃ st, spec_trace (passwords b env) initial (serve (manager b env) inputs empty_auth).1 st.
Proof.
  destruct (serve_refines env b inputs empty_auth initial (refines_empty env)) as (st & H & _).
  by exists st.
Qed.

Lemma auth_managers_refine_witness :
  (∃ st, spec_trace (passwords SQLite demo_auth) initial
    (serve (manager SQLite demo_auth) (demo_inputs SQLite) empty_auth).1 st) ∧
  snd <$> (serve (manager SQLite demo_auth) (demo_inputs SQLite) empty_auth).1
  = [Ok ADone; Ok ADone; Ok (APair (demo_token SQLite) "editor"); Ok (APair "ada" "editor"); Ok ADone;
     Err (EErrorf "token has been revoked"); Err EDriver].
Proof.
  split; [|vm_compute; reflexivity].
  apply (auth_managers_refine demo_auth demo_auth_laws SQLite (demo_inputs SQLite)).
Defined.

(** C7: A token is accepted, as a user with a role, only when that user logged
    in with it in that role less than a day before, and has not logged out nor
    been deleted since. *)
Theorem accepted_token_was_issued (env : AuthEnv) (Hlaws : AuthLaws env) (b : Backend)
    (inputs : list Input) tr now token user role tr'
    (Htr : (serve (manager b env) inputs empty_auth).1
           = tr ++ (now, KIsValid token, Ok (APair user role)) :: tr') :
  ∃ before start c after,
    tr = before ++ (start, KLogin c, Ok (APair token role)) :: after ∧
    cr_Username c = user ∧ (now < start + sessionTTL)%Z ∧
    ∀ x, x ∈ after → ¬ ends token user x.
Proof.
  destruct (serve_refines env b inputs empty_auth initial (refines_empty env)) as (st & H & _).
  rewrite Htr, cons_middle, app_assoc in H.
  apply trace_prefix in H as (st1 & H & _).
  apply trace_last in H as (st0 & H & Hs).
  inversion Hs as [| | | | |? se Hse Hlt| | | | |]; subst.
  destruct (trace_opened _ _ _ _ _ H Hse) as (before & c & after & -> & Hu & Hafter).
  by exists before, (se_start se), c, after.
Qed.

Lemma accepted_token_was_issued_witness :
  ∃ before start c after,
    take 3 (serve (manager PostgreSQL demo_auth) (demo_inputs PostgreSQL) empty_auth).1
    = before ++ (start, KLogin c, Ok (APair (demo_token PostgreSQL) "editor")) :: after ∧
    cr_Username c = "ada" ∧ (60 < start + sessionTTL)%Z ∧
    ∀ x, x ∈ after → ¬ ends (demo_token PostgreSQL) "ada" x.
Proof.
  apply (accepted_token_was_issued demo_auth demo_auth_laws PostgreSQL (demo_inputs PostgreSQL)
    _ 60 (demo_token PostgreSQL) "ada" "editor"
    (drop 4 (serve (manager PostgreSQL demo_auth) (demo_inputs PostgreSQL) empty_auth).1)).
  vm_compute. reflexivity.
Defined.

(** An account can be used: once it is created with a password, logging in
    with the password answers its role and a token, which is accepted as that
    user in that role for a day, or on SQLite until the stored local time has
    passed by UTC. *)
Theorem session_roundtrip (env : AuthEnv) (Hlaws : AuthLaws env) (Hworks : AuthWorks env)
    (b : Backend) (inputs : list Input) (u p role : string) (t1 z1 t2 z2 : Z)
    (Hu : u ∉ ac_username <$> as_accounts (serve (manager b env) inputs empty_auth).2)
    (Hp : String.length p <= 72) :
  ∃ token, ∀ t3 z3, (t2 <= t3 < t2 + sessionTTL)%Z → (t3 < session_end b t2 z2)%Z →
    let calls := [KCreate (mkCreateAccountReq u p role); KLogin (mkCredentials u p); KIsValid token] in
    (serve (manager b env)
       (zip_with (λ tz c, mkInput tz.1 tz.2 [] c) [(t1, z1); (t2, z2); (t3, z3)] calls)
       (serve (manager b env) inputs empty_auth).2).1
    = zip (zip [t1; t2; t3] calls) [Ok ADone; Ok (APair token role); Ok (APair u role)].
Proof.
  destruct (serve_refines env b inputs empty_auth initial (refines_empty env)) as (st & _ & H).
  set (s := (serve (manager b env) inputs empty_auth).2) in *.
  destruct (create_healthy env b (as_accounts s) (as_tokens s) t1 z1 (as_random s) u p role Hu Hp)
    as (row & n & Hopen & <- & <- & Hcreate).
  destruct (serve1_refines env b (mkInput t1 z1 [] (KCreate (mkCreateAccountReq (ac_username row) p (ac_role row))))
    s st H) as (st1 & _ & _ & H1).
  unfold serve1, at_input in H1. simpl in H1. simpl in Hcreate. rewrite Hcreate in H1. simpl in H1.
  destruct (works_sign (login_claims (ac_id row) (ae_uuid env n) (ac_role row) t2)) as [token Hs].
  pose proof (token_fresh env _ _ _ _ _ _ H1 Hs) as Hfresh. simpl in Hfresh.
  assert (Hrow : row ∈ as_accounts s ++ [row]) by (apply elem_of_app; right; by apply list_elem_of_singleton).
  exists token. intros t3 z3 Ht3 Hend. simpl. unfold serve1, at_input. simpl.
  rewrite Hcreate. simpl.
  pose proof (login_healthy env b (as_accounts s ++ [row]) (as_tokens s) t2 z2 n p row token
    (rf_usernames _ _ _ H1) Hrow Hopen Hs Hfresh) as Hlogin. simpl in Hlogin. rewrite Hlogin. simpl.
  pose proof (valid_healthy env b (as_accounts s ++ [row]) (as_tokens s) row token t2 (session_end b t2 z2)
    t3 z3 n (rf_ids _ _ _ H1) Hrow (rf_tokens _ _ _ H1) Hfresh Hs Ht3 Hend) as Hvalid.
  simpl in Hvalid. match type of Hvalid with (?e).1 = _ => destruct e as [r s3] end.
  simpl in *. by rewrite Hvalid.
Qed.

Lemma session_roundtrip_witness :
  ∃ token, ∀ t3 z3, (2 <= t3 < 2 + sessionTTL)%Z → (t3 < session_end SQLite 2 3600)%Z →
    let calls := [KCreate (mkCreateAccountReq "ada" "lovelace1" "editor");
                  KLogin (mkCredentials "ada" "lovelace1"); KIsValid token] in
    (serve (manager SQLite demo_auth)
       (zip_with (λ tz c, mkInput tz.1 tz.2 [] c) [(1, 0); (2, 3600); (t3, z3)]%Z calls)
       (serve (manager SQLite demo_auth) [mkInput 0 0 [] KInitialise] empty_auth).2).1
    = zip (zip [1; 2; t3]%Z calls) [Ok ADone; Ok (APair token "editor"); Ok (APair "ada" "editor")].
Proof.
  apply (session_roundtrip demo_auth demo_auth_laws demo_auth_works SQLite [mkInput 0 0 [] KInitialise]
    "ada" "lovelace1" "editor" 1 0 2 3600).
  - vm_compute. intros H. apply list_elem_of_singleton in H. discriminate.
  - vm_compute. lia.
Defined.
