(* ===== verification/GoText.v ===== *)
(** * Text functions of the server (Go's strings and strconv)

    [strings.Split] at a single character, prefixes and suffixes, the numbers
    of pages that several queries compute, and the lemmas they need. *)

From S2P Require Import Prelude Kube.
Local Open Scope kontroler_scope.

(** [strings.Split(s, sep)] for a separator of one character. *)
Fixpoint split (sep : Ascii.ascii) (s : string) : list string :=
  match s with
  | EmptyString => [""]
  | String c rest =>
      if Ascii.eqb c sep then "" :: split sep rest
      else match split sep rest with
           | w :: ws => String c w :: ws
           | [] => [String c ""]
           end
  end.

Definition comma : Ascii.ascii := Eval cbv in Ascii.ascii_of_nat 44.
Definition hyphen : Ascii.ascii := Eval cbv in Ascii.ascii_of_nat 45.

(** [strings.TrimPrefix]. *)
Definition TrimPrefix (p s : string) : string :=
  if String.prefix p s then String.substring (String.length p) (String.length s) s else s.

(** [strings.HasSuffix]. *)
Definition HasSuffix (s suffix : string) : bool :=
  bool_decide (String.length suffix <= String.length s)
  && (String.substring (String.length s - String.length suffix) (String.length suffix) s =b suffix).

(** A page more when the division leaves a rest; a limit of zero panics. *)
Definition pages (count limit : Z) : result Z :=
  if limit =b 0%Z then Err (EErrorf "runtime error: integer divide by zero")
  else Ok (Z.quot count limit + (if bool_decide (0 < Z.rem count limit)%Z then 1 else 0))%Z.

(** ** Lemmas *)

Lemma string_app_assoc (a b c : string) : a +:+ (b +:+ c) = (a +:+ b) +:+ c.
Proof.
  induction a as [|x a IH]; [done|].
  change (String x (a +:+ (b +:+ c)) = String x ((a +:+ b) +:+ c)). by rewrite IH.
Qed.

Fixpoint free_of (sep : Ascii.ascii) (s : string) : bool :=
  match s with
  | EmptyString => true
  | String c rest => negb (Ascii.eqb c sep) && free_of sep rest
  end.

Lemma split_free sep s : free_of sep s = true → split sep s = [s].
Proof.
  induction s as [|c s IH]; simpl; [done|]. intros [Hc Hs]%andb_true_iff.
  apply negb_true_iff in Hc. by rewrite Hc, IH.
Qed.

Lemma split_app sep s t :
  free_of sep s = true → split sep (s +:+ String sep t) = s :: split sep t.
Proof.
  induction s as [|c s IH]; simpl; [intros _; by rewrite Ascii.eqb_refl|].
  intros [Hc Hs]%andb_true_iff. apply negb_true_iff in Hc.
  by rewrite Hc, IH.
Qed.

(** *** Splitting what was joined *)

Lemma join_cons sep x y l : join sep (x :: y :: l) = x +:+ sep +:+ join sep (y :: l).
Proof.
  unfold join. simpl. generalize y. clear y.
  assert (H : ∀ a b, foldl (λ acc z, acc +:+ sep +:+ z) (a +:+ b) l
                   = a +:+ foldl (λ acc z, acc +:+ sep +:+ z) b l).
  { induction l as [|z l IH]; intros a b; simpl; [done|]. by rewrite <- IH, !string_app_assoc. }
  intros y. by rewrite !H.
Qed.

Lemma split_join (sep : Ascii.ascii) (l : list string) :
  l ≠ [] → (∀ w, w ∈ l → free_of sep w = true) → split sep (join (String sep "") l) = l.
Proof.
  intros Hl Hf. induction l as [|x l IH]; [done|]. destruct l as [|y l].
  - apply split_free, Hf. by left.
  - rewrite join_cons.
    change (String sep "" +:+ join (String sep "") (y :: l))
      with (String sep (join (String sep "") (y :: l))).
    rewrite split_app by (apply Hf; by left). f_equal. apply IH; [done|]. intros w Hw. apply Hf. by right.
Qed.

Lemma free_of_app sep s t : free_of sep (s +:+ t) = free_of sep s && free_of sep t.
Proof.
  induction s as [|c s IH]; [done|].
  change (String c s +:+ t) with (String c (s +:+ t)). simpl. by rewrite IH, andb_assoc.
Qed.

Lemma substring_end (s t : string) :
  String.substring (String.length s) (String.length t) (s +:+ t) = t.
Proof.
  induction s as [|c s IH]; [|exact IH]. change ("" +:+ t) with t. simpl.
  induction t as [|c t IH]; [done|]. simpl. by rewrite IH.
Qed.

Lemma HasSuffix_app s t : HasSuffix (s +:+ t) t = true.
Proof.
  unfold HasSuffix. rewrite string_length_app. rewrite bool_decide_true by lia.
  replace (String.length s + String.length t - String.length t) with (String.length s) by lia.
  rewrite substring_end. by apply bool_decide_eq_true.
Qed.

Lemma pages_bounds count limit :
  (0 <= count)%Z → (0 < limit)%Z →
  ∃ n, pages count limit = Ok n ∧ ((n - 1) * limit < count <= n * limit)%Z ∧ (0 <= n)%Z.
Proof.
  intros Hc Hl. unfold pages. rewrite bool_decide_false by lia. eexists. split; [done|].
  rewrite Z.rem_mod_nonneg, Z.quot_div_nonneg by lia.
  pose proof (Z.div_mod count limit). pose proof (Z.mod_pos_bound count limit Hl).
  pose proof (Z.div_pos count limit). case_bool_decide; nia.
Qed.

(** *** Numerals have no separators *)

Lemma free_of_digit (x : N) (sep : Ascii.ascii) :
  digit_of sep = None → (x < 10)%N → Ascii.eqb (pretty_N_char x) sep = false.
Proof.
  intros Hs Hx. apply Ascii.eqb_neq. intros <-. by rewrite (digit_of_pretty x Hx) in Hs.
Qed.

Lemma free_of_pretty_go (x : N) sep s :
  digit_of sep = None → free_of sep s = true → free_of sep (pretty_N_go x s) = true.
Proof.
  intros Hsep. revert s. induction (N.lt_wf_0 x) as [x _ IH]; intros s Hs.
  destruct (decide (x = 0)%N) as [->|Hx]; [by rewrite pretty_N_go_0|].
  rewrite pretty_N_go_step by lia. apply IH; [apply N.div_lt; lia|]. simpl.
  rewrite free_of_digit, Hs; [done..|]. apply N.mod_lt. lia.
Qed.

Lemma free_of_pretty (x : N) sep : digit_of sep = None → free_of sep (pretty x) = true.
Proof.
  intros Hsep. unfold pretty, pretty_N. case_decide as Hx.
  - change (negb (Ascii.eqb (pretty_N_char 0) sep) && true = true).
    by rewrite (free_of_digit 0 sep Hsep).
  - by apply free_of_pretty_go.
Qed.

Lemma free_of_Itoa (n : Z) sep :
  digit_of sep = None → sep ≠ hyphen → free_of sep (Itoa n) = true.
Proof.
  intros Hsep Hh. unfold Itoa. destruct n as [|p|p].
  - by apply (free_of_pretty 0).
  - by apply (free_of_pretty (Npos p)).
  - change (pretty (Zneg p)) with (String hyphen (pretty (Npos p))). cbn [free_of].
    rewrite (free_of_pretty (Npos p)) by done. rewrite andb_true_r, negb_true_iff.
    apply Ascii.eqb_neq. congruence.
Qed.
