(* ===== verification/ServerDb.v ===== *)
(** * The queries of the server (internal/server/db)

    What the REST server reads of the database: the interface [DbManager] of
    dbManager.go and its SQLite implementation (sqlite.go), over the tables of
    [Store].  The statements of the two backends are the same unless their
    implementation says otherwise; what a statement selects is a function of the
    tables here.  [LIKE] and the text of a stored pod template are parameters. *)

From S2P Require Import Prelude Api Store SqliteDag SqliteRun Kube GoText.
Local Open Scope kontroler_scope.

(** ** Data *)

Record DBDAGMetaData := mkDBDAGMetaData {
  dm_DagId : Z;
  dm_Name : string;
  dm_Namespace : string;
  dm_Schedule : option string;
  dm_Version : Z;
  dm_Active : bool;
  dm_NextTime : option Z;
  dm_IsSuspended : bool;
  dm_Connections : gmap Z (list Z)
}.

Record DBTaskInfo := mkDBTaskInfo { ti_Status : string; ti_Name : string }.

Record DBDagRunMeta := mkDBDagRunMeta {
  rm_Id : Z;
  rm_DagId : string;
  rm_Status : string;
  rm_SuccessfulCount : Z;
  rm_FailedCount : Z;
  rm_Namespace : string;
  rm_Name : string
}.

Record DBDagRun := mkDBDagRun {
  dr_Connections : gmap Z (list Z);
  dr_TaskInfo : gmap Z DBTaskInfo
}.

Record DBDagRunAll := mkDBDagRunAll {
  ra_Id : Z;
  ra_DagId : Z;
  ra_Status : string;
  ra_SuccessfulCount : Z;
  ra_FailedCount : Z;
  ra_Connections : gmap Z (list Z);
  ra_TaskInfo : gmap Z DBTaskInfo
}.

Record DBTaskPod := mkDBTaskPod {
  tp_PodUID : string;
  tp_ExitCode : option Z;
  tp_Name : string;
  tp_Status : string;
  tp_Duration : option Z
}.

Record DBTaskRunDetails := mkDBTaskRunDetails {
  td_Id : Z;
  td_Status : string;
  td_Attempts : Z;
  td_Pods : list DBTaskPod
}.

Record DBParameter := mkDBParameter {
  dbp_ID : Z;
  dbp_Name : string;
  dbp_IsSecret : bool;
  dbp_DefaultValue : string
}.

(** [DBTaskDetails] and [DBDagTaskDetails] differ in their parameters. *)
Record DBTaskDetails (P : Type) := mkDBTaskDetails {
  tkd_ID : Z;
  tkd_Name : string;
  tkd_Command : list string;
  tkd_Args : list string;
  tkd_Image : string;
  tkd_Parameters : list P;
  tkd_BackOffLimit : Z;
  tkd_IsConditional : bool;
  tkd_PodTemplate : string;
  tkd_RetryCodes : list Z;
  tkd_Script : string
}.
Arguments mkDBTaskDetails {P}.
Arguments tkd_ID {P}.
Arguments tkd_Parameters {P}.

Record DBDailyDagRunCount := mkDBDailyDagRunCount {
  dc_Day : Z;
  dc_SuccessfulCount : Z;
  dc_FailedCount : Z
}.

Record DBDashboardStats := mkDBDashboardStats {
  ds_DAGCount : Z;
  ds_SuccessfulDagRuns : Z;
  ds_FailedDagRuns : Z;
  ds_TotalDagRuns : Z;
  ds_ActiveDagRuns : Z;
  ds_DAGTypeCounts : gmap string Z;
  ds_TaskOutcomes : gmap string Z;
  ds_DailyDagRunCounts : list DBDailyDagRunCount
}.

(** ** The interface *)

Class DbManager (S : Type) := {
  sdb_GetAllDagMetaData (limit offset : Z) : M S (list DBDAGMetaData);
  sdb_GetDagRuns (limit offset : Z) : M S (list DBDagRunMeta);
  sdb_GetDagRun (dagRunId : Z) : M S DBDagRun;
  sdb_GetDagRunAll (dagRunId : Z) : M S DBDagRunAll;
  sdb_GetTaskDetails (taskId : Z) : M S (DBTaskDetails DBParameter);
  sdb_GetTaskRunDetails (dagRunId taskId : Z) : M S DBTaskRunDetails;
  sdb_GetDashboardStats : M S DBDashboardStats;
  sdb_GetDagRunPageCount (limit : Z) : M S Z;
  sdb_GetDagPageCount (limit : Z) : M S Z;
  sdb_GetDagNames (term : string) (limit : Z) : M S (list string);
  sdb_GetDagParameters (dagName : string) : M S (list DBParameter);
  sdb_GetIsSecrets (dagName : string) (parameterNames : list string) : M S (gmap string bool);
  sdb_GetDagTasks (limit offset : Z) : M S (list (DBTaskDetails string));
  sdb_GetDagTaskPageCount (limit : Z) : M S Z;
  sdb_PodExists (podUID : string) : M S bool;
  sdb_GetPodNameAndNamespace (podUID : string) : M S (string * string)
}.

(** ** What the statements select *)

Module Queries.
Import DagDb RunDb.

Definition active_dags (t : Tables) : list DagRow :=
  order_desc d_dag_id (where_ d_active (tb_DAGs t)).

(** The rows of a DAG's tasks joined with their dependencies; a task without any
    has a NULL. *)
Definition connection_rows (dagId : Z) (t : Tables) : list (Z * option Z) :=
  flat_map (λ k, flat_map (λ dt,
    if (tk_task_id k =b dt_task_id dt) && (dt_dag_id dt =b dagId)
    then match where_ (λ d, dt_dag_task_id dt =b dep_task_id d) (tb_Dependencies t) with
         | [] => [(dt_dag_task_id dt, None)]
         | ds => (λ d, (dt_dag_task_id dt, Some (dep_depends_on d))) <$> ds
         end
    else []) (tb_DAG_Tasks t)) (tb_Tasks t).

(** [GROUP BY dag_task_id], with the dependencies that are not NULL. *)
Definition connection_groups (dagId : Z) (t : Tables) : list (Z * list Z) :=
  let rows := connection_rows dagId t in
  (λ id, (id, omap snd (where_ (λ r : Z * option Z, r.1 =b id) rows))) <$> dedup (fst <$> rows).

(** The tasks of a DAG with their status in a run. *)
Definition task_info_rows (dagRunId dagId : Z) (t : Tables) : list (Z * DBTaskInfo) :=
  flat_map (λ d, flat_map (λ k,
    if (dt_task_id d =b tk_task_id k) && (dt_dag_id d =b dagId)
    then
      match where_ (λ r, (trn_task_id r =b dt_dag_task_id d) && (trn_run_id r =b dagRunId))
              (tb_Task_Runs t) with
      | [] => [(dt_dag_task_id d, mkDBTaskInfo "pending" (dt_name d))]
      | rs => (λ r, (dt_dag_task_id d, mkDBTaskInfo (trn_status r) (dt_name d))) <$> rs
      end
    else []) (tb_Tasks t)) (tb_DAG_Tasks t).

(** [taskInfo[taskId] = task] row by row. *)
Definition task_info (rows : list (Z * DBTaskInfo)) : gmap Z DBTaskInfo :=
  foldl (λ m row, <[row.1 := row.2]> m) ∅ rows.

Definition run_meta (r : RunRow) (d : DagRow) : DBDagRunMeta :=
  mkDBDagRunMeta (r_run_id r) (Itoa (d_dag_id d)) (r_status r) (r_successfulCount r)
    (r_failedCount r) (d_namespace d) (r_name r).

(** [ORDER BY run_id DESC]. *)
Definition run_metas (t : Tables) : list DBDagRunMeta :=
  order_desc rm_Id (flat_map (λ r, flat_map (λ d,
    if r_dag_id r =b d_dag_id d then [run_meta r d] else []) (tb_DAGs t)) (tb_DAG_Runs t)).

Definition db_parameter (p : DagParameterRow) : DBParameter :=
  mkDBParameter (dpr_parameter_id p) (dpr_name p) (dpr_isSecret p) (dpr_defaultValue p).

(** The parameters of the latest version of the DAGs of a name. *)
Definition latest_parameters (dagName : string) (t : Tables) : list DagParameterRow :=
  where_ (λ p, bool_decide (dpr_dag_id p ∈ d_dag_id <$> option_list (latest_by_name dagName t)))
    (tb_DAG_Parameters t).

(** *** The dashboard *)

Definition thirty_days : Z := 30 * 24 * 60 * 60.
Definition seconds_per_day : Z := 24 * 60 * 60.

Definition recent (now time : Z) : bool := (now - thirty_days <=b time)%Z.

Definition dag_type (d : DagRow) : string := if d_schedule d =b "" then "Event Driven" else "Scheduled".

(** [SELECT type, COUNT( * ) GROUP BY type]. *)
Definition dag_type_counts (t : Tables) : gmap string Z :=
  foldl (λ m d, <[dag_type d := (default 0 (m !! dag_type d) + 1)%Z]> m) ∅ (tb_DAGs t).

(** The task runs whose latest pod report is recent. *)
Definition recent_task_runs (now : Z) (t : Tables) : list TaskRunRow :=
  where_ (λ tr, match first_max pod_updated_at
                        (where_ (λ p, pod_task_run_id p =b trn_task_run_id tr) (tb_Task_Pods t)) with
                | Some p => recent now (pod_updated_at p)
                | None => false
                end) (tb_Task_Runs t).

Definition count_status (status : string) (rows : list TaskRunRow) : Z :=
  count_where (λ tr, trn_status tr =b status) rows.

(** The days, oldest first, with the runs that ended well or badly. *)
Definition run_day (r : RunRow) : Z := r_run_time r / seconds_per_day.

Definition daily_counts (now : Z) (t : Tables) : list DBDailyDagRunCount :=
  let rows := where_ (λ r, recent now (r_run_time r)) (tb_DAG_Runs t) in
  (λ day, mkDBDailyDagRunCount day
     (count_where (λ r, (run_day r =b day) && (r_status r =b "success")) rows)
     (count_where (λ r, (run_day r =b day) && (r_status r =b "failed")) rows))
  <$> order_desc Z.opp (dedup (run_day <$> rows)).

Definition recent_status (status : string) (now : Z) (t : Tables) : Z :=
  count_where (λ r, (r_status r =b status) && recent now (r_run_time r)) (tb_DAG_Runs t).

(** [10 * 365 * 24 * 3600]: what is longer is not shown. *)
Definition maxDurationSec : Z := 10 * 365 * 24 * 3600.

Definition shown_duration (duration : option Z) : option Z :=
  match duration with
  | Some d => if bool_decide (d < 0)%Z || bool_decide (maxDurationSec < d)%Z then None else Some d
  | None => None
  end.

Definition task_pod (p : PodRow) : DBTaskPod :=
  mkDBTaskPod (pod_Pod_UID p) (pod_exitCode p) (pod_name p) (pod_status p)
    (shown_duration (pod_duration p)).

Definition reusable_tasks (t : Tables) : list TaskRow := where_ (λ k, negb (tk_inline k)) (tb_Tasks t).

(** *** Statements that both backends send *)

Section queries.
Context (like : string → string → bool).

Definition GetDagRuns_rows (limit offset : Z) : M Store (list DBDagRunMeta) :=
  query (λ t, limit_offset limit offset (run_metas t)).

Definition GetTaskRunDetails (dagRunId taskId : Z) : M Store DBTaskRunDetails :=
  task ← query_row (λ t, where_ (λ r, (trn_run_id r =b dagRunId) && (trn_task_id r =b taskId))
                           (tb_Task_Runs t));
  pods ← query (λ t, where_ (λ p, pod_task_run_id p =b trn_task_run_id task) (tb_Task_Pods t));
  mret (mkDBTaskRunDetails (trn_task_run_id task) (trn_status task) (trn_attempts task)
          (task_pod <$> pods)).

Definition GetDagRunPageCount (limit : Z) : M Store Z :=
  count ← query (λ t, Z.of_nat (length (tb_DAG_Runs t)));
  lift (pages count limit).

Definition GetDagNames_rows (term : string) (t : Tables) : list string :=
  where_ (like ("%" +:+ term +:+ "%")) (d_name <$> tb_DAGs t).

Definition GetDagParameters (dagName : string) : M Store (list DBParameter) :=
  query (λ t, db_parameter <$> latest_parameters dagName t).

Definition missing_parameter (name : string) : GoError :=
  EErrorf ("parameter '" +:+ name +:+ "' does not exist").

(** The check that every name that was asked for was found. *)
Definition check_secrets (parameterNames : list string) (results : gmap string bool)
    : M Store (gmap string bool) :=
  match where_ (λ name, results !! name =b None) parameterNames with
  | name :: _ => throw (missing_parameter name)
  | [] => mret results
  end.

Definition secret_map (rows : list DagParameterRow) : gmap string bool :=
  foldl (λ m p, <[dpr_name p := dpr_isSecret p]> m) ∅ rows.

Definition GetDagTaskPageCount (limit : Z) : M Store Z :=
  if limit <=b 0 then throw (EErrorf "limit must be greater than zero")
  else
    count ← query (λ t, Z.of_nat (length (reusable_tasks t)));
    lift (pages count limit).

Definition PodExists (podUID : string) : M Store bool :=
  query (λ t, existsb (λ p, pod_Pod_UID p =b podUID) (tb_Task_Pods t)).

Definition GetPodNameAndNamespace (podUID : string) : M Store (string * string) :=
  query_row (λ t, (λ p, (pod_namespace p, pod_name p)) <$>
    where_ (λ p, pod_Pod_UID p =b podUID) (tb_Task_Pods t)).

End queries.

(** A task as the details show it. *)
Definition details {P} (template_text : PodTemplateSpec → string) (k : TaskRow) (name : string)
    (parameters : list P) : DBTaskDetails P :=
  mkDBTaskDetails (tk_task_id k) name (tk_command k) (tk_args k) (tk_image k) parameters
    (tk_backoffLimit k) (tk_isConditional k)
    (match tk_podTemplate k with Some pt => template_text pt | None => "" end)
    (tk_retryCodes k) (tk_script k).

(** The task of a DAG task. *)
Definition details_rows (taskId : Z) (t : Tables) : list (TaskRow * string) :=
  flat_map (λ k, flat_map (λ dat,
    if (dt_task_id dat =b tk_task_id k) && (dt_dag_task_id dat =b taskId)
    then [(k, dt_name dat)] else []) (tb_DAG_Tasks t)) (tb_Tasks t).

End Queries.

(** ** SQLite (sqlite.go) *)

Module ServerSqlite.
Import DagDb RunDb Queries.

Section operations.
Context (like : string → string → bool) (template_text : PodTemplateSpec → string).

(** One element of the comma-separated text. *)
Definition parse_dep (taskId : Z) (dep : string) : M Store Z :=
  match Atoi dep with
  | Ok n => mret n
  | Err e => throw (EWrap ("failed to parse dependency '" +:+ dep +:+ "' for task " +:+ Itoa taskId) e)
  end.

(** [GROUP_CONCAT] yields a text, which is split and parsed again. *)
Definition getDagConnections (dagId : Z) : M Store (gmap Z (list Z)) :=
  rows ← query (λ t, (λ g : Z * list Z, (g.1, join "," (Itoa <$> g.2))) <$> connection_groups dagId t);
  connections ← mapMM (λ row : Z * string,
    if row.2 =b "" then mret (row.1, [])
    else deps ← mapMM (parse_dep row.1) (split comma row.2); mret (row.1, deps)) rows;
  mret (foldl (λ m c, <[c.1 := c.2]> m) ∅ connections).

Definition GetAllDagMetaData (limit offset : Z) : M Store (list DBDAGMetaData) :=
  rows ← query (λ t, limit_offset limit offset (active_dags t));
  mapMM (λ d,
    connections ← getDagConnections (d_dag_id d);
    mret (mkDBDAGMetaData (d_dag_id d) (d_name d) (d_namespace d) (Some (d_schedule d)) (d_version d)
            (d_active d) (d_nexttime d) (d_suspended d) connections)) rows.

(** A task of the connections that the second query did not give is pending. *)
Definition fill_pending (connections : gmap Z (list Z)) (info : gmap Z DBTaskInfo)
    : gmap Z DBTaskInfo :=
  info ∪ ((λ _, mkDBTaskInfo "pending" "") <$> connections).

Definition GetDagRun (dagRunId : Z) : M Store DBDagRun :=
  stmt ≫= λ _,
  dagId ← query_row (λ t, r_dag_id <$> where_ (is_run dagRunId) (tb_DAG_Runs t));
  connections ← getDagConnections dagId;
  rows ← query (task_info_rows dagRunId dagId);
  mret (mkDBDagRun connections (fill_pending connections (task_info rows))).

Definition GetDagRuns (limit offset : Z) : M Store (list DBDagRunMeta) := GetDagRuns_rows limit offset.

Definition GetDagRunAll (dagRunId : Z) : M Store DBDagRunAll :=
  run ← query_row (λ t, where_ (is_run dagRunId) (tb_DAG_Runs t));
  connections ← getDagConnections (r_dag_id run);
  rows ← query (task_info_rows dagRunId (r_dag_id run));
  mret (mkDBDagRunAll dagRunId (r_dag_id run) (r_status run) (r_successfulCount run)
          (r_failedCount run) connections (task_info rows)).

Definition GetDagNames (term : string) (limit : Z) : M Store (list string) :=
  query (λ t, limit_offset limit 0 (GetDagNames_rows like term t)).

(** [(count + limit - 1) / limit]; every version of a DAG is counted. *)
Definition GetDagPageCount (limit : Z) : M Store Z :=
  count ← query (λ t, Z.of_nat (length (tb_DAGs t)));
  if limit =b 0%Z then throw (EErrorf "runtime error: integer divide by zero")
  else mret (Z.quot (count + limit - 1) limit).

(** The five queries run whether or not one fails; an error of any is returned,
    here that of the first. *)
Definition first_error (results : list (result unit)) : option GoError :=
  head (omap (λ r, match r with Err e => Some e | Ok _ => None end) results).

Definition failed_query {A} (name : string) (r : result A) : result unit :=
  match r with Ok _ => Ok tt | Err e => Err (EWrap ("failed to execute " +:+ name) e) end.

Definition value {A} (dflt : A) (r : result A) : A := match r with Ok a => a | Err _ => dflt end.

Definition GetDashboardStats : M Store DBDashboardStats :=
  now ← gets st_now;
  dags ← try (query (λ t, count_where d_active (tb_DAGs t)));
  runs ← try (query (λ t, (recent_status "success" now t, recent_status "failed" now t,
                           count_where (λ r, recent now (r_run_time r)) (tb_DAG_Runs t),
                           count_where (λ r, r_status r =b "running") (tb_DAG_Runs t))));
  outcomes ← try (query (λ t, (count_status "success" (recent_task_runs now t),
                               count_status "failed" (recent_task_runs now t))));
  types ← try (query dag_type_counts);
  daily ← try (query (daily_counts now));
  match first_error [failed_query "dagCountsQuery" dags; failed_query "dagRunsQuery" runs;
                     failed_query "taskOutcomesQuery" outcomes; failed_query "dagTypeCountsQuery" types;
                     failed_query "dailyDagRunCountsQuery" daily] with
  | Some e => throw e
  | None =>
      let '(successful, failed, total, active) := value (0, 0, 0, 0)%Z runs in
      let '(completed, failedTasks) := value (0, 0)%Z outcomes in
      mret (mkDBDashboardStats (value 0%Z dags) successful failed total active (value ∅ types)
              (<["Completed" := completed]> (<["Failed" := failedTasks]> ∅)) (value [] daily))
  end.

Definition GetIsSecrets (dagName : string) (parameterNames : list string) : M Store (gmap string bool) :=
  rows ← query (λ t, where_ (λ p, bool_decide (dpr_name p ∈ parameterNames)) (latest_parameters dagName t));
  check_secrets parameterNames (secret_map rows).

(** The parameters of the first DAG that uses the task. *)
Definition GetTaskDetails (taskId : Z) : M Store (DBTaskDetails DBParameter) :=
  row ← wrap_err "failed to query task details" (query_row (details_rows taskId));
  let '(k, name) := row in
  params ← wrap_err "failed to query parameters" (query (λ t, where_ (λ p,
    bool_decide (Some (dpr_dag_id p) =
      (dt_dag_id <$> head (where_ (λ dt, dt_task_id dt =b tk_task_id k) (tb_DAG_Tasks t))))
    && bool_decide (dpr_name p ∈ tk_parameters k)) (tb_DAG_Parameters t)));
  mret (details template_text k name (db_parameter <$> params)).

Definition GetDagTasks (limit offset : Z) : M Store (list (DBTaskDetails string)) :=
  rows ← wrap_err "failed to query task details in GetDagTasks"
    (query (λ t, limit_offset limit offset (reusable_tasks t)));
  mret ((λ k, details template_text k (tk_name k) (tk_parameters k)) <$> rows).

End operations.
End ServerSqlite.

Definition ServerSqliteManager (like : string → string → bool)
    (template_text : PodTemplateSpec → string) : DbManager Store := {|
  sdb_GetAllDagMetaData := ServerSqlite.GetAllDagMetaData;
  sdb_GetDagRuns := ServerSqlite.GetDagRuns;
  sdb_GetDagRun := ServerSqlite.GetDagRun;
  sdb_GetDagRunAll := ServerSqlite.GetDagRunAll;
  sdb_GetTaskDetails := ServerSqlite.GetTaskDetails template_text;
  sdb_GetTaskRunDetails := Queries.GetTaskRunDetails;
  sdb_GetDashboardStats := ServerSqlite.GetDashboardStats;
  sdb_GetDagRunPageCount := Queries.GetDagRunPageCount;
  sdb_GetDagPageCount := ServerSqlite.GetDagPageCount;
  sdb_GetDagNames := ServerSqlite.GetDagNames like;
  sdb_GetDagParameters := Queries.GetDagParameters;
  sdb_GetIsSecrets := ServerSqlite.GetIsSecrets;
  sdb_GetDagTasks := ServerSqlite.GetDagTasks template_text;
  sdb_GetDagTaskPageCount := Queries.GetDagTaskPageCount;
  sdb_PodExists := Queries.PodExists;
  sdb_GetPodNameAndNamespace := Queries.GetPodNameAndNamespace
|}.
