(* ===== verification/ServerPg.v ===== *)
(** * The queries of the server on PostgreSQL (internal/server/db/postgres.go)

    The second implementation of [DbManager].  Arrays are columns here, [LIMIT]
    and [OFFSET] must not be negative, and a sum over no rows is NULL, which
    the code scans into an int. *)

From S2P Require Import Prelude Api Store SqliteDag SqliteRun Kube GoText PostgresDag ServerDb.
Local Open Scope kontroler_scope.

Module ServerPg.
Import DagDb RunDb PgSchema Queries.

(** [LIMIT $1 OFFSET $2] of PostgreSQL. *)
Definition page_query {A} (limit offset : Z) (f : Tables → list A) : M Store (list A) :=
  stmt ≫= λ _,
  if bool_decide (limit < 0)%Z then throw (EErrorf "LIMIT must not be negative")
  else if bool_decide (offset < 0)%Z then throw (EErrorf "OFFSET must not be negative")
  else gets (λ s, limit_offset limit offset (f (st_tables s))).

Section operations.
Context (like : string → string → bool) (template_text : PodTemplateSpec → string).

(** [array_agg] yields an array. *)
Definition getDagConnections (dagId : Z) : M Store (gmap Z (list Z)) :=
  rows ← query (connection_groups dagId);
  mret (foldl (λ m c, <[c.1 := c.2]> m) ∅ rows).

Definition GetAllDagMetaData (limit offset : Z) : M Store (list DBDAGMetaData) :=
  rows ← page_query limit offset active_dags;
  mapMM (λ d,
    connections ← getDagConnections (d_dag_id d);
    mret (mkDBDAGMetaData (d_dag_id d) (d_name d) (d_namespace d) (Some (d_schedule d)) (d_version d)
            (d_active d) (d_nexttime d) (d_suspended d) connections)) rows.

Definition GetDagRun (dagRunId : Z) : M Store DBDagRun :=
  stmt ≫= λ _,
  dagId ← query_row (λ t, r_dag_id <$> where_ (is_run dagRunId) (tb_DAG_Runs t));
  connections ← getDagConnections dagId;
  rows ← query (task_info_rows dagRunId dagId);
  mret (mkDBDagRun connections (task_info rows)).

Definition GetDagRuns (limit offset : Z) : M Store (list DBDagRunMeta) :=
  page_query limit offset run_metas.

Definition GetDagRunAll (dagRunId : Z) : M Store DBDagRunAll :=
  run ← query_row (λ t, where_ (is_run dagRunId) (tb_DAG_Runs t));
  connections ← getDagConnections (r_dag_id run);
  rows ← query (task_info_rows dagRunId (r_dag_id run));
  mret (mkDBDagRunAll dagRunId (r_dag_id run) (r_status run) (r_successfulCount run)
          (r_failedCount run) connections (task_info rows)).

Definition GetTaskRunDetails (dagRunId taskId : Z) : M Store DBTaskRunDetails :=
  task ← query_row (λ t, where_ (λ r, (trn_run_id r =b dagRunId) && (trn_task_id r =b taskId))
                           (tb_Task_Runs t));
  pods ← query (λ t, where_ (λ p, pod_task_run_id p =b trn_task_run_id task) (tb_Task_Pods t));
  mret (mkDBTaskRunDetails (trn_task_run_id task) (trn_status task) (trn_attempts task)
          (task_pod <$> pods)).

Definition GetDagNames (term : string) (limit : Z) : M Store (list string) :=
  page_query limit 0 (GetDagNames_rows like term).

Definition GetDagPageCount (limit : Z) : M Store Z :=
  count ← query (λ t, Z.of_nat (length (tb_DAGs t)));
  lift (pages count limit).

(** [SUM] over no rows is NULL, which cannot be scanned into an int. *)
Definition scan_outcomes (now : Z) (t : Tables) : result (Z * Z) :=
  match recent_task_runs now t with
  | [] => Err (EScan "completed_tasks")
  | rows => Ok (count_status "success" rows, count_status "failed" rows)
  end.

(** The five queries run in an error group: an error of any is returned, here
    that of the first. *)
Definition GetDashboardStats : M Store DBDashboardStats :=
  now ← gets st_now;
  dags ← try (query (λ t, count_where d_active (tb_DAGs t)));
  runs ← try (query (λ t, (recent_status "success" now t, recent_status "failed" now t,
                           count_where (λ r, recent now (r_run_time r)) (tb_DAG_Runs t),
                           count_where (λ r, r_status r =b "running") (tb_DAG_Runs t))));
  outcomes ← try (wrap_err "failed to execute taskOutcomesQuery"
                    (query (scan_outcomes now) ≫= λ r, lift r));
  types ← try (query dag_type_counts);
  daily ← try (wrap_err "failed to execute dailyDagRunCountsQuery" (query (daily_counts now)));
  match dags, runs, outcomes, types, daily with
  | Ok dags, Ok (successful, failed, total, active), Ok (completed, failedTasks), Ok types, Ok daily =>
      mret (mkDBDashboardStats dags successful failed total active types
              (<["Completed" := completed]> (<["Failed" := failedTasks]> ∅)) daily)
  | Err e, _, _, _, _ | _, Err e, _, _, _ | _, _, Err e, _, _ | _, _, _, Err e, _ | _, _, _, _, Err e =>
      throw e
  end.

(** All parameters of the DAG are read. *)
Definition GetIsSecrets (dagName : string) (parameterNames : list string) : M Store (gmap string bool) :=
  rows ← query (latest_parameters dagName);
  check_secrets parameterNames (secret_map rows).

(** The parameters of every DAG that uses the task. *)
Definition GetTaskDetails (taskId : Z) : M Store (DBTaskDetails DBParameter) :=
  row ← wrap_err "failed to query task details" (query_row (details_rows taskId));
  let '(k, name) := row in
  params ← wrap_err "failed to query parameters" (query (λ t, where_ (λ p,
    bool_decide (dpr_dag_id p ∈
      dt_dag_id <$> where_ (λ dt, dt_task_id dt =b tk_task_id k) (tb_DAG_Tasks t))
    && bool_decide (dpr_name p ∈ tk_parameters k)) (tb_DAG_Parameters t)));
  mret (details template_text k name (db_parameter <$> params)).

Definition GetDagTasks (limit offset : Z) : M Store (list (DBTaskDetails string)) :=
  rows ← wrap_err "failed to query task details in GetDagTasks"
    (page_query limit offset reusable_tasks);
  mret ((λ k, details template_text k (tk_name k) (tk_parameters k)) <$> rows).

Definition GetPodNameAndNamespace (podUID : string) : M Store (string * string) :=
  query_row (λ t, (λ p, (pod_namespace p, pod_name p)) <$>
    where_ (λ p, pod_Pod_UID p =b podUID) (tb_Task_Pods t)).

End operations.
End ServerPg.

Definition ServerPostgresManager (like : string → string → bool)
    (template_text : PodTemplateSpec → string) : DbManager Store := {|
  sdb_GetAllDagMetaData := ServerPg.GetAllDagMetaData;
  sdb_GetDagRuns := ServerPg.GetDagRuns;
  sdb_GetDagRun := ServerPg.GetDagRun;
  sdb_GetDagRunAll := ServerPg.GetDagRunAll;
  sdb_GetTaskDetails := ServerPg.GetTaskDetails template_text;
  sdb_GetTaskRunDetails := ServerPg.GetTaskRunDetails;
  sdb_GetDashboardStats := ServerPg.GetDashboardStats;
  sdb_GetDagRunPageCount := Queries.GetDagRunPageCount;
  sdb_GetDagPageCount := ServerPg.GetDagPageCount;
  sdb_GetDagNames := ServerPg.GetDagNames like;
  sdb_GetDagParameters := Queries.GetDagParameters;
  sdb_GetIsSecrets := ServerPg.GetIsSecrets;
  sdb_GetDagTasks := ServerPg.GetDagTasks template_text;
  sdb_GetDagTaskPageCount := Queries.GetDagTaskPageCount;
  sdb_PodExists := Queries.PodExists;
  sdb_GetPodNameAndNamespace := ServerPg.GetPodNameAndNamespace
|}.
