(* ===== verification/ServerSpec.v ===== *)
(** * What the server shows

    The connections of a DAG survive their text form; a run is shown as it is in
    the tables; the pages of a listing are the whole listing; and the server
    shows the same on either backend. *)

From S2P Require Import Prelude Api Store SqliteDag SqliteRun SqliteClaim Database StoredDag TaskRelease PostgresDag PostgresRun PostgresClaim PostgresKeys PostgresAgree Kube GoText ServerDb ServerPg.
Import DagDb RunDb Queries.
Local Open Scope kontroler_scope.

(** ** Lists of numbers as text *)

Lemma Itoa_not_empty n : is_int64 n → Itoa n ≠ "".
Proof. intros Hn E. pose proof (Atoi_Itoa n Hn) as H. by rewrite E in H. Qed.

Lemma split_Itoa (l : list Z) :
  l ≠ [] → split comma (join "," (Itoa <$> l)) = Itoa <$> l.
Proof.
  intros Hl. apply (split_join comma); [by destruct l|]. intros w (n & -> & _)%list_elem_of_fmap.
  by apply free_of_Itoa.
Qed.

Lemma join_empty (l : list Z) :
  (∀ n, n ∈ l → is_int64 n) → join "," (Itoa <$> l) = "" → l = [].
Proof.
  intros Hl E. destruct l as [|n [|m l]]; [done| |].
  - exfalso. apply (Itoa_not_empty n); [apply Hl; by left|done].
  - exfalso. cbn [fmap list_fmap] in E. rewrite join_cons in E.
    apply (Itoa_not_empty n); [apply Hl; by left|]. by destruct (Itoa n).
Qed.

(** ** Reads on both backends *)

(** Both read the state [s] and leave it; their answers agree. *)
Definition same_reads {A} (s : Store) (m m' : M Store A) : Prop :=
  (m s).2 = s ∧ same_outcome (m s) (m' s).

Section reads.
Context (s : Store) (Hs : nofault s).

Lemma same_ret {A} (a : A) : same_reads s (mret a) (mret a).
Proof. done. Qed.

Lemma same_throw {A} e e' : same_reads s (throw (A := A) e) (throw e').
Proof. done. Qed.

Lemma same_gets {A} (f : Store → A) : same_reads s (gets f) (gets f).
Proof. done. Qed.

Lemma same_bind {A B} (m m' : M Store A) (f f' : A → M Store B) :
  same_reads s m m' → (∀ a, (m s).1 = Ok a → same_reads s (f a) (f' a)) →
  same_reads s (m ≫= f) (m' ≫= f').
Proof.
  intros (E & E' & Ha) Hf. unfold same_reads, mbind, M_bind.
  destruct (m s) as [[a|e] s1], (m' s) as [[a'|e'] s1']; simpl in *; try done.
  rewrite <- E', E, <- Ha. by apply Hf.
Qed.

Lemma same_query {A} (f f' : Tables → A) :
  f (st_tables s) = f' (st_tables s) → same_reads s (query f) (query f').
Proof using Hs. intros E. unfold same_reads. by rewrite !query_nofault, E. Qed.

Lemma same_query_row {A} (f : Tables → list A) :
  same_reads s (Store.query_row f) (PgSchema.query_row f).
Proof using Hs.
  apply same_bind; [by apply same_query|]. intros rows _.
  destruct rows; [apply same_throw|apply same_ret].
Qed.

Lemma same_stmt : same_reads s stmt stmt.
Proof using Hs. unfold same_reads. by rewrite stmt_nofault. Qed.

Lemma same_try_wrap {A} msg (m m' : M Store A) :
  same_reads s m m' → same_reads s (wrap_err msg m) (wrap_err msg m').
Proof.
  intros (E & E' & Ha). unfold same_reads, wrap_err, try, mbind, M_bind.
  by destruct (m s) as [[a|e] s1], (m' s) as [[a'|e'] s1'].
Qed.

Lemma same_mapMM {A B} (f f' : A → M Store B) l :
  (∀ x, same_reads s (f x) (f' x)) → same_reads s (mapMM f l) (mapMM f' l).
Proof.
  intros Hf. induction l as [|x l IH]; simpl; [apply same_ret|].
  apply same_bind; [apply Hf|]. intros y _. apply same_bind; [done|]. intros ys _. apply same_ret.
Qed.

Lemma same_page {A} limit offset (f : Tables → list A) :
  (0 <= limit)%Z → (0 <= offset)%Z →
  same_reads s (query (λ t, limit_offset limit offset (f t))) (ServerPg.page_query limit offset f).
Proof using Hs.
  intros Hl Ho. unfold same_reads, ServerPg.page_query, mbind, M_bind.
  rewrite query_nofault, stmt_nofault by done. by rewrite !bool_decide_false by lia.
Qed.

End reads.

(** ** Connections *)

(** Every dependency is a row id of the database. *)
Definition int64_dependencies (t : Tables) : Prop :=
  ∀ d, d ∈ tb_Dependencies t → is_int64 (dep_depends_on d).

Lemma elem_of_connection_rows dagId t r :
  r ∈ connection_rows dagId t ↔
  ∃ k dt, k ∈ tb_Tasks t ∧ dt ∈ tb_DAG_Tasks t ∧ tk_task_id k = dt_task_id dt ∧ dt_dag_id dt = dagId ∧
    r.1 = dt_dag_task_id dt ∧
    match r.2 with
    | None => where_ (λ d, dt_dag_task_id dt =b dep_task_id d) (tb_Dependencies t) = []
    | Some d => ∃ row, row ∈ tb_Dependencies t ∧ dep_task_id row = dt_dag_task_id dt ∧
                       d = dep_depends_on row
    end.
Proof.
  unfold connection_rows. rewrite list_elem_of_In, in_flat_map. setoid_rewrite in_flat_map.
  setoid_rewrite <- list_elem_of_In. destruct r as [id o]. split.
  - intros (k & Hk & dt & Hdt & Hr). case_match eqn:E; [|by apply elem_of_nil in Hr].
    apply andb_true_iff in E as [?%bool_decide_eq_true ?%bool_decide_eq_true].
    exists k, dt. do 4 (split; [done|]). case_match eqn:Ed.
    + by apply list_elem_of_singleton in Hr as [= -> ->].
    + apply list_elem_of_fmap in Hr as (row & [= -> ->] & Hrow). rewrite <- Ed in Hrow.
      apply elem_of_where in Hrow as [?%bool_decide_eq_true ?]. split; [done|]. by exists row.
  - intros (k & dt & Hk & Hdt & E1 & E2 & E3 & Ho). exists k. split; [done|]. exists dt.
    split; [done|]. rewrite !bool_decide_true by done. simpl in *. subst id.
    destruct o as [d|].
    + destruct Ho as (row & Hrow & Erow & ->).
      assert (Hin : row ∈ where_ (λ d, dt_dag_task_id dt =b dep_task_id d) (tb_Dependencies t)).
      { apply elem_of_where. by rewrite bool_decide_true. }
      destruct (where_ _ _) as [|x l] eqn:E; [by apply elem_of_nil in Hin|].
      exact (list_elem_of_fmap_2 (λ d, (dt_dag_task_id dt, Some (dep_depends_on d))) (x :: l) row Hin).
    + rewrite Ho. by left.
Qed.

Lemma elem_of_connection_groups dagId t g n :
  g ∈ connection_groups dagId t → n ∈ g.2 →
  ∃ row, row ∈ tb_Dependencies t ∧ dep_task_id row = g.1 ∧ n = dep_depends_on row.
Proof.
  intros (id & -> & _)%list_elem_of_fmap (r & Hr & Er)%list_elem_of_omap. simpl in *.
  apply elem_of_where in Hr as [E%bool_decide_eq_true Hr].
  apply elem_of_connection_rows in Hr as (k & dt & _ & _ & _ & _ & E1 & Hd). rewrite Er in Hd.
  destruct Hd as (row & ? & ? & ->). exists row. split_and!; congruence.
Qed.

(** A loop over a list made of another, whose body answers the other's elements. *)
Lemma mapMM_inverse {S A B} (f : A → M S B) (g : B → A) (l : list B) s :
  (∀ x, x ∈ l → f (g x) s = (Ok x, s)) → mapMM f (g <$> l) s = (Ok l, s).
Proof.
  intros Hl. induction l as [|x l IH]; [done|]. cbn [fmap list_fmap mapMM].
  unfold mbind, M_bind in *. rewrite (Hl x) by (by left). rewrite IH; [done|].
  intros y Hy. apply Hl. by right.
Qed.

(** The text form of a list of ids parses back. *)
Lemma parse_deps id (l : list Z) s :
  (∀ n, n ∈ l → is_int64 n) →
  mapMM (ServerSqlite.parse_dep id) (Itoa <$> l) s = (Ok l, s).
Proof.
  intros Hl. apply mapMM_inverse. intros n Hn. unfold ServerSqlite.parse_dep.
  by rewrite Atoi_Itoa by (by apply Hl).
Qed.

Lemma parse_group (g : Z * list Z) s :
  (∀ n, n ∈ g.2 → is_int64 n) →
  (if join "," (Itoa <$> g.2) =b "" then mret (g.1, [])
   else mapMM (ServerSqlite.parse_dep g.1) (split comma (join "," (Itoa <$> g.2)))
          ≫= λ deps, mret (g.1, deps)) s = (Ok g, s).
Proof.
  intros Hg. destruct g as [id l]. simpl in *. case_bool_decide as E.
  - by rewrite (join_empty l Hg E).
  - rewrite split_Itoa by (by intros ->). unfold mbind, M_bind. by rewrite parse_deps.
Qed.

Lemma getDagConnections_text dagId s :
  nofault s → int64_dependencies (st_tables s) →
  ServerSqlite.getDagConnections dagId s = ServerPg.getDagConnections dagId s.
Proof.
  intros Hs Hd. unfold ServerSqlite.getDagConnections, ServerPg.getDagConnections, mbind at 1 3, M_bind at 1 3.
  rewrite !query_nofault by done. unfold mbind at 1, M_bind at 1.
  rewrite (mapMM_inverse _ (λ g : Z * list Z, (g.1, join "," (Itoa <$> g.2)))).
  { unfold mbind, M_bind. by rewrite query_nofault. }
  intros g Hg. apply (parse_group g s). intros n Hn.
  destruct (elem_of_connection_groups _ _ _ _ Hg Hn) as (row & ? & _ & ->). by apply Hd.
Qed.

(** *** What the statements read *)

Lemma foldl_insert_lookup {A K V} `{Countable K} (kf : A → K) (vf : A → V) (l : list A) (m : gmap K V) k :
  foldl (λ m x, <[kf x := vf x]> m) m l !! k =
  match last (where_ (λ x, kf x =b k) l) with Some x => Some (vf x) | None => m !! k end.
Proof.
  induction l as [|x l IH] using rev_ind; [done|].
  rewrite foldl_app. cbn [foldl]. unfold where_ in *. rewrite List.filter_app. simpl.
  case_bool_decide as E; simpl.
  - subst k. by rewrite last_snoc, lookup_insert_eq.
  - by rewrite app_nil_r, lookup_insert_ne.
Qed.

Lemma foldl_insert_elem {A K V} `{Countable K} (kf : A → K) (vf : A → V) (l : list A) k :
  is_Some (foldl (λ m x, <[kf x := vf x]> m) (∅ : gmap K V) l !! k) ↔ k ∈ kf <$> l.
Proof.
  rewrite foldl_insert_lookup. split.
  - case_match eqn:E; [|intros [? ?]; set_solver]. intros _. apply last_Some in E as (l' & E).
    assert (Hin : a ∈ where_ (λ x, kf x =b k) l) by (rewrite E; set_solver).
    apply elem_of_where in Hin as [<-%bool_decide_eq_true ?]. by apply list_elem_of_fmap_2.
  - intros (x & -> & Hx)%list_elem_of_fmap. case_match eqn:E; [done|].
    apply last_None in E.
    assert (Hin : x ∈ where_ (λ y, kf y =b kf x) l) by (apply elem_of_where; by rewrite bool_decide_true).
    rewrite E in Hin. by apply elem_of_nil in Hin.
Qed.

Lemma task_info_dom rows id : is_Some (task_info rows !! id) ↔ id ∈ fst <$> rows.
Proof. apply foldl_insert_elem. Qed.

Lemma elem_of_task_info_rows run dagId t r :
  r ∈ task_info_rows run dagId t ↔
  ∃ d k, d ∈ tb_DAG_Tasks t ∧ k ∈ tb_Tasks t ∧ dt_task_id d = tk_task_id k ∧ dt_dag_id d = dagId ∧
    r.1 = dt_dag_task_id d ∧ ti_Name r.2 = dt_name d ∧
    let runs := where_ (λ r, (trn_task_id r =b dt_dag_task_id d) && (trn_run_id r =b run)) (tb_Task_Runs t) in
    (runs = [] ∧ ti_Status r.2 = "pending") ∨ (∃ tr, tr ∈ runs ∧ ti_Status r.2 = trn_status tr).
Proof.
  unfold task_info_rows. rewrite list_elem_of_In, in_flat_map. setoid_rewrite in_flat_map.
  setoid_rewrite <- list_elem_of_In. destruct r as [id i]. split.
  - intros (d & Hd & k & Hk & Hr). case_match eqn:E; [|by apply elem_of_nil in Hr].
    apply andb_true_iff in E as [?%bool_decide_eq_true ?%bool_decide_eq_true].
    exists d, k. do 4 (split; [done|]). cbv zeta. destruct (where_ _ _) as [|x l] eqn:Ed.
    + apply list_elem_of_singleton in Hr as [= -> ->]. split_and!; auto.
    + apply list_elem_of_fmap in Hr as (tr & [= -> ->] & Htr). split_and!; [done..|]. right. by exists tr.
  - intros (d & k & Hd & Hk & E1 & E2 & E3 & E4 & Ho). exists d. split; [done|]. exists k.
    split; [done|]. rewrite !bool_decide_true by done. destruct i as [st nm]. cbn in E3, E4, Ho. subst id nm.
    destruct (where_ _ _) as [|x l].
    + destruct Ho as [[_ ->]|(tr & Htr & _)]; [by left|by apply elem_of_nil in Htr].
    + destruct Ho as [[? _]|(tr & Htr & ->)]; [done|].
      exact (list_elem_of_fmap_2 (λ r, (dt_dag_task_id d, mkDBTaskInfo (trn_status r) (dt_name d))) (x :: l) tr Htr).
Qed.

(** Every task of the connections is in the second query. *)
Lemma connections_have_info run dagId t id :
  id ∈ fst <$> connection_groups dagId t → id ∈ fst <$> task_info_rows run dagId t.
Proof.
  intros (g & -> & (id' & -> & Hid)%list_elem_of_fmap)%list_elem_of_fmap. simpl.
  apply elem_of_dedup, list_elem_of_fmap in Hid as (r & -> & Hr).
  apply elem_of_connection_rows in Hr as (k & dt & Hk & Hdt & E1 & E2 & -> & _).
  set (runs := where_ (λ r, (trn_task_id r =b dt_dag_task_id dt) && (trn_run_id r =b run)) (tb_Task_Runs t)).
  assert (∃ i, (dt_dag_task_id dt, i) ∈ task_info_rows run dagId t) as [i Hi].
  { destruct runs as [|tr l] eqn:Er.
    - exists (mkDBTaskInfo "pending" (dt_name dt)). apply elem_of_task_info_rows. exists dt, k.
      split_and!; try done. by left.
    - exists (mkDBTaskInfo (trn_status tr) (dt_name dt)). apply elem_of_task_info_rows. exists dt, k.
      split_and!; try done. right. exists tr. split; [|done]. fold runs. rewrite Er. by left. }
  by apply (list_elem_of_fmap_2 fst) in Hi.
Qed.

Lemma fill_pending_nothing connections info :
  (∀ id, is_Some (connections !! id) → is_Some (info !! id)) →
  ServerSqlite.fill_pending connections info = info.
Proof.
  intros H. unfold ServerSqlite.fill_pending. apply map_eq. intros id.
  destruct (info !! id) eqn:E; [by apply lookup_union_Some_l|].
  rewrite lookup_union_r by done. rewrite lookup_fmap. destruct (connections !! id) eqn:Ec; [|done].
  destruct (H id) as [? E']; [done|]. by rewrite E in E'.
Qed.

(** ** Each operation *)

Section agree.
Context (like : string → string → bool) (template_text : PodTemplateSpec → string).
Context (s : Store) (Hs : nofault s) (Hd : int64_dependencies (st_tables s)).
Local Hint Resolve Hs Hd : core.

Lemma same_connections dagId :
  same_reads s (ServerSqlite.getDagConnections dagId) (ServerPg.getDagConnections dagId).
Proof using Hs Hd.
  unfold same_reads. rewrite getDagConnections_text by done.
  unfold ServerPg.getDagConnections, mbind, M_bind. by rewrite query_nofault.
Qed.

Lemma same_metadata limit offset :
  (0 <= limit)%Z → (0 <= offset)%Z →
  same_reads s (ServerSqlite.GetAllDagMetaData limit offset) (ServerPg.GetAllDagMetaData limit offset).
Proof using Hs Hd.
  intros. apply same_bind; [by apply same_page|]. intros rows _. apply same_mapMM. intros d.
  apply same_bind; [apply same_connections|]. intros; apply same_ret.
Qed.

Lemma read_of {A} (f : Tables → A) a : (query f s).1 = Ok a → a = f (st_tables s).
Proof using Hs. rewrite query_nofault by done. by intros [= <-]. Qed.

Lemma connections_read dagId c :
  (ServerSqlite.getDagConnections dagId s).1 = Ok c →
  ∀ id, is_Some (c !! id) → id ∈ fst <$> connection_groups dagId (st_tables s).
Proof using Hs Hd.
  rewrite getDagConnections_text by done. unfold ServerPg.getDagConnections, mbind, M_bind.
  rewrite query_nofault by done. intros [= <-] id. apply foldl_insert_elem.
Qed.

Lemma same_run dagRunId : same_reads s (ServerSqlite.GetDagRun dagRunId) (ServerPg.GetDagRun dagRunId).
Proof using Hs Hd.
  apply same_bind; [by apply same_stmt|]. intros _ _.
  apply same_bind; [by apply same_query_row|]. intros dagId _.
  apply same_bind; [apply same_connections|]. intros c Hc.
  apply same_bind; [by apply same_query|]. intros rows ->%read_of.
  rewrite fill_pending_nothing; [apply same_ret|].
  intros id Hid. apply task_info_dom, connections_have_info. by apply (connections_read dagId c).
Qed.

Lemma same_run_all dagRunId :
  same_reads s (ServerSqlite.GetDagRunAll dagRunId) (ServerPg.GetDagRunAll dagRunId).
Proof using Hs Hd.
  apply same_bind; [by apply same_query_row|]. intros run _.
  apply same_bind; [apply same_connections|]. intros c _.
  apply same_bind; [by apply same_query|]. intros rows _. apply same_ret.
Qed.

Lemma same_task_run dagRunId taskId :
  same_reads s (Queries.GetTaskRunDetails dagRunId taskId) (ServerPg.GetTaskRunDetails dagRunId taskId).
Proof using Hs.
  apply same_bind; [by apply same_query_row|]. intros task _.
  apply same_bind; [by apply same_query|]. intros; apply same_ret.
Qed.

(** Rounding up by either formula. *)
Lemma same_page_count limit :
  (0 <= limit)%Z →
  same_reads s (ServerSqlite.GetDagPageCount limit) (ServerPg.GetDagPageCount limit).
Proof using Hs.
  intros Hl. apply same_bind; [by apply same_query|]. intros count ->%read_of.
  set (n := Z.of_nat _). assert (0 <= n)%Z by lia. clearbody n. unfold pages.
  case_bool_decide as E; [done|]. unfold same_reads. split; [done|]. split; [done|]. simpl.
  rewrite Z.rem_mod_nonneg, !Z.quot_div_nonneg by lia.
  pose proof (Z.div_mod n limit). pose proof (Z.mod_pos_bound n limit).
  case_bool_decide as Hr.
  - symmetry. apply (Z.div_unique _ _ _ (n mod limit - 1)%Z); lia.
  - symmetry. apply (Z.div_unique _ _ _ (limit - 1)%Z); lia.
Qed.

Lemma same_tasks limit offset :
  (0 <= limit)%Z → (0 <= offset)%Z →
  same_reads s (ServerSqlite.GetDagTasks template_text limit offset)
    (ServerPg.GetDagTasks template_text limit offset).
Proof using Hs.
  intros. apply same_bind; [by apply same_try_wrap, same_page|]. intros; apply same_ret.
Qed.

(** The dashboard, when some task's pod reported in the last thirty days. *)
Lemma same_dashboard :
  recent_task_runs (st_now s) (st_tables s) ≠ [] →
  same_reads s ServerSqlite.GetDashboardStats ServerPg.GetDashboardStats.
Proof using Hs.
  intros Hr.
  assert (Ho : ServerPg.scan_outcomes (st_now s) (st_tables s) =
    Ok (count_status "success" (recent_task_runs (st_now s) (st_tables s)),
        count_status "failed" (recent_task_runs (st_now s) (st_tables s))))
    by (unfold ServerPg.scan_outcomes; by destruct (recent_task_runs _ _)).
  unfold same_reads, ServerSqlite.GetDashboardStats, ServerPg.GetDashboardStats,
    wrap_err, try, gets, lift, mbind, M_bind, mret, M_ret.
  repeat first [rewrite query_nofault by done | rewrite Ho | progress cbv beta iota].
  split; [reflexivity|]. split; reflexivity.
Qed.

(** SQLite reads only the parameters that were asked for. *)
Lemma asked_secrets (names : list string) rows name :
  name ∈ names →
  secret_map (where_ (λ p, bool_decide (dpr_name p ∈ names)) rows) !! name = secret_map rows !! name.
Proof.
  intros Hn. unfold secret_map. rewrite !foldl_insert_lookup.
  replace (where_ (λ x, dpr_name x =b name) (where_ (λ p, bool_decide (dpr_name p ∈ names)) rows))
    with (where_ (λ x, dpr_name x =b name) rows); [done|].
  induction rows as [|p rows IH]; [done|]. rewrite !where_cons. case_bool_decide as E.
  - subst name. rewrite (bool_decide_true (dpr_name p ∈ names)) by done. rewrite where_cons.
    by rewrite bool_decide_true, IH.
  - case_bool_decide; [|done]. rewrite where_cons. by rewrite bool_decide_false.
Qed.

(** Both refuse the same names, and answer the same of those asked for. *)
Lemma same_secrets dagName names :
  match (ServerSqlite.GetIsSecrets dagName names s).1, (ServerPg.GetIsSecrets dagName names s).1 with
  | Ok a, Ok b => ∀ name, name ∈ names → a !! name = b !! name
  | Err e, Err e' => e = e'
  | _, _ => False
  end.
Proof using Hs.
  unfold ServerSqlite.GetIsSecrets, ServerPg.GetIsSecrets, mbind, M_bind. rewrite !query_nofault by done.
  pose proof (asked_secrets names (latest_parameters dagName (st_tables s))) as Ha. unfold check_secrets.
  set (a := secret_map (where_ _ _)) in *. set (b := secret_map (latest_parameters _ _)) in *.
  replace (where_ (λ name, b !! name =b None) names) with (where_ (λ name, a !! name =b None) names).
  - clearbody a b. by destruct (where_ _ _).
  - apply List.filter_ext_in. intros name Hn%list_elem_of_In. by rewrite Ha.
Qed.

End agree.


(** ** One run *)

Lemma where_flat_map {A B} (p : B → bool) (f : A → list B) l :
  where_ p (flat_map f l) = flat_map (λ x, where_ p (f x)) l.
Proof. induction l as [|x l IH]; [done|]. simpl. unfold where_ in *. by rewrite List.filter_app, IH. Qed.

(** A join that keeps the rows of one element only. *)
Lemma flat_map_single {A B} (f : A → list B) l x :
  NoDup l → x ∈ l → (∀ y, y ∈ l → y ≠ x → f y = []) → flat_map f l = f x.
Proof.
  intros Hnd Hx Hf. induction Hnd as [|y l Hy Hnd IH]; [by apply elem_of_nil in Hx|]. simpl.
  apply elem_of_cons in Hx as [->|Hx].
  - replace (flat_map f l) with (@nil B); [by rewrite app_nil_r|]. symmetry. apply flat_map_nil.
    intros z Hz. apply Hf; [by right|]. by intros ->.
  - rewrite (Hf y); [|by left|by intros ->]. apply IH; [done|]. intros z Hz. apply Hf. by right.
Qed.

(** The rows of a join that satisfy a test, when one pair yields them all. *)
Lemma where_join {A B C} (p : C → bool) (g : A → B → list C) l l' x y :
  NoDup l → NoDup l' → x ∈ l → y ∈ l' →
  (∀ x' y', x' ∈ l → y' ∈ l' → ¬ (x' = x ∧ y' = y) → where_ p (g x' y') = []) →
  where_ p (flat_map (λ x, flat_map (g x) l') l) = where_ p (g x y).
Proof.
  intros Hl Hl' Hx Hy Hg. rewrite where_flat_map, (flat_map_single _ _ x); [|done..|].
  - rewrite where_flat_map, (flat_map_single _ _ y); [done..|]. intros y' Hy' Hne. apply Hg; naive_solver.
  - intros x' Hx' Hne. rewrite where_flat_map. apply flat_map_nil. intros y' Hy'. apply Hg; naive_solver.
Qed.

Lemma where_all {A} (p : A → bool) (l : list A) : (∀ x, x ∈ l → p x = true) → where_ p l = l.
Proof.
  intros Hp. induction l as [|x l IH]; [done|]. rewrite where_cons, (Hp x) by (by left).
  f_equal. apply IH. intros y Hy. apply Hp. by right.
Qed.

Section run.
Context (t : Tables) (Hok : tables_ok t).

(** The tasks of a DAG whose definition is in the table. *)
Definition shown_task (dagId : Z) (dt : DagTaskRow) : Prop :=
  dt ∈ tb_DAG_Tasks t ∧ dt_dag_id dt = dagId ∧
  ∃ k, k ∈ tb_Tasks t ∧ tk_task_id k = dt_task_id dt.

Definition dependencies_of (id : Z) : list Z :=
  dep_depends_on <$> where_ (λ d, id =b dep_task_id d) (tb_Dependencies t).

(** The status of the last task run of a task in a run. *)
Definition status_in (run id : Z) : string :=
  match last (where_ (λ r, (trn_task_id r =b id) && (trn_run_id r =b run)) (tb_Task_Runs t)) with
  | Some tr => trn_status tr
  | None => "pending"
  end.

Lemma the_task dagId dt dt' k k' :
  dt ∈ tb_DAG_Tasks t → dt' ∈ tb_DAG_Tasks t → k ∈ tb_Tasks t → k' ∈ tb_Tasks t →
  tk_task_id k = dt_task_id dt → tk_task_id k' = dt_task_id dt' → dt_dag_id dt = dagId →
  dt_dag_task_id dt' = dt_dag_task_id dt → dt' = dt ∧ k' = k.
Proof using Hok.
  intros Hdt Hdt' Hk Hk' E E' _ Ed. assert (dt' = dt) as -> by by apply (dag_task_unique t).
  split; [done|]. apply (NoDup_key tk_task_id (tb_Tasks t)); [apply (wf_tasks _ Hok)|done..|congruence].
Qed.

(** The rows of one task in the two joins. *)
Lemma connection_rows_of dagId dt :
  shown_task dagId dt →
  where_ (λ r : Z * option Z, r.1 =b dt_dag_task_id dt) (connection_rows dagId t) =
  match dependencies_of (dt_dag_task_id dt) with
  | [] => [(dt_dag_task_id dt, None)]
  | ds => (λ d, (dt_dag_task_id dt, Some d)) <$> ds
  end.
Proof using Hok.
  intros (Hdt & Hdag & k & Hk & Ek).
  unfold connection_rows. rewrite (where_join _ _ _ _ k dt); [| | |done..|].
  - rewrite !bool_decide_true by done. simpl. unfold dependencies_of. destruct (where_ _ (tb_Dependencies t)) as [|d ds].
    + apply where_all. intros r ->%list_elem_of_singleton. by apply bool_decide_eq_true.
    + transitivity ((λ d, (dt_dag_task_id dt, Some (dep_depends_on d))) <$> d :: ds).
      * apply where_all. intros r (d' & -> & _)%list_elem_of_fmap. by apply bool_decide_eq_true.
      * exact (list_fmap_compose dep_depends_on (λ d, (dt_dag_task_id dt, Some d)) (d :: ds)).
  - apply (NoDup_fmap_1 tk_task_id), (wf_tasks _ Hok).
  - apply (NoDup_fmap_1 dt_dag_task_id), (wf_dag_tasks _ Hok).
  - intros k' dt' Hk' Hdt' Hne. apply where_nil. intros r Hr. apply bool_decide_eq_false. intros E.
    case_match eqn:Eb; [|by apply elem_of_nil in Hr].
    apply andb_true_iff in Eb as [E1%bool_decide_eq_true E2%bool_decide_eq_true].
    apply Hne. apply and_comm. apply (the_task dagId dt dt' k k'); try done. rewrite <- E.
    destruct (where_ _ (tb_Dependencies t)); [by apply list_elem_of_singleton in Hr as ->|].
    by apply list_elem_of_fmap in Hr as (? & -> & _).
Qed.

Lemma task_info_rows_of run dagId dt :
  shown_task dagId dt →
  where_ (λ r : Z * DBTaskInfo, r.1 =b dt_dag_task_id dt) (task_info_rows run dagId t) =
  match where_ (λ r, (trn_task_id r =b dt_dag_task_id dt) && (trn_run_id r =b run)) (tb_Task_Runs t) with
  | [] => [(dt_dag_task_id dt, mkDBTaskInfo "pending" (dt_name dt))]
  | rs => (λ r, (dt_dag_task_id dt, mkDBTaskInfo (trn_status r) (dt_name dt))) <$> rs
  end.
Proof using Hok.
  intros (Hdt & Hdag & k & Hk & Ek).
  unfold task_info_rows. rewrite (where_join _ _ _ _ dt k); [| | |done..|].
  - rewrite !bool_decide_true by done. simpl. destruct (where_ _ (tb_Task_Runs t)) as [|d ds].
    + apply where_all. intros r ->%list_elem_of_singleton. by apply bool_decide_eq_true.
    + apply where_all. intros r Hr. apply bool_decide_eq_true.
      by apply (list_elem_of_fmap (λ r, (dt_dag_task_id dt, mkDBTaskInfo (trn_status r) (dt_name dt)))
        (d :: ds)) in Hr as (d' & -> & _).
  - apply (NoDup_fmap_1 dt_dag_task_id), (wf_dag_tasks _ Hok).
  - apply (NoDup_fmap_1 tk_task_id), (wf_tasks _ Hok).
  - intros dt' k' Hdt' Hk' Hne. apply where_nil. intros r Hr. apply bool_decide_eq_false. intros E.
    case_match eqn:Eb; [|by apply elem_of_nil in Hr].
    apply andb_true_iff in Eb as [E1%bool_decide_eq_true E2%bool_decide_eq_true].
    apply Hne. apply (the_task dagId dt dt' k k'); try done. rewrite <- E.
    destruct (where_ _ (tb_Task_Runs t)); [by apply list_elem_of_singleton in Hr as ->|].
    by apply list_elem_of_fmap in Hr as (? & -> & _).
Qed.

Lemma foldl_insert_value {A K V} `{Countable K} (kf : A → K) (vf : A → V) (l : list A) k v :
  k ∈ kf <$> l → (∀ x, x ∈ l → kf x = k → vf x = v) →
  foldl (λ m x, <[kf x := vf x]> m) (∅ : gmap K V) l !! k = Some v.
Proof.
  intros Hk Hv. pose proof Hk as Hk'. apply (foldl_insert_elem kf vf) in Hk' as [v' E]. rewrite E.
  rewrite foldl_insert_lookup in E. case_match eqn:El; [|by rewrite lookup_empty in E].
  injection E as <-. f_equal. apply last_Some in El as (l' & El).
  assert (a ∈ where_ (λ x, kf x =b k) l) as [Ea%bool_decide_eq_true Ha]%elem_of_where
    by (rewrite El; set_solver). by apply Hv.
Qed.

Definition connection_map (dagId : Z) : gmap Z (list Z) :=
  foldl (λ m c, <[c.1 := c.2]> m) ∅ (connection_groups dagId t).

Lemma connection_keys dagId id :
  id ∈ fst <$> connection_groups dagId t ↔ id ∈ fst <$> connection_rows dagId t.
Proof using.
  unfold connection_groups. rewrite <- list_fmap_compose. unfold compose. simpl.
  rewrite list_fmap_id. apply elem_of_dedup.
Qed.

Lemma connection_map_value dagId dt :
  shown_task dagId dt →
  connection_map dagId !! dt_dag_task_id dt = Some (dependencies_of (dt_dag_task_id dt)).
Proof using Hok.
  intros Hdt. pose proof (connection_rows_of dagId dt Hdt) as Hrows. apply foldl_insert_value.
  - apply connection_keys.
    assert (∃ r, r ∈ where_ (λ r : Z * option Z, r.1 =b dt_dag_task_id dt) (connection_rows dagId t))
      as (r & [<-%bool_decide_eq_true Hr]%elem_of_where).
    { rewrite Hrows. destruct (dependencies_of _); eexists; by left. }
    by apply list_elem_of_fmap_2.
  - intros g (id & -> & _)%list_elem_of_fmap. simpl. intros ->. rewrite Hrows.
    destruct (dependencies_of _) as [|d ds] eqn:E; [done|].
    change (omap snd ((λ d, (dt_dag_task_id dt, Some d)) <$> d :: ds) = d :: ds).
    generalize (d :: ds). intros l. induction l as [|x l IH]; [done|]. cbn. by f_equal.
Qed.

Lemma connection_map_dom dagId id :
  is_Some (connection_map dagId !! id) → ∃ dt, shown_task dagId dt ∧ dt_dag_task_id dt = id.
Proof using.
  intros (r & -> & Hr)%foldl_insert_elem%connection_keys%list_elem_of_fmap.
  apply elem_of_connection_rows in Hr as (k & dt & Hk & Hdt & E & Ed & Er & _).
  exists dt. split; [|done]. split; [done|]. split; [done|]. by exists k.
Qed.

Lemma task_info_value run dagId dt :
  shown_task dagId dt →
  task_info (task_info_rows run dagId t) !! dt_dag_task_id dt =
  Some (mkDBTaskInfo (status_in run (dt_dag_task_id dt)) (dt_name dt)).
Proof using Hok.
  intros Hdt. unfold task_info. rewrite foldl_insert_lookup, (task_info_rows_of run dagId dt Hdt).
  unfold status_in. destruct (where_ _ _) as [|tr l]; [done|].
  set (f r := (dt_dag_task_id dt, mkDBTaskInfo (trn_status r) (dt_name dt))).
  change (match last (f <$> tr :: l) with Some x => Some x.2 | None => (∅ : gmap Z DBTaskInfo) !! dt_dag_task_id dt end
    = Some (mkDBTaskInfo (match last (tr :: l) with Some r => trn_status r | None => "pending" end) (dt_name dt))).
  rewrite fmap_last. destruct (last (tr :: l)) eqn:E; [done|by apply last_None in E].
Qed.

Lemma task_info_dom_task run dagId id :
  is_Some (task_info (task_info_rows run dagId t) !! id) →
  ∃ dt, shown_task dagId dt ∧ dt_dag_task_id dt = id.
Proof using.
  intros (r & -> & Hr)%task_info_dom%list_elem_of_fmap.
  apply elem_of_task_info_rows in Hr as (dt & k & Hdt & Hk & E & Ed & Er & _).
  exists dt. split; [|done]. split; [done|]. split; [done|]. by exists k.
Qed.

End run.


(** ** Pages *)

Lemma order_desc_sorted {A} (key : A → Z) (l : list A) :
  Sorted (λ x y, key y <= key x)%Z (order_desc key l).
Proof.
  induction l as [|x l IH]; [constructor|]. simpl. induction IH as [|y l' Hs IH Hd]; [by repeat constructor|].
  simpl. case_bool_decide as E; [by repeat constructor|]. constructor; [done|].
  destruct Hd as [|z l'' Hz]; simpl; [constructor; lia|]. case_bool_decide; constructor; lia.
Qed.

Lemma sorted_strict {A} (key : A → Z) (l : list A) :
  Sorted (λ x y, key y <= key x)%Z l → NoDup (key <$> l) → Sorted (λ x y, key y < key x)%Z l.
Proof.
  induction 1 as [|x l Hs IH Hd]; [by constructor|]. rewrite fmap_cons. intros [Hx Hnd]%NoDup_cons.
  constructor; [by apply IH|]. destruct Hd as [|y l Hy]; constructor.
  assert (key x ≠ key y); [|lia]. intros E. apply Hx. rewrite E. by left.
Qed.

Lemma fmap_flat_map_single {A B C} (f : A → list B) (g : B → C) (h : A → C) l :
  (∀ x, x ∈ l → g <$> f x = [h x]) → g <$> flat_map f l = h <$> l.
Proof.
  intros Hf. rewrite fmap_flat_map. induction l as [|x l IH]; [done|]. simpl.
  rewrite (Hf x) by (by left). simpl. f_equal. apply IH. intros y Hy. apply Hf. by right.
Qed.

(** Every run's DAG is in the table. *)
Definition runs_have_dags (t : Tables) : Prop :=
  ∀ r, r ∈ tb_DAG_Runs t → ∃ d, d ∈ tb_DAGs t ∧ d_dag_id d = r_dag_id r.

Lemma run_metas_ids t :
  tables_ok t → runs_have_dags t → rm_Id <$> run_metas t ≡ₚ r_run_id <$> tb_DAG_Runs t.
Proof.
  intros Hok Hd. unfold run_metas. rewrite order_desc_perm.
  rewrite (fmap_flat_map_single _ _ r_run_id); [done|]. intros r Hr.
  destruct (Hd r Hr) as (d & Hdd & Ed). rewrite (flat_map_single _ _ d).
  - by rewrite bool_decide_true.
  - apply (NoDup_fmap_1 d_dag_id), (wf_dags _ Hok).
  - done.
  - intros d' Hd' Hne. rewrite bool_decide_false; [done|]. intros E. apply Hne.
    apply (NoDup_key d_dag_id (tb_DAGs t)); [apply (wf_dags _ Hok)|done..|congruence].
Qed.

(** The pages that a client fetches are the listing. *)
Lemma pages_whole {A} (l : list A) n :
  pages (Z.of_nat (length l)) 10 = Ok n →
  flat_map (λ i, limit_offset 10 ((Z.of_nat (S i) - 1) * 10) l) (seq 0 (Z.to_nat n)) = l.
Proof.
  intros Hn. destruct (pages_bounds (Z.of_nat (length l)) 10) as (n' & E & Hb & Hp); [lia..|].
  rewrite Hn in E. injection E as <-.
  transitivity (take (Z.to_nat n * 10) l); [|apply take_ge; lia].
  rewrite <- pages_prefix. apply flat_map_ext. intros i. f_equal. lia.
Qed.

(** A client that asks for the number of pages of runs and fetches pages 1 to
    that number, ten runs each, gets every run exactly once, the newest first, on
    either backend; later pages are empty. *)
Theorem run_pages_complete like template_text s mgr :
  nofault s → tables_ok (st_tables s) → runs_have_dags (st_tables s) →
  mgr = ServerSqliteManager like template_text ∨ mgr = ServerPostgresManager like template_text →
  ∃ n rows,
    @sdb_GetDagRunPageCount _ mgr 10 s = (Ok n, s) ∧
    (∀ page, (1 <= page)%Z → @sdb_GetDagRuns _ mgr 10 ((page - 1) * 10) s = (Ok (rows page), s)) ∧
    (∀ page, (n < page)%Z → rows page = []) ∧
    let all := flat_map (λ i, rows (Z.of_nat (S i))) (seq 0 (Z.to_nat n)) in
    rm_Id <$> all ≡ₚ r_run_id <$> tb_DAG_Runs (st_tables s) ∧
    Sorted (λ x y, rm_Id y < rm_Id x)%Z all.
Proof.
  intros Hs Hok Hd Hm. set (t := st_tables s) in *.
  pose proof (run_metas_ids t Hok Hd) as Hids.
  assert (Hlen : length (tb_DAG_Runs t) = length (run_metas t)).
  { apply Permutation_length in Hids. by rewrite !length_fmap in Hids. }
  destruct (pages_bounds (Z.of_nat (length (tb_DAG_Runs t))) 10) as (n & En & Hb & Hn); [lia..|].
  exists n, (λ page, limit_offset 10 ((page - 1) * 10) (run_metas t)). split_and!.
  - assert (H : Queries.GetDagRunPageCount 10 s = (Ok n, s)).
    { unfold Queries.GetDagRunPageCount, mbind, M_bind. rewrite query_nofault by done.
      unfold lift. fold t. by rewrite En. }
    by destruct Hm as [-> | ->].
  - intros page Hp. destruct Hm as [-> | ->].
    + by apply query_nofault.
    + change (ServerPg.GetDagRuns 10 ((page - 1) * 10) s
        = (Ok (limit_offset 10 ((page - 1) * 10) (run_metas t)), s)).
      unfold ServerPg.GetDagRuns, ServerPg.page_query, mbind, M_bind. rewrite stmt_nofault by done.
      by rewrite bool_decide_false, bool_decide_false by lia.
  - intros page Hp. unfold limit_offset. rewrite bool_decide_false by lia.
    rewrite drop_ge, take_nil by lia. done.
  - rewrite (pages_whole (run_metas t)) by (by rewrite <- Hlen). split; [done|].
    apply sorted_strict; [apply order_desc_sorted|]. rewrite Hids. apply (wf_runs _ Hok).
Qed.

(** ** A run of a DAG of four tasks *)

Lemma demo_int64 : int64_dependencies (st_tables demo_run).
Proof.
  assert (Forall (λ d, (- 2 ^ 63 <= dep_depends_on d < 2 ^ 63)%Z) (tb_Dependencies (st_tables demo_run))) as H
    by (apply (bool_decide_unpack _); vm_compute; exact I).
  intros d Hd. exact (proj1 (Forall_forall _ _) H d Hd).
Qed.

Lemma demo_nofault : nofault demo_run.
Proof. vm_compute. reflexivity. Qed.

Lemma demo_r_stored : demo_r ∈ tb_DAG_Runs (st_tables demo_run).
Proof. assert (tb_DAG_Runs (st_tables demo_run) = [demo_r]) as -> by (vm_compute; reflexivity). by left. Qed.

Lemma demo_runs_have_dags : runs_have_dags (st_tables demo_run).
Proof.
  assert (existsb (λ d, d_dag_id d =b 1%Z) (tb_DAGs (st_tables demo_run)) = true) as H by (vm_compute; reflexivity).
  intros r Hr. assert (tb_DAG_Runs (st_tables demo_run) = [demo_r]) as E by (vm_compute; reflexivity).
  rewrite E in Hr. apply list_elem_of_singleton in Hr as ->.
  apply existsb_exists in H as (d & Hd%list_elem_of_In & Ed%bool_decide_eq_true). exists d.
  split; [exact Hd|exact Ed].
Qed.

Definition no_like (_ _ : string) : bool := true.
Definition no_text (_ : PodTemplateSpec) : string := "".



Lemma run_pages_complete_witness :
  ∃ n rows,
    @sdb_GetDagRunPageCount _ (ServerPostgresManager no_like no_text) 10 demo_run = (Ok n, demo_run) ∧
    @sdb_GetDagRuns _ (ServerPostgresManager no_like no_text) 10 ((1 - 1) * 10) demo_run =
      (Ok (rows 1%Z), demo_run).
Proof.
  destruct (run_pages_complete no_like no_text demo_run (ServerPostgresManager no_like no_text)
    demo_nofault demo_run_ok demo_runs_have_dags (or_intror eq_refl)) as (n & rows & E & H & _).
  exists n, rows. split; [exact E|]. exact (H 1%Z ltac:(lia)).
Defined.

(** The tasks b and c depend on a, and d on both. *)
Example demo_run_shown :
  match (ServerSqlite.GetDagRun 1 demo_run).1 with
  | Ok r => map_to_list (dr_Connections r) = [(3%Z, [1%Z]); (4%Z, [2%Z; 3%Z]); (2%Z, [1%Z]); (1%Z, [])]
  | Err _ => False
  end.
Proof. vm_compute. reflexivity. Qed.

(** Two versions of a DAG make a second page, where the listing shows nothing. *)
Definition versions (n : nat) : list DagRow :=
  (λ v, mkDagRow (Z.of_nat v) "etl" (Z.of_nat v) "" "" "default" (bool_decide (v = n)) 1 None "" false None false)
  <$> seq 1 n.

Theorem inactive_versions_make_pages :
  let s := set_tables (set_DAGs (versions 11) 11 emptyTables) demo_run in
  (ServerSqlite.GetDagPageCount 10 s).1 = Ok 2%Z ∧ (ServerPg.GetDagPageCount 10 s).1 = Ok 2%Z ∧
  (ServerSqlite.GetAllDagMetaData 10 10 s).1 = Ok [] ∧
  length (active_dags (st_tables s)) = 1.
Proof. vm_compute. auto. Qed.

(** Without a recent pod the dashboard is an error on PostgreSQL only. *)
Theorem dashboard_without_pods :
  is_ok (ServerSqlite.GetDashboardStats demo_run).1 = true ∧
  (ServerPg.GetDashboardStats demo_run).1 =
    Err (EWrap "failed to execute taskOutcomesQuery" (EScan "completed_tasks")).
Proof. vm_compute. auto. Qed.
