(* ===== verification/Http.v ===== *)
(** * Responses of the server (gofiber)

    What a handler answers: a status, the headers it sets and a body.  A body
    holds the values that are marshalled, not their JSON text. *)

From S2P Require Import Prelude Auth ServerDb LogStore.
Local Open Scope kontroler_scope.

(** ** Bodies *)

Inductive Value :=
| VText (s : string)
| VNumber (n : Z)
| VNames (l : list string)
| VParameters (l : list DBParameter)
| VDags (l : list DBDAGMetaData)
| VRuns (l : list DBDagRunMeta)
| VRun (r : DBDagRun)
| VRunAll (r : DBDagRunAll)
| VTaskRun (d : DBTaskRunDetails)
| VTask (d : DBTaskDetails DBParameter)
| VTasks (l : list (DBTaskDetails string))
| VStats (s : DBDashboardStats)
| VUsers (l : list User).

Inductive Body :=
| BStatus                                   (* [SendStatus]: the text of the status *)
| BText (s : string)                        (* [SendString] *)
| BJson (v : Value)                         (* [JSON] of a value *)
| BMap (fields : list (string * Value))     (* [JSON] of a [fiber.Map] *)
| BBytes (data : bytes).                    (* what was written *)

Record Response := mkResponse {
  rs_status : Z;
  rs_headers : gmap string string;
  rs_body : Body
}.

Definition StatusOK : Z := 200.
Definition StatusCreated : Z := 201.
Definition StatusAccepted : Z := 202.
Definition StatusNoContent : Z := 204.
Definition StatusPartialContent : Z := 206.
Definition StatusBadRequest : Z := 400.
Definition StatusUnauthorized : Z := 401.
Definition StatusForbidden : Z := 403.
Definition StatusNotFound : Z := 404.
Definition StatusConflict : Z := 409.
Definition StatusRequestedRangeNotSatisfiable : Z := 416.
Definition StatusInternalServerError : Z := 500.

(** ** Answers; each keeps the headers that were set before *)

Definition SendStatus (status : Z) : Response := mkResponse status ∅ BStatus.

Definition SendString (status : Z) (headers : gmap string string) (s : string) : Response :=
  mkResponse status headers (BText s).

Definition JSON_with (headers : gmap string string) (status : Z) (b : Body) : Response :=
  mkResponse status (<["Content-Type" := "application/json"]> headers) b.

Definition JSON (status : Z) (v : Value) : Response := JSON_with ∅ status (BJson v).

Definition JSON_map (status : Z) (fields : list (string * Value)) : Response :=
  JSON_with ∅ status (BMap fields).

Definition error_map (status : Z) (msg : string) : Response :=
  JSON_map status [("error", VText msg)].
