(* ===== verification/LogServe.v ===== *)
(** * Logs that the server serves (internal/server/logs, internal/server/ws)

    [ServeLogWithRange] answers a request for the log of a pod, whole or a range
    of its bytes, from a [LogFetcher]: the files of [FileStore] or a bucket.
    [StreamLogs] follows the log of a running pod on a websocket.  The calls of S3
    and of the API server are interfaces. *)

From S2P Require Import Prelude Api Kube LogStore FileStore GoText ServerDb Http.
Local Open Scope kontroler_scope.

(** ** The interface *)

Class LogFetcher (L : Type) := {
  RangeFetchLogs (logKey : string) (start end_ : Z) : M L Stream;
  FetchLogs (logKey : string) : M L Stream;
  (** whether there is a log, and its size *)
  LogFileExists (logFileKey : string) : M L (bool * Z)
}.

(** ** Files (fsLogFetcher.go) *)

Module FsFetch.

Definition ErrNotExist : GoError := EErrorf "no such file or directory".

(** [os.Stat]: the size. *)
Definition Stat (path : string) : M Disk Z :=
  f ← disk_call;
  match f with
  | Some (_, e) => throw e
  | None => file ← gets (λ d, dk_files d !! path);
            match file with Some data => mret (Z.of_nat (length data)) | None => throw ErrNotExist end
  end.

Definition Open (path : string) : M Disk bytes :=
  f ← disk_call;
  match f with
  | Some (_, e) => throw e
  | None => file ← gets (λ d, dk_files d !! path);
            match file with Some data => mret data | None => throw ErrNotExist end
  end.

(** [file.Seek(start, 0)]: what is left to read. *)
Definition Seek (start : Z) (data : bytes) : M Disk bytes :=
  f ← disk_call;
  match f with
  | Some (_, e) => throw e
  | None => if bool_decide (start < 0)%Z then throw (EErrorf "invalid argument")
            else mret (drop (Z.to_nat start) data)
  end.

(** The reads of the file to come: they may break off. *)
Definition reader (data : bytes) : M Disk Stream :=
  f ← disk_call;
  mret match f with
       | Some (n, e) => [(take n data, Broken e)]
       | None => [(data, AtEOF)]
       end.

(** [io.LimitReader(file, end-start+1)] of the rest of the file. *)
Definition RangeFetchLogs (logKey : string) (start end_ : Z) : M Disk Stream :=
  data ← Open logKey;
  rest ← Seek start data;
  reader (take (Z.to_nat (end_ - start + 1)) rest).

Definition FetchLogs (logKey : string) : M Disk Stream := Open logKey ≫= reader.

Definition LogFileExists (logFileKey : string) : M Disk (bool * Z) :=
  r ← try (Stat logFileKey);
  match r with
  | Ok size => mret (true, size)
  | Err e => if e =b ErrNotExist then mret (false, 0%Z) else throw e
  end.

End FsFetch.

#[global] Instance Disk_fetcher : LogFetcher Disk := {
  RangeFetchLogs := FsFetch.RangeFetchLogs;
  FetchLogs := FsFetch.FetchLogs;
  LogFileExists := FsFetch.LogFileExists
}.

(** ** S3 (logFetcher.go) *)

Class S3Reader (B : Type) := {
  (** [GetObject] with the [Range] header, if any *)
  GetObject (key : string) (range : option string) : M B Stream;
  (** [HeadObject]: the [ContentLength], if it is given *)
  HeadObject (key : string) : M B (option Z)
}.

Module S3Fetch.
Section fetch.
Context {B : Type} `{S3Reader B}.

Definition range_text (start end_ : Z) : string :=
  "bytes=" +:+ Itoa start +:+ "-" +:+ Itoa end_.

Definition RangeFetchLogs (logKey : string) (start end_ : Z) : M B Stream :=
  GetObject logKey (Some (range_text start end_)).

Definition FetchLogs (logKey : string) : M B Stream := GetObject logKey None.

(** An error counts as a missing log, and so does an empty one. *)
Definition LogFileExists (logFileKey : string) : M B (bool * Z) :=
  r ← try (HeadObject logFileKey);
  mret match r with
       | Err _ => (false, 0%Z)
       | Ok None => (false, 0%Z)
       | Ok (Some size) => if size =b 0%Z then (false, 0%Z) else (true, size)
       end.

End fetch.
End S3Fetch.

Definition s3LogFetcher {B} `{S3Reader B} : LogFetcher B := {|
  RangeFetchLogs := S3Fetch.RangeFetchLogs;
  FetchLogs := S3Fetch.FetchLogs;
  LogFileExists := S3Fetch.LogFileExists
|}.

(** ** The endpoint (logs.go) *)

Module Serve.
Section serve.
Context {L : Type} `{LogFetcher L}.

Definition log_key (dagRunId : Z) (podName : string) : string :=
  Itoa dagRunId +:+ "/" +:+ podName +:+ "-log.txt".

Definition text_plain : gmap string string := {[ "Content-Type" := "text/plain" ]}.

Definition content_range (start end_ fileSize : Z) : string :=
  "bytes " +:+ Itoa start +:+ "-" +:+ Itoa end_ +:+ "/" +:+ Itoa fileSize.

(** The bounds of a [Range] header, or the answer to a bad one. *)
Definition parse_range (rangeHeader : string) (fileSize : Z) : Z * Z + Response :=
  let parts := split hyphen (TrimPrefix "bytes=" rangeHeader) in
  match Atoi (default "" (head parts)) with
  | Err _ => inr (SendString StatusBadRequest text_plain "Invalid range start")
  | Ok start =>
      let second := default "" (parts !! 1) in
      match (if second =b "" then Ok (fileSize - 1)%Z else Atoi second) with
      | Err _ => inr (SendString StatusBadRequest text_plain "Invalid range end")
      | Ok end_ =>
          if bool_decide (end_ < start)%Z || bool_decide (start < 0)%Z || bool_decide (fileSize <= end_)%Z
          then inr (SendString StatusRequestedRangeNotSatisfiable text_plain
                      ("Invalid byte range " +:+ Itoa start +:+ "-" +:+ Itoa end_))
          else inl (start, end_)
      end
  end.

(** [io.Copy] to the response; after an error the body is replaced. *)
Definition copy (status : Z) (headers : gmap string string) (s : Stream) (failed : Response) : Response :=
  match stream_content s with
  | (data, None) => mkResponse status headers (BBytes data)
  | (_, Some _) => failed
  end.

Definition ServeLogWithRange (dagRunId : Z) (podName : string) (rangeHeader : string) : M L Response :=
  let logFileKey := log_key dagRunId podName in
  r ← try (LogFileExists logFileKey);
  match r with
  | Err _ => mret (JSON_map StatusInternalServerError [("message", VText "unable to check if file exists")])
  | Ok (false, _) => mret (JSON_map StatusNoContent [("message", VText "file was empty or did not exist")])
  | Ok (true, fileSize) =>
      if rangeHeader =b "" then
        f ← try (FetchLogs logFileKey);
        mret match f with
             | Err _ => JSON_with text_plain StatusInternalServerError
                          (BMap [("error", VText "unable to fetch file reader")])
             | Ok s => copy StatusOK text_plain s
                         (SendString StatusInternalServerError text_plain "Error streaming full file")
             end
      else
        match parse_range rangeHeader fileSize with
        | inr response => mret response
        | inl (start, end_) =>
            f ← try (RangeFetchLogs logFileKey start end_);
            mret match f with
                 | Err _ => JSON_with text_plain StatusInternalServerError
                              (BMap [("error", VText "unable to fetch file range reader")])
                 | Ok s =>
                     let headers := <["Content-Range" := content_range start end_ fileSize]> text_plain in
                     copy StatusPartialContent headers s
                       (JSON_with headers StatusInternalServerError
                          (BMap [("error", VText "Error streaming file")]))
                 end
        end
  end.

End serve.
End Serve.

(** ** The log of a running pod (ws.go) *)

Inductive MessageType := TextMessage | CloseMessage.

Class WebSocket (W : Type) := {
  WriteMessage (kind : MessageType) (data : bytes) : M W unit
}.

Module Ws.
Section ws.
Context {D C W : Type} `{DbManager D} `{PodLogs C} `{WebSocket W}.

Record Socket := mkSocket { so_db : D; so_kube : C; so_conn : W }.

Definition with_db {A} (m : M D A) : M Socket A := λ s,
  let '(r, d) := m (so_db s) in (r, mkSocket d (so_kube s) (so_conn s)).
Definition with_kube {A} (m : M C A) : M Socket A := λ s,
  let '(r, c) := m (so_kube s) in (r, mkSocket (so_db s) c (so_conn s)).
Definition with_conn {A} (m : M W A) : M Socket A := λ s,
  let '(r, w) := m (so_conn s) in (r, mkSocket (so_db s) (so_kube s) w).

(** A write whose error is dropped. *)
Definition close_message (text : string) : M W unit :=
  try (WriteMessage CloseMessage (String.list_byte_of_string text)) ≫= λ _, mret tt.

(** The loop: an error of a read ends it before what was read with it is sent. *)
Fixpoint stream_loop (fuel : nat) (s : Stream) : M W unit :=
  match fuel with
  | O => mret tt
  | S fuel' =>
      match Read 1024 s with
      | ((buf, More), s') =>
          r ← try (WriteMessage TextMessage buf);
          match r with Ok _ => stream_loop fuel' s' | Err _ => mret tt end
      | _ => mret tt
      end
  end.

Definition StreamLogs (podUUID : string) : M Socket unit :=
  if podUUID =b "" then with_conn (close_message "Missing pod UUID")
  else
    r ← try (with_db (sdb_GetPodNameAndNamespace podUUID));
    match r with
    | Err _ => with_conn (close_message "Failed to get logs")
    | Ok (namespace, name) =>
        s ← try (with_kube (GetLogs_Stream namespace name "" None));
        match s with
        | Err _ => with_conn (close_message "Failed to get logs")
        | Ok logStream =>
            with_conn (stream_loop (S (stream_size logStream)) logStream ≫= λ _,
                       close_message "finished")
        end
    end.

End ws.
End Ws.
