(* ===== verification/LogServeSpec.v ===== *)
(** * What the server serves of a log

    The promise of a [LogFetcher] as laws over the stored logs, which the files
    keep and a documented S3 keeps; against the laws, the endpoint answers the
    bytes that are asked for and no others; and a log that a worker stored is
    served back. *)

From S2P Require Import Prelude Api Kube KubeExample LogStore FileStore S3Example LogCollection GoText ServerDb Http LogServe.
Import Serve.
Local Open Scope kontroler_scope.

(** ** The promise *)

(** The bytes [start] to [end_] of a log, both included. *)
Definition slice (start end_ : Z) (log : bytes) : bytes :=
  take (Z.to_nat (end_ - start + 1)) (drop (Z.to_nat start) log).

(** A stream that breaks off is told from the data that was asked for. *)
Definition yields (s : Stream) (data : bytes) : Prop :=
  (stream_content s).2 = None → (stream_content s).1 = data.

Class FetcherLaws {L : Type} `{LogFetcher L} (files : L → gmap string bytes) (fine : L → Prop)
    (empty_exists : bool) := {
  exists_law key l : let '(r, l') := LogFileExists key l in
    files l' = files l ∧ (fine l → fine l') ∧
    match r with
    | Ok (true, n) => ∃ c, files l !! key = Some c ∧ n = Z.of_nat (length c) ∧
                           (c = [] → empty_exists = true)
    | Ok (false, _) => fine l → files l !! key = None ∨ (files l !! key = Some [] ∧ empty_exists = false)
    | Err _ => ¬ fine l
    end;
  range_law key c a b l : files l !! key = Some c → (0 <= a <= b)%Z → (b < Z.of_nat (length c))%Z →
    let '(r, l') := RangeFetchLogs key a b l in
    files l' = files l ∧ (fine l → fine l') ∧
    match r with
    | Ok s => yields s (slice a b c) ∧ (fine l → (stream_content s).2 = None)
    | Err _ => ¬ fine l
    end;
  fetch_law key c l : files l !! key = Some c →
    let '(r, l') := FetchLogs key l in
    files l' = files l ∧ (fine l → fine l') ∧
    match r with
    | Ok s => yields s c ∧ (fine l → (stream_content s).2 = None)
    | Err _ => ¬ fine l
    end
}.

(** ** The answer *)

(** What the endpoint is to answer of a log. *)
Definition expected (log : option bytes) (rangeHeader : string) : Response :=
  match log with
  | None => JSON_map StatusNoContent [("message", VText "file was empty or did not exist")]
  | Some log =>
      if rangeHeader =b "" then mkResponse StatusOK text_plain (BBytes log)
      else match parse_range rangeHeader (Z.of_nat (length log)) with
           | inr response => response
           | inl (a, b) =>
               mkResponse StatusPartialContent
                 (<["Content-Range" := content_range a b (Z.of_nat (length log))]> text_plain)
                 (BBytes (slice a b log))
           end
  end.

(** The log that counts as there. *)
Definition visible (empty_exists : bool) (log : option bytes) : option bytes :=
  match log with Some [] => if empty_exists then Some [] else None | _ => log end.

Lemma parse_range_bounds header size a b :
  parse_range header size = inl (a, b) → (0 <= a <= b)%Z ∧ (b < size)%Z.
Proof.
  unfold parse_range. destruct (Atoi _) as [a0|]; [|done]. destruct (if bool_decide (_ = "") then _ else _) as [a1|]; [|done].
  destruct (bool_decide (a1 < a0)%Z || _ || _) eqn:E; [done|]. intros [= <- <-].
  apply orb_false_iff in E as [[E1%bool_decide_eq_false E2%bool_decide_eq_false]%orb_false_iff
    E3%bool_decide_eq_false]. lia.
Qed.

Lemma parse_range_no_bytes header size r : parse_range header size = inr r → ∀ d, rs_body r ≠ BBytes d.
Proof. unfold parse_range. repeat case_match; intros [= <-] d; done. Qed.

Section serve.
Context {L : Type} `{LogFetcher L} (files : L → gmap string bytes) (fine : L → Prop) (empty_exists : bool).
Context `{!FetcherLaws files fine empty_exists}.

(** An answer that carries a log carries the one that was asked for. *)
Definition honest (log : option bytes) (header : string) (r : Response) : Prop :=
  ∀ data, rs_body r = BBytes data → r = expected log header.

Lemma honest_other log header r : (∀ d, rs_body r ≠ BBytes d) → honest log header r.
Proof using. intros Hr d Hd. by apply Hr in Hd. Qed.

Lemma copy_honest log header status headers s data failed :
  yields s data → (∀ d, rs_body failed ≠ BBytes d) →
  expected log header = mkResponse status headers (BBytes data) →
  honest log header (copy status headers s failed) ∧
  ((stream_content s).2 = None → copy status headers s failed = expected log header).
Proof using.
  intros Hy Hf He. unfold copy, yields in *. destruct (stream_content s) as [d [e|]]; simpl in *.
  - split; [by apply honest_other|done].
  - rewrite (Hy eq_refl), He. by split; [intros ? _|].
Qed.

Lemma ServeLog_spec run pod header l :
  let '(r, l') := ServeLogWithRange run pod header l in
  let log := visible empty_exists (files l !! log_key run pod) in
  files l' = files l ∧
  ∃ response, r = Ok response ∧ honest log header response ∧ (fine l → response = expected log header).
Proof.
  unfold ServeLogWithRange, mbind, M_bind, try. set (key := log_key run pod).
  pose proof (exists_law key l) as He. destruct (LogFileExists key l) as [[[ex n]|e] l1];
    destruct He as (Hf1 & Hfine1 & He).
  2:{ split; [done|]. eexists. split; [done|]. split; [by apply honest_other|done]. }
  destruct ex.
  2:{ split; [done|]. eexists. split; [done|]. split; [by apply honest_other|].
      intros Hl. destruct (He Hl) as [-> | [-> Hem]]; [done|]. unfold visible. by rewrite Hem. }
  destruct He as (c & Hc & -> & Hem).
  assert (visible empty_exists (files l !! key) = Some c) as ->.
  { rewrite Hc. destruct c; [|done]. simpl. by rewrite Hem. }
  rewrite <- Hf1 in Hc. case_bool_decide as Hh.
  - pose proof (fetch_law key c l1 Hc) as Hr. destruct (FetchLogs key l1) as [[s|e] l2];
      destruct Hr as (Hf2 & Hfine2 & Hr); (split; [congruence|]); eexists; (split; [done|]).
    + destruct Hr as [Hy Hn].
      edestruct (copy_honest (Some c) header StatusOK text_plain s c) as [H1 H2]; [done| |..].
      3:{ split; [exact H1|]. intros Hl. by apply H2, Hn, Hfine1. }
      * done.
      * unfold expected. by rewrite bool_decide_true.
    + split; [by apply honest_other|]. intros Hl. by destruct (Hr (Hfine1 Hl)).
  - destruct (parse_range header _) as [[a b]|response] eqn:Ep.
    + destruct (parse_range_bounds _ _ _ _ Ep) as [Hab Hbc].
      pose proof (range_law key c a b l1 Hc Hab Hbc) as Hr.
      destruct (RangeFetchLogs key a b l1) as [[s|e] l2];
        destruct Hr as (Hf2 & Hfine2 & Hr); (split; [congruence|]); eexists; (split; [done|]).
      * destruct Hr as [Hy Hn].
        edestruct (copy_honest (Some c) header StatusPartialContent) as [H1 H2]; [exact Hy| | |].
        3:{ split; [exact H1|]. intros Hl. by apply H2, Hn, Hfine1. }
        -- done.
        -- unfold expected. by rewrite bool_decide_false, Ep.
      * split; [by apply honest_other|]. intros Hl. by destruct (Hr (Hfine1 Hl)).
    + split; [done|]. eexists. split; [done|]. split.
      * apply honest_other. by apply (parse_range_no_bytes header (Z.of_nat (length c))).
      * intros _. unfold expected. by rewrite bool_decide_false, Ep.
Qed.

End serve.

(** C20: Whatever fails, a response that carries bytes of a log carries exactly those
    that were asked for: the whole log under status 200 without a Range header, the
    bytes from the first to the last position, both included, under status 206 with
    one; the logs are left as they are.  When nothing fails the answer is the
    expected one: no content for a missing log, an error for a range that does not
    lie within the log, and otherwise those bytes. *)
Theorem served_log_exact {L : Type} `{LogFetcher L} (files : L → gmap string bytes) (fine : L → Prop)
    (empty_exists : bool) `{!FetcherLaws files fine empty_exists} (run : Z) (pod header : string) (l : L) :
  ∃ response,
    (ServeLogWithRange run pod header l).1 = Ok response ∧
    files (ServeLogWithRange run pod header l).2 = files l ∧
    (∀ data, rs_body response = BBytes data →
       ∃ log, files l !! log_key run pod = Some log ∧
         ((header = "" ∧ rs_status response = StatusOK ∧ data = log) ∨
          ∃ a b, parse_range header (Z.of_nat (length log)) = inl (a, b) ∧ (0 <= a <= b)%Z ∧
            (b < Z.of_nat (length log))%Z ∧ rs_status response = StatusPartialContent ∧
            data = slice a b log)) ∧
    (fine l → response = expected (visible empty_exists (files l !! log_key run pod)) header).
Proof.
  pose proof (ServeLog_spec files fine empty_exists run pod header l) as Hs.
  destruct (ServeLogWithRange run pod header l) as [r l'].
  destruct Hs as (Hf & response & -> & Hh & He). exists response. split_and!; try done.
  intros data Hd. specialize (Hh data Hd). subst response. unfold expected in Hd |- *.
  destruct (visible empty_exists (files l !! log_key run pod)) as [log|] eqn:Ev; [|done].
  exists log. split; [by destruct (files l !! log_key run pod) as [[]|]; destruct empty_exists|].
  case_bool_decide as Eh; [left; by injection Hd as ->|]. right.
  destruct (parse_range header _) as [[a b]|rsp] eqn:Ep.
  - exists a, b. destruct (parse_range_bounds _ _ _ _ Ep). split_and!; try done; try lia.
    by injection Hd as ->.
  - by apply (parse_range_no_bytes _ _ _ Ep) in Hd.
Qed.

(** ** Files keep the promise *)

Definition fine_disk (d : Disk) : Prop := dk_faults d = [].

Lemma disk_call_law (d : Disk) :
  let '(r, d') := disk_call d in
  dk_files d' = dk_files d ∧ (fine_disk d → fine_disk d' ∧ r = Ok None) ∧ is_ok r = true.
Proof.
  unfold disk_call, fine_disk. simpl. split; [done|]. split; [|done]. by intros ->.
Qed.

Lemma reader_law data d :
  let '(r, d') := FsFetch.reader data d in
  dk_files d' = dk_files d ∧ (fine_disk d → fine_disk d') ∧
  ∃ s, r = Ok s ∧ yields s data ∧ (fine_disk d → (stream_content s).2 = None).
Proof.
  unfold FsFetch.reader, mbind, M_bind. pose proof (disk_call_law d) as Hc.
  destruct (disk_call d) as [[f|e] d']; destruct Hc as (Hf & Hh & Hok); [|done].
  split; [done|]. split; [by intros []%Hh|]. eexists. split; [done|].
  destruct f as [[n e]|]; [|done]. split; [done|]. by intros [_ [=]]%Hh.
Qed.

(** A call of the file system that went well, before [k]. *)
Lemma disk_step {A} (k : option (nat * GoError) → M Disk A) d (Q : result A → Disk → Prop) :
  (∀ d', dk_files d' = dk_files d → (fine_disk d → fine_disk d') →
     (let '(r, d'') := k None d' in Q r d'') ∧
     (¬ fine_disk d → ∀ n e, let '(r, d'') := k (Some (n, e)) d' in Q r d'')) →
  let '(r, d'') := (disk_call ≫= k) d in Q r d''.
Proof.
  intros Hk. unfold mbind, M_bind. pose proof (disk_call_law d) as Hc.
  destruct (disk_call d) as [[f|e] d'] eqn:Ed; destruct Hc as (Hf & Hh & Hok); [|done].
  destruct (Hk d' Hf) as [H1 H2]; [by intros []%Hh|].
  destruct f as [[n e]|]; [|exact H1]. apply H2. by intros [_ [=]]%Hh.
Qed.

Lemma Open_law key d c : dk_files d !! key = Some c →
  let '(r, d') := FsFetch.Open key d in
  dk_files d' = dk_files d ∧ (fine_disk d → fine_disk d') ∧
  match r with Ok data => data = c | Err _ => ¬ fine_disk d end.
Proof.
  intros Hc. unfold FsFetch.Open.
  apply (disk_step _ d (λ r d', dk_files d' = dk_files d ∧ (fine_disk d → fine_disk d') ∧
    match r with Ok data => data = c | Err _ => ¬ fine_disk d end)).
  intros d' Hf Hh. split; [|by intros Hn n e].
  unfold mbind, M_bind, gets. by rewrite Hf, Hc.
Qed.

Lemma Seek_law start data d : (0 <= start)%Z →
  let '(r, d') := FsFetch.Seek start data d in
  dk_files d' = dk_files d ∧ (fine_disk d → fine_disk d') ∧
  match r with Ok rest => rest = drop (Z.to_nat start) data | Err _ => ¬ fine_disk d end.
Proof.
  intros Hs. unfold FsFetch.Seek.
  apply (disk_step _ d (λ r d', dk_files d' = dk_files d ∧ (fine_disk d → fine_disk d') ∧
    match r with Ok rest => rest = drop (Z.to_nat start) data | Err _ => ¬ fine_disk d end)).
  intros d' Hf Hh. split; [|by intros Hn n e]. by rewrite bool_decide_false by lia.
Qed.

(** A reader at the end of a call that went well so far. *)
Lemma reader_after data d d0 :
  dk_files d = dk_files d0 → (fine_disk d0 → fine_disk d) →
  let '(r, d') := FsFetch.reader data d in
  dk_files d' = dk_files d0 ∧ (fine_disk d0 → fine_disk d') ∧
  match r with
  | Ok s => yields s data ∧ (fine_disk d0 → (stream_content s).2 = None)
  | Err _ => ¬ fine_disk d0
  end.
Proof.
  intros Hf Hh. pose proof (reader_law data d) as Hr.
  destruct (FsFetch.reader data d) as [r d']. destruct Hr as (Hf' & Hh' & s & -> & Hy & Hn).
  split; [congruence|]. split; [by intros ?%Hh%Hh'|]. split; [done|]. by intros ?%Hh%Hn.
Qed.

#[global] Instance Disk_fetcher_laws : FetcherLaws dk_files fine_disk true.
Proof.
  split.
  - intros key d. cbn [LogFileExists Disk_fetcher]. unfold FsFetch.LogFileExists, FsFetch.Stat.
    unfold mbind at 1, M_bind at 1, try. unfold mbind at 1, M_bind at 1.
    pose proof (disk_call_law d) as Hc. destruct (disk_call d) as [[f|e] d']; destruct Hc as (Hf & Hh & Hok); [|done].
    assert (fine_disk d → fine_disk d') as Hh' by (by intros []%Hh).
    destruct f as [[n e]|].
    + assert (¬ fine_disk d) as Hn by (by intros [_ [=]]%Hh). unfold throw. case_bool_decide; split_and!; done.
    + unfold gets, mbind, M_bind. rewrite Hf. destruct (dk_files d !! key) as [c|] eqn:Ec.
      * split_and!; try done. by exists c.
      * unfold throw. rewrite bool_decide_true by done. split_and!; try done. by left.
  - intros key c a b d Hc Hab Hb. cbn [RangeFetchLogs Disk_fetcher]. unfold FsFetch.RangeFetchLogs.
    unfold mbind, M_bind. pose proof (Open_law key d c Hc) as Ho.
    destruct (FsFetch.Open key d) as [[data|e] d1]; destruct Ho as (Hf1 & Hh1 & Ho); [subst data|done].
    pose proof (Seek_law a c d1) as Hs. destruct (FsFetch.Seek a c d1) as [[rest|e] d2];
      destruct Hs as (Hf2 & Hh2 & Hs); try lia; [subst rest|].
    + apply reader_after; [congruence|auto].
    + split_and!; [congruence|auto|]. by intros ?%Hh1%Hs.
  - intros key c d Hc. cbn [FetchLogs Disk_fetcher]. unfold FsFetch.FetchLogs, mbind, M_bind.
    pose proof (Open_law key d c Hc) as Ho.
    destruct (FsFetch.Open key d) as [[data|e] d1]; destruct Ho as (Hf1 & Hh1 & Ho); [subst data|done].
    by apply reader_after.
Qed.

(** ** So does S3 *)

Class S3ReaderLaws {B : Type} `{S3Reader B} (objects : B → gmap string bytes) (fine : B → Prop) := {
  head_law key b : let '(r, b') := HeadObject key b in
    objects b' = objects b ∧ (fine b → fine b') ∧
    match r with
    | Ok (Some n) => ∃ c, objects b !! key = Some c ∧ n = Z.of_nat (length c)
    | Ok None => ¬ fine b
    | Err _ => fine b → objects b !! key = None
    end;
  get_law key c b : objects b !! key = Some c →
    let '(r, b') := GetObject key None b in
    objects b' = objects b ∧ (fine b → fine b') ∧
    match r with
    | Ok s => yields s c ∧ (fine b → (stream_content s).2 = None)
    | Err _ => ¬ fine b
    end;
  get_range_law key c start end_ b : objects b !! key = Some c →
    (0 <= start <= end_)%Z → (end_ < Z.of_nat (length c))%Z →
    let '(r, b') := GetObject key (Some (S3Fetch.range_text start end_)) b in
    objects b' = objects b ∧ (fine b → fine b') ∧
    match r with
    | Ok s => yields s (slice start end_ c) ∧ (fine b → (stream_content s).2 = None)
    | Err _ => ¬ fine b
    end
}.

Section s3.
Context {B : Type} `{S3Reader B} (objects : B → gmap string bytes) (fine : B → Prop).
Context `{!S3ReaderLaws objects fine}.

#[global] Instance s3_fetcher_laws : @FetcherLaws B s3LogFetcher objects fine false.
Proof using Type*.
  split.
  - intros key b. cbn [LogFileExists s3LogFetcher]. unfold S3Fetch.LogFileExists, mbind, M_bind, try.
    pose proof (head_law key b) as Hh. destruct (HeadObject key b) as [[[n|]|e] b'];
      destruct Hh as (Hf & Hfine & Hr); cbn.
    + destruct Hr as (c & Hc & ->). case_bool_decide as E; cbn; split_and!; try done.
      * intros _. right. split; [|done]. rewrite Hc. by destruct c.
      * exists c. split_and!; try done. by intros ->.
    + split_and!; try done.
    + split_and!; try done. intros Hb. left. by apply Hr.
  - intros key c a e b Hc Ha Hb. by apply get_range_law.
  - intros key c b Hc. by apply get_law.
Qed.

End s3.

(** ** Range headers *)

Lemma TrimPrefix_app p s : TrimPrefix p (p +:+ s) = s.
Proof.
  unfold TrimPrefix. replace (String.prefix p (p +:+ s)) with true.
  - rewrite string_length_app.
    assert (Hs : ∀ m, String.length s <= m → String.substring 0 m s = s).
    { induction s as [|c s IH]; intros [|m] Hm; simpl in *; try done; [lia|]. by rewrite IH by lia. }
    assert (H : ∀ m, String.length s <= m → String.substring (String.length p) m (p +:+ s) = s);
      [|apply H; lia].
    induction p as [|c p IH]; [exact Hs|]. intros m Hm. apply IH, Hm.
  - symmetry. induction p as [|c p IH]; simpl; [by destruct s|].
    destruct (Ascii.ascii_dec c c); [exact IH|done].
Qed.

Lemma free_of_hyphen (n : Z) : (0 <= n)%Z → free_of hyphen (Itoa n) = true.
Proof.
  intros Hn. unfold Itoa. destruct n as [|p|p]; [done| |lia].
  by apply (free_of_pretty (Npos p)).
Qed.

(** The header that asks for the bytes [a] to [b]. *)
Lemma parse_range_text a b size :
  (0 <= a <= b)%Z → (b < size)%Z → is_int64 size →
  parse_range (S3Fetch.range_text a b) size = inl (a, b).
Proof.
  intros Hab Hb Hs. unfold is_int64 in Hs. unfold parse_range, S3Fetch.range_text.
  rewrite TrimPrefix_app. change ("-" +:+ Itoa b) with (String hyphen (Itoa b)).
  rewrite split_app, split_free by (apply free_of_hyphen; lia).
  change (default "" (head [Itoa a; Itoa b])) with (Itoa a). change (default "" ([Itoa a; Itoa b] !! 1)) with (Itoa b).
 
  rewrite Atoi_Itoa by (unfold is_int64; lia).
  assert (Hi : Atoi (Itoa b) = Ok b) by (apply Atoi_Itoa; unfold is_int64; lia).
  simpl. rewrite bool_decide_false, Hi by (intros E; by rewrite E in Hi).
  by rewrite !bool_decide_false by lia.
Qed.

(** C21: What a worker stored of a pod's log is what the server serves of it, with any
    log store that keeps its promises and any fetcher that reads the same logs:
    the whole log, and for a Range header any part of it. *)
Theorem stored_log_served {C B L : Type} `{LogStoreLaws C B} `{LogFetcher L}
    (files : L → gmap string bytes) (fine : L → Prop) (empty_exists : bool)
    `{!FetcherLaws files fine empty_exists} run pod c cs s log (st : Logs C B) c1 :
  ls_healthy (lg_store st) → sp_Containers (p_Spec pod) = c :: cs →
  GetLogs_Stream (p_Namespace pod) (p_Name pod) (c_Name c) ls_timeout (lg_kube st) = (Ok s, c1) →
  stream_content s = (log, None) → log ≠ [] → (Z.of_nat (length log) <= ls_limit)%Z →
  is_int64 (Z.of_nat (length log)) →
  let '(r, st') := UploadLogs run pod st in
  r = Ok tt ∧
  ∀ l, fine l → files l = ls_logs (lg_store st') →
    (ServeLogWithRange run (p_UID pod) "" l).1 = Ok (mkResponse StatusOK text_plain (BBytes log)) ∧
    ∀ a b, (0 <= a <= b)%Z → (b < Z.of_nat (length log))%Z →
      ∃ headers,
        (ServeLogWithRange run (p_UID pod) (S3Fetch.range_text a b) l).1 =
          Ok (mkResponse StatusPartialContent headers (BBytes (slice a b log))) ∧
        headers !! "Content-Range" = Some (content_range a b (Z.of_nat (length log))).
Proof.
  intros Hh Hc Hs Hlog Hne Hlim Hlen.
  destruct (upload_law run pod c cs s log st c1 Hh Hc Hs Hlog Hne Hlim) as (b' & -> & _ & Hb).
  split; [done|]. intros l Hl Hf. cbn [lg_store] in Hf.
  assert (Hx : ∀ header, (ServeLogWithRange run (p_UID pod) header l).1 = Ok (expected (Some log) header)).
  { intros header. pose proof (ServeLog_spec files fine empty_exists run (p_UID pod) header l) as Hx.
    destruct (ServeLogWithRange run (p_UID pod) header l) as [r l'].
    destruct Hx as (_ & response & -> & _ & Hx). rewrite (Hx Hl). do 2 f_equal.
    change (log_key run (p_UID pod)) with (log_name run pod). rewrite Hf, Hb, lookup_insert_eq. by destruct log. }
  split; [by rewrite Hx|]. intros a b Hab Hb'. rewrite Hx. unfold expected.
  rewrite parse_range_text by done. eexists. split; [done|]. apply lookup_insert_eq.
Qed.

(** ** The log of a running pod *)

(** A connection on which every message is sent. *)
Record Conn := mkConn { cn_sent : list (MessageType * bytes) }.

#[global] Instance Conn_socket : WebSocket Conn := {
  WriteMessage kind data := modify (λ c, mkConn (cn_sent c ++ [(kind, data)]))
}.

Definition is_text (m : MessageType * bytes) : bool :=
  match m.1 with TextMessage => true | CloseMessage => false end.

Definition texts (c : Conn) : bytes := mjoin (snd <$> where_ is_text (cn_sent c)).

Lemma texts_send c data : texts (mkConn (cn_sent c ++ [(TextMessage, data)])) = texts c ++ data.
Proof.
  unfold texts, where_. simpl. rewrite List.filter_app, fmap_app, join_app. simpl. by rewrite app_nil_r.
Qed.

Lemma stream_loop_sends fuel : ∀ s (c : Conn), stream_size s < fuel →
  ∃ c' lost, Ws.stream_loop fuel s c = (Ok tt, c') ∧ length lost <= 1024 ∧
    texts c' ++ lost = texts c ++ (stream_content s).1 ∧
    (∀ m, m ∈ cn_sent c' → m ∈ cn_sent c ∨ is_text m = true).
Proof.
  induction fuel as [|fuel IH]; intros s c Hf; [lia|]. cbn [Ws.stream_loop].
  destruct (Read 1024 s) as [[d e] s'] eqn:Er.
  pose proof (Read_content 1024 s d e s' ltac:(lia) Er) as [Hd He]. destruct e.
  - destruct He as [He Hsz]. unfold mbind, M_bind, try. cbn [WriteMessage Conn_socket modify].
    destruct (IH s' (mkConn (cn_sent c ++ [(TextMessage, d)]))) as (c' & lost & E & Hl & Ht & Hm); [lia|].
    exists c', lost. split; [exact E|]. split; [done|]. split.
    + by rewrite Ht, texts_send, He, <- app_assoc.
    + intros m [Hin|Hin]%Hm; [|by right]. simpl in Hin.
      apply elem_of_app in Hin as [|Hin]; [by left|]. right. by apply list_elem_of_singleton in Hin as ->.
  - exists c, d. rewrite He. split_and!; [done|lia|done|by left].
  - exists c, d. rewrite He. split_and!; [done|lia|done|by left].
Qed.

(** Following a pod's log sends it up to at most its last 1024 bytes: what the last
    read hands out together with its error is not sent. *)
Theorem followed_log_sent {D C : Type} `{DbManager D} `{PodLogs C} pod ns name s
    (st : @Ws.Socket D C Conn) d1 k1 :
  pod ≠ "" → sdb_GetPodNameAndNamespace pod (Ws.so_db st) = (Ok (ns, name), d1) →
  GetLogs_Stream ns name "" None (Ws.so_kube st) = (Ok s, k1) →
  cn_sent (Ws.so_conn st) = [] →
  ∃ lost, let conn := Ws.so_conn (Ws.StreamLogs pod st).2 in
    texts conn ++ lost = (stream_content s).1 ∧ length lost <= 1024 ∧
    last (cn_sent conn) = Some (CloseMessage, String.list_byte_of_string "finished").
Proof.
  intros Hp Hdb Hs Hc.
  destruct (stream_loop_sends (S (stream_size s)) s (Ws.so_conn st)) as (c' & lost & E & Hl & Ht & _); [lia|].
  assert (Er : Ws.StreamLogs pod st = (Ok tt, Ws.mkSocket d1 k1
    (mkConn (cn_sent c' ++ [(CloseMessage, String.list_byte_of_string "finished")])))).
  { unfold Ws.StreamLogs. rewrite bool_decide_false by done.
    unfold mbind at 1, M_bind at 1, try at 1, Ws.with_db. rewrite Hdb.
    unfold mbind at 1, M_bind at 1, try at 1, Ws.with_kube. cbn [Ws.so_kube Ws.so_conn Ws.so_db]. rewrite Hs.
    unfold Ws.with_conn, mbind at 1, M_bind at 1. cbn [Ws.so_kube Ws.so_conn Ws.so_db]. by rewrite E. }
  exists lost. rewrite Er. cbn [snd Ws.so_conn cn_sent]. rewrite last_snoc. split_and!; [|done..].
  revert Ht. unfold texts, where_. cbn [cn_sent]. rewrite Hc, List.filter_app, fmap_app, join_app. simpl.
  by rewrite app_nil_r.
Qed.

(** The end of a log that arrives together with the end of the stream is lost. *)
Theorem last_bytes_lost (b : Byte.byte) :
  texts (Ws.stream_loop 3 [([b], More); ([b], AtEOF)] (mkConn [])).2 = [b].
Proof. done. Qed.

(** ** Witnesses *)

Definition one_log : Disk := mkDisk {[ "7/uid-7-log.txt" := log_text ]} [].

Lemma served_log_exact_witness :
  ∃ response,
    (ServeLogWithRange 7 "uid-7" "bytes=1-3" one_log).1 = Ok response ∧
    rs_status response = StatusPartialContent ∧ rs_body response = BBytes [Byte.x65; Byte.x6c; Byte.x6c].
Proof.
  destruct (served_log_exact dk_files fine_disk true 7 "uid-7" "bytes=1-3" one_log)
    as (response & E & _ & _ & H).
  exists response. split; [exact E|]. rewrite (H eq_refl). split; reflexivity.
Defined.

#[local] Instance hello : PodLogs Cluster := demo_logs [(log_text, AtEOF)].

Lemma stored_log_served_witness :
  let '(r, st') := UploadLogs (L := Logs Cluster Disk) 7 logged_pod (mkLogs empty_cluster (mkDisk ∅ []) ∅) in
  (ServeLogWithRange 7 "uid-7" "" (lg_store st')).1 = Ok (mkResponse StatusOK text_plain (BBytes log_text)).
Proof.
  pose proof (stored_log_served dk_files fine_disk true 7 logged_pod logged_container [] [(log_text, AtEOF)]
    log_text (mkLogs empty_cluster (mkDisk ∅ []) ∅) empty_cluster) as H.
  destruct (UploadLogs 7 logged_pod _) as [r st'] eqn:E.
  assert (fine_disk (lg_store st')) as Hf by (vm_compute in E; injection E as _ <-; reflexivity).
  apply H; [reflexivity|reflexivity|reflexivity|reflexivity|discriminate| | |exact Hf|reflexivity].
  - vm_compute. discriminate.
  - split; [vm_compute; discriminate|reflexivity].
Defined.
