(* ===== verification/Unstructured.v ===== *)
(** * Objects without a type (unstructured.Unstructured, encoding/json)

    The JSON values that the server sends to the API server, the accesses by a
    path of the package unstructured as an interface with what it documents, and
    the decoding of a DAG's spec by the JSON names in the tags of dag_types.go and
    dagrun_types.go. *)

From S2P Require Import Prelude Api.
Local Open Scope kontroler_scope.

(** ** Values *)

(** A Go map is a list of fields with distinct names; [JRaw] is a value that the
    project only passes through, as its text. *)
Inductive Json :=
| JNull
| JBool (b : bool)
| JNumber (n : Z)
| JString (s : string)
| JRaw (text : string)
| JArray (l : list Json)
| JObject (fields : list (string * Json)).

Fixpoint field (name : string) (o : list (string * Json)) : option Json :=
  match o with
  | [] => None
  | (k, v) :: o' => if k =b name then Some v else field name o'
  end.

(** [m[name] = v]. *)
Fixpoint set_field (name : string) (v : Json) (o : list (string * Json)) : list (string * Json) :=
  match o with
  | [] => [(name, v)]
  | (k, w) :: o' => if k =b name then (k, v) :: o' else (k, w) :: set_field name v o'
  end.

Definition strings (l : list string) : Json := JArray (JString <$> l).

(** *** Paths *)

(** The functions of unstructured: the value that is found, if any. *)
Class Accessors := {
  NestedString : Json → list string → result (option string);
  NestedInt64 : Json → list string → result (option Z);
  SetNestedField : Json → Json → list string → result Json
}.

(** What they document for paths of two names, which are the ones in use. *)
Class AccessorLaws `{Accessors} := {
  string_law o p k1 k2 s : field k1 o = Some (JObject p) → field k2 p = Some (JString s) →
    NestedString (JObject o) [k1; k2] = Ok (Some s);
  string_missing_law o k1 k2 : field k1 o = None → NestedString (JObject o) [k1; k2] = Ok None;
  int64_law o p k1 k2 n : field k1 o = Some (JObject p) → field k2 p = Some (JNumber n) →
    NestedInt64 (JObject o) [k1; k2] = Ok (Some n);
  int64_missing_law o k1 k2 : field k1 o = None → NestedInt64 (JObject o) [k1; k2] = Ok None;
  set_law o p k1 k2 v : field k1 o = Some (JObject p) →
    SetNestedField (JObject o) v [k1; k2] = Ok (JObject (set_field k1 (JObject (set_field k2 v p)) o))
}.

(** ** Decoding into a struct *)

Abbreviation Dec A := (Json → option A).

Definition d_string : Dec string := λ v, match v with JString s => Some s | _ => None end.
Definition d_bool : Dec bool := λ v, match v with JBool b => Some b | _ => None end.
Definition d_int : Dec Z := λ v, match v with JNumber n => Some n | _ => None end.
Definition d_raw : Dec string := λ v, match v with JRaw t => Some t | _ => None end.
Definition d_list {A} (d : Dec A) : Dec (list A) := λ v, match v with JArray l => mapM d l | _ => None end.
Definition d_some {A} (d : Dec A) : Dec (option A) := λ v, Some <$> d v.
Definition d_struct {A} (d : list (string * Json) → option A) : Dec A := λ v,
  match v with JObject o => d o | _ => None end.
Definition d_map : Dec (gmap string string) := λ v,
  match v with
  | JObject o => list_to_map <$> mapM (λ kv : string * Json, s ← d_string kv.2; Some (kv.1, s)) o
  | _ => None
  end.

(** A field of a struct: its zero value when it is missing or null. *)
Definition get {A} (zero : A) (d : Dec A) (name : string) (o : list (string * Json)) : option A :=
  match field name o with
  | None | Some JNull => Some zero
  | Some v => d v
  end.

(** *** Pod templates *)

Definition d_resources : Dec ResourceRequirements := d_struct (λ o,
  limits ← get ∅ d_map "limits" o;
  requests ← get ∅ d_map "requests" o;
  Some (mkResourceRequirements limits requests)).

Definition d_volume : Dec Volume := d_struct (λ o,
  name ← get "" d_string "name" o;
  emptyDir ← get None (d_some (d_struct (λ _, Some tt))) "emptyDir" o;
  claim ← get None (d_some (d_struct (λ o, mkPVCVolumeSource <$> get "" d_string "claimName" o)))
            "persistentVolumeClaim" o;
  Some (mkVolume name emptyDir claim)).

Definition d_volume_mount : Dec VolumeMount := d_struct (λ o,
  name ← get "" d_string "name" o;
  path ← get "" d_string "mountPath" o;
  ro ← get false d_bool "readOnly" o;
  Some (mkVolumeMount name path ro)).

Definition d_toleration : Dec Toleration := d_struct (λ o,
  key ← get "" d_string "key" o;
  operator ← get "" d_string "operator" o;
  value ← get "" d_string "value" o;
  effect ← get "" d_string "effect" o;
  seconds ← get None (d_some d_int) "tolerationSeconds" o;
  Some (mkToleration key operator value effect seconds)).

Definition d_affinity : Dec Affinity := d_struct (λ o,
  node ← get None (d_some d_raw) "nodeAffinity" o;
  pod ← get None (d_some d_raw) "podAffinity" o;
  anti ← get None (d_some d_raw) "podAntiAffinity" o;
  Some (mkAffinity node pod anti)).

Definition d_template : Dec PodTemplateSpec := d_struct (λ o,
  volumes ← get [] (d_list d_volume) "volumes" o;
  mounts ← get [] (d_list d_volume_mount) "volumeMounts" o;
  secrets ← get [] (d_list (d_struct (λ o, mkLocalObjectReference <$> get "" d_string "name" o)))
              "imagePullSecrets" o;
  security ← get None (d_some (d_struct (λ o, mkPodSecurityContext <$>
                get None (d_some d_int) "fsGroup" o))) "securityContext" o;
  selector ← get ∅ d_map "nodeSelector" o;
  tolerations ← get [] (d_list d_toleration) "tolerations" o;
  affinity ← get None (d_some d_affinity) "affinity" o;
  account ← get "" d_string "serviceAccountName" o;
  deadline ← get None (d_some d_int) "activeDeadlineSeconds" o;
  mount ← get None (d_some d_bool) "automountServiceAccountToken" o;
  resources ← get None (d_some d_resources) "resources" o;
  Some (mkPodTemplateSpec volumes mounts secrets security selector tolerations affinity account deadline
          mount resources)).

(** *** DAGs *)

Definition d_parameter : Dec DagParameterSpec := d_struct (λ o,
  name ← get "" d_string "name" o;
  value ← get "" d_string "defaultValue" o;
  secret ← get "" d_string "defaultFromSecret" o;
  Some (mkDagParameterSpec name value secret)).

Definition d_backoff : Dec Backoff := d_struct (λ o, mkBackoff <$> get 0%Z d_int "limit" o).

Definition d_conditional : Dec Conditional := d_struct (λ o,
  enabled ← get false d_bool "enabled" o;
  codes ← get [] (d_list d_int) "retryCodes" o;
  Some (mkConditional enabled codes)).

Definition d_task_ref : Dec TaskRef := d_struct (λ o,
  name ← get "" d_string "name" o;
  version ← get 0%Z d_int "version" o;
  Some (mkTaskRef name version)).

Definition d_task : Dec TaskSpec := d_struct (λ o,
  name ← get "" d_string "name" o;
  command ← get [] (d_list d_string) "command" o;
  args ← get [] (d_list d_string) "args" o;
  image ← get "" d_string "image" o;
  runAfter ← get [] (d_list d_string) "runAfter" o;
  backoff ← get (mkBackoff 0) d_backoff "backoff" o;
  conditional ← get (mkConditional false []) d_conditional "conditional" o;
  parameters ← get [] (d_list d_string) "parameters" o;
  template ← get None (d_some d_template) "podTemplate" o;
  script ← get "" d_string "script" o;
  injector ← get "" d_string "scriptInjectorImage" o;
  ref ← get None (d_some d_task_ref) "taskRef" o;
  Some (mkTaskSpec name command args image runAfter backoff conditional parameters template script injector
          ref)).

Definition d_webhook : Dec Webhook := d_struct (λ o,
  url ← get "" d_string "url" o;
  ssl ← get false d_bool "verifySSL" o;
  Some (mkWebhook url ssl)).

Definition d_pvc : Dec PVC := d_struct (λ o,
  modes ← get [] (d_list d_string) "accessModes" o;
  selector ← get None (d_some d_raw) "selector" o;
  resources ← get None (d_some d_resources) "resources" o;
  class ← get None (d_some d_string) "storageClassName" o;
  mode ← get None (d_some d_string) "volumeMode" o;
  Some (mkPVC modes selector resources class mode)).

Definition d_workspace : Dec Workspace := d_struct (λ o,
  enabled ← get false d_bool "enable" o;
  pvc ← get emptyPVC d_pvc "pvc" o;
  Some (mkWorkspace enabled pvc)).

Definition d_spec : Dec DAGSpec := d_struct (λ o,
  schedule ← get "" d_string "schedule" o;
  tasks ← get [] (d_list d_task) "task" o;
  parameters ← get [] (d_list d_parameter) "parameters" o;
  webhook ← get (mkWebhook "" false) d_webhook "webhook" o;
  workspace ← get (mkWorkspace false emptyPVC) d_workspace "workspace" o;
  suspended ← get false d_bool "suspended" o;
  dsl ← get "" d_string "dsl" o;
  Some (mkDAGSpec schedule tasks parameters webhook workspace suspended dsl)).

Definition d_run_spec : Dec DagRunSpec := d_struct (λ o,
  dagName ← get "" d_string "dagName" o;
  parameters ← get [] (d_list (d_struct (λ o,
      name ← get "" d_string "name" o;
      value ← get "" d_string "value" o;
      secret ← get "" d_string "fromSecret" o;
      Some (mkParameterSpec name value secret)))) "parameters" o;
  Some (mkDagRunSpec dagName parameters)).

(** The spec of an object. *)
Definition spec_of {A} (d : Dec A) (obj : Json) : option A :=
  match obj with JObject o => v ← field "spec" o; d v | _ => None end.
