(* ===== verification/KClient.v ===== *)
(** * What the server creates in the cluster (internal/server/kClient)

    The forms of the UI become DAGs and DAG runs: convert.go and kClient.go over a
    dynamic client, which is an interface.  What a controller does to an object
    between two calls is part of the client's answers. *)

From S2P Require Import Prelude Api Unstructured.
Local Open Scope kontroler_scope.

(** ** Forms (types.go) *)

Record FormDagParameterSpec := mkFormDagParameterSpec {
  fp_ID : string;
  fp_Name : string;
  fp_IsSecret : bool;
  fp_Value : string
}.

Record FormTaskSpec := mkFormTaskSpec {
  ft_Name : string;
  ft_Command : list string;
  ft_Args : list string;
  ft_Script : string;
  ft_Image : string;
  ft_RunAfter : list string;
  ft_BackoffLimit : Z;
  ft_RetryCodes : list Z;
  ft_Parameters : list string;
  ft_PodTemplate : string;
  ft_TaskRef : option TaskRef
}.

Record DagFormObj := mkDagFormObj {
  fo_Name : string;
  fo_Schedule : string;
  fo_Tasks : list FormTaskSpec;
  fo_Parameters : list FormDagParameterSpec;
  fo_Namespace : string;
  fo_Webhook : Webhook;
  fo_Workspace : option Workspace
}.

Record DagRunForm := mkDagRunForm {
  rf_Name : string;
  rf_RunName : string;
  rf_Parameters : gmap string string;
  rf_Namespace : string
}.

Record DagSuspendForm := mkDagSuspendForm {
  sf_Name : string;
  sf_Namespace : string;
  sf_Suspend : bool
}.

(** ** Conversion (convert.go) *)

Module Convert.

Definition convertFormParameters (params : list FormDagParameterSpec) : list Json :=
  (λ p, JObject [("name", JString (fp_Name p));
                 if fp_IsSecret p then ("defaultFromSecret", JString (fp_Value p))
                 else ("defaultValue", JString (fp_Value p))]) <$> params.

(** [map[string]string] filled in order: the last of equal ids stays. *)
Definition paramNameByID (params : list FormDagParameterSpec) : gmap string string :=
  foldl (λ m p, <[fp_ID p := fp_Name p]> m) ∅ params.

Definition unknown_parameter (t : FormTaskSpec) (pid : string) : GoError :=
  EErrorf ("task " +:+ ft_Name t +:+ " references unknown parameter id " +:+ pid).

Fixpoint param_names (t : FormTaskSpec) (names : gmap string string) (ids : list string)
    : result (list string) :=
  match ids with
  | [] => Ok []
  | pid :: ids' =>
      match names !! pid with
      | None => Err (unknown_parameter t pid)
      | Some n => match param_names t names ids' with
                  | Ok ns => Ok (n :: ns)
                  | Err e => Err e
                  end
      end
  end.

Section convert.
(** [json.Unmarshal] of a text into a [map[string]interface{}]. *)
Context (Unmarshal : string → result (list (string * Json))).

Definition task_ref (t : FormTaskSpec) (r : TaskRef) : list (string * Json) :=
  [("name", JString (ft_Name t));
   ("taskRef", JObject [("name", JString (tr_Name r)); ("version", JNumber (tr_Version r))])].

Definition inline_task (t : FormTaskSpec) (paramNames : list string) : list (string * Json) :=
  [("name", JString (ft_Name t));
   ("image", JString (ft_Image t));
   ("backoff", JObject [("limit", JNumber (ft_BackoffLimit t))]);
   ("parameters", strings paramNames);
   ("conditional", JObject [("enabled", JBool (negb (bool_decide (ft_RetryCodes t = []))));
                            ("retryCodes", JArray (JNumber <$> ft_RetryCodes t))])]
  ++ (if ft_Script t =b "" then [("command", strings (ft_Command t)); ("args", strings (ft_Args t))]
      else [("script", JString (ft_Script t))]).

(** The fields of one task. *)
Definition convert_task (t : FormTaskSpec) (names : gmap string string) : result Json :=
  match param_names t names (ft_Parameters t) with
  | Err e => Err e
  | Ok paramNames =>
      let after := if bool_decide (ft_RunAfter t = []) then [] else [("runAfter", strings (ft_RunAfter t))] in
      match ft_TaskRef t with
      | Some r => Ok (JObject (task_ref t r ++ after))
      | None =>
          if ft_PodTemplate t =b "" then Ok (JObject (inline_task t paramNames ++ after))
          else match Unmarshal (ft_PodTemplate t) with
               | Err e => Err (EWrap ("invalid podTemplate JSON for task " +:+ ft_Name t) e)
               | Ok o => Ok (JObject (inline_task t paramNames ++ [("podTemplate", JObject o)] ++ after))
               end
      end
  end.

Fixpoint convertFormTasks (tasks : list FormTaskSpec) (names : gmap string string) : result (list Json) :=
  match tasks with
  | [] => Ok []
  | t :: tasks' =>
      match convert_task t names with
      | Err e => Err e
      | Ok j => match convertFormTasks tasks' names with
                | Ok js => Ok (j :: js)
                | Err e => Err e
                end
      end
  end.

Definition option_json {A} (f : A → Json) (o : option A) : Json :=
  match o with Some a => f a | None => JNull end.

(** [encoding/json] of a map and of a struct with omitempty. *)
Definition map_json (m : gmap string string) : Json :=
  JObject ((λ kv : string * string, (kv.1, JString kv.2)) <$> map_to_list m).

Definition resources_json (r : ResourceRequirements) : Json :=
  JObject ((if decide (rr_Limits r = ∅) then [] else [("limits", map_json (rr_Limits r))])
           ++ (if decide (rr_Requests r = ∅) then [] else [("requests", map_json (rr_Requests r))])).

Definition workspace_json (w : Workspace) : Json :=
  let pvc := ws_PvcSpec w in
  JObject [("enable", JBool (ws_Enabled w));
           ("pvc", JObject [("accessModes", strings (pvc_AccessModes pvc));
                            ("selector", option_json JRaw (pvc_Selector pvc));
                            ("resources", option_json resources_json (pvc_Resources pvc));
                            ("storageClassName", option_json JString (pvc_StorageClassName pvc));
                            ("volumeMode", option_json JString (pvc_VolumeMode pvc))])].

Definition labels (instance : string) : Json :=
  JObject [("app.kubernetes.io/name", JString "dag");
           ("app.kubernetes.io/instance", JString instance);
           ("app.kubernetes.io/part-of", JString "kontroler");
           ("app.kubernetes.io/created-by", JString "server")].

Definition BuildDAGUnstructured (dagForm : DagFormObj) : result Json :=
  match convertFormTasks (fo_Tasks dagForm) (paramNameByID (fo_Parameters dagForm)) with
  | Err e => Err e
  | Ok tasks =>
      let spec :=
        [("parameters", JArray (convertFormParameters (fo_Parameters dagForm)));
         ("task", JArray tasks)]
        ++ (if wh_URL (fo_Webhook dagForm) =b "" then []
            else [("webhook", JObject [("url", JString (wh_URL (fo_Webhook dagForm)));
                                       ("verifySSL", JBool (wh_VerifySSL (fo_Webhook dagForm)))])])
        ++ match fo_Workspace dagForm with
           | Some w => [("workspace", workspace_json w)]
           | None => []
           end in
      Ok (JObject [("apiVersion", JString "kontroler.greedykomodo/v1alpha1");
                   ("kind", JString "DAG");
                   ("metadata", JObject [("labels", labels (fo_Name dagForm));
                                         ("name", JString (fo_Name dagForm))]);
                   ("spec", JObject spec)])
  end.

End convert.
End Convert.

(** ** The dynamic client (kClient.go) *)

Inductive Resource := dagsGVR | dagRunsGVR.

#[global] Instance Resource_eq_dec : EqDecision Resource.
Proof. solve_decision. Defined.
#[global] Program Instance Resource_countable : Countable Resource :=
  inj_countable' (λ r, match r with dagsGVR => true | dagRunsGVR => false end)
    (λ b, if b then dagsGVR else dagRunsGVR) _.
Next Obligation. by intros []. Qed.

(** What the [select] of [CreateDAG] wakes up on. *)
Inductive WaitEvent := CtxDone | WaitTimeout | WaitTick.

(** The clock counts seconds. *)
Class DynamicClient (K : Type) := {
  dyn_Create (r : Resource) (namespace : string) (obj : Json) : M K Json;
  dyn_Get (r : Resource) (namespace name : string) : M K Json;
  dyn_Update (r : Resource) (namespace : string) (obj : Json) : M K Json;
  dyn_Delete (r : Resource) (namespace name : string) : M K unit;
  dyn_Now : M K Z;
  dyn_Sleep (seconds : Z) : M K unit;
  dyn_Wait : M K WaitEvent
}.

(** [GetName] of an object. *)
Definition GetName (obj : Json) : string :=
  match obj with
  | JObject o => match field "metadata" o with
                 | Some (JObject m) => match field "name" m with Some (JString s) => s | _ => "" end
                 | _ => ""
                 end
  | _ => ""
  end.

Definition wrapped {K A} (msg : string) (m : M K A) : M K A :=
  try m ≫= λ r, match r with Ok a => mret a | Err e => throw (EWrap msg e) end.

Definition lift_result {K A} (r : result A) : M K A :=
  match r with Ok a => mret a | Err e => throw e end.

Record CreateDagRunOpts := mkOpts { RunIDTimeout : Z; Cleanup : bool }.

Definition DefaultCreateDagRunOpts : CreateDagRunOpts := mkOpts 10 true.

Module Client.
Section client.
Context {K : Type} `{DynamicClient K} `{Accessors}.
Context (Unmarshal : string → result (list (string * Json))).

(** *** DAGs *)

(** The labels are a [map[string]string], which the assertion to
    [map[string]interface{}] does not match: they are made again. *)
Definition with_labels (dagForm : DagFormObj) (obj : Json) : Json :=
  match obj with
  | JObject o =>
      let meta := match field "metadata" o with Some (JObject m) => m | _ => [] end in
      JObject (set_field "metadata" (JObject (set_field "name" (JString (fo_Name dagForm))
        (set_field "labels" (Convert.labels (fo_Name dagForm)) meta))) o)
  | _ => obj
  end.

(** The loop that waits for the controller, at most [fuel] ticks. *)
Fixpoint wait_reconciled (fuel : nat) (namespace name : string) : M K unit :=
  match fuel with
  | O => throw (EErrorf "timeout waiting for DAG reconciliation")
  | S fuel' =>
      event ← dyn_Wait;
      match event with
      | CtxDone => throw (EErrorf "context cancelled while waiting for DAG reconciliation")
      | WaitTimeout => throw (EErrorf "timeout waiting for DAG reconciliation")
      | WaitTick =>
          current ← wrapped "failed to get DAG status" (dyn_Get dagsGVR namespace name);
          status ← wrapped "failed to get status conditions"
                     (lift_result (NestedString current ["status"; "phase"]));
          match status with
          | None => wait_reconciled fuel' namespace name
          | Some phase =>
              if phase =b "Failed" then
                message ← wrapped "failed to get message/reason for failed"
                            (lift_result (NestedString current ["status"; "phase"]));
                match message with
                | None => throw (EErrorf "DAG failed to reconcile, but no reason given")
                | Some m => throw (EErrorf ("DAG failed to reconcile, reason: " +:+ m))
                end
              else mret tt
          end
      end
  end.

(** Two minutes of ticks of five seconds. *)
Definition reconcile_ticks : nat := 25.

Definition CreateDAG (dagForm : DagFormObj) : M K unit :=
  if fo_Namespace dagForm =b "" then throw (EErrorf "request contains empty namespace")
  else
    dagObj ← wrapped "failed to build DAG object" (lift_result (Convert.BuildDAGUnstructured Unmarshal dagForm));
    dagResource ← wrapped "failed to create DAG"
                    (dyn_Create dagsGVR (fo_Namespace dagForm) (with_labels dagForm dagObj));
    wait_reconciled reconcile_ticks (fo_Namespace dagForm) (GetName dagResource).

Definition DeleteDAG (namespace name : string) : M K unit := dyn_Delete dagsGVR namespace name.

(** The error of [SetNestedField] is dropped. *)
Definition SuspendDag (req : DagSuspendForm) : M K unit :=
  existing ← dyn_Get dagsGVR (sf_Namespace req) (sf_Name req);
  let updated := match SetNestedField existing (JBool (sf_Suspend req)) ["spec"; "suspended"] with
                 | Ok updated => updated
                 | Err _ => existing
                 end in
  dyn_Update dagsGVR (sf_Namespace req) updated ≫= λ _, mret tt.

(** *** DAG runs *)

Definition validateDagRunInputs (form : DagRunForm) (namespace : string) : result unit :=
  if rf_Name form =b "" then Err (EErrorf "dagrun name cannot be empty")
  else if rf_RunName form =b "" then Err (EErrorf "run name cannot be empty")
  else if namespace =b "" then Err (EErrorf "namespace cannot be empty")
  else Ok tt.

Fixpoint run_parameters (params : list (string * string)) (isSecretMap : gmap string bool)
    : result (list Json) :=
  match params with
  | [] => Ok []
  | (paramName, paramValue) :: params' =>
      match isSecretMap !! paramName with
      | None => Err (EErrorf ("parameter " +:+ paramName +:+ " not found in isSecretMap"))
      | Some isSecret =>
          match run_parameters params' isSecretMap with
          | Ok l => Ok (JObject [("name", JString paramName);
                                 if (isSecret : bool) then ("fromSecret", JString paramValue)
                                 else ("value", JString paramValue)] :: l)
          | Err e => Err e
          end
      end
  end.

(** The parameters are ranged over in some order. *)
Definition createDagRunResource (form : DagRunForm) (isSecretMap : gmap string bool) : result Json :=
  match run_parameters (map_to_list (rf_Parameters form)) isSecretMap with
  | Err e => Err e
  | Ok parameters =>
      Ok (JObject [("apiVersion", JString "kontroler.greedykomodo/v1alpha1");
                   ("kind", JString "DagRun");
                   ("metadata", JObject [("name", JString (rf_RunName form));
                                         ("labels", Convert.labels (rf_Name form))]);
                   ("spec", JObject [("dagName", JString (rf_Name form)); ("parameters", JArray parameters)])])
  end.

Definition timed_out (runName : string) : GoError :=
  EErrorf ("timed out waiting for DagRun " +:+ runName +:+ " to be reconciled").

(** The polling until the deadline, at most [fuel] times. *)
Fixpoint waitForRunID (fuel : nat) (namespace runName : string) (deadline : Z) : M K Z :=
  match fuel with
  | O => throw (timed_out runName)
  | S fuel' =>
      now ← dyn_Now;
      if negb (bool_decide (now < deadline)%Z) then throw (timed_out runName)
      else
        dagRun ← dyn_Get dagRunsGVR namespace runName;
        status ← lift_result (NestedInt64 dagRun ["status"; "dagRunId"]);
        match status with
        | Some id => if id =b 0%Z then dyn_Sleep 1 ≫= λ _, waitForRunID fuel' namespace runName deadline
                     else mret id
        | None => dyn_Sleep 1 ≫= λ _, waitForRunID fuel' namespace runName deadline
        end
  end.

Definition CreateDagRun (drForm : DagRunForm) (isSecretMap : gmap string bool) (namespace : string)
    (opts : CreateDagRunOpts) : M K Z :=
  wrapped "validation failed" (lift_result (validateDagRunInputs drForm namespace)) ≫= λ _,
  dagRun ← wrapped "failed to create dag run resource" (lift_result (createDagRunResource drForm isSecretMap));
  created ← wrapped "failed to create dagrun in kubernetes" (dyn_Create dagRunsGVR namespace dagRun);
  now ← dyn_Now;
  r ← try (waitForRunID (S (Z.to_nat (RunIDTimeout opts))) namespace (rf_RunName drForm)
             (now + RunIDTimeout opts));
  match r with
  | Ok runID => mret runID
  | Err e =>
      if Cleanup opts then
        d ← try (dyn_Delete dagRunsGVR namespace (GetName created));
        match d with
        | Err e' => throw (EErrorf ("run ID error: " +:+ err_Error e +:+ ", cleanup error: " +:+ err_Error e'))
        | Ok _ => throw (EWrap "failed to get run ID" e)
        end
      else throw e
  end.

Definition DeleteDagRun (namespace name : string) : M K unit := dyn_Delete dagRunsGVR namespace name.

End client.
End Client.
