(* ===== verification/KClientSpec.v ===== *)
(** * The forms arrive as they were filled in, and runs do not stay half-made

    A DAG that the server creates reads, by the types of the API, as the form it
    was made of; suspending changes one field; a run is created with its
    parameters and is deleted again when it gets no id in time. *)

From S2P Require Import Prelude Api Unstructured KClient.
Import Convert.
Local Open Scope kontroler_scope.

(** ** Decoding what was encoded *)

Lemma mapM_inverse {A B} (d : B → option A) (f : A → B) (l : list A) :
  (∀ x, x ∈ l → d (f x) = Some x) → mapM d (f <$> l) = Some l.
Proof.
  intros Hd. induction l as [|x l IH]; [done|]. cbn. rewrite (Hd x) by (by left). cbn.
  rewrite IH; [done|]. intros y Hy. apply Hd. by right.
Qed.

Lemma d_strings l : d_list d_string (strings l) = Some l.
Proof. by apply mapM_inverse. Qed.

Lemma d_numbers l : d_list d_int (JArray (JNumber <$> l)) = Some l.
Proof. by apply mapM_inverse. Qed.

Lemma d_map_json m : d_map (map_json m) = Some m.
Proof.
  unfold d_map, map_json. rewrite (mapM_inverse _ (λ kv : string * string, (kv.1, JString kv.2))).
  - cbn. by rewrite list_to_map_to_list.
  - by intros [k v].
Qed.

Lemma get_hit {A} (zero : A) d name o v : field name o = Some v → v ≠ JNull → get zero d name o = d v.
Proof. intros E Hv. unfold get. rewrite E. by destruct v. Qed.

Lemma get_miss {A} (zero : A) d name o : field name o = None → get zero d name o = Some zero.
Proof. intros E. unfold get. by rewrite E. Qed.

Lemma get_null {A} (zero : A) d name o : field name o = Some JNull → get zero d name o = Some zero.
Proof. intros E. unfold get. by rewrite E. Qed.

(** Read the fields of an object that is written out. *)
Ltac read_fields :=
  repeat first
    [ rewrite get_miss by reflexivity
    | rewrite get_null by reflexivity
    | erewrite get_hit by (reflexivity || discriminate)
    | rewrite d_strings | rewrite d_numbers
    | progress cbn [mbind option_bind fmap option_fmap option_map] ].

Lemma d_resources_json r : d_resources (resources_json r) = Some r.
Proof.
  destruct r as [l q]. unfold d_resources, resources_json. cbn [rr_Limits rr_Requests d_struct].
  destruct (decide (l = ∅)) as [->|Hl], (decide (q = ∅)) as [->|Hq]; cbn [app];
    read_fields; rewrite ?d_map_json; read_fields; rewrite ?d_map_json; reflexivity.
Qed.

Lemma get_option {A} (d : Dec A) (f : A → Json) name o (x : option A) :
  field name o = Some (option_json f x) → (∀ a, f a ≠ JNull) → (∀ a, d (f a) = Some a) →
  get None (d_some d) name o = Some x.
Proof.
  intros E Hf Hd. destruct x as [a|]; simpl in E; [|by apply get_null].
  rewrite (get_hit _ _ _ _ _ E (Hf a)). unfold d_some. by rewrite Hd.
Qed.

Lemma d_workspace_json w : d_workspace (workspace_json w) = Some w.
Proof.
  destruct w as [en [modes sel res class mode]]. unfold d_workspace, workspace_json. cbn [d_struct ws_Enabled ws_PvcSpec].
  read_fields. unfold d_pvc. cbn [d_struct pvc_AccessModes pvc_Selector pvc_Resources pvc_StorageClassName pvc_VolumeMode].
  read_fields.
  rewrite (get_option d_raw JRaw _ _ sel) by (reflexivity || done).
  rewrite (get_option d_resources resources_json _ _ res) by (reflexivity || done || (intros; apply d_resources_json)).
  rewrite (get_option d_string JString "storageClassName" _ class) by (reflexivity || done).
  rewrite (get_option d_string JString "volumeMode" _ mode) by (reflexivity || done).
  read_fields. reflexivity.
Qed.

(** ** The DAG of a form *)

Section form.
Context (Unmarshal : string → result (list (string * Json))).

(** The pod template that a text reads as. *)
Definition form_template (text : string) : option (option PodTemplateSpec) :=
  if text =b "" then Some None
  else match Unmarshal text with
       | Ok o => Some <$> d_template (JObject o)
       | Err _ => None
       end.

Definition form_task (t : FormTaskSpec) (params : list string) : option TaskSpec :=
  match ft_TaskRef t with
  | Some r => Some (mkTaskSpec (ft_Name t) [] [] "" (ft_RunAfter t) (mkBackoff 0) (mkConditional false [])
                      [] None "" "" (Some r))
  | None =>
      template ← form_template (ft_PodTemplate t);
      Some (mkTaskSpec (ft_Name t)
              (if ft_Script t =b "" then ft_Command t else [])
              (if ft_Script t =b "" then ft_Args t else [])
              (ft_Image t) (ft_RunAfter t) (mkBackoff (ft_BackoffLimit t))
              (mkConditional (negb (bool_decide (ft_RetryCodes t = []))) (ft_RetryCodes t))
              params template (ft_Script t) "" None)
  end.

Definition form_parameter (p : FormDagParameterSpec) : DagParameterSpec :=
  if fp_IsSecret p then mkDagParameterSpec (fp_Name p) "" (fp_Value p)
  else mkDagParameterSpec (fp_Name p) (fp_Value p) "".

Lemma d_task_ref_task t r :
  d_task (JObject (task_ref t r ++ (if bool_decide (ft_RunAfter t = []) then [] else [("runAfter", strings (ft_RunAfter t))])))
  = Some (mkTaskSpec (ft_Name t) [] [] "" (ft_RunAfter t) (mkBackoff 0) (mkConditional false []) [] None "" ""
            (Some r)).
Proof.
  destruct r as [n v]. unfold d_task, task_ref. cbn [d_struct].
  case_bool_decide as E; [rewrite E|]; cbn [app]; read_fields; reflexivity.
Qed.

(** The fields of an inline task, with its template if it has one. *)
Lemma d_inline_task t params (tpl : option (list (string * Json))) :
  d_task (JObject (inline_task t params
    ++ (match tpl with Some o => [("podTemplate", JObject o)] | None => [] end)
    ++ (if bool_decide (ft_RunAfter t = []) then [] else [("runAfter", strings (ft_RunAfter t))])))
  = (pt ← match tpl with Some o => Some <$> d_template (JObject o) | None => Some None end;
     Some (mkTaskSpec (ft_Name t)
            (if ft_Script t =b "" then ft_Command t else [])
            (if ft_Script t =b "" then ft_Args t else [])
            (ft_Image t) (ft_RunAfter t) (mkBackoff (ft_BackoffLimit t))
            (mkConditional (negb (bool_decide (ft_RetryCodes t = []))) (ft_RetryCodes t))
            params pt (ft_Script t) "" None)).
Proof.
  unfold d_task, inline_task. cbn [d_struct].
  assert (Hc : d_conditional (JObject [("enabled", JBool (negb (bool_decide (ft_RetryCodes t = []))));
    ("retryCodes", JArray (JNumber <$> ft_RetryCodes t))])
    = Some (mkConditional (negb (bool_decide (ft_RetryCodes t = []))) (ft_RetryCodes t))).
  { unfold d_conditional. cbn [d_struct]. read_fields. reflexivity. }
  destruct (decide (ft_Script t = "")) as [Es|Es];
    [rewrite !(bool_decide_true (ft_Script t = "")), ?Es by done
    |rewrite !(bool_decide_false (ft_Script t = "")) by done];
    destruct tpl as [o|];
    (destruct (decide (ft_RunAfter t = [])) as [Ea|Ea];
      [rewrite !(bool_decide_true (ft_RunAfter t = [])), ?Ea by done
      |rewrite !(bool_decide_false (ft_RunAfter t = [])) by done]);
    cbn [app]; read_fields; rewrite ?Hc; read_fields; try reflexivity;
    unfold d_some; by destruct (d_template (JObject o)).
Qed.

Lemma d_convert_task t names j :
  convert_task Unmarshal t names = Ok j →
  ∃ params, param_names t names (ft_Parameters t) = Ok params ∧ d_task j = form_task t params.
Proof.
  unfold convert_task, form_task, form_template. destruct (param_names _ _ _) as [params|]; [|done].
  intros Hj. exists params. split; [done|]. destruct (ft_TaskRef t) as [r|].
  - injection Hj as <-. apply d_task_ref_task.
  - revert Hj. case_bool_decide as Ep; [|destruct (Unmarshal (ft_PodTemplate t)) as [o|] eqn:Eu; [|done]];
      intros [= <-].
    + exact (d_inline_task t params None).
    + exact (d_inline_task t params (Some o)).
Qed.

(** The tasks of a form with their parameters resolved by id. *)
Definition form_tasks (form : DagFormObj) : option (list TaskSpec) :=
  mapM (λ t, match param_names t (paramNameByID (fo_Parameters form)) (ft_Parameters t) with
             | Ok params => form_task t params
             | Err _ => None
             end) (fo_Tasks form).

Definition form_spec (form : DagFormObj) : option DAGSpec :=
  tasks ← form_tasks form;
  Some (mkDAGSpec "" tasks (form_parameter <$> fo_Parameters form)
          (if wh_URL (fo_Webhook form) =b "" then mkWebhook "" false else fo_Webhook form)
          (default (mkWorkspace false emptyPVC) (fo_Workspace form)) false "").

Lemma d_convert_tasks names tasks js :
  convertFormTasks Unmarshal tasks names = Ok js →
  d_list d_task (JArray js) =
    mapM (λ t, match param_names t names (ft_Parameters t) with
               | Ok params => form_task t params
               | Err _ => None
               end) tasks.
Proof.
  revert js. induction tasks as [|t tasks IH]; intros js; simpl; [by intros [= <-]|].
  destruct (convert_task Unmarshal t names) as [j|] eqn:Ej; [|done].
  destruct (convertFormTasks Unmarshal tasks names) as [js'|]; [|done]. intros [= <-].
  destruct (d_convert_task t names j Ej) as (params & -> & Hj). cbn. rewrite Hj.
  destruct (form_task t params); [|done]. cbn. specialize (IH js' eq_refl). cbn in IH. by rewrite IH.
Qed.

Lemma d_form_parameters params :
  d_list d_parameter (JArray (convertFormParameters params)) = Some (form_parameter <$> params).
Proof using.
  unfold convertFormParameters, d_list. induction params as [|p params IH]; [done|].
  cbn [fmap list_fmap mapM]. rewrite IH. unfold form_parameter at 2. by destruct (fp_IsSecret p).
Qed.

Lemma d_build form obj :
  BuildDAGUnstructured Unmarshal form = Ok obj → spec_of d_spec obj = form_spec form.
Proof.
  unfold BuildDAGUnstructured, form_spec, form_tasks.
  destruct (convertFormTasks Unmarshal _ _) as [tasks|] eqn:Et; [|done]. intros [= <-].
  apply d_convert_tasks in Et. set (names := paramNameByID _) in *.
  transitivity (d_spec (JObject
    ([("parameters", JArray (convertFormParameters (fo_Parameters form))); ("task", JArray tasks)]
     ++ (if wh_URL (fo_Webhook form) =b "" then []
         else [("webhook", JObject [("url", JString (wh_URL (fo_Webhook form)));
                                    ("verifySSL", JBool (wh_VerifySSL (fo_Webhook form)))])])
     ++ match fo_Workspace form with Some w => [("workspace", workspace_json w)] | None => [] end)));
    [reflexivity|].
  unfold d_spec. cbn [mbind option_bind d_struct].
  assert (Hw : ∀ w, d_webhook (JObject [("url", JString (wh_URL w)); ("verifySSL", JBool (wh_VerifySSL w))]) = Some w)
    by by intros [].
  case_bool_decide as Eu; destruct (fo_Workspace form) as [w|]; cbn [app];
    read_fields; rewrite ?Hw, ?d_workspace_json, ?d_form_parameters, ?Et;
    destruct (mapM _ (fo_Tasks form)); try reflexivity; cbn [mbind option_bind];
    read_fields; rewrite ?Hw, ?d_workspace_json, ?d_form_parameters; read_fields;
    rewrite ?Hw, ?d_workspace_json; reflexivity.
Qed.

End form.

(** C22: The DAG that the server creates of a form reads, by the types of the API, as
    that form: every task in order with its command and arguments or its script, its
    dependencies, back-off, retry codes, pod template and the names of its
    parameters, or the reference to a reusable task; the parameters as defaults or
    secrets; the webhook and the workspace.  Its schedule is always empty. *)
Theorem form_dag_reads_back (Unmarshal : string → result (list (string * Json))) (form : DagFormObj) obj :
  BuildDAGUnstructured Unmarshal form = Ok obj →
  GetName (Client.with_labels form obj) = fo_Name form ∧
  spec_of d_spec (Client.with_labels form obj) = form_spec Unmarshal form.
Proof.
  intros Hb. pose proof (d_build Unmarshal form obj Hb) as Hs. revert Hb Hs. unfold BuildDAGUnstructured.
  destruct (convertFormTasks _ _ _) as [tasks|]; [|done]. intros [= <-] <-. by split.
Qed.

(** The form's schedule has no effect. *)
Theorem form_schedule_dropped (Unmarshal : string → result (list (string * Json))) (form : DagFormObj) s :
  BuildDAGUnstructured Unmarshal (mkDagFormObj (fo_Name form) s (fo_Tasks form) (fo_Parameters form)
    (fo_Namespace form) (fo_Webhook form) (fo_Workspace form)) = BuildDAGUnstructured Unmarshal form.
Proof. done. Qed.

(** ** Suspending *)

Lemma field_set_field name v k o :
  field k (set_field name v o) = if decide (k = name) then Some v else field k o.
Proof.
  induction o as [|[k' w] o IH]; cbn.
  - case_bool_decide; destruct (decide (k = name)); congruence.
  - case_bool_decide as E; cbn.
    + subst k'. case_bool_decide; destruct (decide (k = name)); congruence.
    + case_bool_decide; [|exact IH]. destruct (decide (k = name)); congruence.
Qed.

Lemma get_set_other {A} (zero : A) d name v k o :
  k ≠ name → get zero d k (set_field name v o) = get zero d k o.
Proof. intros Hk. unfold get. rewrite field_set_field. by destruct (decide (k = name)). Qed.

Lemma get_set_same {A} (zero : A) d name v o : v ≠ JNull → get zero d name (set_field name v o) = d v.
Proof. intros Hv. unfold get. rewrite field_set_field. destruct (decide (name = name)); [|done]. by destruct v. Qed.

Lemma d_spec_suspended b p spec :
  d_spec (JObject p) = Some spec →
  d_spec (JObject (set_field "suspended" (JBool b) p)) =
    Some (mkDAGSpec (ds_Schedule spec) (ds_Task spec) (ds_Parameters spec) (ds_Webhook spec) (ds_Workspace spec)
            b (ds_DSL spec)).
Proof.
  unfold d_spec. cbn [d_struct]. rewrite (get_set_other "" d_string "suspended" _ "dsl") by done.
  rewrite get_set_same by done. rewrite !get_set_other by done.
  intros Hs. repeat match goal with
    H : (get ?z ?d ?n ?o ≫= ?f) = Some _ |- _ => 
      destruct (get z d n o); cbn [mbind option_bind] in H |- *; [|done] end.
  injection Hs as <-. reflexivity.
Qed.

(** Suspending or resuming a DAG whose spec is an object changes that field only. *)
Theorem suspend_sets_one_field {K : Type} `{DynamicClient K} `{AccessorLaws} (req : DagSuspendForm) k k1 o p spec :
  dyn_Get dagsGVR (sf_Namespace req) (sf_Name req) k = (Ok (JObject o), k1) →
  field "spec" o = Some (JObject p) → d_spec (JObject p) = Some spec →
  ∃ obj,
    Client.SuspendDag req k = (dyn_Update dagsGVR (sf_Namespace req) obj ≫= λ _, mret tt) k1 ∧
    spec_of d_spec obj =
      Some (mkDAGSpec (ds_Schedule spec) (ds_Task spec) (ds_Parameters spec) (ds_Webhook spec)
              (ds_Workspace spec) (sf_Suspend req) (ds_DSL spec)).
Proof.
  intros Hg Hf Hs. eexists. unfold Client.SuspendDag, mbind at 1, M_bind at 1. rewrite Hg.
  rewrite (set_law o p _ _ _ Hf). split; [reflexivity|]. cbn [spec_of]. rewrite field_set_field. cbn.
  by apply d_spec_suspended.
Qed.

(** ** Runs *)

(** What the cluster promises: names identify objects, a failed call changes
    nothing, and while the server waits nobody else creates or deletes objects,
    but a controller may change them. *)
Class ClientLaws {K : Type} `{DynamicClient K} (objects : K → gset (Resource * string * string))
    (clock : K → Z) := {
  create_law r ns obj k : let '(res, k') := dyn_Create r ns obj k in
    match res with
    | Ok created => GetName created = GetName obj ∧ (r, ns, GetName obj) ∉ objects k ∧
                    objects k' = {[ (r, ns, GetName obj) ]} ∪ objects k
    | Err _ => objects k' = objects k
    end;
  delete_law r ns name k : let '(res, k') := dyn_Delete r ns name k in
    objects k' = (if is_ok res then objects k ∖ {[ (r, ns, name) ]} else objects k);
  get_keeps r ns name k : objects (dyn_Get r ns name k).2 = objects k ∧ (clock k <= clock (dyn_Get r ns name k).2)%Z;
  now_law k : let '(res, k') := dyn_Now k in res = Ok (clock k) ∧ objects k' = objects k ∧ (clock k <= clock k')%Z;
  sleep_law n k : let '(res, k') := dyn_Sleep n k in
    res = Ok tt ∧ objects k' = objects k ∧ (clock k + n <= clock k')%Z
}.

Section runs.
Context {K : Type} `{ClientLaws K objects clock} `{Accessors}.
Implicit Types k : K.

Definition same_objects (k k' : K) : Prop := objects k' = objects k ∧ (clock k <= clock k')%Z.

#[local] Instance same_objects_preorder : PreOrder same_objects.
Proof.
  split; [by intros k|]. intros k1 k2 k3 [E1 C1] [E2 C2]. split; [congruence|lia].
Qed.

Lemma now_keeps : steps same_objects dyn_Now.
Proof using Type*. intros k. pose proof (now_law k) as Hn. destruct (dyn_Now k). by destruct Hn. Qed.

Lemma get_steps r ns name : steps same_objects (dyn_Get r ns name).
Proof using Type*. intros k. apply get_keeps. Qed.

Lemma sleep_keeps n : (0 <= n)%Z → steps same_objects (dyn_Sleep n).
Proof using Type*.
  intros Hn k. pose proof (sleep_law n k) as Hs. destruct (dyn_Sleep n k). destruct Hs as (_ & E & C).
  split; [done|]. simpl. lia.
Qed.

Lemma lift_keeps {A} (r : result A) : steps same_objects (lift_result r).
Proof. intros k. by destruct r. Qed.

Lemma wait_keeps fuel ns name deadline : steps same_objects (Client.waitForRunID fuel ns name deadline).
Proof using Type*.
  induction fuel as [|fuel IH]; [by intros k|]. cbn [Client.waitForRunID].
  steps_walk_with ltac:(first [exact IH|exact now_keeps|apply get_steps|apply lift_keeps|apply sleep_keeps; lia]).
Qed.

Lemma wait_id fuel ns name deadline : ∀ k id,
  (Client.waitForRunID fuel ns name deadline k).1 = Ok id → id ≠ 0%Z.
Proof.
  induction fuel as [|fuel IH]; intros k id; [done|]. cbn [Client.waitForRunID].
  unfold mbind, M_bind. destruct (dyn_Now k) as [[now|] k1]; [|done].
  destruct (negb _); [done|]. destruct (dyn_Get _ _ _ k1) as [[o|] k2]; [|done].
  destruct (lift_result _ k2) as [[[n|]|] k3]; [|..|done].
  - case_bool_decide; [|by intros [= <-]]. destruct (dyn_Sleep 1 k3) as [[[]|] k4]; [apply IH|done].
  - destruct (dyn_Sleep 1 k3) as [[[]|] k4]; [apply IH|done].
Qed.

(** The polls that fit before the deadline are enough. *)
Lemma waitForRunID_fuel ns name deadline fuel : ∀ fuel' k,
  Z.to_nat (deadline - clock k) < fuel → fuel <= fuel' →
  Client.waitForRunID fuel ns name deadline k = Client.waitForRunID fuel' ns name deadline k.
Proof using Type*.
  induction fuel as [|fuel IH]; intros fuel' k Hf Hle; [lia|]. destruct fuel' as [|fuel']; [lia|].
  cbn [Client.waitForRunID]. unfold mbind, M_bind.
  pose proof (now_law k) as Hn. destruct (dyn_Now k) as [r k1]. destruct Hn as (-> & _ & Hc1).
  case_bool_decide as Hd; simpl; [|done].
  pose proof (get_keeps dagRunsGVR ns name k1) as [_ Hc2].
  destruct (dyn_Get dagRunsGVR ns name k1) as [[o|] k2]; [|done]. simpl in Hc2.
  destruct (lift_result _ k2) as [x k3] eqn:El.
  assert (k3 = k2) as -> by (unfold lift_result in El; case_match; by injection El).
  pose proof (sleep_law 1 k2) as Hs. destruct (dyn_Sleep 1 k2) as [rs k4] eqn:Es. destruct Hs as (-> & _ & Hc4).
  assert (Hx : Client.waitForRunID fuel ns name deadline k4 = Client.waitForRunID fuel' ns name deadline k4)
    by (apply IH; lia).
  destruct x as [[n|]|]; [case_bool_decide|..]; rewrite ?Es; done.
Qed.

Lemma wrapped_step {A} msg (m : M K A) k :
  wrapped msg m k = match m k with
                    | (Ok a, k') => (Ok a, k')
                    | (Err e, k') => (Err (EWrap msg e), k')
                    end.
Proof using. unfold wrapped, try, mbind, M_bind. by destruct (m k) as [[a|e] k']. Qed.

(** The cluster after a call of [CreateDagRun]. *)
Lemma CreateDagRun_objects form secrets ns opts k :
  Cleanup opts = true →
  let key := (dagRunsGVR, ns, rf_RunName form) in
  let '(r, k') := Client.CreateDagRun form secrets ns opts k in
  match r with
  | Ok id => id ≠ 0%Z ∧ key ∉ objects k ∧ objects k' = {[ key ]} ∪ objects k
  | Err e => objects k' = objects k ∨
             ((∃ e1 e2, e = EErrorf ("run ID error: " +:+ err_Error e1 +:+ ", cleanup error: " +:+ err_Error e2)) ∧
              objects k' = {[ key ]} ∪ objects k)
  end.
Proof using Type*.
  intros Hc key. unfold Client.CreateDagRun. unfold mbind at 1, M_bind at 1. rewrite wrapped_step.
  unfold lift_result at 1. destruct (Client.validateDagRunInputs form ns); [|by left].
  unfold mbind at 1, M_bind at 1, mret at 1, M_ret at 1. rewrite wrapped_step.
  unfold lift_result at 1. destruct (Client.createDagRunResource form secrets) as [obj|] eqn:Eo; [|by left].
  unfold mbind at 1, M_bind at 1, mret at 1, M_ret at 1. rewrite wrapped_step.
  assert (Hname : GetName obj = rf_RunName form).
  { unfold Client.createDagRunResource in Eo. case_match; [|done]. by injection Eo as <-. }
  pose proof (create_law dagRunsGVR ns obj k) as Hcr. rewrite Hname in Hcr.
  destruct (dyn_Create dagRunsGVR ns obj k) as [[created|e] k1]; [|by left].
  destruct Hcr as (Hg & Hnew & Hobj). unfold mbind at 1, M_bind at 1.
  pose proof (now_law k1) as Hn. destruct (dyn_Now k1) as [rn k2]. destruct Hn as (-> & Ho2 & _).
  unfold mbind at 1, M_bind at 1, try.
  pose proof (wait_keeps (S (Z.to_nat (RunIDTimeout opts))) ns (rf_RunName form) (clock k1 + RunIDTimeout opts) k2)
    as [Ho3 _].
  pose proof (wait_id (S (Z.to_nat (RunIDTimeout opts))) ns (rf_RunName form) (clock k1 + RunIDTimeout opts) k2) as Hid.
  destruct (Client.waitForRunID _ _ _ _ k2) as [[id|e] k3]; simpl in Ho3, Hid.
  - split; [by apply Hid|]. split; [done|]. unfold key. congruence.
  - rewrite Hc. unfold mbind, M_bind. pose proof (delete_law dagRunsGVR ns (GetName created) k3) as Hd.
    rewrite Hg in Hd |- *. destruct (dyn_Delete _ _ _ k3) as [[[]|e'] k4]; simpl in Hd |- *.
    + left. rewrite Hd, Ho3, Ho2, Hobj. apply leibniz_equiv. set_solver.
    + right. split; [by eexists _, _|]. unfold key. congruence.
Qed.

End runs.

(** The parameters of a run: a value or the name of a secret each. *)
Definition run_parameter (secrets : gmap string bool) (p : string * string) : ParameterSpec :=
  if default false (secrets !! p.1) then mkParameterSpec p.1 "" p.2 else mkParameterSpec p.1 p.2 "".

Lemma d_run_parameters (secrets : gmap string bool) params l :
  Client.run_parameters params secrets = Ok l →
  d_list (d_struct (λ o,
      name ← get "" d_string "name" o;
      value ← get "" d_string "value" o;
      secret ← get "" d_string "fromSecret" o;
      Some (mkParameterSpec name value secret))) (JArray l) = Some (run_parameter secrets <$> params) ∧
  ∀ p, p ∈ params → is_Some (secrets !! p.1).
Proof.
  revert l. induction params as [|[n v] params IH]; intros l; simpl; [intros [= <-]; split; [done|set_solver]|].
  destruct (secrets !! n) as [b|] eqn:Es; [|done].
  destruct (Client.run_parameters params secrets) as [l'|]; [|done]. intros [= <-].
  destruct (IH l' eq_refl) as [Hd Hp]. split.
  - replace (run_parameter secrets (n, v)) with (if b then mkParameterSpec n "" v else mkParameterSpec n v "")
      by (unfold run_parameter; cbn [fst snd]; by rewrite Es).
    destruct b; cbn in Hd |- *; by rewrite Hd.
  - intros p [->|Hin]%elem_of_cons; [simpl; rewrite Es; by eexists|by apply Hp].
Qed.


(** ** A small cluster *)

(** Objects, the time, and the id that the controller gives to runs after two
    seconds, if it is there. *)
Record Dyn := mkDyn {
  dy_objects : gmap (Resource * string * string) Json;
  dy_now : Z;
  dy_run_id : option Z
}.

Definition reconciled (s : Dyn) (obj : Json) : Json :=
  match obj, dy_run_id s with
  | JObject o, Some id =>
      if bool_decide (2 <= dy_now s)%Z then JObject (set_field "status" (JObject [("dagRunId", JNumber id)]) o)
      else obj
  | _, _ => obj
  end.

#[global] Instance Dyn_client : DynamicClient Dyn := {
  dyn_Create r ns obj s :=
    match dy_objects s !! (r, ns, GetName obj) with
    | Some _ => (Err (EErrorf "already exists"), s)
    | None => (Ok obj, mkDyn (<[(r, ns, GetName obj) := obj]> (dy_objects s)) (dy_now s) (dy_run_id s))
    end;
  dyn_Get r ns name s :=
    match dy_objects s !! (r, ns, name) with
    | Some obj => (Ok (reconciled s obj), s)
    | None => (Err (EErrorf "not found"), s)
    end;
  dyn_Update r ns obj s := (Ok obj, mkDyn (<[(r, ns, GetName obj) := obj]> (dy_objects s)) (dy_now s) (dy_run_id s));
  dyn_Delete r ns name s := (Ok tt, mkDyn (delete (r, ns, name) (dy_objects s)) (dy_now s) (dy_run_id s));
  dyn_Now s := (Ok (dy_now s), s);
  dyn_Sleep n s := (Ok tt, mkDyn (dy_objects s) (dy_now s + n) (dy_run_id s));
  dyn_Wait s := (Ok WaitTick, mkDyn (dy_objects s) (dy_now s + 5) (dy_run_id s))
}.

#[global] Instance Dyn_laws : ClientLaws (λ s, dom (dy_objects s)) dy_now.
Proof.
  split.
  - intros r ns obj s. cbn. destruct (dy_objects s !! (r, ns, GetName obj)) eqn:E; [done|].
    split; [done|]. split; [by apply not_elem_of_dom|]. apply leibniz_equiv. cbn. by rewrite dom_insert.
  - intros r ns name s. cbn. apply leibniz_equiv. by rewrite dom_delete.
  - intros r ns name s. cbn. by destruct (dy_objects s !! (r, ns, name)).
  - intros s. done.
  - intros n s. cbn. split_and!; done.
Qed.

(** The functions of unstructured as they are documented. *)
Definition path_value (v : Json) (path : list string) : option Json :=
  foldl (λ v name, match v with Some (JObject o) => field name o | _ => None end) (Some v) path.

#[global] Instance plain_accessors : Accessors := {
  NestedString v path := match path_value v path with
                         | Some (JString s) => Ok (Some s)
                         | None => Ok None
                         | Some _ => Err (EErrorf "accessor error")
                         end;
  NestedInt64 v path := match path_value v path with
                        | Some (JNumber n) => Ok (Some n)
                        | None => Ok None
                        | Some _ => Err (EErrorf "accessor error")
                        end;
  SetNestedField v w path :=
    match v, path with
    | JObject o, [k1; k2] =>
        match field k1 o with
        | Some (JObject p) => Ok (JObject (set_field k1 (JObject (set_field k2 w p)) o))
        | _ => Err (EErrorf "value cannot be set")
        end
    | _, _ => Err (EErrorf "value cannot be set")
    end
}.

#[global] Instance plain_accessor_laws : AccessorLaws.
Proof. split; intros; cbn; repeat (match goal with H : _ = _ |- _ => rewrite H end; cbn); done. Qed.

Definition demo_run_form : DagRunForm := mkDagRunForm "etl" "etl-1" {[ "token" := "api-secret" ]} "default".


Definition no_json (_ : string) : result (list (string * Json)) := Err (EErrorf "unexpected end of JSON input").

Definition demo_form : DagFormObj :=
  mkDagFormObj "etl" "0 * * * *"
    [mkFormTaskSpec "extract" ["sh"] ["-c"] "" "alpine" [] 2 [1%Z] ["p1"] "" None;
     mkFormTaskSpec "load" [] [] "echo hi" "alpine" ["extract"] 0 [] [] "" None]
    [mkFormDagParameterSpec "p1" "token" true "api-secret"] "default" (mkWebhook "" false) None.

Lemma form_dag_reads_back_witness :
  ∃ obj spec, BuildDAGUnstructured no_json demo_form = Ok obj ∧
    spec_of d_spec (Client.with_labels demo_form obj) = Some spec ∧
    ts_Parameters <$> ds_Task spec = [["token"]; []] ∧ ds_Schedule spec = "".
Proof.
  destruct (BuildDAGUnstructured no_json demo_form) as [obj|e] eqn:E; [|exfalso; vm_compute in E; discriminate].
  destruct (form_dag_reads_back no_json demo_form obj E) as [_ H].
  destruct (form_spec no_json demo_form) as [spec|] eqn:Ef; [|exfalso; vm_compute in Ef; discriminate].
  exists obj, spec. split; [reflexivity|]. split; [exact H|].
  vm_compute in Ef. injection Ef as <-. split; reflexivity.
Defined.
