(* ===== verification/Rest.v ===== *)
(** * The REST server (internal/server/rest)

    The routes of v1.go with their handlers, the middleware that guards them
    (middleware.go) and the check of new accounts (rest.go), over the interfaces
    of the database, the accounts, the cluster and the logs.  A request names its
    route with its parameters and the outcome of parsing its body; matching a
    path to a route, CORS and the audit log are gofiber's. *)

From S2P Require Import Prelude Api Kube LogStore GoText Auth ServerDb Http LogServe Unstructured KClient.
Local Open Scope kontroler_scope.

(** ** New accounts (rest.go) *)

Module Credentials.

(** *** [range] over a string: its runes, an invalid byte as U+FFFD *)

Definition RuneError : Z := 65533.

Definition between (lo hi b : Z) : bool := (lo <=b b) && (b <=b hi).
Definition continuation (b : Z) : bool := between 128 191 b.
Definition low6 (b : Z) : Z := Z.land b 63.

(** The first rune and its width. *)
Definition DecodeRune (s : list Z) : Z * nat :=
  match s with
  | [] => (RuneError, 0)
  | b0 :: rest =>
      if bool_decide (b0 < 128)%Z then (b0, 1)
      else
        match rest with
        | b1 :: rest' =>
            if between 194 223 b0 && continuation b1 then
              (Z.lor (Z.shiftl (Z.land b0 31) 6) (low6 b1), 2)
            else
              match rest' with
              | b2 :: rest'' =>
                  let lo := if b0 =b 224%Z then 160%Z else 128%Z in
                  let hi := if b0 =b 237%Z then 159%Z else 191%Z in
                  if between 224 239 b0 && between lo hi b1 && continuation b2 then
                    (Z.lor (Z.lor (Z.shiftl (Z.land b0 15) 12) (Z.shiftl (low6 b1) 6)) (low6 b2), 3)
                  else
                    match rest'' with
                    | b3 :: _ =>
                        let lo := if b0 =b 240%Z then 144%Z else 128%Z in
                        let hi := if b0 =b 244%Z then 143%Z else 191%Z in
                        if between 240 244 b0 && between lo hi b1 && continuation b2 && continuation b3 then
                          (Z.lor (Z.lor (Z.lor (Z.shiftl (Z.land b0 7) 18) (Z.shiftl (low6 b1) 12))
                             (Z.shiftl (low6 b2) 6)) (low6 b3), 4)
                        else (RuneError, 1)
                    | [] => (RuneError, 1)
                    end
              | [] => (RuneError, 1)
              end
        | [] => (RuneError, 1)
        end
  end.

Fixpoint runes_of (fuel : nat) (s : list Z) : list Z :=
  match fuel, s with
  | S fuel', _ :: _ => let '(r, width) := DecodeRune s in r :: runes_of fuel' (drop width s)
  | _, _ => []
  end.

(** The bytes of a string. *)
Definition codes (s : string) : list Z :=
  (λ c, Z.of_nat (Ascii.nat_of_ascii c)) <$> String.list_ascii_of_string s.

Definition runes (s : string) : list Z := runes_of (String.length s) (codes s).

Section validate.
(** [unicode.IsLetter] and [unicode.IsNumber]. *)
Context (IsLetter IsNumber : Z → bool).

Definition ValidateCredentials (req : CreateAccountReq) : result unit :=
  let username := ca_Username req in
  let password := ca_Password req in
  let len (s : string) := Z.of_nat (String.length s) in
  if bool_decide (len username < 3)%Z || bool_decide (100 < len username)%Z
  then Err (EErrorf "username must be between 3 and 100 characters long")
  else if negb (IsLetter (default 0%Z (head (codes username))))
  then Err (EErrorf "username must start with a letter")
  else if existsb (λ r, negb (IsLetter r || IsNumber r)) (runes username)
  then Err (EErrorf "username must use only letter or number characters")
  else if bool_decide (len password < 8)%Z
  then Err (EErrorf "password must be at least 8 characters long")
  else if existsb (λ r, negb (IsLetter r || IsNumber r)) (runes password)
  then Err (EErrorf "password must use only letter or number characters")
  else if negb (existsb IsLetter (runes password))
  then Err (EErrorf "password must contain at least one letter")
  else if negb ((ca_Role req =b "admin") || (ca_Role req =b "editor") || (ca_Role req =b "viewer"))
  then Err (EErrorf "role must be either admin, editor, or viewer")
  else Ok tt.

End validate.
End Credentials.

(** ** Requests *)

Inductive Route :=
| PostSuspend (body : result DagSuspendForm)
| GetNames (term : string)
| GetParameters (name : string)
| GetMeta (page : string)
| GetDagPages
| GetRuns (page : string)
| GetRun (id : string)
| DeleteDag (namespace name : string)
| GetRunAll (id : string)
| GetRunTask (runId taskId : string)
| GetTask (taskId : string)
| GetTaskPage (page : string)
| GetTaskPages
| PostDag (body : result DagFormObj)
| GetRunPages
| PostRun (body : result DagRunForm)
| DeleteRun (run namespace : string)
| GetDashboard
| PostLogin (body : result Credentials)
| PostAccount (body : result CreateAccountReq)
| PostPassword (body : result ChangeCredentials)
| PostLogout
| GetCheck
| GetUsersPage (page : string)
| GetUsersPages
| DeleteAccount (user : string)
| GetLog (run pod : string) (range : string).

(** [c.Path()]: the pattern with its parameters; a query is not part of it. *)
Definition path_of (r : Route) : string :=
  "/api/v1" +:+
  match r with
  | PostSuspend _ => "/dag/suspend"
  | GetNames _ => "/dag/names"
  | GetParameters _ => "/dag/parameters"
  | GetMeta page => "/dag/meta/" +:+ page
  | GetDagPages => "/dag/pages/count"
  | GetRuns page => "/dag/runs/" +:+ page
  | GetRun id => "/dag/run/" +:+ id
  | DeleteDag namespace name => "/dag/dag/" +:+ namespace +:+ "/" +:+ name
  | GetRunAll id => "/dag/run/all/" +:+ id
  | GetRunTask runId taskId => "/dag/run/task/" +:+ runId +:+ "/" +:+ taskId
  | GetTask taskId => "/dag/task/" +:+ taskId
  | GetTaskPage page => "/dag/dagTask/pages/page/" +:+ page
  | GetTaskPages => "/dag/dagTask/pages/count"
  | PostDag _ => "/dag/create"
  | GetRunPages => "/dag/run/pages/count"
  | PostRun _ => "/dag/run/create"
  | DeleteRun _ _ => "/dag/run/remove"
  | GetDashboard => "/stats/dashboard"
  | PostLogin _ => "/auth/login"
  | PostAccount _ => "/auth/create"
  | PostPassword _ => "/auth/password/change"
  | PostLogout => "/auth/logout"
  | GetCheck => "/auth/check"
  | GetUsersPage page => "/auth/users/page/" +:+ page
  | GetUsersPages => "/auth/users/pages/count"
  | DeleteAccount user => "/auth/users/" +:+ user
  | GetLog run pod _ => "/logs/run/" +:+ run +:+ "/pod/" +:+ pod
  end.

(** The cookie jwt-kontroler is empty when there is none. *)
Record Request := mkRequest { rq_route : Route; rq_cookie : string }.

(** What [Authentication] stores with the request. *)
Record Locals := mkLocals { lc_token : string; lc_username : string; lc_role : string }.

(** ** Roles (middleware.go) *)

Definition AdminRole : string := "admin".
Definition EditorRole : string := "editor".
Definition ViewerRole : string := "viewer".

Definition roleHierarchy : gmap string Z :=
  <[AdminRole := 3%Z]> (<[EditorRole := 2%Z]> (<[ViewerRole := 1%Z]> ∅)).

Definition isRoleGreaterOrEqual (userRole requiredRole : string) : bool :=
  match roleHierarchy !! userRole, roleHierarchy !! requiredRole with
  | Some userRank, Some requiredRank => (requiredRank <=b userRank)%Z
  | _, _ => false
  end.

(** The answer to a request that may not go on. *)
Definition roleMiddleware (requiredRole : string) (locals : option Locals) : option Response :=
  match locals with
  | None => Some (error_map StatusUnauthorized "Unauthorized")
  | Some l =>
      if isRoleGreaterOrEqual (lc_role l) requiredRole then None
      else Some (error_map StatusForbidden
             ("Forbidden: You must have '" +:+ requiredRole +:+ "' or higher role"))
  end.

(** ** The server *)

Record Server (D A K L : Type) := mkServer { sv_db : D; sv_auth : A; sv_kube : K; sv_logs : L }.
Arguments mkServer {D A K L}.
Arguments sv_db {D A K L}.
Arguments sv_auth {D A K L}.
Arguments sv_kube {D A K L}.
Arguments sv_logs {D A K L}.

Module Rest.
Section rest.
Context {D A K L : Type} `{DbManager D} `{AuthManager A} `{DynamicClient K} `{Accessors} `{LogFetcher L}.
Context (IsLetter IsNumber : Z → bool) (Unmarshal : string → result (list (string * Json))).
(** whether a log store is configured *)
Context (log_fetching : bool).

#[local] Abbreviation W := (Server D A K L).
#[local] Abbreviation Handler := (M W Response).

Definition with_db {X} (m : M D X) : M W X := λ s,
  let '(r, d) := m (sv_db s) in (r, mkServer d (sv_auth s) (sv_kube s) (sv_logs s)).
Definition with_auth {X} (m : M A X) : M W X := λ s,
  let '(r, a) := m (sv_auth s) in (r, mkServer (sv_db s) a (sv_kube s) (sv_logs s)).
Definition with_kube {X} (m : M K X) : M W X := λ s,
  let '(r, k) := m (sv_kube s) in (r, mkServer (sv_db s) (sv_auth s) k (sv_logs s)).
Definition with_logs {X} (m : M L X) : M W X := λ s,
  let '(r, l) := m (sv_logs s) in (r, mkServer (sv_db s) (sv_auth s) (sv_kube s) l).

(** [if err != nil { return failed(err) }; return ok] *)
Definition answer {X} (m : M W X) (ok : X → Response) (failed : GoError → Response) : Handler :=
  r ← try m; mret match r with Ok x => ok x | Err e => failed e end.

Definition server_error (_ : GoError) : Response := SendStatus StatusInternalServerError.
Definition bad_request : Response := SendStatus StatusBadRequest.

(** [strconv.Atoi] of a parameter of the path. *)
Definition with_int (text : string) (h : Z → Handler) : Handler :=
  match Atoi text with Ok n => h n | Err _ => mret bad_request end.

Definition with_body {X} (body : result X) (bad : GoError → Response) (h : X → Handler) : Handler :=
  match body with Ok x => h x | Err e => mret (bad e) end.

Definition cannot_parse (_ : GoError) : Response := error_map StatusBadRequest "cannot parse JSON".
Definition parse_message (e : GoError) : Response :=
  JSON_map StatusBadRequest [("message", VText (err_Error e))].

(** Pages are counted from one; the product is a Go int. *)
Definition page_offset (page : Z) : Z := wrap64 ((page - 1) * 10).

(** *** DAGs *)

Definition suspend (body : result DagSuspendForm) : Handler :=
  with_body body cannot_parse (λ req,
    answer (with_kube (Client.SuspendDag req))
      (λ _, JSON_map StatusCreated [("message", VText "DAG suspended successfully")])
      (λ e, error_map StatusInternalServerError ("Failed to suspend DAG: " +:+ err_Error e))).

Definition names (term : string) : Handler :=
  if term =b "" then mret bad_request
  else answer (with_db (sdb_GetDagNames term 10)) (λ l, JSON_map StatusOK [("names", VNames l)]) server_error.

Definition parameters (name : string) : Handler :=
  if name =b "" then mret bad_request
  else answer (with_db (sdb_GetDagParameters name)) (λ l, JSON_map StatusOK [("parameters", VParameters l)])
         server_error.

Definition meta (page : string) : Handler :=
  with_int page (λ n,
    if bool_decide (n < 1)%Z then mret bad_request
    else answer (with_db (sdb_GetAllDagMetaData 10 (page_offset n)))
           (λ l, JSON_map StatusOK [("dags", VDags l)]) server_error).

Definition page_count (m : M D Z) : Handler :=
  answer (with_db m) (λ n, JSON_map StatusOK [("count", VNumber n)]) server_error.

Definition runs (page : string) : Handler :=
  with_int page (λ n,
    if bool_decide (n < 1)%Z then mret bad_request
    else answer (with_db (sdb_GetDagRuns 10 (page_offset n))) (λ l, JSON StatusOK (VRuns l)) server_error).

Definition run (id : string) : Handler :=
  with_int id (λ n, answer (with_db (sdb_GetDagRun n)) (λ r, JSON StatusOK (VRun r)) server_error).

Definition delete_dag_failed (namespace name : string) (e : GoError) : Response :=
  if contains "permission denied" (err_Error e)
  then error_map StatusForbidden "You don't have permission to delete this DAG"
  else if contains "not found" (err_Error e)
  then error_map StatusNotFound ("DAG " +:+ dquote +:+ name +:+ dquote +:+ " not found in namespace "
                                 +:+ dquote +:+ namespace +:+ dquote)
  else if contains "conflict" (err_Error e)
  then error_map StatusConflict "The DAG has been modified, please try again"
  else error_map StatusInternalServerError "Failed to delete DAG".

Definition delete_dag (namespace name : string) : Handler :=
  if (namespace =b "") || (name =b "") then
    mret (error_map StatusBadRequest "namespace and name are required")
  else answer (with_kube (Client.DeleteDAG namespace name)) (λ _, SendStatus StatusAccepted)
         (delete_dag_failed namespace name).

Definition run_all (id : string) : Handler :=
  with_int id (λ n, answer (with_db (sdb_GetDagRunAll n)) (λ r, JSON StatusOK (VRunAll r)) server_error).

Definition run_task (runId taskId : string) : Handler :=
  with_int runId (λ run, with_int taskId (λ task,
    answer (with_db (sdb_GetTaskRunDetails run task)) (λ d, JSON StatusOK (VTaskRun d)) server_error)).

Definition task (taskId : string) : Handler :=
  with_int taskId (λ n,
    answer (with_db (sdb_GetTaskDetails n)) (λ d, JSON StatusOK (VTask d)) server_error).

Definition task_page (page : string) : Handler :=
  match Atoi page with
  | Err _ => mret (error_map StatusBadRequest "Invalid page number format")
  | Ok n =>
      if bool_decide (n < 1)%Z then mret (error_map StatusBadRequest "Page number must be greater than 0")
      else answer (with_db (sdb_GetDagTasks 10 (page_offset n))) (λ l, JSON StatusOK (VTasks l))
             (λ _, error_map StatusInternalServerError "Failed to retrieve DAG tasks")
  end.

Definition create_dag (body : result DagFormObj) : Handler :=
  with_body body cannot_parse (λ dagForm,
    answer (with_kube (Client.CreateDAG Unmarshal dagForm))
      (λ _, JSON_map StatusCreated [("message", VText "DAG created successfully")])
      (λ e, error_map StatusInternalServerError ("Failed to create DAG: " +:+ err_Error e))).

Definition create_run (body : result DagRunForm) : Handler :=
  with_body body cannot_parse (λ form,
    r ← try (with_db (sdb_GetIsSecrets (rf_Name form) (map_to_list (rf_Parameters form)).*1));
    match r with
    | Err _ => mret bad_request
    | Ok isSecretMap =>
        answer (with_kube (Client.CreateDagRun form isSecretMap (rf_Namespace form) DefaultCreateDagRunOpts))
          (λ runId, JSON_map StatusCreated [("runId", VNumber runId)])
          (λ e, error_map StatusInternalServerError ("Failed to create DagRun: " +:+ err_Error e))
    end).

Definition delete_run_failed (namespace runName : string) (e : GoError) : Response :=
  if contains "not found" (err_Error e)
  then error_map StatusNotFound ("DagRun " +:+ dquote +:+ runName +:+ dquote +:+ " not found in namespace "
                                 +:+ dquote +:+ namespace +:+ dquote)
  else error_map StatusInternalServerError "Failed to delete DagRun".

Definition delete_run (runName namespace : string) : Handler :=
  if (runName =b "") || (namespace =b "") then
    mret (error_map StatusBadRequest "run name and namespace are required")
  else answer (with_kube (Client.DeleteDagRun namespace runName)) (λ _, SendStatus StatusAccepted)
         (delete_run_failed namespace runName).

Definition dashboard : Handler :=
  answer (with_db sdb_GetDashboardStats) (λ st, JSON StatusOK (VStats st)) server_error.

(** *** Accounts *)

Definition session_cookie (token : string) : gmap string string :=
  {[ "Set-Cookie" := "jwt-kontroler=" +:+ token ]}.

Definition login (body : result Credentials) : Handler :=
  with_body body parse_message (λ req,
    answer (with_auth (auth_Login req))
      (λ tr : string * string,
         if tr.1 =b "" then SendStatus StatusUnauthorized
         else JSON_with (session_cookie tr.1) StatusOK (BMap [("role", VText tr.2)]))
      server_error).

Definition create_account (body : result CreateAccountReq) : Handler :=
  with_body body parse_message (λ req,
    match Credentials.ValidateCredentials IsLetter IsNumber req with
    | Err e => mret (parse_message e)
    | Ok _ => answer (with_auth (auth_CreateAccount req)) (λ _, SendStatus StatusCreated) server_error
    end).

(** [c.Locals(...).(string)] panics without a value. *)
Definition local {X} (f : Locals → X) (locals : option Locals) (h : X → Handler) : Handler :=
  match locals with
  | Some l => h (f l)
  | None => throw (EErrorf "interface conversion: interface {} is nil, not string")
  end.

Definition change_password (body : result ChangeCredentials) (locals : option Locals) : Handler :=
  with_body body parse_message (λ req,
    local lc_username locals (λ username,
      answer (with_auth (auth_ChangePassword username req)) (λ _, SendStatus StatusCreated) server_error)).

Definition logout (locals : option Locals) : Handler :=
  local lc_token locals (λ token,
    answer (with_auth (auth_RevokeToken token)) (λ _, SendStatus StatusAccepted) server_error).

Definition check (jwtToken : string) : Handler :=
  if jwtToken =b "" then mret (SendStatus StatusUnauthorized)
  else answer (with_auth (auth_IsValidLogin jwtToken))
         (λ ur : string * string, JSON_map StatusOK [("username", VText ur.1); ("role", VText ur.2)])
         (λ _, SendStatus StatusUnauthorized).

(** Pages of users are counted from zero. *)
Definition users_page (page : string) : Handler :=
  with_int page (λ n,
    if bool_decide (n < 0)%Z then mret bad_request
    else answer (with_auth (auth_GetUsers 10 (wrap64 (n * 10))))
           (λ l, JSON_map StatusOK [("users", VUsers l)]) server_error).

Definition users_pages : Handler :=
  answer (with_auth (auth_GetUserPageCount 10)) (λ n, JSON_map StatusOK [("count", VNumber n)]) server_error.

Definition delete_account (user : string) : Handler :=
  if user =b "" then mret bad_request
  else if user =b "admin" then mret (error_map StatusBadRequest "cannot delete admin account")
  else answer (with_auth (auth_DeleteUser user)) (λ _, SendStatus StatusOK) server_error.

(** *** Logs *)

Definition get_log (runStr podUID rangeHeader : string) : Handler :=
  if podUID =b "" then mret bad_request
  else
    r ← try (with_db (sdb_PodExists podUID));
    match r with
    | Err e => mret (server_error e)
    | Ok false => mret (SendStatus StatusNotFound)
    | Ok true =>
        if runStr =b "" then mret bad_request
        else with_int runStr (λ runId, with_logs (Serve.ServeLogWithRange runId podUID rangeHeader))
    end.

(** *** Routing *)

Definition guarded (requiredRole : string) (locals : option Locals) (h : Handler) : Handler :=
  match roleMiddleware requiredRole locals with Some refused => mret refused | None => h end.

Definition handler (req : Request) (locals : option Locals) : Handler :=
  match rq_route req with
  | PostSuspend body => guarded EditorRole locals (suspend body)
  | GetNames term => guarded ViewerRole locals (names term)
  | GetParameters name => guarded ViewerRole locals (parameters name)
  | GetMeta page => guarded ViewerRole locals (meta page)
  | GetDagPages => guarded ViewerRole locals (page_count (sdb_GetDagPageCount 10))
  | GetRuns page => guarded ViewerRole locals (runs page)
  | GetRun id => guarded ViewerRole locals (run id)
  | DeleteDag namespace name => guarded EditorRole locals (delete_dag namespace name)
  | GetRunAll id => guarded ViewerRole locals (run_all id)
  | GetRunTask runId taskId => guarded ViewerRole locals (run_task runId taskId)
  | GetTask taskId => guarded ViewerRole locals (task taskId)
  | GetTaskPage page => guarded ViewerRole locals (task_page page)
  | GetTaskPages => guarded ViewerRole locals (page_count (sdb_GetDagTaskPageCount 10))
  | PostDag body => guarded EditorRole locals (create_dag body)
  | GetRunPages => guarded ViewerRole locals (page_count (sdb_GetDagRunPageCount 10))
  | PostRun body => guarded EditorRole locals (create_run body)
  | DeleteRun run namespace => guarded EditorRole locals (delete_run run namespace)
  | GetDashboard => guarded ViewerRole locals dashboard
  | PostLogin body => login body
  | PostAccount body => guarded AdminRole locals (create_account body)
  | PostPassword body => change_password body locals
  | PostLogout => logout locals
  | GetCheck => check (rq_cookie req)
  | GetUsersPage page => guarded ViewerRole locals (users_page page)
  | GetUsersPages => guarded ViewerRole locals users_pages
  | DeleteAccount user => guarded AdminRole locals (delete_account user)
  | GetLog run pod range =>
      if log_fetching then guarded ViewerRole locals (get_log run pod range)
      else mret (SendStatus StatusNotFound)
  end.

(** [Authentication] before every route. *)
Definition serve (req : Request) : Handler :=
  let path := path_of (rq_route req) in
  if HasSuffix path "/login" || HasSuffix path "/check" then handler req None
  else if rq_cookie req =b "" then mret (SendStatus StatusUnauthorized)
  else
    r ← try (with_auth (auth_IsValidLogin (rq_cookie req)));
    match r with
    | Err _ => mret (SendStatus StatusUnauthorized)
    | Ok (username, role) => handler req (Some (mkLocals (rq_cookie req) username role))
    end.

End rest.
End Rest.
