(* ===== verification/RestSpec.v ===== *)
(** * Who may do what on the server

    Every route but the login and the check answers requests of logged-in users
    only, and those that change the cluster or the accounts ask for more than a
    viewer's role; a refused request changes nothing. *)

From S2P Require Import Prelude Api Kube LogStore GoText Store SqliteRun FileStore Auth AuthSpec ServerDb ServerSpec Http LogServe LogServeSpec Unstructured KClient KClientSpec Rest.
Import Rest.
Local Open Scope kontroler_scope.

(** ** Access *)

Inductive Access := Public | LoggedIn | NeedsRole (role : string).

#[global] Instance Access_eq_dec : EqDecision Access.
Proof. solve_decision. Defined.

(** What a route asks of its user. *)
Definition access (log_fetching : bool) (r : Route) : Access :=
  match r with
  | PostLogin _ | GetCheck => Public
  | PostPassword _ | PostLogout => LoggedIn
  | PostAccount _ | DeleteAccount _ => NeedsRole AdminRole
  | PostSuspend _ | DeleteDag _ _ | PostDag _ | PostRun _ | DeleteRun _ _ => NeedsRole EditorRole
  | GetLog _ _ _ => if log_fetching then NeedsRole ViewerRole else LoggedIn
  | _ => NeedsRole ViewerRole
  end.

Definition allows (a : Access) (role : string) : bool :=
  match a with
  | Public | LoggedIn => true
  | NeedsRole required => isRoleGreaterOrEqual role required
  end.

(** The roles and their order. *)
Lemma role_order role required :
  isRoleGreaterOrEqual role required = true ↔
  ∃ m n, roleHierarchy !! role = Some m ∧ roleHierarchy !! required = Some n ∧ (n <= m)%Z.
Proof.
  unfold isRoleGreaterOrEqual. destruct (roleHierarchy !! role) as [m|], (roleHierarchy !! required) as [n|];
    rewrite ?bool_decide_eq_true; naive_solver.
Qed.

Section server.
Context {D A K L : Type} `{DbManager D} `{AuthManager A} `{DynamicClient K} `{Accessors} `{LogFetcher L}.
Context (IsLetter IsNumber : Z → bool) (Unmarshal : string → result (list (string * Json))).
Context (log_fetching : bool).

#[local] Abbreviation W := (Server D A K L).
#[local] Abbreviation serve := (serve IsLetter IsNumber Unmarshal log_fetching).
#[local] Abbreviation handler := (handler IsLetter IsNumber Unmarshal log_fetching).
Implicit Types s : W.

(** *** Every handler answers *)

Definition answers (h : M W Response) : Prop := ∀ s, is_ok (h s).1 = true.

Lemma answers_ret r : answers (mret r).
Proof. done. Qed.

Lemma answers_answer {X} (m : M W X) ok failed : answers (answer m ok failed).
Proof. intros s. unfold answer, try, mbind, M_bind. by destruct (m s). Qed.

Lemma answers_try {X} (m : M W X) (k : result X → M W Response) :
  (∀ r, answers (k r)) → answers (try m ≫= k).
Proof. intros Hk s. unfold try, mbind, M_bind. destruct (m s) as [r s']. apply Hk. Qed.

Lemma answers_with_int text h : (∀ n, answers (h n)) → answers (with_int text h).
Proof. intros Hh. unfold with_int. destruct (Atoi text); [apply Hh|done]. Qed.

Lemma answers_with_body {X} (body : result X) bad h : (∀ x, answers (h x)) → answers (with_body body bad h).
Proof. intros Hh. unfold with_body. destruct body; [apply Hh|done]. Qed.

Lemma answers_logs run pod range : answers (with_logs (Serve.ServeLogWithRange run pod range)).
Proof.
  intros s. unfold with_logs.
  assert (is_ok (Serve.ServeLogWithRange run pod range (sv_logs s)).1 = true) as Hx.
  { unfold Serve.ServeLogWithRange, try, mbind, M_bind. destruct (LogFileExists _ _) as [[[[] n]|e] l]; try done.
    case_bool_decide; [by destruct (FetchLogs _ _)|].
    destruct (Serve.parse_range range n) as [[a b]|r]; [by destruct (RangeFetchLogs _ _ _ _)|done]. }
  by destruct (Serve.ServeLogWithRange run pod range (sv_logs s)).
Qed.

Lemma answers_guarded role locals h : answers h → answers (guarded role locals h).
Proof. intros Hh. unfold guarded. by destruct (roleMiddleware role locals). Qed.

Ltac answer_walk :=
  repeat first
    [ apply answers_ret | apply answers_answer | apply answers_logs
    | apply answers_guarded | apply answers_with_int; intros ? | apply answers_with_body; intros ?
    | apply answers_try; intros ?
    | progress case_match ].

Lemma handler_answers req locals :
  is_Some locals ∨ access log_fetching (rq_route req) ≠ LoggedIn → answers (handler req locals).
Proof.
  intros Hl. unfold Rest.handler.
  assert (Hloc : ∀ {X} (f : Locals → X) h, access log_fetching (rq_route req) = LoggedIn →
    (∀ x, answers (h x)) → answers (local f locals h)).
  { intros X f h E Hh. destruct Hl as [[l ->]|Hl]; [apply Hh|done]. }
  destruct (rq_route req); unfold suspend, names, parameters, meta, page_count, runs, run, delete_dag, run_all,
    run_task, task, task_page, create_dag, create_run, delete_run, dashboard, login, create_account,
    change_password, logout, check, users_page, users_pages, delete_account, get_log; answer_walk.
  - apply Hloc; [done|]. intros ?. apply answers_answer.
  - apply Hloc; [done|]. intros ?. apply answers_answer.
Qed.

(** *** Authentication *)

(** The path of a route that is not public but ends like one. *)
Definition unguarded_path (r : Route) : bool :=
  HasSuffix (path_of r) "/login" || HasSuffix (path_of r) "/check".

Lemma public_paths body : unguarded_path (PostLogin body) = true ∧ unguarded_path GetCheck = true.
Proof. done. Qed.

Lemma logged_in_paths r : access log_fetching r = LoggedIn → (∀ a b c, r ≠ GetLog a b c) → unguarded_path r = false.
Proof. destruct r; try done. simpl. intros _ Hr. by destruct (Hr run0 pod range). Qed.

(** Without a user every guarded route refuses. *)
Lemma handler_refuses req s role :
  access log_fetching (rq_route req) = NeedsRole role →
  handler req None s = (Ok (error_map StatusUnauthorized "Unauthorized"), s).
Proof.
  unfold Rest.handler. destruct (rq_route req); simpl; try done. by destruct log_fetching.
Qed.

Lemma handler_forbids req s l role :
  access log_fetching (rq_route req) = NeedsRole role → isRoleGreaterOrEqual (lc_role l) role = false →
  ∃ response, handler req (Some l) s = (Ok response, s) ∧ rs_status response = StatusForbidden.
Proof.
  intros Ha Hr. exists (error_map StatusForbidden ("Forbidden: You must have '" +:+ role +:+ "' or higher role")).
  split; [|done]. revert Ha. unfold Rest.handler.
  destruct (rq_route req); simpl; try done; try (destruct log_fetching; [|done]);
    intros [= <-]; unfold guarded, roleMiddleware; by rewrite Hr.
Qed.

(** The request goes on as the user of its token. *)
Definition granted (req : Request) (s : W) : Prop :=
  ∃ username role a,
    rq_cookie req ≠ "" ∧ auth_IsValidLogin (rq_cookie req) (sv_auth s) = (Ok (username, role), a) ∧
    allows (access log_fetching (rq_route req)) role = true ∧
    serve req s = handler req (Some (mkLocals (rq_cookie req) username role))
                    (mkServer (sv_db s) a (sv_kube s) (sv_logs s)).

(** The request is refused, with no more than a look at its token. *)
Definition denied (req : Request) (s : W) : Prop :=
  ∃ response a,
    serve req s = (Ok response, mkServer (sv_db s) a (sv_kube s) (sv_logs s)) ∧
    (a = sv_auth s ∨ a = (auth_IsValidLogin (rq_cookie req) (sv_auth s)).2) ∧
    (rs_status response = StatusUnauthorized ∨ rs_status response = StatusForbidden).

Lemma denied_here req s response :
  serve req s = (Ok response, s) →
  rs_status response = StatusUnauthorized ∨ rs_status response = StatusForbidden → denied req s.
Proof. intros E Hr. exists response, (sv_auth s). rewrite E. destruct s. split_and!; auto. Qed.

(** A route that asks for a login and ends like a public one is a log that is not
    served: anything else is looked up first. *)
Lemma access_granted_or_denied req s :
  log_fetching = true → access log_fetching (rq_route req) ≠ Public → granted req s ∨ denied req s.
Proof.
  intros Hlog Hp. unfold serve. fold (unguarded_path (rq_route req)).
  destruct (unguarded_path (rq_route req)) eqn:Eu.
  { right. destruct (access log_fetching (rq_route req)) as [| |role] eqn:Ea; [done| |].
    - rewrite logged_in_paths in Eu; [done|done|]. intros a b c E. rewrite E in Ea. simpl in Ea. by rewrite Hlog in Ea.
    - eapply denied_here; [unfold Rest.serve; fold (unguarded_path (rq_route req)); rewrite Eu;
        by apply (handler_refuses _ _ role)|by left]. }
  destruct (decide (rq_cookie req = "")) as [Ec|Ec].
  { right. eapply denied_here; [unfold Rest.serve; fold (unguarded_path (rq_route req));
      rewrite Eu, bool_decide_true by done; reflexivity|by left]. }
  destruct (auth_IsValidLogin (rq_cookie req) (sv_auth s)) as [[[username role]|e] a] eqn:El.
  - assert (Es : serve req s = handler req (Some (mkLocals (rq_cookie req) username role))
                    (mkServer (sv_db s) a (sv_kube s) (sv_logs s))).
    { unfold Rest.serve. fold (unguarded_path (rq_route req)). rewrite Eu, bool_decide_false by done.
      unfold mbind, M_bind, try, with_auth. by rewrite El. }
    destruct (allows (access log_fetching (rq_route req)) role) eqn:Eal; [left; by exists username, role, a|].
    right. destruct (access log_fetching (rq_route req)) as [| |required] eqn:Ea; [done..|].
    destruct (handler_forbids req (mkServer (sv_db s) a (sv_kube s) (sv_logs s))
      (mkLocals (rq_cookie req) username role) required Ea Eal) as (response & Eh & Hst).
    exists response, a. rewrite Es, Eh. split_and!; [done| |by right]. right. by rewrite El.
  - right. exists (SendStatus StatusUnauthorized), a. split_and!; [|right; by rewrite El|by left].
    unfold Rest.serve. fold (unguarded_path (rq_route req)). rewrite Eu, bool_decide_false by done.
    unfold mbind, M_bind, try, with_auth. by rewrite El.
Qed.

Lemma serve_answers req s :
  log_fetching = true → is_ok (serve req s).1 = true.
Proof.
  intros Hlog. destruct (access log_fetching (rq_route req)) eqn:Ea.
  - unfold Rest.serve. destruct (rq_route req) eqn:Er; simpl in Ea; rewrite ?Hlog in Ea; try done.
    + apply (handler_answers req None). right. by rewrite Er.
    + apply (handler_answers req None). right. by rewrite Er.
  - destruct (access_granted_or_denied req s Hlog) as [(u & r & a & _ & _ & _ & ->)|(r & a & -> & _)];
      [by rewrite Ea| |done]. apply handler_answers. left. by eexists.
  - destruct (access_granted_or_denied req s Hlog) as [(u & r & a & _ & _ & _ & ->)|(r & a & -> & _)];
      [by rewrite Ea| |done]. apply handler_answers. left. by eexists.
Qed.

(** *** The cluster *)

Definition same_kube (s s' : W) : Prop := sv_kube s' = sv_kube s.

#[local] Instance same_kube_preorder : PreOrder same_kube.
Proof. split; [by intros s|]. intros s1 s2 s3 E1 E2. unfold same_kube in *. congruence. Qed.

Lemma db_keeps_kube {X} (m : M D X) : steps same_kube (with_db m).
Proof. intros s. unfold with_db. by destruct (m (sv_db s)). Qed.

Lemma auth_keeps_kube {X} (m : M A X) : steps same_kube (with_auth m).
Proof. intros s. unfold with_auth. by destruct (m (sv_auth s)). Qed.

Lemma logs_keep_kube {X} (m : M L X) : steps same_kube (with_logs m).
Proof. intros s. unfold with_logs. by destruct (m (sv_logs s)). Qed.

Ltac kube_walk :=
  steps_walk_with ltac:(first [apply db_keeps_kube|apply auth_keeps_kube|apply logs_keep_kube]).

(** Only the routes of an editor reach the cluster. *)
Lemma handler_keeps_kube req locals :
  access log_fetching (rq_route req) ≠ NeedsRole EditorRole → steps same_kube (handler req locals).
Proof.
  intros Ha. unfold Rest.handler, guarded. destruct (rq_route req); try done;
    unfold names, parameters, meta, page_count, runs, run, run_all, run_task, task, task_page, dashboard, login,
      create_account, change_password, logout, check, users_page, users_pages, delete_account, get_log, answer,
      with_int, with_body, local; kube_walk.
Qed.

Lemma serve_kube req s :
  log_fetching = true → sv_kube (serve req s).2 ≠ sv_kube s →
  granted req s ∧ access log_fetching (rq_route req) = NeedsRole EditorRole.
Proof.
  intros Hlog Hk.
  destruct (decide (access log_fetching (rq_route req) = NeedsRole EditorRole)) as [Ea|Ea]; cycle 1.
  { exfalso. apply Hk. clear Hk. unfold Rest.serve.
    assert (Hs : steps same_kube (serve req)); [|apply Hs]. unfold Rest.serve.
    steps_walk_with ltac:(first [apply auth_keeps_kube|by apply handler_keeps_kube]). }
  destruct (access_granted_or_denied req s Hlog) as [Hg|(r & a & E & _)]; [by rewrite Ea|by split|].
  by rewrite E in Hk.
Qed.

End server.


(** ** What the exceptions of the middleware cost *)

(** Every route with a parameter at its end is refused when that is login or check:
    such an account or DAG cannot be deleted. *)
Theorem names_that_cannot_be_deleted {D A K L : Type} `{DbManager D} `{AuthManager A} `{DynamicClient K}
    `{Accessors} `{LogFetcher L} (IsLetter IsNumber : Z → bool)
    (Unmarshal : string → result (list (string * Json))) cookie namespace (s : Server D A K L) :
  let serve r := serve IsLetter IsNumber Unmarshal true (mkRequest r cookie) s in
  (∀ user, user ∈ ["login"; "check"] →
     serve (DeleteAccount user) = (Ok (error_map StatusUnauthorized "Unauthorized"), s)) ∧
  (∀ name, name ∈ ["login"; "check"] →
     serve (DeleteDag namespace name) = (Ok (error_map StatusUnauthorized "Unauthorized"), s)).
Proof.
  intros serve.
  assert (Hu : ∀ r role, access true r = NeedsRole role → unguarded_path r = true →
    serve r = (Ok (error_map StatusUnauthorized "Unauthorized"), s)).
  { intros r role Ha Hp. unfold serve, Rest.serve. fold (unguarded_path r). cbn [rq_route].
    fold (unguarded_path r). rewrite Hp. by apply (handler_refuses _ _ _ _ _ _ role). }
  split.
  - intros user [->|[->|[]%elem_of_nil]%elem_of_cons]%elem_of_cons; by eapply Hu.
  - assert (Hx : ∀ n, n ∈ ["/login"; "/check"] → ∀ p, HasSuffix ("/api/v1/dag/dag/" +:+ p +:+ n) n = true).
    { intros n _ p. replace ("/api/v1/dag/dag/" +:+ p +:+ n) with (("/api/v1/dag/dag/" +:+ p) +:+ n).
      - apply HasSuffix_app.
      - symmetry. apply string_app_assoc. }
    intros name [->|[->|[]%elem_of_nil]%elem_of_cons]%elem_of_cons; (eapply Hu; [done|]);
      unfold unguarded_path.
    + change (path_of (DeleteDag namespace "login")) with ("/api/v1/dag/dag/" +:+ namespace +:+ "/login").
      by rewrite Hx by set_solver.
    + change (path_of (DeleteDag namespace "check")) with ("/api/v1/dag/dag/" +:+ namespace +:+ "/check").
      rewrite (Hx "/check") by set_solver. apply orb_true_r.
Qed.

(** A wrong password is answered as a failure of the server. *)
Theorem wrong_password_is_server_error {D A K L : Type} `{DbManager D} `{AuthManager A} `{DynamicClient K}
    `{Accessors} `{LogFetcher L} (IsLetter IsNumber : Z → bool)
    (Unmarshal : string → result (list (string * Json))) cookie cred e a (s : Server D A K L) :
  auth_Login cred (sv_auth s) = (Err e, a) →
  (serve IsLetter IsNumber Unmarshal true (mkRequest (PostLogin (Ok cred)) cookie) s).1 =
    Ok (SendStatus StatusInternalServerError).
Proof.
  intros He. transitivity (login (D := D) (K := K) (L := L) (Ok cred) s).1; [reflexivity|].
  unfold login, with_body, answer, mbind, M_bind, try, with_auth. by rewrite He.
Qed.

(** ** New accounts *)

Section accounts.
Context (IsLetter IsNumber : Z → bool).
Import Credentials.

Definition alphanumeric (r : Z) : Prop := IsLetter r = true ∨ IsNumber r = true.

Definition valid_account (req : CreateAccountReq) : Prop :=
  3 <= String.length (ca_Username req) <= 100 ∧
  (∃ c, head (codes (ca_Username req)) = Some c ∧ IsLetter c = true) ∧
  (∀ r, r ∈ runes (ca_Username req) → alphanumeric r) ∧
  8 <= String.length (ca_Password req) ∧
  (∀ r, r ∈ runes (ca_Password req) → alphanumeric r) ∧
  (∃ r, r ∈ runes (ca_Password req) ∧ IsLetter r = true) ∧
  (ca_Role req = AdminRole ∨ ca_Role req = EditorRole ∨ ca_Role req = ViewerRole).

Lemma all_alphanumeric l :
  existsb (λ r, negb (IsLetter r || IsNumber r)) l = false ↔ ∀ r, r ∈ l → alphanumeric r.
Proof.
  unfold alphanumeric. induction l as [|x l IH]; simpl; [set_solver|].
  rewrite orb_false_iff, IH, negb_false_iff, orb_true_iff. set_solver.
Qed.

Lemma exists_letter l : existsb IsLetter l = true ↔ ∃ r, r ∈ l ∧ IsLetter r = true.
Proof. rewrite existsb_exists. setoid_rewrite <- list_elem_of_In. done. Qed.

Lemma head_codes s : s ≠ "" → is_Some (head (codes s)).
Proof. destruct s; [done|]. intros _. by eexists. Qed.

(** The check accepts exactly the accounts that it describes. *)
Theorem ValidateCredentials_correct req :
  ValidateCredentials IsLetter IsNumber req = Ok tt ↔ valid_account req.
Proof.
  unfold ValidateCredentials, valid_account.
  rewrite <- (all_alphanumeric (runes (ca_Username req))), <- (all_alphanumeric (runes (ca_Password req))).
  rewrite <- exists_letter.
  destruct (decide (3 <= String.length (ca_Username req) <= 100)) as [Hl|Hl].
  - rewrite !bool_decide_false by lia. cbn [orb].
    destruct (head_codes (ca_Username req)) as [c Ec]; [by intros E; rewrite E in Hl; simpl in Hl; lia|].
    rewrite Ec. simpl. destruct (IsLetter c) eqn:El; simpl; [|naive_solver congruence].
    destruct (existsb _ (runes (ca_Username req))) eqn:Eu; [naive_solver|].
    case_bool_decide as Hp; [split; [done|intros (_ & _ & _ & Hp' & _); lia]|].
    destruct (existsb (λ r, negb _) (runes (ca_Password req))) eqn:Ep; [naive_solver|].
    destruct (existsb IsLetter (runes (ca_Password req))) eqn:Eq; [|naive_solver].
    unfold AdminRole, EditorRole, ViewerRole.
    case_bool_decide as R1; [simpl; naive_solver lia|]. case_bool_decide as R2; [simpl; naive_solver lia|].
    case_bool_decide as R3; [simpl; naive_solver lia|]. simpl. naive_solver.
  - assert (Hx : bool_decide (Z.of_nat (String.length (ca_Username req)) < 3)%Z
      || bool_decide (100 < Z.of_nat (String.length (ca_Username req)))%Z = true).
    { apply orb_true_iff. rewrite !bool_decide_eq_true. lia. }
    rewrite Hx. naive_solver.
Qed.

End accounts.

(** The first byte of a name is taken for its first rune: a name of Hebrew letters,
    whose first byte is the code of a multiplication sign, is refused. *)
Theorem letters_refused (IsLetter IsNumber : Z → bool) password role :
  IsLetter 215%Z = false →
  Credentials.runes "אבג" = [1488; 1489; 1490]%Z ∧
  Credentials.ValidateCredentials IsLetter IsNumber (mkCreateAccountReq "אבג" password role) =
    Err (EErrorf "username must start with a letter").
Proof.
  intros Hl. split; [vm_compute; reflexivity|]. unfold Credentials.ValidateCredentials. cbn [ca_Username].
  change (default 0%Z (head (Credentials.codes "אבג"))) with 215%Z. by rewrite Hl.
Qed.

Lemma runes_of_ascii l n : length l <= n → (∀ c, c ∈ l → (c < 128)%Z) → Credentials.runes_of n l = l.
Proof.
  revert l. induction n as [|n IH]; intros [|c l] Hn Hl; simpl in *; try done; [lia|].
  rewrite bool_decide_true by (apply Hl; by left). f_equal. apply IH; [lia|].
  intros d Hd. apply Hl. by right.
Qed.

Lemma length_codes s : length (Credentials.codes s) = String.length s.
Proof. unfold Credentials.codes. rewrite length_fmap. induction s as [|c s IH]; [done|]. simpl. by rewrite IH. Qed.

(** The runes of an ASCII text are its bytes. *)
Lemma runes_ascii s : (∀ c, c ∈ Credentials.codes s → (c < 128)%Z) → Credentials.runes s = Credentials.codes s.
Proof. intros Hs. apply runes_of_ascii; [by rewrite length_codes|done]. Qed.

(** ** A server on SQLite and files *)

#[local] Instance demo_queries : DbManager Store := ServerSqliteManager no_like no_text.
#[local] Instance demo_accounts : AuthManager AuthStore := SqliteAuthManager demo_auth.

Definition demo_server : Server Store AuthStore Dyn Disk :=
  mkServer TaskRelease.demo_run (mkAuthStore [] [] [] 0 0 0)
    (mkDyn {[ (dagRunsGVR, "default", "run-1") := JObject [] ]} 0 None) one_log.

Definition no_letters (_ : Z) : bool := false.

