(* ===== verification/Metrics.v ===== *)
(** * Metrics of the database (internal/metrics, internal/db/*Metrics.go)

    The registry of dbMetrics.go and the managers that wrap the SQLite and the
    PostgreSQL manager: each method calls the manager it embeds, and counts and
    times the call.  The counters are Prometheus's, with its documented [Inc],
    [Set] and [Observe]; a duration is kept in nanoseconds. *)

From S2P Require Import Prelude Api Store SqliteDag SqliteRun SqliteClaim PostgresDag PostgresRun PostgresClaim.
Local Open Scope kontroler_scope.

(** ** The registry (dbMetrics.go) *)

(** A vector of metrics is a map from the values of its labels. *)
Record Metrics := mkMetrics {
  DatabaseConnectionsActive : gmap string Z;
  DatabaseConnectionsIdle : gmap string Z;
  DatabaseConnectionsMax : gmap string Z;
  DatabaseQueryDuration : gmap (string * string * string) (list Z);
  DatabaseQueryTotal : gmap (string * string * string * string) Z;
  DatabaseTransactionDuration : gmap (string * string) (list Z);
  DatabaseTransactionTotal : gmap (string * string * string) Z;
  DatabaseDAGsTotal : gmap (string * string * string) Z;
  DatabaseDAGRunsTotal : gmap (string * string) Z;
  DatabaseTaskRunsTotal : gmap (string * string) Z;
  DatabaseErrorsTotal : gmap (string * string * string) Z
}.

Definition no_metrics : Metrics := mkMetrics ∅ ∅ ∅ ∅ ∅ ∅ ∅ ∅ ∅ ∅ ∅.

(** [WithLabelValues(...).Inc()] and [WithLabelValues(...).Observe(d)]: a metric
    that is not there yet is made, at zero. *)
Definition Inc `{Countable K} (labels : K) (v : gmap K Z) : gmap K Z :=
  <[labels := (default 0 (v !! labels) + 1)%Z]> v.
Definition Observe `{Countable K} (labels : K) (d : Z) (v : gmap K (list Z)) : gmap K (list Z) :=
  <[labels := default [] (v !! labels) ++ [d]]> v.

Definition RecordQueryMetrics (dbType operation table status : string) (duration : Z)
    (m : Metrics) : Metrics :=
  mkMetrics (DatabaseConnectionsActive m) (DatabaseConnectionsIdle m) (DatabaseConnectionsMax m)
    (Observe (dbType, operation, table) duration (DatabaseQueryDuration m))
    (Inc (dbType, operation, table, status) (DatabaseQueryTotal m))
    (DatabaseTransactionDuration m) (DatabaseTransactionTotal m)
    (DatabaseDAGsTotal m) (DatabaseDAGRunsTotal m) (DatabaseTaskRunsTotal m) (DatabaseErrorsTotal m).

Definition RecordTransactionMetrics (dbType operation status : string) (duration : Z)
    (m : Metrics) : Metrics :=
  mkMetrics (DatabaseConnectionsActive m) (DatabaseConnectionsIdle m) (DatabaseConnectionsMax m)
    (DatabaseQueryDuration m) (DatabaseQueryTotal m)
    (Observe (dbType, operation) duration (DatabaseTransactionDuration m))
    (Inc (dbType, operation, status) (DatabaseTransactionTotal m))
    (DatabaseDAGsTotal m) (DatabaseDAGRunsTotal m) (DatabaseTaskRunsTotal m) (DatabaseErrorsTotal m).

Definition RecordErrorMetrics (dbType operation errorType : string) (m : Metrics) : Metrics :=
  mkMetrics (DatabaseConnectionsActive m) (DatabaseConnectionsIdle m) (DatabaseConnectionsMax m)
    (DatabaseQueryDuration m) (DatabaseQueryTotal m)
    (DatabaseTransactionDuration m) (DatabaseTransactionTotal m)
    (DatabaseDAGsTotal m) (DatabaseDAGRunsTotal m) (DatabaseTaskRunsTotal m)
    (Inc (dbType, operation, errorType) (DatabaseErrorsTotal m)).

Definition UpdateConnectionMetrics (dbType : string) (active idle max : Z) (m : Metrics) : Metrics :=
  mkMetrics (<[dbType := active]> (DatabaseConnectionsActive m))
    (<[dbType := idle]> (DatabaseConnectionsIdle m)) (<[dbType := max]> (DatabaseConnectionsMax m))
    (DatabaseQueryDuration m) (DatabaseQueryTotal m)
    (DatabaseTransactionDuration m) (DatabaseTransactionTotal m)
    (DatabaseDAGsTotal m) (DatabaseDAGRunsTotal m) (DatabaseTaskRunsTotal m) (DatabaseErrorsTotal m).

(** The gauges of a map of counts, one for each status; they have different
    labels, so the order of the range does not matter. *)
Definition SetAll `{Countable K} (labels : string → K) (counts : gmap string Z) (v : gmap K Z)
    : gmap K Z := kmap labels counts ∪ v.

Definition UpdateContentMetrics (dbType namespace : string) (dags dagRuns taskRuns : gmap string Z)
    (m : Metrics) : Metrics :=
  mkMetrics (DatabaseConnectionsActive m) (DatabaseConnectionsIdle m) (DatabaseConnectionsMax m)
    (DatabaseQueryDuration m) (DatabaseQueryTotal m)
    (DatabaseTransactionDuration m) (DatabaseTransactionTotal m)
    (SetAll (λ status, (dbType, namespace, status)) dags (DatabaseDAGsTotal m))
    (SetAll (λ status, (dbType, status)) dagRuns (DatabaseDAGRunsTotal m))
    (SetAll (λ status, (dbType, status)) taskRuns (DatabaseTaskRunsTotal m))
    (DatabaseErrorsTotal m).

(** ** A manager with metrics *)

(** The database of the embedded manager, the registry, and the clock with the
    number of times it was read. *)
Record Metered := mkMetered {
  mt_db : Store;
  mt_metrics : Metrics;
  mt_clock : nat → Z;
  mt_reads : nat
}.

Definition Now : M Metered Z := λ m,
  (Ok (mt_clock m (mt_reads m)), mkMetered (mt_db m) (mt_metrics m) (mt_clock m) (S (mt_reads m))).

(** A call of the embedded manager, its error as a value. *)
Definition embedded {A} (op : M Store A) : M Metered (result A) := λ m,
  let '(r, s) := op (mt_db m) in
  (Ok r, mkMetered s (mt_metrics m) (mt_clock m) (mt_reads m)).

Definition record (f : Metrics → Metrics) : M Metered unit :=
  modify (λ m, mkMetered (mt_db m) (f (mt_metrics m)) (mt_clock m) (mt_reads m)).

Definition returns {A} (r : result A) : M Metered A := λ m, (r, m).

(** A method that the wrapper does not have: Go promotes the one of the embedded
    manager. *)
Definition promoted {A} (op : M Store A) : M Metered A := embedded op ≫= returns.

(** *** The rows of the queries of [updateContentMetrics] *)

Definition dag_counts (t : Tables) (namespace : string) : Z * Z * Z :=
  let rows := where_ (λ d, d_namespace d =b namespace) (tb_DAGs t) in
  (count_where (λ d, d_active d && negb (d_suspended d)) rows,
   count_where (λ d, d_active d && d_suspended d) rows,
   count_where (λ d, negb (d_active d)) rows).

(** [DAG_Runs dr JOIN DAGs d ON dr.dag_id = d.dag_id WHERE d.namespace = ?] *)
Definition joined_runs (t : Tables) (namespace : string) : list RunRow :=
  dr ← tb_DAG_Runs t;
  (λ _, dr) <$> where_ (λ d, (r_dag_id dr =b d_dag_id d) && (d_namespace d =b namespace)) (tb_DAGs t).

Definition run_counts (t : Tables) (namespace : string) : gmap string Z :=
  let n status := count_where (λ dr, r_status dr =b status) (joined_runs t namespace) in
  {[ "running" := n "running"; "success" := n "success"; "failed" := n "failed";
     "pending" := n "pending" ]}.

(** [Task_Runs tr JOIN DAG_Runs dr ON tr.run_id = dr.run_id JOIN DAGs d ...] *)
Definition joined_task_runs (t : Tables) (namespace : string) : list TaskRunRow :=
  tr ← tb_Task_Runs t;
  (λ _, tr) <$> where_ (λ dr, trn_run_id tr =b r_run_id dr) (joined_runs t namespace).

Definition task_run_counts (t : Tables) (namespace : string) : gmap string Z :=
  let n status := count_where (λ tr, trn_status tr =b status) (joined_task_runs t namespace) in
  {[ "running" := n "running"; "success" := n "success"; "failed" := n "failed";
     "pending" := n "pending" ]}.

Section groups.
(** The order in which the database gives the groups of a [GROUP BY]. *)
Context (grouped : list string → list string).

Definition dag_groups (t : Tables) : list (string * (Z * Z * Z)) :=
  (λ ns, (ns, dag_counts t ns)) <$> grouped (dedup (d_namespace <$> tb_DAGs t)).

End groups.

(** ** On SQLite (sqliteMetrics.go) *)

Module SqliteMetrics.

Definition recordQueryMetrics {A} (operation table : string) (start : Z) (err : result A)
    : M Metered unit :=
  now ← Now;
  let duration := (now - start)%Z in
  (match err with
   | Err _ => record (RecordErrorMetrics "sqlite" operation "query_error")
   | Ok _ => mret tt
   end);;
  record (RecordQueryMetrics "sqlite" operation table
            (if is_ok err then "success" else "error") duration).

Definition recordTransactionMetrics {A} (operation : string) (start : Z) (err : result A)
    : M Metered unit :=
  now ← Now;
  let duration := (now - start)%Z in
  (match err with
   | Err _ => record (RecordErrorMetrics "sqlite" operation "transaction_error")
   | Ok _ => mret tt
   end);;
  record (RecordTransactionMetrics "sqlite" operation
            (if is_ok err then "success" else "error") duration).

(** One tick of [collectConnectionMetrics], with what the pool says of itself. *)
Definition collectConnectionMetrics (inUse idle maxOpenConnections : Z) : M Metered unit :=
  record (UpdateConnectionMetrics "sqlite" inUse idle maxOpenConnections).

(** The queries run under a timeout; when one fails, the rows of the namespace
    are left out. *)
Definition updateContentMetrics (grouped : list string → list string) : M Metered unit :=
  rows ← embedded (query (dag_groups grouped));
  match rows with
  | Err _ => record (RecordErrorMetrics "sqlite" "collect_content_metrics" "dag_counts_error")
  | Ok rows =>
      foreach (λ '(namespace, (active, suspended, inactive)),
        let dagCounts : gmap string Z :=
          {[ "active" := active; "suspended" := suspended; "inactive" := inactive ]} in
        runs ← embedded (query (λ t, run_counts t namespace));
        match runs with
        | Err _ =>
            record (RecordErrorMetrics "sqlite" "collect_content_metrics" "dag_run_counts_error")
        | Ok dagRunCounts =>
            tasks ← embedded (query (λ t, task_run_counts t namespace));
            match tasks with
            | Err _ =>
                record (RecordErrorMetrics "sqlite" "collect_content_metrics"
                          "task_run_counts_error")
            | Ok taskRunCounts =>
                record (UpdateContentMetrics "sqlite" namespace dagCounts dagRunCounts
                          taskRunCounts)
            end
        end) rows
  end.

Section methods.
Context (env : DbEnv).

Definition GetID : M Metered string :=
  start ← Now;
  r ← embedded (DagDb.GetID env);
  recordQueryMetrics "select" "idtable" start r;;
  returns r.

Definition GetDAGsToStartAndUpdate (tm : Z) : M Metered (list DagInfo) :=
  start ← Now;
  r ← embedded (DagDb.GetDAGsToStartAndUpdate env tm);
  recordTransactionMetrics "get_dags_to_start_and_update" start r;;
  returns r.

Definition InsertDAG (dag : DAG) (namespace : string) : M Metered unit :=
  start ← Now;
  r ← embedded (DagDb.InsertDAG env dag namespace);
  recordTransactionMetrics "insert_dag" start r;;
  returns r.

Definition CreateDAGRun (name : string) (dag : DagRunSpec) (parameters : gmap string ParameterSpec)
    (pvcName : option string)
    : M Metered Z :=
  start ← Now;
  r ← embedded (RunDb.CreateDAGRun name dag parameters pvcName);
  recordTransactionMetrics "create_dag_run" start r;;
  returns r.

Definition TaskRunExists (runId dagTaskId : Z) : M Metered bool :=
  start ← Now;
  r ← embedded (RunDb.TaskRunExists runId dagTaskId);
  recordQueryMetrics "select" "task_runs" start r;;
  returns r.

Definition GetStartingTasks (dagName : string) (dagrun : Z) : M Metered (list Task) :=
  start ← Now;
  r ← embedded (RunDb.GetStartingTasks dagName dagrun);
  recordQueryMetrics "select" "tasks" start r;;
  returns r.

Definition MarkTaskAsStarted (runId taskId : Z) : M Metered Z :=
  start ← Now;
  r ← embedded (RunDb.MarkTaskAsStarted runId taskId);
  recordQueryMetrics "insert" "task_runs" start r;;
  returns r.

Definition IncrementAttempts (taskRunId : Z) : M Metered unit :=
  start ← Now;
  r ← embedded (RunDb.IncrementAttempts taskRunId);
  recordQueryMetrics "update" "task_runs" start r;;
  returns r.

Definition MarkSuccessAndGetNextTasks (taskRunId : Z) : M Metered (list Task) :=
  start ← Now;
  r ← embedded (RunDb.MarkSuccessAndGetNextTasks taskRunId);
  recordTransactionMetrics "mark_success_and_get_next_tasks" start r;;
  returns r.

Definition MarkDAGRunOutcome (dagRunId : Z) (outcome : string) : M Metered unit :=
  start ← Now;
  r ← embedded (RunDb.MarkDAGRunOutcome dagRunId outcome);
  recordQueryMetrics "update" "dag_runs" start r;;
  returns r.

Definition GetDagParameters (dagName : string) : M Metered (gmap string DbParameter) :=
  start ← Now;
  r ← embedded (DagDb.GetDagParameters dagName);
  recordQueryMetrics "select" "dag_parameters" start r;;
  returns r.

Definition DagExists (dagName : string) : M Metered (bool * Z) :=
  start ← Now;
  r ← embedded (DagDb.DagExists dagName);
  recordQueryMetrics "select" "dags" start r;;
  returns r.

Definition ShouldRerun (taskRunid exitCode : Z) : M Metered bool :=
  start ← Now;
  r ← embedded (RunDb.ShouldRerun taskRunid exitCode);
  recordQueryMetrics "select" "task_runs" start r;;
  returns r.

Definition MarkTaskAsFailed (taskRunId : Z) : M Metered unit :=
  start ← Now;
  r ← embedded (RunDb.MarkTaskAsFailed taskRunId);
  recordQueryMetrics "update" "task_runs" start r;;
  returns r.

Definition MarkPodStatus (podUid name : string) (taskRunID : Z) (status : string) (tStamp : Z)
    (exitCode : option Z) (namespace : string) : M Metered unit :=
  start ← Now;
  r ← embedded (RunDb.MarkPodStatus podUid name taskRunID status tStamp exitCode namespace);
  recordQueryMetrics "upsert" "task_pods" start r;;
  returns r.

Definition DeleteDAG (name namespace : string) : M Metered (list string) :=
  start ← Now;
  r ← embedded (DagDb.DeleteDAG name namespace);
  recordTransactionMetrics "delete_dag" start r;;
  returns r.

Definition FindExistingDAGRun (name : string) : M Metered bool :=
  start ← Now;
  r ← embedded (RunDb.FindExistingDAGRun name);
  recordQueryMetrics "select" "dag_runs" start r;;
  returns r.

Definition GetTaskScriptAndInjectorImage (taskId : Z) : M Metered (string * string) :=
  start ← Now;
  r ← embedded (DagDb.GetTaskScriptAndInjectorImage taskId);
  recordQueryMetrics "select" "tasks" start r;;
  returns r.

Definition AddTask (task : DagTask) (namespace : string) : M Metered unit :=
  start ← Now;
  r ← embedded (DagDb.AddTask env task namespace);
  recordTransactionMetrics "add_task" start r;;
  returns r.

Definition DeleteTask (taskName namespace : string) : M Metered unit :=
  start ← Now;
  r ← embedded (DagDb.DeleteTask taskName namespace);
  recordTransactionMetrics "delete_task" start r;;
  returns r.

Definition GetTaskRefsParameters (taskRefs : list TaskRef)
    : M Metered (gmap TaskRef (list string)) :=
  start ← Now;
  r ← embedded (DagDb.GetTaskRefsParameters taskRefs);
  recordQueryMetrics "select" "tasks" start r;;
  returns r.

Definition GetWebhookDetails (dagRunID : Z) : M Metered Webhook :=
  start ← Now;
  r ← embedded (DagDb.GetWebhookDetails dagRunID);
  recordQueryMetrics "select" "webhooks" start r;;
  returns r.

Definition GetWorkspacePVCTemplate (dagId : Z) : M Metered (option PVC) :=
  start ← Now;
  r ← embedded (DagDb.GetWorkspacePVCTemplate dagId);
  recordQueryMetrics "select" "workspace" start r;;
  returns r.

Definition CheckIfAllTasksDone (dagRunID : Z) : M Metered bool :=
  start ← Now;
  r ← embedded (RunDb.CheckIfAllTasksDone dagRunID);
  recordQueryMetrics "select" "dag_runs" start r;;
  returns r.

Definition MarkConnectingTasksAsSuspended (dagRunID taskRunId : Z) : M Metered (list string) :=
  start ← Now;
  r ← embedded (RunDb.MarkConnectingTasksAsSuspended dagRunID taskRunId);
  recordTransactionMetrics "mark_connecting_tasks_suspended" start r;;
  returns r.

Definition AddPodDuration (taskRunId durationSec : Z) : M Metered unit :=
  start ← Now;
  r ← embedded (RunDb.AddPodDuration taskRunId durationSec);
  recordQueryMetrics "update" "task_pods" start r;;
  returns r.

Definition SuspendDagRun (dagRunId : Z) : M Metered (list RunningPodInfo) :=
  start ← Now;
  r ← embedded (RunDb.SuspendDagRun dagRunId);
  recordTransactionMetrics "suspend_dag_run" start r;;
  returns r.

Definition DeleteDagRun (dagRunId : Z) : M Metered unit :=
  start ← Now;
  r ← embedded (RunDb.DeleteDagRun dagRunId);
  recordTransactionMetrics "delete_dag_run" start r;;
  returns r.

Definition DagrunExists (dagrunId : Z) : M Metered bool :=
  start ← Now;
  r ← embedded (RunDb.DagrunExists dagrunId);
  recordQueryMetrics "select" "dag_runs" start r;;
  returns r.

Definition GetTaskRunInfo (taskRunId : Z) : M Metered (string * string * string) :=
  start ← Now;
  r ← embedded (RunDb.GetTaskRunInfo taskRunId);
  recordQueryMetrics "select" "task_runs" start r;;
  returns r.

Definition SaveRetryEnv (taskRunId : Z) (envJSON : string) : M Metered unit :=
  start ← Now;
  r ← embedded (RunDb.SaveRetryEnv taskRunId envJSON);
  recordQueryMetrics "update" "task_runs" start r;;
  returns r.

Definition ClaimTaskByID (taskRunId : Z) (workerId : string) (leaseTTL : Z)
    : M Metered TaskClaim :=
  start ← Now;
  r ← embedded (ClaimDb.ClaimTaskByID taskRunId workerId leaseTTL);
  recordQueryMetrics "update" "task_runs" start r;;
  returns r.

Definition GetTaskRunStatus (taskRunId : Z) : M Metered string :=
  start ← Now;
  r ← embedded (RunDb.GetTaskRunStatus taskRunId);
  recordQueryMetrics "select" "task_runs" start r;;
  returns r.

Definition ClaimTasks (limit : Z) (workerId : string) (leaseTTL : Z)
    : M Metered (list TaskClaim) :=
  start ← Now;
  r ← embedded (ClaimDb.ClaimTasks limit workerId leaseTTL);
  recordQueryMetrics "update" "task_runs" start r;;
  returns r.

Definition RenewLease (taskRunId : Z) (workerId : string) (leaseTTL : Z) : M Metered unit :=
  start ← Now;
  r ← embedded (ClaimDb.RenewLease taskRunId workerId leaseTTL);
  recordQueryMetrics "update" "task_runs" start r;;
  returns r.

Definition FinalizeClaimToRunning (taskRunId : Z) (workerId podUID : string) : M Metered unit :=
  start ← Now;
  r ← embedded (ClaimDb.FinalizeClaimToRunning taskRunId workerId podUID);
  recordQueryMetrics "update" "task_runs" start r;;
  returns r.

Definition RecoverExpiredLeases : M Metered Z :=
  start ← Now;
  r ← embedded (ClaimDb.RecoverExpiredLeases);
  recordQueryMetrics "update" "task_runs" start r;;
  returns r.

End methods.

End SqliteMetrics.

(** ** On PostgreSQL (postgresMetrics.go) *)

Module PgMetrics.

Definition recordQueryMetrics {A} (operation table : string) (start : Z) (err : result A)
    : M Metered unit :=
  now ← Now;
  let duration := (now - start)%Z in
  (match err with
   | Err _ => record (RecordErrorMetrics "postgresql" operation "query_error")
   | Ok _ => mret tt
   end);;
  record (RecordQueryMetrics "postgresql" operation table
            (if is_ok err then "success" else "error") duration).

Definition recordTransactionMetrics {A} (operation : string) (start : Z) (err : result A)
    : M Metered unit :=
  now ← Now;
  let duration := (now - start)%Z in
  (match err with
   | Err _ => record (RecordErrorMetrics "postgresql" operation "transaction_error")
   | Ok _ => mret tt
   end);;
  record (RecordTransactionMetrics "postgresql" operation
            (if is_ok err then "success" else "error") duration).

(** One tick of [collectConnectionMetrics], with what the pool says of itself. *)
Definition collectConnectionMetrics (inUse idle maxOpenConnections : Z) : M Metered unit :=
  record (UpdateConnectionMetrics "postgresql" inUse idle maxOpenConnections).

(** The queries run under a timeout; when one fails, the rows of the namespace
    are left out. *)
Definition updateContentMetrics (grouped : list string → list string) : M Metered unit :=
  rows ← embedded (query (dag_groups grouped));
  match rows with
  | Err _ => record (RecordErrorMetrics "postgresql" "collect_content_metrics" "dag_counts_error")
  | Ok rows =>
      foreach (λ '(namespace, (active, suspended, inactive)),
        let dagCounts : gmap string Z :=
          {[ "active" := active; "suspended" := suspended; "inactive" := inactive ]} in
        runs ← embedded (query (λ t, run_counts t namespace));
        match runs with
        | Err _ =>
            record (RecordErrorMetrics "postgresql" "collect_content_metrics" "dag_run_counts_error")
        | Ok dagRunCounts =>
            tasks ← embedded (query (λ t, task_run_counts t namespace));
            match tasks with
            | Err _ =>
                record (RecordErrorMetrics "postgresql" "collect_content_metrics"
                          "task_run_counts_error")
            | Ok taskRunCounts =>
                record (UpdateContentMetrics "postgresql" namespace dagCounts dagRunCounts
                          taskRunCounts)
            end
        end) rows
  end.

Section methods.
Context (env : DbEnv) (jsonb : string → result string).

Definition GetID : M Metered string :=
  start ← Now;
  r ← embedded (PgDag.GetID env);
  recordQueryMetrics "select" "idtable" start r;;
  returns r.

Definition GetDAGsToStartAndUpdate (tm : Z) : M Metered (list DagInfo) :=
  start ← Now;
  r ← embedded (PgDag.GetDAGsToStartAndUpdate env tm);
  recordTransactionMetrics "get_dags_to_start_and_update" start r;;
  returns r.

Definition InsertDAG (dag : DAG) (namespace : string) : M Metered unit :=
  start ← Now;
  r ← embedded (PgDag.InsertDAG env dag namespace);
  recordTransactionMetrics "insert_dag" start r;;
  returns r.

Definition CreateDAGRun (name : string) (dag : DagRunSpec) (parameters : gmap string ParameterSpec)
    (pvcName : option string)
    : M Metered Z :=
  start ← Now;
  r ← embedded (PgRun.CreateDAGRun name dag parameters pvcName);
  recordTransactionMetrics "create_dag_run" start r;;
  returns r.

Definition TaskRunExists (runId dagTaskId : Z) : M Metered bool :=
  start ← Now;
  r ← embedded (PgRun.TaskRunExists runId dagTaskId);
  recordQueryMetrics "select" "task_runs" start r;;
  returns r.

Definition GetStartingTasks (dagName : string) (dagrun : Z) : M Metered (list Task) :=
  start ← Now;
  r ← embedded (PgRun.GetStartingTasks dagName dagrun);
  recordQueryMetrics "select" "tasks" start r;;
  returns r.

Definition MarkTaskAsStarted (runId taskId : Z) : M Metered Z :=
  start ← Now;
  r ← embedded (PgRun.MarkTaskAsStarted runId taskId);
  recordQueryMetrics "insert" "task_runs" start r;;
  returns r.

Definition IncrementAttempts (taskRunId : Z) : M Metered unit :=
  start ← Now;
  r ← embedded (PgRun.IncrementAttempts taskRunId);
  recordQueryMetrics "update" "task_runs" start r;;
  returns r.

Definition MarkSuccessAndGetNextTasks (taskRunId : Z) : M Metered (list Task) :=
  start ← Now;
  r ← embedded (PgRun.MarkSuccessAndGetNextTasks taskRunId);
  recordTransactionMetrics "mark_success_and_get_next_tasks" start r;;
  returns r.

Definition MarkDAGRunOutcome (dagRunId : Z) (outcome : string) : M Metered unit :=
  start ← Now;
  r ← embedded (PgRun.MarkDAGRunOutcome dagRunId outcome);
  recordQueryMetrics "update" "dag_runs" start r;;
  returns r.

Definition GetDagParameters (dagName : string) : M Metered (gmap string DbParameter) :=
  start ← Now;
  r ← embedded (PgDag.GetDagParameters dagName);
  recordQueryMetrics "select" "dag_parameters" start r;;
  returns r.

Definition DagExists (dagName : string) : M Metered (bool * Z) :=
  start ← Now;
  r ← embedded (PgDag.DagExists dagName);
  recordQueryMetrics "select" "dags" start r;;
  returns r.

Definition ShouldRerun (taskRunid exitCode : Z) : M Metered bool :=
  start ← Now;
  r ← embedded (PgRun.ShouldRerun taskRunid exitCode);
  recordQueryMetrics "select" "task_runs" start r;;
  returns r.

Definition MarkTaskAsFailed (taskRunId : Z) : M Metered unit :=
  start ← Now;
  r ← embedded (PgRun.MarkTaskAsFailed taskRunId);
  recordQueryMetrics "update" "task_runs" start r;;
  returns r.

Definition MarkPodStatus (podUid name : string) (taskRunID : Z) (status : string) (tStamp : Z)
    (exitCode : option Z) (namespace : string) : M Metered unit :=
  start ← Now;
  r ← embedded (PgRun.MarkPodStatus podUid name taskRunID status tStamp exitCode namespace);
  recordQueryMetrics "upsert" "task_pods" start r;;
  returns r.

Definition DeleteDAG (name namespace : string) : M Metered (list string) :=
  start ← Now;
  r ← embedded (PgDag.DeleteDAG name namespace);
  recordTransactionMetrics "delete_dag" start r;;
  returns r.

Definition FindExistingDAGRun (name : string) : M Metered bool :=
  start ← Now;
  r ← embedded (PgRun.FindExistingDAGRun name);
  recordQueryMetrics "select" "dag_runs" start r;;
  returns r.

Definition GetTaskScriptAndInjectorImage (taskId : Z) : M Metered (string * string) :=
  start ← Now;
  r ← embedded (PgDag.GetTaskScriptAndInjectorImage taskId);
  recordQueryMetrics "select" "tasks" start r;;
  returns r.

Definition AddTask (task : DagTask) (namespace : string) : M Metered unit :=
  start ← Now;
  r ← embedded (PgDag.AddTask env task namespace);
  recordTransactionMetrics "add_task" start r;;
  returns r.

Definition DeleteTask (taskName namespace : string) : M Metered unit :=
  start ← Now;
  r ← embedded (PgDag.DeleteTask taskName namespace);
  recordTransactionMetrics "delete_task" start r;;
  returns r.

Definition GetTaskRefsParameters (taskRefs : list TaskRef)
    : M Metered (gmap TaskRef (list string)) :=
  start ← Now;
  r ← embedded (PgDag.GetTaskRefsParameters taskRefs);
  recordQueryMetrics "select" "tasks" start r;;
  returns r.

Definition GetWebhookDetails (dagRunID : Z) : M Metered Webhook :=
  start ← Now;
  r ← embedded (PgDag.GetWebhookDetails dagRunID);
  recordQueryMetrics "select" "webhooks" start r;;
  returns r.

Definition GetWorkspacePVCTemplate (dagId : Z) : M Metered (option PVC) :=
  start ← Now;
  r ← embedded (PgDag.GetWorkspacePVCTemplate dagId);
  recordQueryMetrics "select" "workspace" start r;;
  returns r.

Definition CheckIfAllTasksDone (dagRunID : Z) : M Metered bool :=
  start ← Now;
  r ← embedded (PgRun.CheckIfAllTasksDone dagRunID);
  recordQueryMetrics "select" "dag_runs" start r;;
  returns r.

Definition MarkConnectingTasksAsSuspended (dagRunID taskRunId : Z) : M Metered (list string) :=
  start ← Now;
  r ← embedded (PgRun.MarkConnectingTasksAsSuspended dagRunID taskRunId);
  recordTransactionMetrics "mark_connecting_tasks_suspended" start r;;
  returns r.

Definition AddPodDuration (taskRunId durationSec : Z) : M Metered unit :=
  start ← Now;
  r ← embedded (PgRun.AddPodDuration taskRunId durationSec);
  recordQueryMetrics "update" "task_pods" start r;;
  returns r.

Definition SuspendDagRun (dagRunId : Z) : M Metered (list RunningPodInfo) :=
  start ← Now;
  r ← embedded (PgRun.SuspendDagRun dagRunId);
  recordTransactionMetrics "suspend_dag_run" start r;;
  returns r.

Definition DeleteDagRun (dagRunId : Z) : M Metered unit :=
  start ← Now;
  r ← embedded (PgRun.DeleteDagRun dagRunId);
  recordTransactionMetrics "delete_dag_run" start r;;
  returns r.

Definition DagrunExists (dagrunId : Z) : M Metered bool :=
  start ← Now;
  r ← embedded (PgRun.DagrunExists dagrunId);
  recordQueryMetrics "select" "dag_runs" start r;;
  returns r.

Definition GetTaskRunInfo (taskRunId : Z) : M Metered (string * string * string) :=
  start ← Now;
  r ← embedded (PgRun.GetTaskRunInfo taskRunId);
  recordQueryMetrics "select" "task_runs" start r;;
  returns r.

Definition ClaimTasks (limit : Z) (workerId : string) (leaseTTL : Z)
    : M Metered (list TaskClaim) :=
  start ← Now;
  r ← embedded (PgClaim.ClaimTasks limit workerId leaseTTL);
  recordQueryMetrics "update" "task_runs" start r;;
  returns r.

Definition RenewLease (taskRunId : Z) (workerId : string) (leaseTTL : Z) : M Metered unit :=
  start ← Now;
  r ← embedded (PgClaim.RenewLease taskRunId workerId leaseTTL);
  recordQueryMetrics "update" "task_runs" start r;;
  returns r.

Definition FinalizeClaimToRunning (taskRunId : Z) (workerId podUID : string) : M Metered unit :=
  start ← Now;
  r ← embedded (PgClaim.FinalizeClaimToRunning taskRunId workerId podUID);
  recordQueryMetrics "update" "task_runs" start r;;
  returns r.

Definition RecoverExpiredLeases : M Metered Z :=
  start ← Now;
  r ← embedded (PgClaim.RecoverExpiredLeases);
  recordQueryMetrics "update" "task_runs" start r;;
  returns r.

Definition SaveRetryEnv (taskRunId : Z) (envJSON : string) : M Metered unit :=
  start ← Now;
  r ← embedded (PgRun.SaveRetryEnv jsonb taskRunId envJSON);
  recordQueryMetrics "update" "task_runs" start r;;
  returns r.

Definition ClaimTaskByID (taskRunId : Z) (workerId : string) (leaseTTL : Z)
    : M Metered TaskClaim :=
  start ← Now;
  r ← embedded (PgClaim.ClaimTaskByID taskRunId workerId leaseTTL);
  recordQueryMetrics "update" "task_runs" start r;;
  returns r.

Definition GetTaskRunStatus (taskRunId : Z) : M Metered string :=
  start ← Now;
  r ← embedded (PgRun.GetTaskRunStatus taskRunId);
  recordQueryMetrics "select" "task_runs" start r;;
  returns r.

Definition AddPendingTaskRun (runId dagTaskId : Z) : M Metered Z :=
  start ← Now;
  r ← embedded (PgRun.AddPendingTaskRun runId dagTaskId);
  recordQueryMetrics "insert" "task_runs" start r;;
  returns r.

Definition GetTaskForRun (runId dagTaskId : Z) : M Metered (Task * string * string) :=
  start ← Now;
  r ← embedded (PgRun.GetTaskForRun runId dagTaskId);
  recordQueryMetrics "select" "tasks" start r;;
  returns r.

End methods.

End PgMetrics.
