(* ===== verification/MetricsSpec.v ===== *)
(** * What the metrics say, and that they change nothing else

    The managers with metrics against the managers they wrap: on any sequence of
    calls they give the same answers and leave the same database, and their
    counters are the numbers of calls, by method, table and outcome.  The gauges
    of the contents are exact for the DAGs of a namespace; those of the runs
    hold the last namespace only. *)

From S2P Require Import Prelude Api Store SqliteDag SqliteRun SqliteClaim Database PostgresDag PostgresRun PostgresClaim Metrics.
Import Calls.
Local Open Scope kontroler_scope.

(** ** Calls with their answers *)

Definition Answer (c : DbCall) : Type :=
  match c with
  | CGetID => string
  | CGetDAGsToStartAndUpdate _ => (list DagInfo)
  | CInsertDAG _ _ => unit
  | CCreateDAGRun _ _ _ _ => Z
  | CGetStartingTasks _ _ => (list Task)
  | CTaskRunExists _ _ => bool
  | CMarkTaskAsStarted _ _ => Z
  | CIncrementAttempts _ => unit
  | CMarkSuccessAndGetNextTasks _ => (list Task)
  | CMarkDAGRunOutcome _ _ => unit
  | CGetDagParameters _ => (gmap string DbParameter)
  | CDagExists _ => (bool * Z)%type
  | CShouldRerun _ _ => bool
  | CMarkTaskAsFailed _ => unit
  | CMarkPodStatus _ _ _ _ _ _ _ => unit
  | CDeleteDAG _ _ => (list string)
  | CFindExistingDAGRun _ => bool
  | CGetTaskScriptAndInjectorImage _ => (string * string)%type
  | CAddTask _ _ => unit
  | CDeleteTask _ _ => unit
  | CGetTaskRefsParameters _ => (gmap TaskRef (list string))
  | CGetWebhookDetails _ => Webhook
  | CGetWorkspacePVCTemplate _ => (option PVC)
  | CCheckIfAllTasksDone _ => bool
  | CMarkConnectingTasksAsSuspended _ _ => (list string)
  | CAddPodDuration _ _ => unit
  | CSuspendDagRun _ => (list RunningPodInfo)
  | CDeleteDagRun _ => unit
  | CDagrunExists _ => bool
  | CGetTaskRunInfo _ => (string * string * string)%type
  | CClaimTasks _ _ _ => (list TaskClaim)
  | CRenewLease _ _ _ => unit
  | CFinalizeClaimToRunning _ _ _ => unit
  | CRecoverExpiredLeases => Z
  | CAddPendingTaskRun _ _ => Z
  | CGetTaskForRun _ _ => (Task * string * string)%type
  | CClaimTaskByID _ _ _ => TaskClaim
  | CSaveRetryEnv _ _ => unit
  | CGetTaskRunStatus _ => string
  end.

Definition sqlite_call (env : DbEnv) (c : DbCall) : M Store (Answer c) :=
  match c return M Store (Answer c) with
  | CGetID => DagDb.GetID env
  | CGetDAGsToStartAndUpdate tm => DagDb.GetDAGsToStartAndUpdate env tm
  | CInsertDAG dag namespace => DagDb.InsertDAG env dag namespace
  | CCreateDAGRun name dag parameters pvcName => RunDb.CreateDAGRun name dag parameters pvcName
  | CGetStartingTasks dagName dagrun => RunDb.GetStartingTasks dagName dagrun
  | CTaskRunExists runId dagTaskId => RunDb.TaskRunExists runId dagTaskId
  | CMarkTaskAsStarted runId taskId => RunDb.MarkTaskAsStarted runId taskId
  | CIncrementAttempts taskRunId => RunDb.IncrementAttempts taskRunId
  | CMarkSuccessAndGetNextTasks taskRunId => RunDb.MarkSuccessAndGetNextTasks taskRunId
  | CMarkDAGRunOutcome dagRunId outcome => RunDb.MarkDAGRunOutcome dagRunId outcome
  | CGetDagParameters dagName => DagDb.GetDagParameters dagName
  | CDagExists dagName => DagDb.DagExists dagName
  | CShouldRerun taskRunid exitCode => RunDb.ShouldRerun taskRunid exitCode
  | CMarkTaskAsFailed taskRunId => RunDb.MarkTaskAsFailed taskRunId
  | CMarkPodStatus podUid name taskRunID status tStamp exitCode namespace =>
      RunDb.MarkPodStatus podUid name taskRunID status tStamp exitCode namespace
  | CDeleteDAG name namespace => DagDb.DeleteDAG name namespace
  | CFindExistingDAGRun name => RunDb.FindExistingDAGRun name
  | CGetTaskScriptAndInjectorImage taskId => DagDb.GetTaskScriptAndInjectorImage taskId
  | CAddTask task namespace => DagDb.AddTask env task namespace
  | CDeleteTask taskName namespace => DagDb.DeleteTask taskName namespace
  | CGetTaskRefsParameters taskRefs => DagDb.GetTaskRefsParameters taskRefs
  | CGetWebhookDetails dagRunID => DagDb.GetWebhookDetails dagRunID
  | CGetWorkspacePVCTemplate dagId => DagDb.GetWorkspacePVCTemplate dagId
  | CCheckIfAllTasksDone dagRunID => RunDb.CheckIfAllTasksDone dagRunID
  | CMarkConnectingTasksAsSuspended dagRunID taskRunId =>
      RunDb.MarkConnectingTasksAsSuspended dagRunID taskRunId
  | CAddPodDuration taskRunId durationSec => RunDb.AddPodDuration taskRunId durationSec
  | CSuspendDagRun dagRunId => RunDb.SuspendDagRun dagRunId
  | CDeleteDagRun dagRunId => RunDb.DeleteDagRun dagRunId
  | CDagrunExists dagrunId => RunDb.DagrunExists dagrunId
  | CGetTaskRunInfo taskRunId => RunDb.GetTaskRunInfo taskRunId
  | CClaimTasks limit workerId leaseTTL => ClaimDb.ClaimTasks limit workerId leaseTTL
  | CRenewLease taskRunId workerId leaseTTL => ClaimDb.RenewLease taskRunId workerId leaseTTL
  | CFinalizeClaimToRunning taskRunId workerId podUID =>
      ClaimDb.FinalizeClaimToRunning taskRunId workerId podUID
  | CRecoverExpiredLeases => ClaimDb.RecoverExpiredLeases
  | CAddPendingTaskRun runId dagTaskId => RunDb.AddPendingTaskRun runId dagTaskId
  | CGetTaskForRun runId dagTaskId => RunDb.GetTaskForRun runId dagTaskId
  | CClaimTaskByID taskRunId workerId leaseTTL => ClaimDb.ClaimTaskByID taskRunId workerId leaseTTL
  | CSaveRetryEnv taskRunId envJSON => RunDb.SaveRetryEnv taskRunId envJSON
  | CGetTaskRunStatus taskRunId => RunDb.GetTaskRunStatus taskRunId
  end.

Definition pg_call_with_answer (env : DbEnv) (jsonb : string → result string)
    (c : DbCall) : M Store (Answer c) :=
  match c return M Store (Answer c) with
  | CGetID => PgDag.GetID env
  | CGetDAGsToStartAndUpdate tm => PgDag.GetDAGsToStartAndUpdate env tm
  | CInsertDAG dag namespace => PgDag.InsertDAG env dag namespace
  | CCreateDAGRun name dag parameters pvcName => PgRun.CreateDAGRun name dag parameters pvcName
  | CGetStartingTasks dagName dagrun => PgRun.GetStartingTasks dagName dagrun
  | CTaskRunExists runId dagTaskId => PgRun.TaskRunExists runId dagTaskId
  | CMarkTaskAsStarted runId taskId => PgRun.MarkTaskAsStarted runId taskId
  | CIncrementAttempts taskRunId => PgRun.IncrementAttempts taskRunId
  | CMarkSuccessAndGetNextTasks taskRunId => PgRun.MarkSuccessAndGetNextTasks taskRunId
  | CMarkDAGRunOutcome dagRunId outcome => PgRun.MarkDAGRunOutcome dagRunId outcome
  | CGetDagParameters dagName => PgDag.GetDagParameters dagName
  | CDagExists dagName => PgDag.DagExists dagName
  | CShouldRerun taskRunid exitCode => PgRun.ShouldRerun taskRunid exitCode
  | CMarkTaskAsFailed taskRunId => PgRun.MarkTaskAsFailed taskRunId
  | CMarkPodStatus podUid name taskRunID status tStamp exitCode namespace =>
      PgRun.MarkPodStatus podUid name taskRunID status tStamp exitCode namespace
  | CDeleteDAG name namespace => PgDag.DeleteDAG name namespace
  | CFindExistingDAGRun name => PgRun.FindExistingDAGRun name
  | CGetTaskScriptAndInjectorImage taskId => PgDag.GetTaskScriptAndInjectorImage taskId
  | CAddTask task namespace => PgDag.AddTask env task namespace
  | CDeleteTask taskName namespace => PgDag.DeleteTask taskName namespace
  | CGetTaskRefsParameters taskRefs => PgDag.GetTaskRefsParameters taskRefs
  | CGetWebhookDetails dagRunID => PgDag.GetWebhookDetails dagRunID
  | CGetWorkspacePVCTemplate dagId => PgDag.GetWorkspacePVCTemplate dagId
  | CCheckIfAllTasksDone dagRunID => PgRun.CheckIfAllTasksDone dagRunID
  | CMarkConnectingTasksAsSuspended dagRunID taskRunId =>
      PgRun.MarkConnectingTasksAsSuspended dagRunID taskRunId
  | CAddPodDuration taskRunId durationSec => PgRun.AddPodDuration taskRunId durationSec
  | CSuspendDagRun dagRunId => PgRun.SuspendDagRun dagRunId
  | CDeleteDagRun dagRunId => PgRun.DeleteDagRun dagRunId
  | CDagrunExists dagrunId => PgRun.DagrunExists dagrunId
  | CGetTaskRunInfo taskRunId => PgRun.GetTaskRunInfo taskRunId
  | CClaimTasks limit workerId leaseTTL => PgClaim.ClaimTasks limit workerId leaseTTL
  | CRenewLease taskRunId workerId leaseTTL => PgClaim.RenewLease taskRunId workerId leaseTTL
  | CFinalizeClaimToRunning taskRunId workerId podUID =>
      PgClaim.FinalizeClaimToRunning taskRunId workerId podUID
  | CRecoverExpiredLeases => PgClaim.RecoverExpiredLeases
  | CAddPendingTaskRun runId dagTaskId => PgRun.AddPendingTaskRun runId dagTaskId
  | CGetTaskForRun runId dagTaskId => PgRun.GetTaskForRun runId dagTaskId
  | CClaimTaskByID taskRunId workerId leaseTTL => PgClaim.ClaimTaskByID taskRunId workerId leaseTTL
  | CSaveRetryEnv taskRunId envJSON => PgRun.SaveRetryEnv jsonb taskRunId envJSON
  | CGetTaskRunStatus taskRunId => PgRun.GetTaskRunStatus taskRunId
  end.

Definition metered_sqlite_call (env : DbEnv) (c : DbCall) : M Metered (Answer c) :=
  match c return M Metered (Answer c) with
  | CGetID => SqliteMetrics.GetID env
  | CGetDAGsToStartAndUpdate tm => SqliteMetrics.GetDAGsToStartAndUpdate env tm
  | CInsertDAG dag namespace => SqliteMetrics.InsertDAG env dag namespace
  | CCreateDAGRun name dag parameters pvcName =>
      SqliteMetrics.CreateDAGRun name dag parameters pvcName
  | CGetStartingTasks dagName dagrun => SqliteMetrics.GetStartingTasks dagName dagrun
  | CTaskRunExists runId dagTaskId => SqliteMetrics.TaskRunExists runId dagTaskId
  | CMarkTaskAsStarted runId taskId => SqliteMetrics.MarkTaskAsStarted runId taskId
  | CIncrementAttempts taskRunId => SqliteMetrics.IncrementAttempts taskRunId
  | CMarkSuccessAndGetNextTasks taskRunId => SqliteMetrics.MarkSuccessAndGetNextTasks taskRunId
  | CMarkDAGRunOutcome dagRunId outcome => SqliteMetrics.MarkDAGRunOutcome dagRunId outcome
  | CGetDagParameters dagName => SqliteMetrics.GetDagParameters dagName
  | CDagExists dagName => SqliteMetrics.DagExists dagName
  | CShouldRerun taskRunid exitCode => SqliteMetrics.ShouldRerun taskRunid exitCode
  | CMarkTaskAsFailed taskRunId => SqliteMetrics.MarkTaskAsFailed taskRunId
  | CMarkPodStatus podUid name taskRunID status tStamp exitCode namespace =>
      SqliteMetrics.MarkPodStatus podUid name taskRunID status tStamp exitCode namespace
  | CDeleteDAG name namespace => SqliteMetrics.DeleteDAG name namespace
  | CFindExistingDAGRun name => SqliteMetrics.FindExistingDAGRun name
  | CGetTaskScriptAndInjectorImage taskId => SqliteMetrics.GetTaskScriptAndInjectorImage taskId
  | CAddTask task namespace => SqliteMetrics.AddTask env task namespace
  | CDeleteTask taskName namespace => SqliteMetrics.DeleteTask taskName namespace
  | CGetTaskRefsParameters taskRefs => SqliteMetrics.GetTaskRefsParameters taskRefs
  | CGetWebhookDetails dagRunID => SqliteMetrics.GetWebhookDetails dagRunID
  | CGetWorkspacePVCTemplate dagId => SqliteMetrics.GetWorkspacePVCTemplate dagId
  | CCheckIfAllTasksDone dagRunID => SqliteMetrics.CheckIfAllTasksDone dagRunID
  | CMarkConnectingTasksAsSuspended dagRunID taskRunId =>
      SqliteMetrics.MarkConnectingTasksAsSuspended dagRunID taskRunId
  | CAddPodDuration taskRunId durationSec => SqliteMetrics.AddPodDuration taskRunId durationSec
  | CSuspendDagRun dagRunId => SqliteMetrics.SuspendDagRun dagRunId
  | CDeleteDagRun dagRunId => SqliteMetrics.DeleteDagRun dagRunId
  | CDagrunExists dagrunId => SqliteMetrics.DagrunExists dagrunId
  | CGetTaskRunInfo taskRunId => SqliteMetrics.GetTaskRunInfo taskRunId
  | CClaimTasks limit workerId leaseTTL => SqliteMetrics.ClaimTasks limit workerId leaseTTL
  | CRenewLease taskRunId workerId leaseTTL => SqliteMetrics.RenewLease taskRunId workerId leaseTTL
  | CFinalizeClaimToRunning taskRunId workerId podUID =>
      SqliteMetrics.FinalizeClaimToRunning taskRunId workerId podUID
  | CRecoverExpiredLeases => SqliteMetrics.RecoverExpiredLeases
  | CAddPendingTaskRun runId dagTaskId => promoted (RunDb.AddPendingTaskRun runId dagTaskId)
  | CGetTaskForRun runId dagTaskId => promoted (RunDb.GetTaskForRun runId dagTaskId)
  | CClaimTaskByID taskRunId workerId leaseTTL =>
      SqliteMetrics.ClaimTaskByID taskRunId workerId leaseTTL
  | CSaveRetryEnv taskRunId envJSON => SqliteMetrics.SaveRetryEnv taskRunId envJSON
  | CGetTaskRunStatus taskRunId => SqliteMetrics.GetTaskRunStatus taskRunId
  end.

Definition metered_pg_call (env : DbEnv) (jsonb : string → result string)
    (c : DbCall) : M Metered (Answer c) :=
  match c return M Metered (Answer c) with
  | CGetID => PgMetrics.GetID env
  | CGetDAGsToStartAndUpdate tm => PgMetrics.GetDAGsToStartAndUpdate env tm
  | CInsertDAG dag namespace => PgMetrics.InsertDAG env dag namespace
  | CCreateDAGRun name dag parameters pvcName => PgMetrics.CreateDAGRun name dag parameters pvcName
  | CGetStartingTasks dagName dagrun => PgMetrics.GetStartingTasks dagName dagrun
  | CTaskRunExists runId dagTaskId => PgMetrics.TaskRunExists runId dagTaskId
  | CMarkTaskAsStarted runId taskId => PgMetrics.MarkTaskAsStarted runId taskId
  | CIncrementAttempts taskRunId => PgMetrics.IncrementAttempts taskRunId
  | CMarkSuccessAndGetNextTasks taskRunId => PgMetrics.MarkSuccessAndGetNextTasks taskRunId
  | CMarkDAGRunOutcome dagRunId outcome => PgMetrics.MarkDAGRunOutcome dagRunId outcome
  | CGetDagParameters dagName => PgMetrics.GetDagParameters dagName
  | CDagExists dagName => PgMetrics.DagExists dagName
  | CShouldRerun taskRunid exitCode => PgMetrics.ShouldRerun taskRunid exitCode
  | CMarkTaskAsFailed taskRunId => PgMetrics.MarkTaskAsFailed taskRunId
  | CMarkPodStatus podUid name taskRunID status tStamp exitCode namespace =>
      PgMetrics.MarkPodStatus podUid name taskRunID status tStamp exitCode namespace
  | CDeleteDAG name namespace => PgMetrics.DeleteDAG name namespace
  | CFindExistingDAGRun name => PgMetrics.FindExistingDAGRun name
  | CGetTaskScriptAndInjectorImage taskId => PgMetrics.GetTaskScriptAndInjectorImage taskId
  | CAddTask task namespace => PgMetrics.AddTask env task namespace
  | CDeleteTask taskName namespace => PgMetrics.DeleteTask taskName namespace
  | CGetTaskRefsParameters taskRefs => PgMetrics.GetTaskRefsParameters taskRefs
  | CGetWebhookDetails dagRunID => PgMetrics.GetWebhookDetails dagRunID
  | CGetWorkspacePVCTemplate dagId => PgMetrics.GetWorkspacePVCTemplate dagId
  | CCheckIfAllTasksDone dagRunID => PgMetrics.CheckIfAllTasksDone dagRunID
  | CMarkConnectingTasksAsSuspended dagRunID taskRunId =>
      PgMetrics.MarkConnectingTasksAsSuspended dagRunID taskRunId
  | CAddPodDuration taskRunId durationSec => PgMetrics.AddPodDuration taskRunId durationSec
  | CSuspendDagRun dagRunId => PgMetrics.SuspendDagRun dagRunId
  | CDeleteDagRun dagRunId => PgMetrics.DeleteDagRun dagRunId
  | CDagrunExists dagrunId => PgMetrics.DagrunExists dagrunId
  | CGetTaskRunInfo taskRunId => PgMetrics.GetTaskRunInfo taskRunId
  | CClaimTasks limit workerId leaseTTL => PgMetrics.ClaimTasks limit workerId leaseTTL
  | CRenewLease taskRunId workerId leaseTTL => PgMetrics.RenewLease taskRunId workerId leaseTTL
  | CFinalizeClaimToRunning taskRunId workerId podUID =>
      PgMetrics.FinalizeClaimToRunning taskRunId workerId podUID
  | CRecoverExpiredLeases => PgMetrics.RecoverExpiredLeases
  | CAddPendingTaskRun runId dagTaskId => PgMetrics.AddPendingTaskRun runId dagTaskId
  | CGetTaskForRun runId dagTaskId => PgMetrics.GetTaskForRun runId dagTaskId
  | CClaimTaskByID taskRunId workerId leaseTTL =>
      PgMetrics.ClaimTaskByID taskRunId workerId leaseTTL
  | CSaveRetryEnv taskRunId envJSON => PgMetrics.SaveRetryEnv jsonb taskRunId envJSON
  | CGetTaskRunStatus taskRunId => PgMetrics.GetTaskRunStatus taskRunId
  end.

(** A history of calls, with what each one answered. *)
Definition Answered : Type := {c : DbCall & result (Answer c)}.

Fixpoint history {S} (run : ∀ c, M S (Answer c)) (cs : list DbCall) (s : S) : list Answered * S :=
  match cs with
  | [] => ([], s)
  | c :: cs' =>
      let '(r, s1) := run c s in
      let '(answers, s2) := history run cs' s1 in (existT c r :: answers, s2)
  end.

(** ** What is counted *)

Inductive Label := Query (operation table : string) | Transaction (operation : string).

#[global] Instance Label_eq_dec : EqDecision Label.
Proof. solve_decision. Defined.

Definition sqlite_label (c : DbCall) : option Label :=
  match c with
  | CGetID => Some (Query "select" "idtable")
  | CGetDAGsToStartAndUpdate _ => Some (Transaction "get_dags_to_start_and_update")
  | CInsertDAG _ _ => Some (Transaction "insert_dag")
  | CCreateDAGRun _ _ _ _ => Some (Transaction "create_dag_run")
  | CGetStartingTasks _ _ => Some (Query "select" "tasks")
  | CTaskRunExists _ _ => Some (Query "select" "task_runs")
  | CMarkTaskAsStarted _ _ => Some (Query "insert" "task_runs")
  | CIncrementAttempts _ => Some (Query "update" "task_runs")
  | CMarkSuccessAndGetNextTasks _ => Some (Transaction "mark_success_and_get_next_tasks")
  | CMarkDAGRunOutcome _ _ => Some (Query "update" "dag_runs")
  | CGetDagParameters _ => Some (Query "select" "dag_parameters")
  | CDagExists _ => Some (Query "select" "dags")
  | CShouldRerun _ _ => Some (Query "select" "task_runs")
  | CMarkTaskAsFailed _ => Some (Query "update" "task_runs")
  | CMarkPodStatus _ _ _ _ _ _ _ => Some (Query "upsert" "task_pods")
  | CDeleteDAG _ _ => Some (Transaction "delete_dag")
  | CFindExistingDAGRun _ => Some (Query "select" "dag_runs")
  | CGetTaskScriptAndInjectorImage _ => Some (Query "select" "tasks")
  | CAddTask _ _ => Some (Transaction "add_task")
  | CDeleteTask _ _ => Some (Transaction "delete_task")
  | CGetTaskRefsParameters _ => Some (Query "select" "tasks")
  | CGetWebhookDetails _ => Some (Query "select" "webhooks")
  | CGetWorkspacePVCTemplate _ => Some (Query "select" "workspace")
  | CCheckIfAllTasksDone _ => Some (Query "select" "dag_runs")
  | CMarkConnectingTasksAsSuspended _ _ => Some (Transaction "mark_connecting_tasks_suspended")
  | CAddPodDuration _ _ => Some (Query "update" "task_pods")
  | CSuspendDagRun _ => Some (Transaction "suspend_dag_run")
  | CDeleteDagRun _ => Some (Transaction "delete_dag_run")
  | CDagrunExists _ => Some (Query "select" "dag_runs")
  | CGetTaskRunInfo _ => Some (Query "select" "task_runs")
  | CClaimTasks _ _ _ => Some (Query "update" "task_runs")
  | CRenewLease _ _ _ => Some (Query "update" "task_runs")
  | CFinalizeClaimToRunning _ _ _ => Some (Query "update" "task_runs")
  | CRecoverExpiredLeases => Some (Query "update" "task_runs")
  | CAddPendingTaskRun _ _ => None
  | CGetTaskForRun _ _ => None
  | CClaimTaskByID _ _ _ => Some (Query "update" "task_runs")
  | CSaveRetryEnv _ _ => Some (Query "update" "task_runs")
  | CGetTaskRunStatus _ => Some (Query "select" "task_runs")
  end.

Definition pg_label (c : DbCall) : option Label :=
  match c with
  | CGetID => Some (Query "select" "idtable")
  | CGetDAGsToStartAndUpdate _ => Some (Transaction "get_dags_to_start_and_update")
  | CInsertDAG _ _ => Some (Transaction "insert_dag")
  | CCreateDAGRun _ _ _ _ => Some (Transaction "create_dag_run")
  | CGetStartingTasks _ _ => Some (Query "select" "tasks")
  | CTaskRunExists _ _ => Some (Query "select" "task_runs")
  | CMarkTaskAsStarted _ _ => Some (Query "insert" "task_runs")
  | CIncrementAttempts _ => Some (Query "update" "task_runs")
  | CMarkSuccessAndGetNextTasks _ => Some (Transaction "mark_success_and_get_next_tasks")
  | CMarkDAGRunOutcome _ _ => Some (Query "update" "dag_runs")
  | CGetDagParameters _ => Some (Query "select" "dag_parameters")
  | CDagExists _ => Some (Query "select" "dags")
  | CShouldRerun _ _ => Some (Query "select" "task_runs")
  | CMarkTaskAsFailed _ => Some (Query "update" "task_runs")
  | CMarkPodStatus _ _ _ _ _ _ _ => Some (Query "upsert" "task_pods")
  | CDeleteDAG _ _ => Some (Transaction "delete_dag")
  | CFindExistingDAGRun _ => Some (Query "select" "dag_runs")
  | CGetTaskScriptAndInjectorImage _ => Some (Query "select" "tasks")
  | CAddTask _ _ => Some (Transaction "add_task")
  | CDeleteTask _ _ => Some (Transaction "delete_task")
  | CGetTaskRefsParameters _ => Some (Query "select" "tasks")
  | CGetWebhookDetails _ => Some (Query "select" "webhooks")
  | CGetWorkspacePVCTemplate _ => Some (Query "select" "workspace")
  | CCheckIfAllTasksDone _ => Some (Query "select" "dag_runs")
  | CMarkConnectingTasksAsSuspended _ _ => Some (Transaction "mark_connecting_tasks_suspended")
  | CAddPodDuration _ _ => Some (Query "update" "task_pods")
  | CSuspendDagRun _ => Some (Transaction "suspend_dag_run")
  | CDeleteDagRun _ => Some (Transaction "delete_dag_run")
  | CDagrunExists _ => Some (Query "select" "dag_runs")
  | CGetTaskRunInfo _ => Some (Query "select" "task_runs")
  | CClaimTasks _ _ _ => Some (Query "update" "task_runs")
  | CRenewLease _ _ _ => Some (Query "update" "task_runs")
  | CFinalizeClaimToRunning _ _ _ => Some (Query "update" "task_runs")
  | CRecoverExpiredLeases => Some (Query "update" "task_runs")
  | CAddPendingTaskRun _ _ => Some (Query "insert" "task_runs")
  | CGetTaskForRun _ _ => Some (Query "select" "tasks")
  | CClaimTaskByID _ _ _ => Some (Query "update" "task_runs")
  | CSaveRetryEnv _ _ => Some (Query "update" "task_runs")
  | CGetTaskRunStatus _ => Some (Query "select" "task_runs")
  end.

Definition status_of (ok : bool) : string := if ok then "success" else "error".

(** The counter of the calls of a label that ended in one way, and the number of
    durations of the label. *)
Definition total (db : string) (l : Label) (ok : bool) (m : Metrics) : Z :=
  match l with
  | Query op table => default 0%Z (DatabaseQueryTotal m !! (db, op, table, status_of ok))
  | Transaction op => default 0%Z (DatabaseTransactionTotal m !! (db, op, status_of ok))
  end.

Definition timed (db : string) (l : Label) (m : Metrics) : Z :=
  Z.of_nat (length match l with
                   | Query op table => default [] (DatabaseQueryDuration m !! (db, op, table))
                   | Transaction op => default [] (DatabaseTransactionDuration m !! (db, op))
                   end).

(** The counter of errors that a label's failures go to. *)
Definition error_of (l : Label) : string * string :=
  match l with
  | Query op _ => (op, "query_error")
  | Transaction op => (op, "transaction_error")
  end.

Definition errors (db : string) (e : string * string) (m : Metrics) : Z :=
  default 0%Z (DatabaseErrorsTotal m !! (db, e.1, e.2)).

Definition answered_ok (a : Answered) : bool := is_ok (projT2 a).

(** How many of the calls satisfy a test of their label and their outcome. *)
Definition calls_of (label : DbCall → option Label) (p : Label → bool → bool)
    (answers : list Answered) : Z :=
  count_where (λ a, match label (projT1 a) with
                    | Some l => p l (answered_ok a)
                    | None => false
                    end) answers.

(** What one counted call adds to the registry. *)
Definition counted (db : string) (l : option Label) (ok : bool) (duration : Z) (m : Metrics)
    : Metrics :=
  match l with
  | None => m
  | Some (Query op table) =>
      RecordQueryMetrics db op table (status_of ok) duration
        (if ok then m else RecordErrorMetrics db op "query_error" m)
  | Some (Transaction op) =>
      RecordTransactionMetrics db op (status_of ok) duration
        (if ok then m else RecordErrorMetrics db op "transaction_error" m)
  end.

Lemma default_Inc `{Countable K} (k k' : K) (v : gmap K Z) :
  default 0%Z (Inc k v !! k') = (default 0%Z (v !! k') + if bool_decide (k = k') then 1 else 0)%Z.
Proof.
  unfold Inc. case_bool_decide as Hk.
  - subst. by rewrite lookup_insert_eq.
  - rewrite lookup_insert_ne by done. lia.
Qed.

Lemma default_Observe `{Countable K} (k k' : K) d (v : gmap K (list Z)) :
  length (default [] (Observe k d v !! k')) =
  length (default [] (v !! k')) + if bool_decide (k = k') then 1 else 0.
Proof.
  unfold Observe. case_bool_decide as Hk.
  - subst. rewrite lookup_insert_eq. simpl. rewrite length_app. simpl. lia.
  - rewrite lookup_insert_ne by done. lia.
Qed.

Definition one (b : bool) : Z := if b then 1%Z else 0%Z.

Lemma total_counted db l ok l' ok' d m :
  total db l ok (counted db l' ok' d m) =
  (total db l ok m + one match l' with
                         | Some l' => bool_decide (l' = l) && Bool.eqb ok' ok
                         | None => false
                         end)%Z.
Proof.
  destruct l' as [[op t|op]|], l as [op' t'|op'], ok, ok'; simpl;
    rewrite ?default_Inc; unfold one; repeat case_bool_decide; simplify_eq/=; try lia; congruence.
Qed.

Lemma timed_counted db l l' ok' d m :
  timed db l (counted db l' ok' d m) =
  (timed db l m + one match l' with Some l' => bool_decide (l' = l) | None => false end)%Z.
Proof.
  destruct l' as [[op t|op]|], l as [op' t'|op'], ok'; unfold timed; simpl;
    rewrite ?default_Observe; unfold one; repeat case_bool_decide; simplify_eq/=; try lia; congruence.
Qed.

Lemma errors_counted db e l' ok' d m :
  errors db e (counted db l' ok' d m) =
  (errors db e m + one match l' with
                       | Some l' => bool_decide (error_of l' = e) && negb ok'
                       | None => false
                       end)%Z.
Proof.
  destruct e as [e1 e2], l' as [[op t|op]|], ok'; unfold errors; simpl;
    rewrite ?default_Inc; unfold one; repeat case_bool_decide; simplify_eq/=; try lia; congruence.
Qed.

(** ** A manager and its wrapper *)

(** [metered] is [plain], counted once under the label. *)
Definition counts {A} (db : string) (l : option Label) (plain : M Store A) (metered : M Metered A)
    : Prop := ∀ m,
  (metered m).1 = (plain (mt_db m)).1 ∧ mt_db (metered m).2 = (plain (mt_db m)).2 ∧
  ∃ d, mt_metrics (metered m).2 = counted db l (is_ok (plain (mt_db m)).1) d (mt_metrics m).

Section wrapper.
Context (db : string) (label : DbCall → option Label).
Context (plain : ∀ c, M Store (Answer c)) (metered : ∀ c, M Metered (Answer c)).

(** A call of the wrapper is the call it wraps, counted. *)
Definition counts_calls : Prop := ∀ c, counts db (label c) (plain c) (metered c).

Lemma calls_of_nil p : calls_of label p [] = 0%Z.
Proof. done. Qed.

Lemma calls_of_cons p c (r : result (Answer c)) answers :
  calls_of label p (existT c r :: answers) =
  (one match label c with Some l => p l (is_ok r) | None => false end + calls_of label p answers)%Z.
Proof.
  unfold calls_of, count_where, where_, answered_ok. simpl.
  destruct (label c) as [l|]; simpl; [destruct (p l (is_ok r))|]; simpl; lia.
Qed.

(** The wrapper answers a history as the manager would and leaves the database
    the manager would leave; each counter of calls grows by the calls of its
    label and outcome, each histogram by the calls of its label, each counter of
    errors by the failed calls it stands for. *)
Definition transparent (cs : list DbCall) (m : Metered) : Prop :=
  let answers := (history metered cs m).1 in
  let m' := (history metered cs m).2 in
  history plain cs (mt_db m) = (answers, mt_db m') ∧
  (∀ l ok, total db l ok (mt_metrics m') =
     (total db l ok (mt_metrics m) +
      calls_of label (λ l' ok', bool_decide (l' = l) && Bool.eqb ok' ok) answers)%Z) ∧
  (∀ l, timed db l (mt_metrics m') =
     (timed db l (mt_metrics m) + calls_of label (λ l' _, bool_decide (l' = l)) answers)%Z) ∧
  (∀ e, errors db e (mt_metrics m') =
     (errors db e (mt_metrics m) +
      calls_of label (λ l' ok', bool_decide (error_of l' = e) && negb ok') answers)%Z).

Lemma history_transparent (Hw : counts_calls) cs m : transparent cs m.
Proof.
  unfold transparent. revert m. induction cs as [|c cs IH]; intros m.
  { repeat split; intros; simpl; rewrite calls_of_nil; lia. }
  cbn zeta. simpl. destruct (Hw c m) as (H1 & H2 & d & H3).
  destruct (metered c m) as [r m1] eqn:E1, (plain c (mt_db m)) as [r' s1] eqn:E2.
  simpl in H1, H2, H3. subst r' s1.
  destruct (IH m1) as (I1 & I2 & I3 & I4).
  destruct (history metered cs m1) as [answers m2] eqn:E3. simpl in *. rewrite I1.
  split; [done|].
  split; [|split]; [intros l ok; rewrite (I2 l ok), H3, total_counted
                   |intros l; rewrite (I3 l), H3, timed_counted
                   |intros e; rewrite (I4 e), H3, errors_counted]; rewrite calls_of_cons; lia.
Qed.

End wrapper.

Lemma sqlite_query_counts {A} op table (f : M Store A) :
  counts "sqlite" (Some (Query op table)) f
    (start ← Now; r ← embedded f; SqliteMetrics.recordQueryMetrics op table start r;; returns r).
Proof.
  intros [s reg clk n]. unfold mbind, M_bind, embedded. cbn.
  destruct (f s) as [[a|e] s']; cbn; repeat split; eexists; reflexivity.
Qed.

Lemma sqlite_transaction_counts {A} op (f : M Store A) :
  counts "sqlite" (Some (Transaction op)) f
    (start ← Now; r ← embedded f; SqliteMetrics.recordTransactionMetrics op start r;; returns r).
Proof.
  intros [s reg clk n]. unfold mbind, M_bind, embedded. cbn.
  destruct (f s) as [[a|e] s']; cbn; repeat split; eexists; reflexivity.
Qed.

Lemma pg_query_counts {A} op table (f : M Store A) :
  counts "postgresql" (Some (Query op table)) f
    (start ← Now; r ← embedded f; PgMetrics.recordQueryMetrics op table start r;; returns r).
Proof.
  intros [s reg clk n]. unfold mbind, M_bind, embedded. cbn.
  destruct (f s) as [[a|e] s']; cbn; repeat split; eexists; reflexivity.
Qed.

Lemma pg_transaction_counts {A} op (f : M Store A) :
  counts "postgresql" (Some (Transaction op)) f
    (start ← Now; r ← embedded f; PgMetrics.recordTransactionMetrics op start r;; returns r).
Proof.
  intros [s reg clk n]. unfold mbind, M_bind, embedded. cbn.
  destruct (f s) as [[a|e] s']; cbn; repeat split; eexists; reflexivity.
Qed.

Lemma promoted_counts {A} db (f : M Store A) : counts db None f (promoted f).
Proof.
  intros [s reg clk n]. unfold promoted, mbind, M_bind, embedded. cbn.
  destruct (f s) as [r s']. cbn. split; [done|]. split; [done|]. by exists 0%Z.
Qed.

Create HintDb counts.
#[local] Hint Resolve sqlite_query_counts sqlite_transaction_counts pg_query_counts
  pg_transaction_counts promoted_counts : counts.

Lemma sqlite_counts_calls env :
  counts_calls "sqlite" sqlite_label (sqlite_call env) (metered_sqlite_call env).
Proof. intros []; simpl; auto with counts. Qed.

Lemma pg_counts_calls env jsonb :
  counts_calls "postgresql" pg_label (pg_call_with_answer env jsonb) (metered_pg_call env jsonb).
Proof. intros []; simpl; auto with counts. Qed.


(** ** The gauges of the contents *)

(** One round of the collection, for either database. *)
Definition content_update (db : string) (grouped : list string → list string) : M Metered unit :=
  rows ← embedded (query (dag_groups grouped));
  match rows with
  | Err _ => record (RecordErrorMetrics db "collect_content_metrics" "dag_counts_error")
  | Ok rows =>
      foreach (λ '(namespace, (active, suspended, inactive)),
        let dagCounts : gmap string Z :=
          {[ "active" := active; "suspended" := suspended; "inactive" := inactive ]} in
        runs ← embedded (query (λ t, run_counts t namespace));
        match runs with
        | Err _ => record (RecordErrorMetrics db "collect_content_metrics" "dag_run_counts_error")
        | Ok dagRunCounts =>
            tasks ← embedded (query (λ t, task_run_counts t namespace));
            match tasks with
            | Err _ =>
                record (RecordErrorMetrics db "collect_content_metrics" "task_run_counts_error")
            | Ok taskRunCounts =>
                record (UpdateContentMetrics db namespace dagCounts dagRunCounts taskRunCounts)
            end
        end) rows
  end.

Lemma sqlite_content grouped : SqliteMetrics.updateContentMetrics grouped = content_update "sqlite" grouped.
Proof. reflexivity. Qed.

Lemma pg_content grouped : PgMetrics.updateContentMetrics grouped = content_update "postgresql" grouped.
Proof. reflexivity. Qed.

Definition namespaces (t : Tables) : list string := dedup (d_namespace <$> tb_DAGs t).

Definition dag_gauges (t : Tables) (ns : string) : gmap string Z :=
  let n p := count_where (λ d, (d_namespace d =b ns) && p d) (tb_DAGs t) in
  {[ "active" := n (λ d, d_active d && negb (d_suspended d));
     "suspended" := n (λ d, d_active d && d_suspended d);
     "inactive" := n (λ d, negb (d_active d)) ]}.

(** What a round on a healthy database does to the registry. *)
Definition publish (db : string) (t : Tables) (reg : Metrics) (ns : string) : Metrics :=
  UpdateContentMetrics db ns (dag_gauges t ns) (run_counts t ns) (task_run_counts t ns) reg.

Lemma embedded_query {A} (f : Tables → A) s reg clk n :
  nofault s →
  embedded (query f) (mkMetered s reg clk n) = (Ok (Ok (f (st_tables s))), mkMetered s reg clk n).
Proof.
  unfold nofault. destruct s as [t fs now zone u]. simpl. by intros ->.
Qed.

Lemma where_where {A} (p q : A → bool) l : where_ q (where_ p l) = where_ (λ x, p x && q x) l.
Proof.
  unfold where_. induction l as [|x l IH]; [done|]. simpl.
  destruct (p x); simpl; [destruct (q x)|]; by rewrite ?IH.
Qed.

Lemma dag_counts_gauges t ns :
  let '(active, suspended, inactive) := dag_counts t ns in
  ({[ "active" := active; "suspended" := suspended; "inactive" := inactive ]} : gmap string Z)
  = dag_gauges t ns.
Proof. unfold dag_counts, dag_gauges, count_where. by rewrite !where_where. Qed.

Lemma content_update_publishes db grouped s reg clk n :
  nofault s →
  (content_update db grouped (mkMetered s reg clk n)) =
  (Ok tt, mkMetered s (foldl (publish db (st_tables s)) reg (grouped (namespaces (st_tables s)))) clk n).
Proof.
  intros Hs. unfold content_update, mbind, M_bind. rewrite embedded_query by done.
  unfold dag_groups, namespaces. generalize (grouped (dedup (d_namespace <$> tb_DAGs (st_tables s)))).
  intros l. revert reg. induction l as [|ns l IH]; intros reg; [done|].
  cbn [fmap list_fmap foreach]. unfold mbind, M_bind at 1.
  pose proof (dag_counts_gauges (st_tables s) ns) as Hg.
  destruct (dag_counts (st_tables s) ns) as [[a su] i].
  rewrite !embedded_query by done. cbn. rewrite Hg. apply IH.
Qed.

Lemma lookup_SetAll `{Countable K} (labels : string → K) `{!Inj (=) (=) labels} counts v st :
  SetAll labels counts v !! labels st = match counts !! st with Some n => Some n | None => v !! labels st end.
Proof.
  unfold SetAll. rewrite lookup_union, lookup_kmap by apply _.
  destruct (counts !! st), (v !! labels st); done.
Qed.

Lemma lookup_SetAll_other `{Countable K} (labels : string → K) `{!Inj (=) (=) labels} counts v k :
  (∀ st, k ≠ labels st) → SetAll labels counts v !! k = v !! k.
Proof.
  intros Hk. unfold SetAll. rewrite lookup_union.
  replace (kmap labels counts !! k) with (None : option Z); [by destruct (v !! k)|].
  symmetry. apply lookup_kmap_None; [apply _|]. intros st ->. by destruct (Hk st).
Qed.

#[local] Instance dag_labels_inj (db ns : string) : Inj (=) (=) (λ st : string, (db, ns, st)).
Proof. intros ?? [=]. done. Qed.
#[local] Instance run_labels_inj (db : string) : Inj (=) (=) (λ st : string, (db, st)).
Proof. intros ?? [=]. done. Qed.

Lemma publish_other db t reg l ns st :
  ns ∉ l → DatabaseDAGsTotal (foldl (publish db t) reg l) !! (db, ns, st) = DatabaseDAGsTotal reg !! (db, ns, st).
Proof.
  revert reg. induction l as [|x l IH]; intros reg Hns; [done|].
  apply not_elem_of_cons in Hns as [Hx Hl]. simpl. rewrite IH by done.
  apply (lookup_SetAll_other (λ s, (db, x, s))). intros s [=]. congruence.
Qed.

Lemma publish_in db t reg l ns st n :
  ns ∈ l → dag_gauges t ns !! st = Some n →
  DatabaseDAGsTotal (foldl (publish db t) reg l) !! (db, ns, st) = Some n.
Proof.
  revert reg. induction l as [|x l IH]; intros reg Hns Hn; [by apply not_elem_of_nil in Hns|].
  simpl. destruct (decide (ns ∈ l)) as [Hl|Hl]; [by apply IH|].
  apply elem_of_cons in Hns as [->|]; [|done]. rewrite publish_other by done.
  etransitivity; [apply (lookup_SetAll (λ s, (db, x, s)))|]. by rewrite Hn.
Qed.

(** The gauges of the runs after a round are those of the last namespace. *)
Lemma publish_last db t reg l ns st n :
  last l = Some ns → run_counts t ns !! st = Some n →
  DatabaseDAGRunsTotal (foldl (publish db t) reg l) !! (db, st) = Some n.
Proof.
  intros Hl Hn. apply last_Some in Hl as [l' ->]. rewrite foldl_app. simpl.
  etransitivity; [apply (lookup_SetAll (λ s, (db, s)))|]. by rewrite Hn.
Qed.

Lemma publish_last_tasks db t reg l ns st n :
  last l = Some ns → task_run_counts t ns !! st = Some n →
  DatabaseTaskRunsTotal (foldl (publish db t) reg l) !! (db, st) = Some n.
Proof.
  intros Hl Hn. apply last_Some in Hl as [l' ->]. rewrite foldl_app. simpl.
  etransitivity; [apply (lookup_SetAll (λ s, (db, s)))|]. by rewrite Hn.
Qed.

(** The three gauges of a namespace share out its versions of DAGs. *)
Lemma dag_gauges_sum t ns :
  ∃ a s i, dag_gauges t ns !! "active" = Some a ∧ dag_gauges t ns !! "suspended" = Some s ∧
    dag_gauges t ns !! "inactive" = Some i ∧
    (a + s + i = count_where (λ d, d_namespace d =b ns) (tb_DAGs t))%Z.
Proof.
  do 3 eexists. split; [reflexivity|]. split; [reflexivity|]. split; [reflexivity|].
  unfold count_where, where_. induction (tb_DAGs t) as [|d l IH]; [done|]. simpl.
  destruct (d_namespace d =b ns), (d_active d), (d_suspended d); simpl in *; lia.
Qed.

(** What a round does on a healthy database. *)
Definition content_round (db : string) (update : M Metered unit) (order : list string) (m : Metered)
    : Prop :=
  let t := st_tables (mt_db m) in
  let m' := (update m).2 in
  (update m).1 = Ok tt ∧ mt_db m' = mt_db m ∧
  (∀ ns st n, ns ∈ namespaces t → dag_gauges t ns !! st = Some n →
     DatabaseDAGsTotal (mt_metrics m') !! (db, ns, st) = Some n) ∧
  (∀ ns st, ns ∉ namespaces t →
     DatabaseDAGsTotal (mt_metrics m') !! (db, ns, st) =
     DatabaseDAGsTotal (mt_metrics m) !! (db, ns, st)) ∧
  (∀ ns st n, last order = Some ns → run_counts t ns !! st = Some n →
     DatabaseDAGRunsTotal (mt_metrics m') !! (db, st) = Some n) ∧
  (∀ ns st n, last order = Some ns → task_run_counts t ns !! st = Some n →
     DatabaseTaskRunsTotal (mt_metrics m') !! (db, st) = Some n).

Lemma content_update_round db grouped m :
  (∀ l, grouped l ≡ₚ l) → nofault (mt_db m) →
  content_round db (content_update db grouped) (grouped (namespaces (st_tables (mt_db m)))) m.
Proof.
  intros Hg Hs. destruct m as [s reg clk n]. unfold content_round. cbn [mt_db mt_metrics] in *.
  rewrite content_update_publishes by done. cbn.
  assert (Hel : ∀ ns, ns ∈ grouped (namespaces (st_tables s)) ↔ ns ∈ namespaces (st_tables s))
    by (intros ns; by rewrite Hg).
  repeat split; intros.
  - apply publish_in; [by apply Hel|done].
  - apply publish_other. by rewrite Hel.
  - by eapply publish_last.
  - by eapply publish_last_tasks.
Qed.

(** A round of the collection on a healthy database, whatever order the groups
    come in: the gauges of every namespace that has DAGs are its numbers of
    active, suspended and inactive versions, those of other namespaces keep
    their last values, and the gauges of the runs and the task runs are the
    numbers of the last namespace alone. *)
Theorem content_gauges grouped m :
  (∀ l, grouped l ≡ₚ l) → nofault (mt_db m) →
  let order := grouped (namespaces (st_tables (mt_db m))) in
  content_round "sqlite" (SqliteMetrics.updateContentMetrics grouped) order m ∧
  content_round "postgresql" (PgMetrics.updateContentMetrics grouped) order m.
Proof.
  intros Hg Hs order. rewrite sqlite_content, pg_content.
  split; by apply content_update_round.
Qed.

(** *** Two namespaces, each with a run that is going on *)

Definition two_namespaces : Tables :=
  let dag id ns := mkDagRow id "etl" 1 "" "" ns true 1 None "" false None false in
  let run id dag := mkRunRow id "r" dag "running" 0 0 0 0 None in
  mkTables [] [dag 1%Z "a"; dag 2%Z "b"] [] [] [] [] [] [run 1%Z 1%Z; run 2%Z 2%Z] [] [] []
    2 0 0 0 0 2 0 0.

Definition two_namespaces_metered : Metered :=
  mkMetered (mkStore two_namespaces [] 0 0 0) no_metrics Z.of_nat 0.

Lemma content_gauges_witness :
  nofault (mt_db two_namespaces_metered) ∧
  content_round "sqlite" (SqliteMetrics.updateContentMetrics id) ["a"; "b"] two_namespaces_metered.
Proof. split; [reflexivity|]. apply (content_gauges id two_namespaces_metered); done. Defined.

(** The gauge says one running run where there are two: the gauges of the runs have
    no label for the namespace, and each namespace overwrites the one before. *)
Example gauge_of_runs_is_the_last_namespace :
  let m' := (SqliteMetrics.updateContentMetrics id two_namespaces_metered).2 in
  DatabaseDAGRunsTotal (mt_metrics m') !! ("sqlite", "running") = Some 1%Z ∧
  count_where (λ r, r_status r =b "running") (tb_DAG_Runs two_namespaces) = 2%Z ∧
  DatabaseDAGsTotal (mt_metrics m') !! ("sqlite", "a", "active") = Some 1%Z ∧
  DatabaseDAGsTotal (mt_metrics m') !! ("sqlite", "b", "active") = Some 1%Z.
Proof. vm_compute. done. Qed.
