(* ===== verification/WorkerPool.v ===== *)
(** * The controller of worker pools (internal/controller/workerpool_*.go)

    A [WorkerPool] becomes a Deployment of workers, with a ServiceAccount, a Role
    and a RoleBinding for them; a pool that is deleted is let go of when its
    workers are gone.  [CreateOrUpdate] and [SetControllerReference] of
    controller-runtime and the API server are an interface; environment variables
    and the clock are parameters. *)

From S2P Require Import Prelude Api Kube Controllers.
Local Open Scope kontroler_scope.

(** ** Worker pools (api/v1alpha1/workerpool_types.go) *)

Record Concurrency := mkConcurrency {
  cc_MaxConcurrentClaims : option Z;
  cc_ClaimBatchSize : option Z
}.

Record PoolLease := mkPoolLease { pl_TTLSeconds : option Z }.

Record PoolMetrics := mkPoolMetrics { pm_Enabled : bool; pm_ScrapePort : option Z }.

Record WorkerPoolSpec := mkWorkerPoolSpec {
  wps_Replicas : option Z;
  wps_Image : string;
  wps_Concurrency : option Concurrency;
  wps_Lease : option PoolLease;
  wps_PodTemplate : option PodTemplateSpec;
  wps_DBSecretRef : string;
  wps_Metrics : option PoolMetrics;
  wps_GracefulShutdownSeconds : option Z
}.

Record WorkerPoolStatus := mkWorkerPoolStatus {
  wpt_Replicas : Z;
  wpt_ReadyReplicas : Z;
  wpt_LastReconcileTime : option Z
}.

Record WorkerPool := mkWorkerPool {
  wp_Name : string;
  wp_Namespace : string;
  wp_UID : string;
  wp_Finalizers : list string;
  wp_DeletionTimestamp : option Z;
  wp_Spec : WorkerPoolSpec;
  wp_Status : WorkerPoolStatus
}.

Definition set_wp_Finalizers (l : list string) (wp : WorkerPool) : WorkerPool :=
  mkWorkerPool (wp_Name wp) (wp_Namespace wp) (wp_UID wp) l (wp_DeletionTimestamp wp) (wp_Spec wp)
    (wp_Status wp).

Definition set_wp_Status (st : WorkerPoolStatus) (wp : WorkerPool) : WorkerPool :=
  mkWorkerPool (wp_Name wp) (wp_Namespace wp) (wp_UID wp) (wp_Finalizers wp)
    (wp_DeletionTimestamp wp) (wp_Spec wp) st.

(** ** The objects of the cluster *)

(** A Deployment with the one container of its pods: what [PodSpec] says of it,
    its ports and its pull policy. *)
Record Deployment := mkDeployment {
  dp_Name : string;
  dp_Namespace : string;
  dp_Labels : gmap string string;
  dp_Annotations : gmap string string;
  (** the UID of the object that controls it *)
  dp_Controller : option string;
  dp_Replicas : option Z;
  dp_Selector : gmap string string;
  dp_TemplateLabels : gmap string string;
  dp_Template : PodSpec;
  dp_Ports : list (Z * string);
  dp_ImagePullPolicy : string;
  dp_ReadyReplicas : Z
}.

Definition set_dp_Replicas (n : option Z) (d : Deployment) : Deployment :=
  mkDeployment (dp_Name d) (dp_Namespace d) (dp_Labels d) (dp_Annotations d) (dp_Controller d) n
    (dp_Selector d) (dp_TemplateLabels d) (dp_Template d) (dp_Ports d) (dp_ImagePullPolicy d)
    (dp_ReadyReplicas d).

Record ServiceAccount := mkServiceAccount {
  sa_Name : string;
  sa_Namespace : string;
  sa_Controller : option string
}.

Record PolicyRule := mkPolicyRule {
  rule_APIGroups : list string;
  rule_Resources : list string;
  rule_Verbs : list string
}.

Record Role := mkRole { role_Name : string; role_Namespace : string; role_Rules : list PolicyRule }.

Record Subject := mkSubject { sub_Kind : string; sub_Name : string; sub_Namespace : string }.

Record RoleRef := mkRoleRef { ref_APIGroup : string; ref_Kind : string; ref_Name : string }.

Record RoleBinding := mkRoleBinding {
  rb_Name : string;
  rb_Namespace : string;
  rb_Subjects : list Subject;
  rb_RoleRef : option RoleRef
}.

(** ** The client *)

(** [CreateOrUpdate] hands the object it found, or else the one it is given, to
    the function, and sends what the function makes of it. *)
Class PoolClient (C : Type) := {
  pool_Get (namespace name : string) : M C WorkerPool;
  pool_Update (wp : WorkerPool) : M C WorkerPool;
  pool_UpdateStatus (wp : WorkerPool) : M C WorkerPool;
  deployment_Get (namespace name : string) : M C Deployment;
  deployment_Update (d : Deployment) : M C Deployment;
  deployment_CreateOrUpdate (d : Deployment) (f : Deployment → result Deployment) : M C Deployment;
  sa_CreateOrUpdate (sa : ServiceAccount) (f : ServiceAccount → result ServiceAccount)
    : M C ServiceAccount;
  role_CreateOrUpdate (role : Role) (f : Role → result Role) : M C Role;
  rolebinding_CreateOrUpdate (rb : RoleBinding) (f : RoleBinding → result RoleBinding)
    : M C RoleBinding;
  (** the controller of an object after the call, from the one before it *)
  SetControllerReference (owner : WorkerPool) (controller : option string)
    : result (option string);
  pool_IsNotFound : GoError → bool
}.

(** [if err := ...; err != nil { return fmt.Errorf("msg: %w", err) }] *)
Definition wrap_error {S A} (msg : string) (m : M S A) : M S A :=
  try m ≫= λ r, match r with Ok a => mret a | Err e => throw (EWrap msg e) end.

Module Pools.

Definition workerPoolFinalizer : string := "workerpool.finalizers.kontroler.greedykomodo".

Definition fmtIntPtr (p : option Z) : string :=
  match p with None => "" | Some n => Itoa n end.

(** What the controller is given: its environment variables, the clock and the
    Kubernetes library. *)
Record PoolEnv := mkPoolEnv {
  Getenv : string → string;
  clock : Z;
  lib : K8sLib
}.

Section reconciler.
Context {C : Type} `{PoolClient C} (env : PoolEnv).

(** ** The account of the workers (workerpool_rbac.go) *)

Definition pod_rules : list PolicyRule :=
  [ mkPolicyRule [""] ["pods"] ["create"; "get"; "list"; "watch"; "update"; "patch"; "delete"];
    mkPolicyRule [""] ["pods/exec"] ["create"] ].

Definition ensureWorkerRBAC (wp : WorkerPool) : M C string :=
  let saName := wp_Name wp +:+ "-sa" in
  let roleName := wp_Name wp +:+ "-pod-ops" in
  let rbName := wp_Name wp +:+ "-pod-ops-binding" in
  match SetControllerReference wp None with
  | Err e => throw e
  | Ok owner =>
      wrap_error "failed to create or update serviceaccount"
        (sa_CreateOrUpdate (mkServiceAccount saName (wp_Namespace wp) owner) Ok) ≫= λ _,
      wrap_error "failed to create or update role"
        (role_CreateOrUpdate (mkRole roleName (wp_Namespace wp) [])
           (λ role, Ok (mkRole (role_Name role) (role_Namespace role) pod_rules))) ≫= λ _,
      wrap_error "failed to create or update rolebinding"
        (rolebinding_CreateOrUpdate (mkRoleBinding rbName (wp_Namespace wp) [] None)
           (λ rb, Ok (mkRoleBinding (rb_Name rb) (rb_Namespace rb)
                        [mkSubject "ServiceAccount" saName (wp_Namespace wp)]
                        (Some (mkRoleRef "rbac.authorization.k8s.io" "Role" roleName))))) ≫= λ _,
      mret saName
  end.

(** ** The Deployment of a pool (workerpool_controller.go) *)

Definition literal (name value : string) : EnvVar := mkEnvVar name value None.

(** A variable of the controller that is set is passed on. *)
Definition propagated (name : string) : list EnvVar :=
  if Getenv env name =b "" then [] else [literal name (Getenv env name)].

Definition getenv_or (name fallback : string) : string :=
  if Getenv env name =b "" then fallback else Getenv env name.

Definition int_env (name : string) (p : option Z) : list EnvVar :=
  match p with None => [] | Some _ => [literal name (fmtIntPtr p)] end.

Definition worker_envs (wp : WorkerPool) : list EnvVar :=
  let spec := wp_Spec wp in
  [literal "WORKERPOOL_NAME" (wp_Name wp)]
  ++ propagated "DB_TYPE" ++ propagated "DB_ENDPOINT" ++ propagated "DB_NAME"
  ++ propagated "DB_USER"
  ++ [mkEnvVar "DB_PASSWORD" ""
        (Some (getenv_or "DB_PASSWORD_SECRET" "postgres-postgresql",
               getenv_or "DB_PASSWORD_KEY" "postgres-password"))]
  ++ match wps_Concurrency spec with
     | Some c => int_env "CLAIM_BATCH_SIZE" (cc_ClaimBatchSize c)
                 ++ int_env "MAX_CONCURRENT_CLAIMS" (cc_MaxConcurrentClaims c)
     | None => []
     end
  ++ match wps_Lease spec with
     | Some l => int_env "DEFAULT_LEASE_TTL_SECONDS" (pl_TTLSeconds l)
     | None => []
     end
  ++ (if wps_DBSecretRef spec =b "" then [] else [literal "DB_SECRET_NAME" (wps_DBSecretRef spec)]).

Definition containerImage (wp : WorkerPool) : string :=
  if wps_Image (wp_Spec wp) =b "" then "greedykomodo/kontroler-worker:latest"
  else wps_Image (wp_Spec wp).

(** The pods without a template of the pool's own. *)
Definition worker_pod (wp : WorkerPool) : PodSpec :=
  mkPodSpec "" [] []
    [mkContainer "worker" (containerImage wp) [] [] (worker_envs wp) [] None]
    [] None ∅ [] None "" None None.

(** The template of the pool, merged into the pods; the quantities that do not
    parse and the affinities that are no JSON are dropped. *)
Definition merge_template (defaultSA : string) (pt : PodTemplateSpec) (s : PodSpec) : PodSpec :=
  let parts := ToK8sParts (lib env) pt in
  let first (c : Container) :=
    mkContainer (c_Name c) (c_Image c) (c_Command c) (c_Args c) (c_Env c)
      (c_VolumeMounts c ++ k8_VolumeMounts parts)
      (match k8_Resources parts with Some r => Some r | None => c_Resources c end) in
  mkPodSpec (sp_RestartPolicy s) (sp_Volumes s ++ k8_Volumes parts) (sp_InitContainers s)
    (match sp_Containers s with c :: cs => first c :: cs | [] => [] end)
    (k8_ImagePullSecrets parts) (k8_SecurityContext parts) (pt_NodeSelector pt)
    (k8_Tolerations parts) (k8_Affinity parts)
    (if pt_ServiceAccountName pt =b "" then
       (if defaultSA =b "" then sp_ServiceAccountName s else defaultSA)
     else pt_ServiceAccountName pt)
    (pt_AutomountServiceAccountToken pt) (pt_ActiveDeadlineSeconds pt).

(** The function that is given to [CreateOrUpdate]. *)
Definition mutate (wp : WorkerPool) (replicas : Z) (defaultSA : string) (dep : Deployment)
    : result Deployment :=
  match SetControllerReference wp (dp_Controller dep) with
  | Err e => Err e
  | Ok controller =>
      let spec := worker_pod wp in
      let spec := match wps_PodTemplate (wp_Spec wp) with
                  | Some pt => merge_template defaultSA pt spec
                  | None => spec
                  end in
      Ok (mkDeployment (dp_Name dep) (dp_Namespace dep) (dp_Labels dep) (dp_Annotations dep)
            controller (Some replicas) (dp_Labels dep) (dp_Labels dep) spec
            [(9100%Z, "metrics")] "IfNotPresent" (dp_ReadyReplicas dep))
  end.

Definition new_deployment (wp : WorkerPool) : Deployment :=
  let labels : gmap string string :=
    {[ "app" := "kontroler-worker"; "workerpool" := wp_Name wp ]} in
  mkDeployment (wp_Name wp +:+ "-workers") (wp_Namespace wp) labels ∅ None None labels ∅
    (mkPodSpec "" [] [] [] [] None ∅ [] None "" None None) [] "" 0.

(** ** Reconciliation *)

Definition replicas_of (wp : WorkerPool) : Z := default 1%Z (wps_Replicas (wp_Spec wp)).

Definition needs_account (wp : WorkerPool) : bool :=
  match wps_PodTemplate (wp_Spec wp) with
  | None => true
  | Some pt => pt_ServiceAccountName pt =b ""
  end.

Definition is_deleted (wp : WorkerPool) : bool := bool_decide (is_Some (wp_DeletionTimestamp wp)).

Definition has_finalizer (wp : WorkerPool) : bool :=
  containsString (wp_Finalizers wp) workerPoolFinalizer.

Definition with_finalizer (wp : WorkerPool) : WorkerPool :=
  set_wp_Finalizers (wp_Finalizers wp ++ [workerPoolFinalizer]) wp.

Definition without_finalizer (wp : WorkerPool) : WorkerPool :=
  set_wp_Finalizers (removeString (wp_Finalizers wp) workerPoolFinalizer) wp.

(** A pool that is not deleted gets its finalizer. *)
Definition ensure_finalizer (wp : WorkerPool) : M C WorkerPool :=
  if negb (is_deleted wp) && negb (has_finalizer wp) then pool_Update (with_finalizer wp)
  else mret wp.

(** Scale down, wait, let go; the answer is the time after which to try again. *)
Definition reconcile_deletion (wp : WorkerPool) : M C (option Z) :=
  got ← try (deployment_Get (wp_Namespace wp) (wp_Name wp +:+ "-workers"));
  match got with
  | Ok existing =>
      existing ← (if dp_Replicas existing =b Some 0%Z then mret existing
                  else deployment_Update (set_dp_Replicas (Some 0%Z) existing));
      if bool_decide (0 < dp_ReadyReplicas existing)%Z then mret (Some 2000000000%Z)
      else pool_Update (without_finalizer wp) ≫= λ _, mret None
  | Err _ =>
      if has_finalizer wp then pool_Update (without_finalizer wp) ≫= λ _, mret None
      else mret None
  end.

(** The status is written as far as the Deployment can be read; a write that
    fails is ignored. *)
Definition update_status (wp : WorkerPool) (replicas : Z) (dep : Deployment) : M C WorkerPool :=
  let st := wp_Status wp in
  let wp := set_wp_Status (mkWorkerPoolStatus replicas (wpt_ReadyReplicas st)
                             (wpt_LastReconcileTime st)) wp in
  curr ← try (deployment_Get (dp_Namespace dep) (dp_Name dep));
  match curr with
  | Ok curr =>
      let wp := set_wp_Status (mkWorkerPoolStatus replicas (dp_ReadyReplicas curr)
                                 (Some (clock env))) wp in
      u ← try (pool_UpdateStatus wp);
      mret (match u with Ok wp' => wp' | Err _ => wp end)
  | Err _ => mret wp
  end.

Definition Reconcile (namespace name : string) : M C (option Z) :=
  got ← try (pool_Get namespace name);
  match got with
  | Err e => if pool_IsNotFound e then mret None else throw e
  | Ok wp =>
      let replicas := replicas_of wp in
      defaultSA ← (if needs_account wp then ensureWorkerRBAC wp else mret "");
      let dep := new_deployment wp in
      wp ← ensure_finalizer wp;
      if is_deleted wp then reconcile_deletion wp
      else
        dep ← deployment_CreateOrUpdate dep (mutate wp replicas defaultSA);
        wp ← update_status wp replicas dep;
        ensure_finalizer wp ≫= λ _, mret None
  end.

End reconciler.

End Pools.
