(* ===== verification/WorkerPoolSpec.v ===== *)
(** * What the controller of worker pools does to a cluster

    An API server that answers as it likes and records what it is asked with what
    it said: a pool is let go of only after its workers were seen gone, or its
    Deployment could not be read; a reconciliation of a live pool that succeeds
    leaves a finalizer on the pool and a Deployment with the wanted workers, in
    this order. *)

From S2P Require Import Prelude Api Kube Controllers WorkerPool.
Import Pools.
Local Open Scope kontroler_scope.

(** ** A server of which only the exchanges are known *)

Inductive PoolCall :=
| GetPool (namespace name : string)
| UpdatePool (wp : WorkerPool)
| UpdatePoolStatus (wp : WorkerPool)
| GetDeployment (namespace name : string)
| UpdateDeployment (d : Deployment)
| CreateDeployment (d : Deployment)
| EnsureServiceAccount (sa : ServiceAccount)
| EnsureRole (role : Role)
| EnsureRoleBinding (rb : RoleBinding).

Definition Reply (c : PoolCall) : Type :=
  match c with
  | GetPool _ _ | UpdatePool _ | UpdatePoolStatus _ => WorkerPool
  | GetDeployment _ _ | UpdateDeployment _ | CreateDeployment _ => Deployment
  | EnsureServiceAccount _ => ServiceAccount
  | EnsureRole _ => Role
  | EnsureRoleBinding _ => RoleBinding
  end.

(** A request with its answer. *)
Definition Event : Type := {c : PoolCall & result (Reply c)}.

Record PoolServer := mkPoolServer {
  reply : ∀ c : PoolCall, list Event → result (Reply c);
  not_found : GoError → bool;
  (** [DeepEqual] of the object that was found and what became of it *)
  unchanged : Deployment → Deployment → bool
}.

Definition ask (srv : PoolServer) (c : PoolCall) : M (list Event) (Reply c) := λ h,
  let r := reply srv c h in (r, h ++ [existT c r]).

(** [CreateOrUpdate] of controller-runtime: what is found is updated when the
    function changes it; what is not found is created. *)
Definition create_or_update_deployment (srv : PoolServer) (d : Deployment)
    (f : Deployment → result Deployment) : M (list Event) Deployment :=
  got ← try (ask srv (GetDeployment (dp_Namespace d) (dp_Name d)));
  match got with
  | Err e =>
      if not_found srv e then
        match f d with
        | Err e' => throw e'
        | Ok d' => ask srv (CreateDeployment d')
        end
      else throw e
  | Ok existing =>
      match f existing with
      | Err e' => throw e'
      | Ok d' => if unchanged srv existing d' then mret d' else ask srv (UpdateDeployment d')
      end
  end.

Definition sent {S A} (r : result A) (m : A → M S A) : M S A :=
  match r with Ok a => m a | Err e => throw e end.

(** The controller of an object: the pool's UID, unless another one has it. *)
Definition controlled (owner : WorkerPool) (controller : option string) : result (option string) :=
  match controller with
  | None => Ok (Some (wp_UID owner))
  | Some u => if u =b wp_UID owner then Ok (Some u) else Err (EErrorf "already owned")
  end.

Definition PoolServer_client (srv : PoolServer) : PoolClient (list Event) := {|
  pool_Get namespace name := ask srv (GetPool namespace name);
  pool_Update wp := ask srv (UpdatePool wp);
  pool_UpdateStatus wp := ask srv (UpdatePoolStatus wp);
  deployment_Get namespace name := ask srv (GetDeployment namespace name);
  deployment_Update d := ask srv (UpdateDeployment d);
  deployment_CreateOrUpdate := create_or_update_deployment srv;
  sa_CreateOrUpdate sa f := sent (f sa) (λ sa, ask srv (EnsureServiceAccount sa));
  role_CreateOrUpdate role f := sent (f role) (λ role, ask srv (EnsureRole role));
  rolebinding_CreateOrUpdate rb f := sent (f rb) (λ rb, ask srv (EnsureRoleBinding rb));
  SetControllerReference := controlled;
  pool_IsNotFound := not_found srv
|}.

Lemma bind_ok {S A B} (m : M S A) (f : A → M S B) s b s' :
  (m ≫= f) s = (Ok b, s') → ∃ a s1, m s = (Ok a, s1) ∧ f a s1 = (Ok b, s').
Proof. unfold mbind, M_bind. destruct (m s) as [[a|e] s1]; [by eauto|done]. Qed.

(** ** Which exchanges a computation has *)

(** The exchanges between two histories, all of which satisfy a predicate. *)
Definition exchanges (P : Event → Prop) (h h' : list Event) : Prop :=
  ∃ new, h' = h ++ new ∧ Forall P new.

#[global] Instance exchanges_preorder P : PreOrder (exchanges P).
Proof.
  split.
  - intros h. exists []. by rewrite app_nil_r.
  - intros h1 h2 h3 (l1 & -> & H1) (l2 & -> & H2). exists (l1 ++ l2).
    rewrite app_assoc. split; [done|]. by apply Forall_app.
Qed.

Lemma exchanges_ask P srv c : (∀ r, P (existT c r)) → steps (exchanges P) (ask srv c).
Proof. intros HP h. exists [existT c (reply srv c h)]. split; [done|]. by rewrite Forall_singleton. Qed.

Lemma exchanges_sent P {A} (r : result A) (f : A → M (list Event) A) :
  (∀ a, r = Ok a → steps (exchanges P) (f a)) → steps (exchanges P) (sent r f).
Proof. intros Hf. destruct r as [a|e]; [by apply Hf|]. apply steps_throw; exact _. Qed.

(** An update that takes the finalizer off the pool. *)
Definition releases (e : Event) : Prop :=
  match e with
  | existT (UpdatePool wp) _ => has_finalizer wp = false
  | _ => False
  end.

Ltac keeps_pool :=
  repeat first
    [ apply exchanges_ask; intros ?; cbn; solve [tauto|congruence]
    | apply steps_ret; exact _ | apply steps_throw; exact _
    | apply steps_bind; [exact _| |intros ?]
    | apply steps_try
    | apply exchanges_sent; intros ? _
    | case_match ].

Section trace.
Context (srv : PoolServer) (env : PoolEnv).
#[local] Instance client : PoolClient (list Event) := PoolServer_client srv.

Lemma keeps_rbac wp : steps (exchanges (λ e, ¬ releases e)) (ensureWorkerRBAC wp).
Proof. unfold ensureWorkerRBAC, wrap_error. cbn. keeps_pool. Qed.

Lemma has_with_finalizer wp : has_finalizer (with_finalizer wp) = true.
Proof.
  unfold has_finalizer, containsString, with_finalizer. simpl. rewrite existsb_app. simpl.
  by rewrite !orb_true_r.
Qed.

Lemma keeps_ensure wp : steps (exchanges (λ e, ¬ releases e)) (ensure_finalizer wp).
Proof.
  unfold ensure_finalizer. case_match; [|keeps_pool]. apply exchanges_ask. intros r.
  unfold releases. by rewrite has_with_finalizer.
Qed.

Lemma keeps_create_or_update d f :
  steps (exchanges (λ e, ¬ releases e)) (deployment_CreateOrUpdate d f).
Proof. cbn. unfold create_or_update_deployment. keeps_pool. Qed.

Lemma keeps_status wp n d : steps (exchanges (λ e, ¬ releases e)) (update_status env wp n d).
Proof. unfold update_status. cbn. keeps_pool. Qed.

(** ** A pool is let go of when its workers are gone *)

(** The last exchange showed a Deployment with no replicas wanted and no pod
    ready, or that it could not be read. *)
Definition workers_gone (h : list Event) : Prop :=
  match last h with
  | Some (existT (GetDeployment _ _) (Ok d)) => dp_Replicas d = Some 0%Z ∧ (dp_ReadyReplicas d <= 0)%Z
  | Some (existT (UpdateDeployment d0) (Ok d)) =>
      dp_Replicas d0 = Some 0%Z ∧ (dp_ReadyReplicas d <= 0)%Z
  | Some (existT (GetDeployment _ _) (Err _)) => True
  | _ => False
  end.

(** A release is the last exchange, of a deleted pool whose workers are gone,
    and changes nothing but the finalizer. *)
Definition released_when_gone (h h' : list Event) : Prop :=
  ∃ new, h' = h ++ new ∧ ∀ pre e post, new = pre ++ e :: post → releases e →
    workers_gone pre ∧ post = [] ∧
    ∃ wp, is_deleted wp = true ∧ projT1 e = UpdatePool (without_finalizer wp).

Lemma released_none h h' : exchanges (λ e, ¬ releases e) h h' → released_when_gone h h'.
Proof.
  intros (new & -> & Hnew). exists new. split; [done|]. intros pre e post -> He.
  by apply Forall_app in Hnew as [_ [? _]%Forall_cons].
Qed.

Lemma workers_gone_app h h' : workers_gone h' → workers_gone (h ++ h').
Proof.
  unfold workers_gone. destruct h' as [|e l] using rev_ind; [done|].
  by rewrite app_assoc, !last_snoc.
Qed.

Lemma released_after h h1 h2 :
  exchanges (λ e, ¬ releases e) h h1 → released_when_gone h1 h2 → released_when_gone h h2.
Proof.
  intros (l1 & -> & H1) (l2 & -> & H2). exists (l1 ++ l2). rewrite app_assoc. split; [done|].
  intros pre e post E He. apply app_eq_app in E as (l & [[-> E]|[-> E]]).
  - destruct l as [|e' l]; simpl in E.
    + by destruct (H2 [] e post) as ([] & _).
    + injection E as <- _. by apply Forall_app in H1 as [_ [? _]%Forall_cons].
  - destruct (H2 l e post E He) as (Hg & Hr). split; [|done]. by apply workers_gone_app.
Qed.

Lemma released_bind {A B} (m : M (list Event) A) (f : A → M (list Event) B) h :
  steps (exchanges (λ e, ¬ releases e)) m →
  (∀ a, m h = (Ok a, (m h).2) → released_when_gone (m h).2 (f a (m h).2).2) →
  released_when_gone h ((m ≫= f) h).2.
Proof.
  intros Hm Hf. specialize (Hm h). unfold mbind, M_bind.
  destruct (m h) as [[a|e] h1]; simpl in *.
  - eapply released_after; [exact Hm|]. by apply Hf.
  - by apply released_none.
Qed.

(** The last of some exchanges is a release. *)
Lemma released_last h quiet e :
  Forall (λ e, ¬ releases e) quiet →
  (releases e → workers_gone quiet) →
  (releases e → ∃ wp, is_deleted wp = true ∧ projT1 e = UpdatePool (without_finalizer wp)) →
  released_when_gone h (h ++ quiet ++ [e]).
Proof.
  intros Hq Hg Hw. exists (quiet ++ [e]). split; [done|]. intros pre e' post E He'.
  destruct post as [|e2 post _] using rev_ind.
  - apply app_inj_tail in E as [-> ->]. auto.
  - rewrite app_comm_cons, app_assoc in E. apply app_inj_tail in E as [-> _].
    by apply Forall_app in Hq as [_ [? _]%Forall_cons].
Qed.

Lemma released_quiet h quiet : Forall (λ e, ¬ releases e) quiet → released_when_gone h (h ++ quiet).
Proof. intros Hq. apply released_none. by exists quiet. Qed.

Lemma released_update wp h quiet :
  is_deleted wp = true → Forall (λ e, ¬ releases e) quiet → workers_gone quiet →
  released_when_gone h
    ((pool_Update (without_finalizer wp) ≫= λ _, mret (None : option Z)) (h ++ quiet)).2.
Proof.
  intros Hd Hq Hg. unfold mbind, M_bind, pool_Update, client. cbn. unfold ask.
  destruct (reply srv _ _); simpl; rewrite <- app_assoc;
    (apply released_last; [done..|]); intros _; by exists wp.
Qed.

#[local] Hint Extern 1 (Forall _ _) => repeat constructor; by intros [] : core.

Lemma released_deletion wp h :
  is_deleted wp = true → released_when_gone h (reconcile_deletion wp h).2.
Proof.
  intros Hd. unfold reconcile_deletion. set (release := pool_Update _ ≫= _).
  unfold mbind, M_bind, try. cbn [deployment_Get deployment_Update client PoolServer_client].
  unfold ask at 1. set (c := GetDeployment _ _). destruct (reply srv c h) as [d|e] eqn:Er.
  2: { destruct (has_finalizer wp); [|apply (released_quiet h [existT c (Err e)]); auto].
       apply (released_update wp h [existT c (Err e)]); auto. done. }
  case_bool_decide as E0.
  - simpl. case_bool_decide as Hr; [apply (released_quiet h [existT c (Ok d)]); auto|].
    apply (released_update wp h [existT c (Ok d)]); auto. split; [done|lia].
  - unfold ask at 1. set (u := UpdateDeployment _).
    destruct (reply srv u (h ++ [existT c (Ok d)])) as [d'|e] eqn:Eu; rewrite <- app_assoc.
    2: { apply (released_quiet h [existT c (Ok d); existT u (Err e)]); auto. }
    case_bool_decide as Hr.
    + apply (released_quiet h [existT c (Ok d); existT u (Ok d')]); auto.
    + apply (released_update wp h [existT c (Ok d); existT u (Ok d')]); auto. split; [done|lia].
Qed.

Lemma released_reconcile namespace name h :
  released_when_gone h (Reconcile env namespace name h).2.
Proof.
  unfold Reconcile. apply released_bind; [apply steps_try, exchanges_ask; by intros ? []|].
  intros [wp|e] _; [|case_match; by apply released_none].
  apply released_bind; [case_match; [apply keeps_rbac|apply steps_ret, _]|]. intros defaultSA _.
  apply released_bind; [apply keeps_ensure|]. intros wp1 _.
  destruct (is_deleted wp1) eqn:Hd; [by apply released_deletion|].
  apply released_bind; [apply keeps_create_or_update|]. intros d _.
  apply released_bind; [apply keeps_status|]. intros wp2 _.
  apply released_bind; [apply keeps_ensure|]. intros wp3 _. by apply released_none.
Qed.

End trace.

(** C25: Whatever the cluster answers, a reconciliation takes the finalizer off a
    worker pool only when the pool is deleted, as its last request, and after the
    last answer showed the Deployment scaled to zero with no pod ready - or that
    the Deployment could not be read; it changes nothing else of the pool. *)
Theorem pool_released_when_workers_gone srv env namespace name h :
  released_when_gone h (Reconcile (H := PoolServer_client srv) env namespace name h).2.
Proof. apply released_reconcile. Qed.

(** ** The workers of a pool *)

(** The value of a variable in a container: the first entry of its name. *)
Fixpoint env_value (l : list EnvVar) (n : string) : option (string * option (string * string)) :=
  match l with
  | [] => None
  | e :: l' => if ev_Name e =b n then Some (ev_Value e, ev_ValueFrom e) else env_value l' n
  end.

(** What a worker is told under a name. *)
Definition told (env : PoolEnv) (wp : WorkerPool) (n : string)
    : option (string * option (string * string)) :=
  let set v := if v =b "" then None else Some (v, None) in
  let or_else v d := if v =b "" then d else v in
  let number (p : option Z) := (λ z, (Itoa z, None)) <$> p in
  let conc := wps_Concurrency (wp_Spec wp) in
  if n =b "WORKERPOOL_NAME" then Some (wp_Name wp, None)
  else if bool_decide (n ∈ ["DB_TYPE"; "DB_ENDPOINT"; "DB_NAME"; "DB_USER"]) then set (Getenv env n)
  else if n =b "DB_PASSWORD" then
    Some ("", Some (or_else (Getenv env "DB_PASSWORD_SECRET") "postgres-postgresql",
                    or_else (Getenv env "DB_PASSWORD_KEY") "postgres-password"))
  else if n =b "CLAIM_BATCH_SIZE" then number (conc ≫= cc_ClaimBatchSize)
  else if n =b "MAX_CONCURRENT_CLAIMS" then number (conc ≫= cc_MaxConcurrentClaims)
  else if n =b "DEFAULT_LEASE_TTL_SECONDS" then number (wps_Lease (wp_Spec wp) ≫= pl_TTLSeconds)
  else if n =b "DB_SECRET_NAME" then set (wps_DBSecretRef (wp_Spec wp))
  else None.

Definition env_names : list string :=
  ["WORKERPOOL_NAME"; "DB_TYPE"; "DB_ENDPOINT"; "DB_NAME"; "DB_USER"; "DB_PASSWORD";
   "CLAIM_BATCH_SIZE"; "MAX_CONCURRENT_CLAIMS"; "DEFAULT_LEASE_TTL_SECONDS"; "DB_SECRET_NAME"].

Lemma env_value_app l l' n :
  env_value (l ++ l') n = match env_value l n with Some v => Some v | None => env_value l' n end.
Proof. induction l as [|e l IH]; simpl; [done|]. case_bool_decide; [done|apply IH]. Qed.

Lemma env_value_propagated env m n :
  env_value (propagated env m) n =
  if m =b n then if Getenv env m =b "" then None else Some (Getenv env m, None) else None.
Proof. unfold propagated. destruct (Getenv env m =b ""); simpl; by destruct (m =b n). Qed.

Lemma env_value_int m p n :
  env_value (int_env m p) n = if m =b n then (λ z, (Itoa z, None)) <$> p else None.
Proof. destruct p; simpl; by destruct (m =b n). Qed.

Lemma told_other env wp n : n ∉ env_names → told env wp n = None.
Proof.
  intros Hn. unfold told, env_names in *. rewrite !not_elem_of_cons in Hn. destruct_and?.
  repeat (rewrite bool_decide_eq_false_2;
          [|first [done|rewrite !not_elem_of_cons; split_and!; first [done|apply not_elem_of_nil]]]).
  done.
Qed.

Lemma env_value_names l n : n ∉ ev_Name <$> l → env_value l n = None.
Proof.
  induction l as [|e l IH]; simpl; [done|]. rewrite not_elem_of_cons. intros [H1 H2].
  rewrite bool_decide_eq_false_2 by done. by apply IH.
Qed.

Lemma worker_env_names env wp : sublist (ev_Name <$> worker_envs env wp) env_names.
Proof.
  unfold worker_envs, propagated, int_env.
  assert (Hp : ∀ (b : bool) m v, sublist (ev_Name <$> if b then [] else [literal m v]) [m])
    by (intros [] m v; [apply sublist_nil_l|done]).
  assert (Hi : ∀ m (p : option Z), sublist
    (ev_Name <$> match p with None => [] | Some _ => [literal m (fmtIntPtr p)] end) [m])
    by (intros m []; [done|apply sublist_nil_l]).
  rewrite !fmap_app.
  apply (sublist_app _ ["WORKERPOOL_NAME"]); [done|].
  do 4 (apply (sublist_app _ [_]); [apply Hp|]).
  apply (sublist_app _ ["DB_PASSWORD"]); [done|].
  apply (sublist_app _ ["CLAIM_BATCH_SIZE"; "MAX_CONCURRENT_CLAIMS"]).
  { destruct (wps_Concurrency _); [|apply sublist_nil_l]. rewrite fmap_app.
    apply (sublist_app _ [_]); apply Hi. }
  apply (sublist_app _ ["DEFAULT_LEASE_TTL_SECONDS"]); [|apply Hp].
  destruct (wps_Lease _); [apply Hi|apply sublist_nil_l].
Qed.

Lemma env_names_NoDup : NoDup env_names.
Proof. apply (bool_decide_unpack _). by vm_compute. Qed.

(** Decide the comparisons of closed names. *)
Ltac compare_names :=
  repeat match goal with
  | |- context [bool_decide ?P] =>
      let b := eval vm_compute in (bool_decide P) in
      match b with true => idtac | false => idtac end; change (bool_decide P) with b
  end.

Lemma env_value_told env wp n : env_value (worker_envs env wp) n = told env wp n.
Proof.
  destruct (decide (n ∈ env_names)) as [Hn|Hn].
  2: { rewrite told_other by done. apply env_value_names. intros H.
       apply Hn. eapply elem_of_sublist; [done|apply worker_env_names]. }
  unfold worker_envs, told, getenv_or. cbv zeta. rewrite !env_value_app, !env_value_propagated.
  destruct (wps_Concurrency (wp_Spec wp)) as [[mc cb]|], (wps_Lease (wp_Spec wp)) as [[ttl]|];
    rewrite ?env_value_app, ?env_value_int;
    unfold env_names in Hn; rewrite !elem_of_cons in Hn; destruct_or! Hn; subst;
    try (by apply not_elem_of_nil in Hn);
    cbn [env_value literal ev_Name ev_Value ev_ValueFrom mbind option_bind cc_ClaimBatchSize
         cc_MaxConcurrentClaims pl_TTLSeconds];
    compare_names;
    repeat match goal with
           | |- context [?x =b ""] => destruct (x =b "")
           | |- context [_ <$> ?o] => is_var o; destruct o
           end; reflexivity.
Qed.

(** ** A live pool gets its workers *)

(** The account of the workers: that of the pool's template, or the one the
    controller made - which only a template gets. *)
Definition account_of (wp : WorkerPool) : string :=
  match wps_PodTemplate (wp_Spec wp) with
  | None => ""
  | Some pt => if pt_ServiceAccountName pt =b "" then wp_Name wp +:+ "-sa" else pt_ServiceAccountName pt
  end.

(** A Deployment that runs the workers of a pool. *)
Record runs_workers (env : PoolEnv) (wp : WorkerPool) (d : Deployment) : Prop := {
  rw_replicas : dp_Replicas d = Some (default 1%Z (wps_Replicas (wp_Spec wp)));
  rw_selector : dp_Selector d = dp_TemplateLabels d;
  rw_controller : dp_Controller d = Some (wp_UID wp);
  rw_worker : ∃ c, sp_Containers (dp_Template d) = [c] ∧
    c_Image c = (if wps_Image (wp_Spec wp) =b "" then "greedykomodo/kontroler-worker:latest"
                 else wps_Image (wp_Spec wp)) ∧
    NoDup (ev_Name <$> c_Env c) ∧ (∀ n, env_value (c_Env c) n = told env wp n) ∧
    (∀ pt, wps_PodTemplate (wp_Spec wp) = Some pt →
       c_VolumeMounts c = k8_VolumeMounts (ToK8sParts (lib env) pt) ∧
       c_Resources c = k8_Resources (ToK8sParts (lib env) pt));
  rw_account : sp_ServiceAccountName (dp_Template d) = account_of wp;
  rw_template : ∀ pt, wps_PodTemplate (wp_Spec wp) = Some pt →
    let parts := ToK8sParts (lib env) pt in
    sp_Volumes (dp_Template d) = k8_Volumes parts ∧
    sp_NodeSelector (dp_Template d) = pt_NodeSelector pt ∧
    sp_Tolerations (dp_Template d) = k8_Tolerations parts ∧
    sp_Affinity (dp_Template d) = k8_Affinity parts
}.

Lemma controlled_owner wp c c' : controlled wp c = Ok c' → c' = Some (wp_UID wp).
Proof.
  unfold controlled. destruct c as [u|]; [|congruence]. case_bool_decide; [|done].
  intros [= <-]. congruence.
Qed.

Section live.
Context (srv : PoolServer) (env : PoolEnv).
#[local] Instance live_client : PoolClient (list Event) := PoolServer_client srv.

(** The account of a pool as [Reconcile] computes it. *)
Definition default_account (wp : WorkerPool) : string :=
  if needs_account wp then wp_Name wp +:+ "-sa" else "".

Lemma app_not_empty a b : b ≠ "" → a +:+ b ≠ "".
Proof. destruct a; [done|]. intros _. done. Qed.

Lemma mutate_runs_workers wp d d' :
  mutate env wp (replicas_of wp) (default_account wp) d = Ok d' → runs_workers env wp d'.
Proof.
  unfold mutate. cbn. destruct (controlled wp (dp_Controller d)) as [c|e] eqn:Ec; [|done].
  apply controlled_owner in Ec as ->. intros [= <-].
  pose proof (env_value_told env wp) as Htold.
  assert (Hnd : NoDup (ev_Name <$> worker_envs env wp))
    by (eapply sublist_NoDup; [apply env_names_NoDup|apply worker_env_names]).
  unfold default_account, needs_account.
  split; cbn; unfold account_of; destruct (wps_PodTemplate (wp_Spec wp)) as [pt|] eqn:Ep; try done.
  - eexists. split; [reflexivity|]. cbn. split_and!; try done. intros pt' [= <-]. split; [done|].
    by destruct (pt_Resources pt).
  - eexists. split; [reflexivity|]. cbn. split_and!; done.
  - cbn. case_bool_decide; [|done].
    rewrite bool_decide_eq_false_2; [done|]. by apply app_not_empty.
  - intros pt' [= <-]. done.
Qed.

Lemma ask_ok c h r h1 : ask srv c h = (Ok r, h1) → reply srv c h = Ok r ∧ h1 = h ++ [existT c (Ok r)].
Proof. unfold ask. intros E. injection E as E <-. by rewrite E. Qed.

Ltac asked E :=
  match type of E with
  | ask srv ?c ?h = (Ok ?r, ?h1) =>
      let Er := fresh "Hreply" in
      assert (reply srv c h = Ok r ∧ h1 = h ++ [existT c (Ok r)]) as [Er ?]
        by exact (ask_ok c h r h1 E); clear E; subst h1
  end.

Lemma wrap_ok {A} msg (m : M (list Event) A) h a h1 :
  wrap_error msg m h = (Ok a, h1) → m h = (Ok a, h1).
Proof.
  unfold wrap_error, mbind, M_bind, try. destruct (m h) as [[a'|e] h2]; [|done].
  by intros [= <- <-].
Qed.

Lemma try_ok {A} (m : M (list Event) A) h r h1 : try m h = (Ok r, h1) → m h = (r, h1).
Proof. unfold try. destruct (m h) as [r' h2]. by intros [= <- <-]. Qed.

(** The requests for the account of the workers. *)
Definition account_calls (wp : WorkerPool) : list PoolCall :=
  let sa := wp_Name wp +:+ "-sa" in
  let role := wp_Name wp +:+ "-pod-ops" in
  [ EnsureServiceAccount (mkServiceAccount sa (wp_Namespace wp) (Some (wp_UID wp)));
    EnsureRole (mkRole role (wp_Namespace wp) pod_rules);
    EnsureRoleBinding (mkRoleBinding (wp_Name wp +:+ "-pod-ops-binding") (wp_Namespace wp)
      [mkSubject "ServiceAccount" sa (wp_Namespace wp)]
      (Some (mkRoleRef "rbac.authorization.k8s.io" "Role" role))) ].

Definition answered (h : list Event) (c : PoolCall) : Prop := ∃ r, existT c (Ok r) ∈ h.

Lemma rbac_ok wp h sa h1 :
  ensureWorkerRBAC wp h = (Ok sa, h1) →
  sa = wp_Name wp +:+ "-sa" ∧ ∃ new, h1 = h ++ new ∧ Forall (answered new) (account_calls wp).
Proof.
  unfold ensureWorkerRBAC. cbn [SetControllerReference live_client PoolServer_client controlled].
  intros (x1 & h2 & H1%wrap_ok & H)%bind_ok. apply bind_ok in H as (x2 & h3 & H2%wrap_ok & H).
  apply bind_ok in H as (x3 & h4 & H3%wrap_ok & H). injection H as <- <-.
  cbn in H1, H2, H3. asked H1. asked H2. asked H3.
  split; [done|]. eexists. rewrite <- !app_assoc. split; [reflexivity|].
  repeat constructor; eexists; simpl; rewrite !elem_of_cons; eauto.
Qed.

(** The exchange that settles the Deployment: it is created, updated, or found as
    it should be. *)
Definition settles (e : Event) (d : Deployment) : Prop :=
  match e with
  | existT (CreateDeployment d') (Ok _) => d' = d
  | existT (UpdateDeployment d') (Ok _) => d' = d
  | existT (GetDeployment _ _) (Ok found) => unchanged srv found d = true
  | _ => False
  end.

Lemma create_or_update_ok d f h d' h1 :
  create_or_update_deployment srv d f h = (Ok d', h1) →
  ∃ pre e base wanted, h1 = h ++ pre ++ [e] ∧ settles e wanted ∧ f base = Ok wanted.
Proof.
  intros (r & h2 & H%try_ok & H')%bind_ok. unfold ask in H. injection H as Hr <-. destruct r as [found|e].
  - destruct (f found) as [w|] eqn:Ef; [|done]. destruct (unchanged srv found w) eqn:Eu.
    + injection H' as _ <-. exists [], (existT (GetDeployment (dp_Namespace d) (dp_Name d)) (Ok found)), found, w.
      by rewrite Hr.
    + asked H'. eexists [_], _, found, w. rewrite <- app_assoc. split; [reflexivity|]. done.
  - destruct (not_found srv e); [|done]. destruct (f d) as [w|] eqn:Ef; [|done].
    asked H'. eexists [_], _, d, w. rewrite <- app_assoc. split; [reflexivity|]. done.
Qed.

Lemma runs_workers_finalizers wp l d :
  runs_workers env (set_wp_Finalizers l wp) d → runs_workers env wp d.
Proof. intros []. by split. Qed.

(** The answer to an update of a pool is the pool that was sent. *)
Definition echoes : Prop := ∀ p h p', reply srv (UpdatePool p) h = Ok p' → p' = p.

Lemma ensure_ok (Hecho : echoes) wp h wp1 h1 :
  is_deleted wp = false → ensure_finalizer wp h = (Ok wp1, h1) →
  ∃ new, h1 = h ++ new ∧ (∃ l, wp1 = set_wp_Finalizers l wp) ∧
    (has_finalizer wp = true ∨
     existT (UpdatePool (with_finalizer wp)) (Ok (with_finalizer wp)) ∈ new).
Proof.
  intros Hd. unfold ensure_finalizer. rewrite Hd. destruct (has_finalizer wp); simpl; intros H.
  - injection H as <- <-. exists []. rewrite app_nil_r. split; [done|]. split; [|by left].
    exists (wp_Finalizers wp). by destruct wp.
  - asked H. eexists. split; [done|]. pose proof (Hecho _ _ _ Hreply) as ->.
    split; [by eexists|]. right. by apply list_elem_of_singleton.
Qed.

Lemma live_pool (Hecho : echoes) namespace name h wp h' :
  reply srv (GetPool namespace name) h = Ok wp → is_deleted wp = false →
  Reconcile env namespace name h = (Ok None, h') →
  ∃ pre e post d, h' = h ++ pre ++ e :: post ∧
    (has_finalizer wp = true ∨
     existT (UpdatePool (with_finalizer wp)) (Ok (with_finalizer wp)) ∈ pre) ∧
    (needs_account wp = true → Forall (answered pre) (account_calls wp)) ∧
    settles e d ∧ runs_workers env wp d.
Proof.
  intros Hget Hd (r & h1 & H%try_ok & Hrun)%bind_ok.
  cbn in H. unfold ask in H. rewrite Hget in H. injection H as <- <-.
  apply bind_ok in Hrun as (sa & h2 & Hsa & Hrun).
  assert (sa = default_account wp ∧ ∃ acc, h2 = (h ++ [existT (GetPool namespace name) (Ok wp)]) ++ acc ∧
    (needs_account wp = true → Forall (answered acc) (account_calls wp))) as (-> & acc & -> & Hacc).
  { unfold default_account. destruct (needs_account wp).
    - apply rbac_ok in Hsa as (-> & acc & -> & Hacc). split; [done|]. by exists acc.
    - injection Hsa as <- <-. split; [done|]. exists []. by rewrite app_nil_r. }
  apply bind_ok in Hrun as (wp1 & h3 & Hf & Hrun).
  apply ensure_ok in Hf as (fin & -> & [l ->] & Hfin); [|done..].
  change (is_deleted (set_wp_Finalizers l wp)) with (is_deleted wp) in Hrun. rewrite Hd in Hrun.
  apply bind_ok in Hrun as (d & h4 & Hdep & Hrun).
  apply create_or_update_ok in Hdep as (pre & e & base & w & -> & Hset & Hw).
  assert (∃ post, h' = (((h ++ [existT (GetPool namespace name) (Ok wp)]) ++ acc) ++ fin) ++ (pre ++ [e]) ++ post)
    as [post ->].
  { apply bind_ok in Hrun as (wp2 & h5 & Hst & Hrun). apply bind_ok in Hrun as (wp3 & h6 & Hen & Hrun).
    injection Hrun as <-.
    destruct (keeps_status srv env (set_wp_Finalizers l wp) (replicas_of wp) d
                ((((h ++ [existT (GetPool namespace name) (Ok wp)]) ++ acc) ++ fin) ++ pre ++ [e])) as (n1 & E1 & _).
    destruct (keeps_ensure srv wp2 h5) as (n2 & E2 & _).
    unfold client, live_client in *. rewrite Hst in E1. rewrite Hen in E2. simpl in E1, E2.
    exists (n1 ++ n2). rewrite E2, E1. by rewrite <- !app_assoc. }
  exists ([existT (GetPool namespace name) (Ok wp)] ++ acc ++ fin ++ pre), e, post, w.
  split; [by rewrite <- !app_assoc|]. split_and!.
  - destruct Hfin as [Hfin|Hfin]; [by left|right]. rewrite !elem_of_app. auto.
  - intros Hn. eapply Forall_impl; [by apply Hacc|]. intros c [r Hr]. exists r.
    rewrite !elem_of_app. auto.
  - done.
  - apply (runs_workers_finalizers wp l).
    exact (mutate_runs_workers (set_wp_Finalizers l wp) base w Hw).
Qed.

End live.


(** *** A pool of three workers on an empty cluster *)

Definition demo_pool : WorkerPool :=
  mkWorkerPool "pool" "ns" "uid-1" [] None
    (mkWorkerPoolSpec (Some 3%Z) "" (Some (mkConcurrency (Some 8%Z) None)) None None "" None None)
    (mkWorkerPoolStatus 0 0 None).

Definition missing : GoError := EErrorf "not found".

(** The cluster holds a pool and, when there is one, its Deployment; what it is
    sent it accepts. *)
Definition demo_server (wp : WorkerPool) (found : result Deployment) : PoolServer := {|
  reply := λ c h,
    match c return result (Reply c) with
    | GetPool _ _ => Ok wp
    | UpdatePool p | UpdatePoolStatus p => Ok p
    | GetDeployment _ _ => found
    | UpdateDeployment d | CreateDeployment d => Ok d
    | EnsureServiceAccount sa => Ok sa
    | EnsureRole role => Ok role
    | EnsureRoleBinding rb => Ok rb
    end;
  not_found := λ e, e =b missing;
  unchanged := λ _ _, false
|}.

Definition demo_env : PoolEnv :=
  mkPoolEnv (λ n, if n =b "DB_TYPE" then "postgresql" else "") 0 (mkK8sLib Some id).

Definition demo_run : result (option Z) * list Event :=
  Reconcile (H := PoolServer_client (demo_server demo_pool (Err missing))) demo_env "ns" "pool" [].


(** ** Where the code does not do what it means to *)

(** The controller makes an account for the workers of a pool without a template,
    and the Deployment does not use it. *)
Example account_is_not_used :
  ∃ d, existT (CreateDeployment d) (Ok d) ∈ demo_run.2 ∧
    (∃ sa, existT (EnsureServiceAccount sa) (Ok sa) ∈ demo_run.2 ∧ sa_Name sa = "pool-sa") ∧
    sp_ServiceAccountName (dp_Template d) = "".
Proof.
  eexists. split; [|split; [eexists; split|]].
  - do 6 right. left.
  - do 1 right. left.
  - reflexivity.
  - reflexivity.
Qed.

Definition deleted_pool : WorkerPool :=
  mkWorkerPool "pool" "ns" "uid-1" [workerPoolFinalizer] (Some 1%Z) (wp_Spec demo_pool) (wp_Status demo_pool).

(** The API server did not answer for the Deployment, and the pool is let go of:
    any error counts as a Deployment that is gone. *)
Example released_on_any_error :
  let srv := demo_server deleted_pool (Err (EErrorf "timeout")) in
  let run := Reconcile (H := PoolServer_client srv) demo_env "ns" "pool" [] in
  run.1 = Ok None ∧ not_found srv (EErrorf "timeout") = false ∧
  last run.2 = Some (existT (UpdatePool (without_finalizer deleted_pool))
                       (Ok (without_finalizer deleted_pool))).
Proof. vm_compute. done. Qed.

(** A deleted pool whose account cannot be made - its namespace is being deleted,
    and nothing new is let in - keeps its finalizer. *)
Theorem deletion_needs_account srv env namespace name h wp e :
  reply srv (GetPool namespace name) h = Ok wp → needs_account wp = true →
  (∀ sa h, reply srv (EnsureServiceAccount sa) h = Err e) →
  let run := Reconcile (H := PoolServer_client srv) env namespace name h in
  is_ok run.1 = false ∧ ∀ p r, existT (UpdatePool p) r ∈ drop (length h) run.2 → False.
Proof.
  intros Hget Hn Hsa. cbv zeta. unfold Reconcile, mbind, M_bind, try. cbn. unfold ask at 1 5.
  rewrite Hget. simpl. rewrite Hn. unfold ensureWorkerRBAC, wrap_error, mbind, M_bind, try. cbn.
  unfold ask. rewrite Hsa. simpl. split; [done|]. intros p r. rewrite <- app_assoc, drop_app_length.
  cbn [app]. rewrite !elem_of_cons. intros [H|[H|[]%not_elem_of_nil]]; by injection H.
Qed.

Lemma deletion_needs_account_witness :
  let srv := {|
    reply := λ c h,
      match c return result (Reply c) with
      | EnsureServiceAccount sa => Err (EErrorf "forbidden")
      | c => reply (demo_server deleted_pool (Err missing)) c h
      end;
    not_found := λ e, e =b missing; unchanged := λ _ _, false |} in
  needs_account deleted_pool = true ∧
  let run := Reconcile (H := PoolServer_client srv) demo_env "ns" "pool" [] in
  is_ok run.1 = false ∧ ∀ p r, existT (UpdatePool p) r ∈ drop 0 run.2 → False.
Proof.
  split; [reflexivity|].
  apply (deletion_needs_account _ demo_env "ns" "pool" [] deleted_pool (EErrorf "forbidden")); done.
Defined.

(** The selector of a Deployment, which the API server does not let change, is
    set to the labels that the Deployment has at the time. *)
Theorem selector_follows_labels srv env wp n sa d d' :
  mutate (H := PoolServer_client srv) env wp n sa d = Ok d' →
  dp_Selector d' = dp_Labels d ∧ dp_TemplateLabels d' = dp_Labels d.
Proof. unfold mutate. case_match; [|done]. by intros [= <-]. Qed.
