(* ===== verification/Webhook.v ===== *)
(** * Delivering webhooks (internal/webhook)

    The sender of webhook.go and the verifier of systemVerifier.go over the
    network, which is an interface, and the goroutines around the channel: those
    that notify, the listener, and the cancellation of its context. *)

From S2P Require Import Prelude Api Kube Worker.
Local Open Scope kontroler_scope.

(** ** The network *)

(** What [url.Parse] gives: the scheme, the name of the host, the port, and host
    and port together. *)
Record URL := mkURL { url_Scheme : string; url_Hostname : string; url_Port : string; url_Host : string }.

(** An open TLS connection: the check of a host's name against its certificate,
    and the number of its certificates. *)
Record TlsConn := mkTlsConn { conn_VerifyHostname : string → option GoError; conn_PeerCertificates : nat }.

Class HookNet (N : Type) := {
  url_Parse : string → result URL;
  tls_Dial : string → M N TlsConn;
  (** [http.NewRequest]: whether a request can be made for a URL *)
  http_NewRequest : string → option GoError;
  (** [client.Do] of a POST with a body: the status code of the answer *)
  http_Do (url body : string) : M N Z;
  (** [json.Marshal] *)
  json_Marshal_hook : HookData → result string
}.

Module Hooks.

Section send.
Context {N : Type} `{HookNet N}.

(** [systemURLVerifier.VerifySSL] *)
Definition VerifySSL (inputURL : string) : M N unit :=
  match url_Parse inputURL with
  | Err e => throw (EWrap "invalid URL" e)
  | Ok u =>
      if negb (url_Scheme u =b "https")
      then throw (EErrorf ("invalid URL scheme: " +:+ url_Scheme u +:+ ", must be https"))
      else
        let host := if url_Port u =b "" then url_Hostname u +:+ ":443" else url_Host u in
        conn ← try (tls_Dial host);
        match conn with
        | Err e => throw (EWrap "failed to establish TLS connection" e)
        | Ok conn =>
            match conn_VerifyHostname conn (url_Hostname u) with
            | Some e => throw (EWrap "hostname verification failed" e)
            | None =>
                if bool_decide (conn_PeerCertificates conn = 0)
                then throw (EErrorf "no peer certificates found")
                else mret tt
            end
        end
  end.

Definition SendWebhook (url payload : string) : M N unit :=
  match http_NewRequest url with
  | Some e => throw (EWrap "failed to create HTTP request" e)
  | None =>
      resp ← try (http_Do url payload);
      match resp with
      | Err e => throw (EWrap "HTTP request failed" e)
      | Ok status =>
          if negb (status =b 200%Z)
          then throw (EErrorf ("failed to send webhook, status code: " +:+ Itoa status))
          else mret tt
      end
  end.

(** The body of the loop of [Listen] for one payload: its errors are logged, and
    the loop goes on. *)
Definition handle (payload : WebhookPayload) : M N unit :=
  verified ← (if wp_VerifySSL payload then try (VerifySSL (wp_URL payload)) else mret (Ok tt));
  match verified with
  | Err _ => mret tt
  | Ok _ =>
      match json_Marshal_hook (wp_Data payload) with
      | Err _ => mret tt
      | Ok data => try (SendWebhook (wp_URL payload) data) ≫= λ _, mret tt
      end
  end.

(** ** The goroutines *)

Inductive Listener := NoListener | Listening | Returned.

(** The channel with its capacity, the goroutines that wait to send, what entered
    the channel and what was handled so far, whether the context is cancelled,
    and whether the process panicked. *)
Record Hub := mkHub {
  hub_net : N;
  hub_buffer : list WebhookPayload;
  hub_closed : bool;
  hub_cancelled : bool;
  hub_listener : Listener;
  hub_senders : list WebhookPayload;
  hub_entered : list WebhookPayload;
  hub_handled : list WebhookPayload;
  hub_panicked : bool
}.

(** [make(chan WebhookPayload, capacity)], with or without [go Listen(ctx)]. *)
Definition start (net : N) (listener : Listener) : Hub :=
  mkHub net [] false false listener [] [] [] false.

(** A goroutine calls [NotifyTaskRun] or [NotifyPodEvent]. *)
Definition notified (p : WebhookPayload) (h : Hub) : Hub :=
  mkHub (hub_net h) (hub_buffer h) (hub_closed h) (hub_cancelled h) (hub_listener h)
    (hub_senders h ++ [p]) (hub_entered h) (hub_handled h) (hub_panicked h).

(** Its send on the channel goes through. *)
Definition entered (p : WebhookPayload) (senders : list WebhookPayload) (h : Hub) : Hub :=
  mkHub (hub_net h) (hub_buffer h ++ [p]) (hub_closed h) (hub_cancelled h) (hub_listener h)
    senders (hub_entered h ++ [p]) (hub_handled h) (hub_panicked h).

(** A send on a closed channel panics. *)
Definition panicked (h : Hub) : Hub :=
  mkHub (hub_net h) (hub_buffer h) (hub_closed h) (hub_cancelled h) (hub_listener h)
    (hub_senders h) (hub_entered h) (hub_handled h) true.

(** The listener takes a payload and handles it. *)
Definition received (p : WebhookPayload) (rest : list WebhookPayload) (h : Hub) : Hub :=
  mkHub (handle p (hub_net h)).2 rest (hub_closed h) (hub_cancelled h) (hub_listener h)
    (hub_senders h) (hub_entered h) (hub_handled h ++ [p]) (hub_panicked h).

Definition cancelled (h : Hub) : Hub :=
  mkHub (hub_net h) (hub_buffer h) (hub_closed h) true (hub_listener h)
    (hub_senders h) (hub_entered h) (hub_handled h) (hub_panicked h).

(** [Listen] returns when its context is done, and closes the channel. *)
Definition returned (h : Hub) : Hub :=
  mkHub (hub_net h) (hub_buffer h) true (hub_cancelled h) Returned
    (hub_senders h) (hub_entered h) (hub_handled h) (hub_panicked h).

(** One step of one goroutine, labelled with the notification that it makes;
    [select] takes either case that is ready. *)
Inductive step (capacity : nat) : option WebhookPayload → Hub → Hub → Prop :=
| step_notify p h : hub_panicked h = false → step capacity (Some p) h (notified p h)
| step_send l1 p l2 h :
    hub_panicked h = false → hub_senders h = l1 ++ p :: l2 → hub_closed h = false →
    length (hub_buffer h) < capacity → step capacity None h (entered p (l1 ++ l2) h)
| step_panic p h :
    hub_panicked h = false → p ∈ hub_senders h → hub_closed h = true →
    step capacity None h (panicked h)
| step_receive p rest h :
    hub_panicked h = false → hub_listener h = Listening → hub_buffer h = p :: rest →
    step capacity None h (received p rest h)
| step_cancel h : hub_panicked h = false → step capacity None h (cancelled h)
| step_return h :
    hub_panicked h = false → hub_listener h = Listening → hub_cancelled h = true →
    step capacity None h (returned h).

End send.

Arguments Hub : clear implicits.

End Hooks.
