(* ===== verification/WebhookSpec.v ===== *)
(** * What becomes of a notification

    In every interleaving of those who notify with the listener, notifications
    are handled once each, in the order in which they entered the channel, and
    none that asks for it is sent before its host was verified; while the
    listener runs, everything can be handled.  Without a listener at most as many
    as the channel holds get in, and after a cancellation a notification panics. *)

From S2P Require Import Prelude Api Kube Worker Webhook.
Import Hooks.
Local Open Scope kontroler_scope.

(** ** A network of which only the exchanges are known *)

Inductive HookEvent :=
| Dialed (host : string) (conn : result TlsConn)
| Posted (url body : string) (status : result Z).

Record Network := mkNetwork {
  parses : string → result URL;
  dials : string → list HookEvent → result TlsConn;
  makes_request : string → option GoError;
  answers : string → string → list HookEvent → result Z;
  marshals : HookData → result string
}.

Definition Network_net (n : Network) : HookNet (list HookEvent) := {|
  url_Parse := parses n;
  tls_Dial host := λ l, let r := dials n host l in (r, l ++ [Dialed host r]);
  http_NewRequest := makes_request n;
  http_Do url body := λ l, let r := answers n url body l in (r, l ++ [Posted url body r]);
  json_Marshal_hook := marshals n
|}.

Section hub.
Context (n : Network).
#[local] Instance net : HookNet (list HookEvent) := Network_net n.

(** ** One notification *)

(** The host of a URL was dialled over TLS, and the certificate is its own. *)
Definition verified_by (url : string) (es : list HookEvent) : Prop :=
  ∃ u host conn, parses n url = Ok u ∧ url_Scheme u = "https" ∧ es = [Dialed host (Ok conn)] ∧
    host = (if url_Port u =b "" then url_Hostname u +:+ ":443" else url_Host u) ∧
    conn_VerifyHostname conn (url_Hostname u) = None ∧ conn_PeerCertificates conn ≠ 0.

Definition is_post (e : HookEvent) : bool := match e with Posted _ _ _ => true | _ => false end.

(** What is exchanged for a notification: nothing is posted, or its data are,
    once, to its URL, after the verification when it asks for one. *)
Definition delivered (p : WebhookPayload) (es : list HookEvent) : Prop :=
  existsb is_post es = false ∨
  ∃ pre body status, es = pre ++ [Posted (wp_URL p) body status] ∧
    marshals n (wp_Data p) = Ok body ∧
    (if wp_VerifySSL p then verified_by (wp_URL p) pre else pre = []).

Lemma verify_trace url l :
  ∃ es, (VerifySSL url l).2 = l ++ es ∧ existsb is_post es = false ∧
    (is_ok (VerifySSL url l).1 = true → verified_by url es).
Proof.
  unfold VerifySSL. cbn [url_Parse net Network_net]. destruct (parses n url) as [u|e] eqn:Ep.
  2: { exists []. by rewrite app_nil_r. }
  case_bool_decide as Hs; simpl.
  2: { exists []. by rewrite app_nil_r. }
  unfold mbind, M_bind, try. simpl. set (host := if _ =b "" then _ else _).
  destruct (dials n host l) as [conn|e] eqn:Ed.
  2: { exists [Dialed host (Err e)]. done. }
  exists [Dialed host (Ok conn)]. destruct (conn_VerifyHostname conn (url_Hostname u)) eqn:Ev; [done|].
  case_bool_decide as Hc; [done|]. split; [done|]. split; [done|]. intros _.
  by exists u, host, conn.
Qed.

Lemma send_trace url body l :
  ∃ es, (SendWebhook url body l).2 = l ++ es ∧
    (es = [] ∨ ∃ status, es = [Posted url body status]).
Proof.
  unfold SendWebhook. cbn [http_NewRequest net Network_net]. destruct (makes_request n url).
  { exists []. rewrite app_nil_r. auto. }
  unfold mbind, M_bind, try. simpl. destruct (answers n url body l) as [s|e] eqn:Ea.
  - exists [Posted url body (Ok s)]. case_bool_decide; eauto.
  - exists [Posted url body (Err e)]. eauto.
Qed.

Lemma handle_delivers p l : ∃ es, (handle p l).2 = l ++ es ∧ delivered p es.
Proof.
  unfold handle.
  destruct (wp_VerifySSL p) eqn:Hv.
  - destruct (verify_trace (wp_URL p) l) as (es & E & Hp & Hok).
    unfold mbind, M_bind, try. destruct (VerifySSL (wp_URL p) l) as [[[]|e] l1]; simpl in *; subst l1.
    2: { exists es. split; [done|]. by left. }
    destruct (marshals n (wp_Data p)) as [body|] eqn:Em.
    2: { exists es. split; [done|]. by left. }
    destruct (send_trace (wp_URL p) body (l ++ es)) as (es' & E' & Hes').
    destruct (SendWebhook (wp_URL p) body (l ++ es)). simpl in *. subst.
    exists (es ++ es'). rewrite app_assoc. split; [done|].
    destruct Hes' as [->|[status ->]]; [left; by rewrite app_nil_r|]. right.
    exists es, body, status. rewrite Hv. auto.
  - unfold mbind, M_bind, try. simpl. destruct (marshals n (wp_Data p)) as [body|] eqn:Em.
    2: { exists []. rewrite app_nil_r. split; [done|]. by left. }
    destruct (send_trace (wp_URL p) body l) as (es' & E' & Hes').
    destruct (SendWebhook (wp_URL p) body l). simpl in *. subst. exists es'. split; [done|].
    destruct Hes' as [->|[status ->]]; [by left|]. right. exists [], body, status. by rewrite Hv.
Qed.

(** ** All interleavings *)

(** The hubs that can be reached, with the notifications made so far. *)
Inductive runs (capacity : nat) (listener : Listener) :
    list WebhookPayload → Hub (list HookEvent) → Prop :=
| runs_start : runs capacity listener [] (start [] listener)
| runs_step ps l h h' : runs capacity listener ps h → step capacity l h h' →
    runs capacity listener (ps ++ option_list l) h'.

Record hub_ok (capacity : nat) (ps : list WebhookPayload) (h : Hub (list HookEvent)) : Prop := {
  ok_all : ps ≡ₚ hub_senders h ++ hub_entered h;
  ok_order : hub_entered h = hub_handled h ++ hub_buffer h;
  ok_bound : length (hub_buffer h) <= capacity;
  ok_closed : hub_closed h = true → hub_listener h = Returned;
  ok_delivered : ∃ ess, hub_net h = concat ess ∧ Forall2 delivered (hub_handled h) ess
}.

Lemma runs_ok capacity listener ps h : runs capacity listener ps h → hub_ok capacity ps h.
Proof.
  induction 1 as [|ps l h h' _ [Hall Hord Hb Hc Hd] Hstep].
  { split; simpl; try done; [lia|]. by exists []. }
  inversion Hstep as [p h0|l1 p l2 h0 _ E Hcl Hlt|p h0|p rest h0 _ Hl E|h0|h0 _ Hl]; subst;
    cbn [option_list]; rewrite ?app_nil_r; try (by split).
  - split; simpl; try done. rewrite Hall. solve_Permutation.
  - split; simpl; try done.
    + rewrite Hall, E. solve_Permutation.
    + rewrite Hord. by rewrite app_assoc.
    + rewrite length_app. simpl. lia.
  - destruct (handle_delivers p (hub_net h)) as (es & Hes & Hdel). destruct Hd as (ess & Hnet & Hf).
    split; simpl; try done.
    + rewrite Hord, E. by rewrite <- app_assoc.
    + rewrite E in Hb. simpl in Hb. lia.
    + exists (ess ++ [es]). rewrite Hes, Hnet, concat_app. simpl. rewrite app_nil_r.
      split; [done|]. apply Forall2_app; [done|]. by constructor.
Qed.

(** ** Progress *)

(** Steps that notify nothing new. *)
Definition quiet_steps (capacity : nat) : Hub (list HookEvent) → Hub (list HookEvent) → Prop :=
  rtc (step capacity None).

(** The listener empties the channel. *)
Lemma drain_buffer capacity h :
  hub_panicked h = false → hub_listener h = Listening →
  ∃ h', quiet_steps capacity h h' ∧ hub_panicked h' = false ∧ hub_listener h' = Listening ∧
    hub_closed h' = hub_closed h ∧ hub_buffer h' = [] ∧ hub_senders h' = hub_senders h ∧
    hub_handled h' = hub_handled h ++ hub_buffer h.
Proof.
  remember (hub_buffer h) as b eqn:E. revert h E. induction b as [|p b IH]; intros h E Hp Hl.
  { exists h. rewrite app_nil_r. split; [constructor|]. done. }
  destruct (IH (received p b h)) as (h' & Hst & H1 & H2 & H3 & H4 & H5 & H6); [done..|].
  exists h'. split; [eapply rtc_l; [by apply (step_receive capacity p b)|done]|].
  split_and!; try done. rewrite H6. simpl. by rewrite <- app_assoc.
Qed.

(** Everyone who waits to send can be served. *)
Lemma drain_senders capacity h :
  0 < capacity → hub_panicked h = false → hub_listener h = Listening → hub_closed h = false →
  hub_buffer h = [] →
  ∃ h', quiet_steps capacity h h' ∧ hub_buffer h' = [] ∧ hub_senders h' = [] ∧
    hub_handled h' = hub_handled h ++ hub_senders h.
Proof.
  intros Hcap. remember (hub_senders h) as b eqn:E. revert h E.
  induction b as [|p b IH]; intros h E Hp Hl Hc Hb.
  { exists h. rewrite app_nil_r. split; [constructor|]. done. }
  destruct (IH (received p [] (entered p b h))) as (h' & Hst & H1 & H2 & H3); [done..|].
  exists h'. split.
  - eapply rtc_l; [apply (step_send capacity [] p b); by rewrite ?Hb|].
    eapply rtc_l; [apply (step_receive capacity p []); simpl; by rewrite ?Hb|]. done.
  - split_and!; [done|done|]. rewrite H3. simpl. by rewrite <- app_assoc.
Qed.

Lemma drained capacity listener ps h :
  0 < capacity → runs capacity listener ps h → hub_panicked h = false → hub_listener h = Listening →
  ∃ h', quiet_steps capacity h h' ∧ hub_senders h' = [] ∧ hub_buffer h' = [] ∧ hub_handled h' ≡ₚ ps.
Proof.
  intros Hcap Hr Hp Hl. pose proof (runs_ok _ _ _ _ Hr) as [Hall Hord _ Hc _].
  assert (Hcl : hub_closed h = false)
    by (destruct (hub_closed h); [by rewrite Hc in Hl|done]).
  destruct (drain_buffer capacity h Hp Hl) as (h1 & S1 & P1 & L1 & C1 & B1 & E1 & D1).
  destruct (drain_senders capacity h1) as (h2 & S2 & B2 & E2 & D2); [done|done|done|congruence|done|].
  exists h2. split; [by etransitivity|]. split; [done|]. split; [done|].
  rewrite D2, D1, E1, Hall, Hord. solve_Permutation.
Qed.

End hub.

(** C26: In every interleaving of those who notify with the listener, each
    notification waits to send or entered the channel once, what entered is
    handled in its order with at most the channel's capacity in between, and
    handling posts the data of a notification at most once, after its host was
    verified when it asks for that; and while the listener runs, it can handle
    everything. *)
Theorem notifications_are_handled n capacity listener ps h
    (Hcap : 0 < capacity) (Hruns : runs n capacity listener ps h) :
  ps ≡ₚ hub_senders h ++ hub_entered h ∧
  hub_entered h = hub_handled h ++ hub_buffer h ∧ length (hub_buffer h) <= capacity ∧
  (∃ ess, hub_net h = concat ess ∧ Forall2 (delivered n) (hub_handled h) ess) ∧
  (hub_panicked h = false → hub_listener h = Listening →
   ∃ h', rtc (step (H := Network_net n) capacity None) h h' ∧
     hub_senders h' = [] ∧ hub_buffer h' = [] ∧ hub_handled h' ≡ₚ ps).
Proof.
  pose proof (runs_ok n _ _ _ _ Hruns) as [? ? ? ? ?].
  do 4 (split; [done|]). intros Hp Hl. exact (drained n _ _ _ _ Hcap Hruns Hp Hl).
Qed.

(** *** A notification to a verified host *)

Definition demo_hook : WebhookPayload :=
  mkWebhookPayload "https://hooks.example/run" true (TaskHookDetails "success" 1 "build" 7).

Definition demo_network : Network := {|
  parses := λ _, Ok (mkURL "https" "hooks.example" "" "hooks.example");
  dials := λ _ _, Ok (mkTlsConn (λ name, if name =b "hooks.example" then None
                                       else Some (EErrorf "another name")) 1);
  makes_request := λ _, None;
  answers := λ _ _ _, Ok 200%Z;
  marshals := λ _, Ok "{}"
|}.

Definition demo_hub : Hub (list HookEvent) :=
  received (H := Network_net demo_network) demo_hook []
    (entered demo_hook [] (notified demo_hook (start [] Listening))).

Lemma demo_hub_runs : runs demo_network 10 Listening [demo_hook] demo_hub.
Proof.
  apply (runs_step demo_network 10 Listening [demo_hook] None
           (entered demo_hook [] (notified demo_hook (start [] Listening)))).
  - apply (runs_step demo_network 10 Listening [demo_hook] None (notified demo_hook (start [] Listening))).
    + by apply (runs_step demo_network 10 Listening [] (Some demo_hook) (start [] Listening));
        constructor.
    + apply (step_send (H := Network_net demo_network) 10 [] demo_hook []); simpl; try done; lia.
  - by apply (step_receive (H := Network_net demo_network) 10).
Qed.

Lemma notifications_are_handled_witness :
  hub_net demo_hub = [Dialed "hooks.example:443" (dials demo_network "" []);
                      Posted "https://hooks.example/run" "{}" (Ok 200%Z)] ∧
  ∃ ess, hub_net demo_hub = concat ess ∧ Forall2 (delivered demo_network) (hub_handled demo_hub) ess.
Proof.
  split; [reflexivity|].
  apply (notifications_are_handled demo_network 10 Listening [demo_hook] demo_hub);
    [lia|exact demo_hub_runs].
Defined.

(** ** Where the code does not do what it means to *)

(** A process that makes the channel and starts no listener, as cmd/worker does:
    nothing is ever sent, and all but as many notifications as the channel holds
    wait for ever. *)
Theorem without_a_listener n capacity ps h :
  runs n capacity NoListener ps h →
  hub_net h = [] ∧ length ps <= length (hub_senders h) + capacity.
Proof.
  intros Hr. pose proof (runs_ok n _ _ _ _ Hr) as [Hall Hord Hb _ _].
  assert (hub_listener h = NoListener ∧ hub_net h = [] ∧ hub_handled h = []) as (_ & Hn & Hh).
  { clear Hall Hord Hb. induction Hr as [|ps l h h' _ (IH1 & IH2 & IH3) Hstep]; [done|].
    inversion Hstep; subst; simpl in *; split_and!; congruence. }
  split; [done|]. rewrite Hall, length_app, Hord, Hh. simpl. lia.
Qed.

(** The listener closes the channel when its context is cancelled, under those
    who still notify: their send panics. *)
Theorem notification_after_cancellation n capacity p :
  ∃ h, runs n capacity Listening [p] h ∧ hub_panicked h = true.
Proof.
  exists (panicked (notified p (returned (cancelled (start [] Listening))))). split; [|done].
  apply (runs_step n capacity Listening [p] None (notified p (returned (cancelled (start [] Listening))))).
  2: { apply (step_panic (H := Network_net n) capacity p); [done| |done]. simpl. by left. }
  apply (runs_step n capacity Listening [] (Some p) (returned (cancelled (start [] Listening)))).
  2: { by constructor. }
  apply (runs_step n capacity Listening [] None (cancelled (start [] Listening))).
  2: { by apply step_return. }
  apply (runs_step n capacity Listening [] None (start [] Listening)).
  2: { by apply step_cancel. }
  apply runs_start.
Qed.
