(* ===== verification/Config.v ===== *)
(** * Configuration and start-up (internal/config, internal/server/config, cmd)

    What the three programs make of their environment variables and YAML files:
    the configuration of the controller and of the server, the settings of the
    databases, and which log store is opened.  YAML, the files, the TLS and the
    PostgreSQL libraries and S3 are parameters; paths are those of Unix. *)

From S2P Require Import Prelude GoText.
Local Open Scope kontroler_scope.

(** ** Paths (path/filepath on Unix) *)

Module Path.

Definition slash : Ascii.ascii := Eval cbv in Ascii.ascii_of_nat 47.

Definition IsAbs (p : string) : bool := String.prefix "/" p.

(** The elements of a path: an empty one and a dot go, two dots take the element
    before them away, and go themselves at the root. *)
Definition push (rooted : bool) (stack : list string) (w : string) : list string :=
  if (w =b "") || (w =b ".") then stack
  else if w =b ".." then
    match stack with
    | [] => if rooted then [] else [".."]
    | top :: rest => if top =b ".." then ".." :: stack else rest
    end
  else w :: stack.

Definition elements (rooted : bool) (p : string) : list string :=
  rev (foldl (push rooted) [] (split slash p)).

Definition render (rooted : bool) (ws : list string) : string :=
  let s := (if rooted then "/" else "") +:+ join "/" ws in
  if s =b "" then "." else s.

Definition Clean (p : string) : string := render (IsAbs p) (elements (IsAbs p) p).

End Path.
Import Path.

(** ** The structures *)

Record S3LogStoreConfig := mkS3LogStoreConfig { s3c_BucketName : string; s3c_Endpoint : string }.

Record FileSystemLogStoreConfig := mkFileSystemLogStoreConfig { fsc_BaseDir : string }.

Record LogStoreConfig := mkLogStoreConfig {
  ls_StoreType : string;
  ls_FileSystem : FileSystemLogStoreConfig;
  ls_S3Configs : S3LogStoreConfig
}.

Record WorkerConfig := mkWorkerConfig { wc_Namespace : string; wc_Count : Z }.

Record WorkerConfigs := mkWorkerConfigs {
  wcs_WorkerType : string;
  wcs_QueueDir : string;
  wcs_Workers : list WorkerConfig;
  wcs_PollDuration : string
}.

Record ControllerConfig := mkControllerConfig {
  cfg_KubeConfigPath : string;
  cfg_LeaderElectionID : string;
  cfg_Workers : WorkerConfigs;
  cfg_LogStore : LogStoreConfig
}.

Record ServerConfig := mkServerConfig {
  scfg_KubeConfigPath : string;
  scfg_LogStorage : LogStoreConfig
}.

(** The zero values. *)
Definition no_store : LogStoreConfig :=
  mkLogStoreConfig "" (mkFileSystemLogStoreConfig "") (mkS3LogStoreConfig "" "").
Definition empty_controller : ControllerConfig :=
  mkControllerConfig "" "" (mkWorkerConfigs "" "" [] "") no_store.
Definition empty_server : ServerConfig := mkServerConfig "" no_store.

(** A TLS configuration and the settings of a PostgreSQL pool, with the string
    that was parsed. *)
Record TlsConfig := mkTlsConfig {
  tls_RootCAs : option string;
  tls_Certificates : list (string * string);
  tls_InsecureSkipVerify : bool;
  tls_ServerName : string
}.

Record PgConfig := mkPgConfig { pgc_dsn : string; pgc_TLSConfig : option TlsConfig }.

Record SQLiteConfig := mkSQLiteConfig {
  sqc_DBPath : string;
  sqc_JournalMode : string;
  sqc_Synchronous : string;
  sqc_CacheSize : Z;
  sqc_TempStore : string
}.

Record SQLiteReadOnlyConfig := mkSQLiteReadOnlyConfig {
  sqr_DBPath : string;
  sqr_Synchronous : string;
  sqr_CacheSize : Z
}.

(** What a program finds around it. *)
Record Host := mkHost {
  LookupEnv : string → option string;
  ReadFile : string → result string;
  IsNotExist : GoError → bool;
  MkdirAll : string → option GoError;
  (** [os.Stat]: whether the path is a directory *)
  Stat : string → result bool;
  yaml_controller : string → ControllerConfig → result ControllerConfig;
  yaml_server : string → ServerConfig → result ServerConfig;
  LoadX509KeyPair : string → string → option GoError;
  pgx_ParseConfig : string → result PgConfig;
  (** [config.LoadDefaultConfig], given static credentials or none *)
  LoadDefaultConfig : option (string * string * string) → option GoError;
  (** whether the bucket can be reached: its name and the endpoint *)
  HeadBucket : string → string → option GoError
}.

Definition Getenv (h : Host) (n : string) : string := default "" (LookupEnv h n).

Definition or_default (v d : string) : string := if v =b "" then d else v.

(** ** The controller (internal/config/config.go) *)

Module ControllerCfg.
Section controller.
Context (h : Host).

(** The directories that were made. *)
Abbreviation D := (M (list string)).

Definition mkdir (dir : string) : D unit := λ made,
  match MkdirAll h dir with
  | Some e => (Err (EWrap "failed to create queue directory" e), made)
  | None => (Ok tt, made ++ [dir])
  end.

Definition validateLogStore (s : LogStoreConfig) : result LogStoreConfig :=
  if ls_StoreType s =b "filesystem" then
    let dir := fsc_BaseDir (ls_FileSystem s) in
    if dir =b "" then Err (EErrorf "baseDir must be specified for filesystem log store")
    else
      let cleanPath := Clean dir in
      if IsAbs cleanPath
      then Ok (mkLogStoreConfig (ls_StoreType s) (mkFileSystemLogStoreConfig cleanPath) (ls_S3Configs s))
      else Err (EErrorf ("baseDir must be an absolute path, got: " +:+ dir))
  else if ls_StoreType s =b "s3" then
    if s3c_BucketName (ls_S3Configs s) =b ""
    then Err (EErrorf "bucketName must be specified for s3 log store") else Ok s
  else Err (EErrorf ("invalid log store type " +:+ ls_StoreType s +:+ ", must be 'filesystem' or 's3'")).

Definition validate_workers (ws : WorkerConfigs) : D unit :=
  if bool_decide (wcs_Workers ws = [])
  then throw (EErrorf "missing worker configs, must provide at least one worker config")
  else if wcs_WorkerType ws =b "memory" then mret tt
  else if wcs_WorkerType ws =b "pebble" then
    if wcs_QueueDir ws =b ""
    then throw (EErrorf "queueDir must be specified when using pebble worker type")
    else mkdir (wcs_QueueDir ws)
  else throw (EErrorf ("invalid worker type " +:+ wcs_WorkerType ws +:+ ", must be 'memory' or 'pebble'")).

Definition default_log_store (s : LogStoreConfig) : LogStoreConfig :=
  if ls_StoreType s =b "" then
    mkLogStoreConfig "filesystem"
      (mkFileSystemLogStoreConfig (or_default (fsc_BaseDir (ls_FileSystem s)) (Getenv h "LOG_DIR")))
      (ls_S3Configs s)
  else s.

Definition ParseConfig (configPath : string) : D ControllerConfig :=
  match ReadFile h configPath with
  | Err e => throw e
  | Ok yamlFile =>
      match yaml_controller h yamlFile empty_controller with
      | Err e => throw e
      | Ok c =>
          let ws := cfg_Workers c in
          validate_workers ws ≫= λ _,
          let ws := mkWorkerConfigs (wcs_WorkerType ws) (wcs_QueueDir ws) (wcs_Workers ws)
                      (or_default (wcs_PollDuration ws) "100ms") in
          let id := or_default (Getenv h "LEADER_ELECTION_ID") (cfg_LeaderElectionID c) in
          if id =b "" then throw (EErrorf "missing LEADER_ELECTION_ID, must provide LEADER_ELECTION_ID")
          else
            match validateLogStore (default_log_store (cfg_LogStore c)) with
            | Err e => throw e
            | Ok store => mret (mkControllerConfig (cfg_KubeConfigPath c) id ws store)
            end
      end
  end.

(** *** The program (cmd/controller/main.go) *)

Definition default_config : ControllerConfig :=
  mkControllerConfig "" (or_default (Getenv h "LEADER_ELECTION_ID") "kontroler")
    (mkWorkerConfigs "memory" "" [mkWorkerConfig "default" 1] "100ms")
    (mkLogStoreConfig "filesystem" (mkFileSystemLogStoreConfig "/tmp/kontroler-logs")
       (mkS3LogStoreConfig "" "")).

Definition load_config (configPath : string) : D ControllerConfig :=
  if configPath =b "" then mret default_config else ParseConfig configPath.

End controller.
End ControllerCfg.

(** ** Log stores (internal/object, internal/server/logs) *)

(** What is opened: nothing, a directory, or a bucket with its endpoint and the
    static credentials. *)
Inductive OpenedStore :=
| NoLogs
| Directory (dir : string)
| BucketStore (name endpoint : string) (credentials : option (string * string * string)).

Section stores.
Context (h : Host).

(** [loadS3Config]: static credentials when key and secret are set. *)
Definition loadS3Config : result (option (string * string * string)) :=
  let accessKey := Getenv h "AWS_ACCESS_KEY_ID" in
  let secretKey := Getenv h "AWS_SECRET_ACCESS_KEY" in
  let sessionToken := Getenv h "AWS_SESSION_TOKEN" in
  let static := if (accessKey =b "") || (secretKey =b "") then None
                else Some (accessKey, secretKey, sessionToken) in
  match LoadDefaultConfig h static with Some e => Err e | None => Ok static end.

(** [object.NewLogStore] *)
Definition NewLogStore : result OpenedStore :=
  let s3Endpoint := Getenv h "S3_ENDPOINT" in
  let bucketName := Getenv h "S3_BUCKETNAME" in
  if bucketName =b "" then Ok NoLogs
  else
    match loadS3Config with
    | Err e => Err e
    | Ok s3Config =>
        match HeadBucket h bucketName s3Endpoint with
        | Some e => Err e
        | None => Ok (BucketStore bucketName s3Endpoint s3Config)
        end
    end.

(** [object.NewFileSystemLogStore]: a directory is made when it is missing. *)
Definition NewFileSystemLogStore (baseDir : string) : result OpenedStore :=
  let baseDir := or_default baseDir "/tmp/kontroler-logs" in
  match MkdirAll h baseDir with
  | Some e => Err (EWrap "failed to create log directory" e)
  | None => Ok (Directory baseDir)
  end.

(** [createLogStore] of cmd/controller. *)
Definition createLogStore (s : LogStoreConfig) : result OpenedStore :=
  if ls_StoreType s =b "filesystem" then NewFileSystemLogStore (fsc_BaseDir (ls_FileSystem s))
  else if ls_StoreType s =b "s3" then NewLogStore
  else Err (EErrorf ("unsupported log store type: " +:+ ls_StoreType s)).

(** [NewFSLogFetcher]: the directory must be there. *)
Definition NewFSLogFetcher (basePath : string) : result OpenedStore :=
  match Stat h basePath with
  | Err e =>
      if IsNotExist h e then Err (EErrorf ("log directory does not exist: " +:+ basePath))
      else Err (EWrap "error checking log directory" e)
  | Ok isDir =>
      if isDir : bool then Ok (Directory basePath)
      else Err (EErrorf ("path is not a directory: " +:+ basePath))
  end.

(** [NewLogFetcher] of the server. *)
Definition NewLogFetcher (c : ServerConfig) : result OpenedStore :=
  let s := scfg_LogStorage c in
  if ls_StoreType s =b "" then Ok NoLogs
  else if ls_StoreType s =b "s3" then
    let s3Endpoint := Getenv h "S3_ENDPOINT" in
    let bucketName := s3c_BucketName (ls_S3Configs s) in
    match loadS3Config with
    | Err e => Err (EWrap "failed to load S3 config" e)
    | Ok s3Config =>
        match HeadBucket h bucketName s3Endpoint with
        | Some e => Err (EWrap "failed to connect to S3 bucket" e)
        | None => Ok (BucketStore bucketName s3Endpoint s3Config)
        end
    end
  else if ls_StoreType s =b "filesystem" then
    NewFSLogFetcher (fsc_BaseDir (ls_FileSystem s))
  else Err (EErrorf ("unsupported log storage type: " +:+ ls_StoreType s)).

End stores.

(** ** The server (internal/server/config/config.go) *)

Module ServerCfg.
Section server.
Context (h : Host).

Definition loadConfigFromYAML (configPath : string) : result ServerConfig :=
  if configPath =b "" then Ok empty_server
  else
    match ReadFile h configPath with
    | Err e =>
        if IsNotExist h e then Ok empty_server else Err (EWrap "failed to read config file" e)
    | Ok yamlFile =>
        match yaml_server h yamlFile empty_server with
        | Err e => Err (EWrap "failed to parse config file" e)
        | Ok c => Ok c
        end
    end.

Definition set_storage (s : LogStoreConfig) (c : ServerConfig) : ServerConfig :=
  mkServerConfig (scfg_KubeConfigPath c) s.

Definition applyEnvironmentConfig (c : ServerConfig) : ServerConfig :=
  let s := scfg_LogStorage c in
  if ls_StoreType s =b "" then
    let bucket := Getenv h "S3_BUCKETNAME" in
    let dir := Getenv h "LOG_DIR" in
    if negb (bucket =b "") then
      set_storage (mkLogStoreConfig "s3" (ls_FileSystem s)
                     (mkS3LogStoreConfig bucket (Getenv h "S3_ENDPOINT"))) c
    else if negb (dir =b "") then
      set_storage (mkLogStoreConfig "filesystem" (mkFileSystemLogStoreConfig dir) (ls_S3Configs s)) c
    else c
  else if ls_StoreType s =b "s3" then
    let s3 := ls_S3Configs s in
    set_storage (mkLogStoreConfig (ls_StoreType s) (ls_FileSystem s)
      (mkS3LogStoreConfig (or_default (s3c_BucketName s3) (Getenv h "S3_BUCKETNAME"))
                          (or_default (s3c_Endpoint s3) (Getenv h "S3_ENDPOINT")))) c
  else if ls_StoreType s =b "filesystem" then
    set_storage (mkLogStoreConfig (ls_StoreType s)
      (mkFileSystemLogStoreConfig (or_default (fsc_BaseDir (ls_FileSystem s)) (Getenv h "LOG_DIR")))
      (ls_S3Configs s)) c
  else c.

Definition validateConfig (c : ServerConfig) : result unit :=
  let s := scfg_LogStorage c in
  if ls_StoreType s =b "" then Ok tt
  else if ls_StoreType s =b "s3" then
    if s3c_BucketName (ls_S3Configs s) =b ""
    then Err (EErrorf "s3 bucket name is required for s3 log storage") else Ok tt
  else if ls_StoreType s =b "filesystem" then
    if fsc_BaseDir (ls_FileSystem s) =b ""
    then Err (EErrorf "directory path is required for filesystem log storage") else Ok tt
  else Err (EErrorf ("invalid log storage type: " +:+ ls_StoreType s)).

Definition validatePaths (c : ServerConfig) : result ServerConfig :=
  let path := scfg_KubeConfigPath c in
  if path =b "" then Ok c
  else
    let cleanPath := Clean path in
    if IsAbs cleanPath then Ok (mkServerConfig cleanPath (scfg_LogStorage c))
    else Err (EErrorf ("kubeConfigPath must be an absolute path, got: " +:+ path)).

Definition ParseConfig (configPath : string) : result ServerConfig :=
  match (if configPath =b "" then Ok empty_server else loadConfigFromYAML configPath) with
  | Err e => Err e
  | Ok c =>
      let c := applyEnvironmentConfig c in
      match validateConfig c with
      | Err e => Err e
      | Ok _ => validatePaths c
      end
  end.

End server.
End ServerCfg.

(** ** Databases *)

Section tls.
Context (h : Host).

(** [UpdateDBSSLConfig]: a certificate authority, and a certificate with its key. *)
Definition UpdateDBSSLConfig (tls : TlsConfig) : result TlsConfig :=
  let caCertPath := Getenv h "DB_SSL_CA_CERT" in
  let roots :=
    if caCertPath =b "" then Ok (tls_RootCAs tls)
    else match ReadFile h caCertPath with Err e => Err e | Ok pem => Ok (Some pem) end in
  match roots with
  | Err e => Err e
  | Ok roots =>
      let cert := Getenv h "DB_SSL_CERT" in
      let key := Getenv h "DB_SSL_KEY" in
      if negb (cert =b "") && negb (key =b "") then
        match LoadX509KeyPair h cert key with
        | Some e => Err e
        | None => Ok (mkTlsConfig roots [(cert, key)] (tls_InsecureSkipVerify tls) (tls_ServerName tls))
        end
      else Ok (mkTlsConfig roots (tls_Certificates tls) (tls_InsecureSkipVerify tls) (tls_ServerName tls))
  end.

(** The TLS part of both [ConfigurePostgres]; its panic is an error here. *)
Definition tls_of_mode (sslMode : string) : result TlsConfig :=
  match UpdateDBSSLConfig (mkTlsConfig None [] false "") with
  | Err e => Err (EWrap "panic" e)
  | Ok tls =>
      Ok (if sslMode =b "require" then
            mkTlsConfig (tls_RootCAs tls) (tls_Certificates tls) true (tls_ServerName tls)
          else if (sslMode =b "verify-ca") || (sslMode =b "verify-full") then
            mkTlsConfig (tls_RootCAs tls) (tls_Certificates tls) false (tls_ServerName tls)
          else tls)
  end.

Definition sslMode_of : string := default "disable" (LookupEnv h "DB_SSL_MODE").

Definition dsn_of (user password endpoint name : string) : string :=
  "postgres://" +:+ user +:+ ":" +:+ password +:+ "@" +:+ endpoint +:+ "/" +:+ name.

End tls.

(** *** The controller and the workers (internal/db/config.go) *)

Module DbCfg.
Section db.
Context (h : Host).

Definition ConfigurePostgres : result PgConfig :=
  let dbName := Getenv h "DB_NAME" in
  let dbUser := Getenv h "DB_USER" in
  let pgEndpoint := Getenv h "DB_ENDPOINT" in
  let dbPassword := Getenv h "DB_PASSWORD" in
  if dbName =b "" then Err (EErrorf "missing DB_NAME")
  else if dbUser =b "" then Err (EErrorf "missing DB_USER")
  else if dbUser =b "" then Err (EErrorf "missing DB_ENDPOINT")
  else if dbPassword =b "" then Err (EErrorf "missing DB_PASSWORD")
  else
    let sslMode := sslMode_of h in
    match pgx_ParseConfig h (dsn_of dbUser dbPassword pgEndpoint dbName +:+ "?sslmode=" +:+ sslMode) with
    | Err e => Err e
    | Ok c =>
        if sslMode =b "disable" then Ok c
        else match tls_of_mode h sslMode with
             | Err e => Err e
             | Ok tls => Ok (mkPgConfig (pgc_dsn c) (Some tls))
             end
    end.

Definition ConfigureSqlite : result SQLiteConfig :=
  let path := Getenv h "SQLITE_PATH" in
  if path =b "" then Err (EErrorf "missing SQLITE_PATH")
  else
    Ok (mkSQLiteConfig path (or_default (Getenv h "SQLITE_JOURNAL_MODE") "WAL")
          (or_default (Getenv h "SQLITE_SYNCHRONOUS") "NORMAL")
          (if Getenv h "SQLITE_CACHE_SIZE" =b "" then -2000 else 0)%Z
          (or_default (Getenv h "SQLITE_TEMP_STORE") "MEMORY")).

End db.
End DbCfg.

(** *** The server (internal/server/db/configs.go, internal/server/auth/config.go) *)

Module ServerDbCfg.
Section db.
Context (h : Host).

Definition ConfigurePostgres : result PgConfig :=
  let dbName := Getenv h "DB_NAME" in
  let dbUser := Getenv h "DB_USER" in
  let pgEndpoint := Getenv h "DB_ENDPOINT" in
  let dbPassword := Getenv h "DB_PASSWORD" in
  if dbName =b "" then Err (EErrorf "missing DB_NAME")
  else if dbUser =b "" then Err (EErrorf "missing DB_USER")
  else if pgEndpoint =b "" then Err (EErrorf "missing DB_ENDPOINT")
  else if dbPassword =b "" then Err (EErrorf "missing DB_PASSWORD")
  else
    let sslMode := sslMode_of h in
    let dsn := dsn_of dbUser dbPassword pgEndpoint dbName in
    let dsn := if sslMode =b "disable" then dsn else dsn +:+ "?sslmode=" +:+ sslMode in
    match pgx_ParseConfig h dsn with
    | Err e => Err e
    | Ok c =>
        if sslMode =b "disable" then Ok (mkPgConfig (pgc_dsn c) None)
        else match tls_of_mode h sslMode with
             | Err e => Err e
             | Ok tls => Ok (mkPgConfig (pgc_dsn c) (Some tls))
             end
    end.

Definition ConfigureSqlite : result SQLiteReadOnlyConfig :=
  let path := Getenv h "SQLITE_PATH" in
  if path =b "" then Err (EErrorf "missing SQLITE_PATH")
  else
    Ok (mkSQLiteReadOnlyConfig path (or_default (Getenv h "SQLITE_SYNCHRONOUS") "NORMAL")
          (if Getenv h "SQLITE_CACHE_SIZE" =b "" then -2000 else 0)%Z).

Definition ConfigureAuthSqlite : result SQLiteConfig :=
  let path := Getenv h "AUTH_SQLITE_PATH" in
  if path =b "" then Err (EErrorf "missing SQLITE_PATH")
  else
    Ok (mkSQLiteConfig path (or_default (Getenv h "SQLITE_JOURNAL_MODE") "WAL")
          (or_default (Getenv h "SQLITE_SYNCHRONOUS") "NORMAL")
          (if Getenv h "SQLITE_CACHE_SIZE" =b "" then -2000 else 0)%Z
          (or_default (Getenv h "SQLITE_TEMP_STORE") "MEMORY")).

End db.
End ServerDbCfg.
