(* ===== verification/ConfigSpec.v ===== *)
(** * What the configuration promises

    Cleaned paths are clean: cleaning again changes nothing, an absolute path
    stays absolute, and nothing in it leads up.  A configuration that is accepted
    is one the programs can run with, and every one that is fit is accepted. *)

From S2P Require Import Prelude GoText Config.
Import Path.
Local Open Scope kontroler_scope.

(** ** Clean paths *)

(** An element that stays: not empty, no dot, without a slash, and leading up only
    when the path is relative. *)
Definition plain (rooted : bool) (w : string) : Prop :=
  w ≠ "" ∧ w ≠ "." ∧ free_of slash w = true ∧ (rooted = true → w ≠ "..").

(** The elements of a clean path, the last one first: those that lead up come
    first in the path. *)
Inductive clean_stack (rooted : bool) : list string → Prop :=
| clean_nil : clean_stack rooted []
| clean_up ws : rooted = false → Forall (.= "..") ws → clean_stack rooted (".." :: ws)
| clean_word w ws : plain rooted w → w ≠ ".." → clean_stack rooted ws → clean_stack rooted (w :: ws).

Lemma split_free_of sep s : Forall (λ w, free_of sep w = true) (split sep s).
Proof.
  induction s as [|c s IH]; simpl; [by repeat constructor|].
  destruct (Ascii.eqb c sep) eqn:E; [by constructor|].
  destruct (split sep s) as [|w ws]; [constructor; [simpl; by rewrite E|constructor]|].
  inversion IH; subst. constructor; [|done]. simpl. by rewrite E.
Qed.

Lemma push_clean rooted stack w :
  free_of slash w = true → clean_stack rooted stack → clean_stack rooted (push rooted stack w).
Proof.
  intros Hw Hs. unfold push. repeat case_bool_decide; simpl; try done.
  - destruct Hs as [|ws Hr Hup|top ws Hp Ht Hs].
    + destruct rooted; [constructor|]. by constructor.
    + rewrite bool_decide_true by done. constructor; [done|]. by constructor.
    + by rewrite bool_decide_false.
  - by constructor.
Qed.

Lemma elements_clean rooted p : clean_stack rooted (rev (elements rooted p)).
Proof.
  unfold elements. rewrite rev_involutive.
  assert (∀ ws stack, Forall (λ w, free_of slash w = true) ws → clean_stack rooted stack →
    clean_stack rooted (foldl (push rooted) stack ws)) as H.
  { induction ws as [|w ws IH]; intros stack Hf Hs; [done|]. inversion Hf; subst. simpl.
    apply IH; [done|]. by apply push_clean. }
  apply H; [apply split_free_of|constructor].
Qed.

Lemma clean_plain rooted stack : clean_stack rooted stack → Forall (plain rooted) stack.
Proof.
  induction 1 as [|ws Hr Hup|w ws Hp _ _ IH]; constructor; try done.
  - by subst.
  - eapply Forall_impl; [exact Hup|]. intros w ->. by subst.
Qed.

(** Pushing the elements of a clean path gives them back. *)
Lemma push_all rooted stack :
  clean_stack rooted stack → foldl (push rooted) [] (rev stack) = stack.
Proof.
  induction 1 as [|ws Hr Hup|w ws (H1 & H2 & _ & _) Hne _ IH]; simpl; [done|..];
    rewrite foldl_app; simpl.
  - assert (foldl (push rooted) [] (rev ws) = ws) as ->.
    { subst. clear -Hup. induction Hup as [|w ws -> Hup IH]; [done|]. simpl.
      rewrite foldl_app, IH. simpl. unfold push. simpl. by destruct Hup as [|? ? ->]. }
    unfold push. simpl. subst rooted. destruct Hup as [|? ? ->]; [done|]. done.
  - rewrite IH. unfold push. by rewrite !bool_decide_false.
Qed.

(** A relative path that is clean does not start with a slash. *)
Lemma IsAbs_render rooted ws : Forall (plain rooted) ws → IsAbs (render rooted ws) = rooted.
Proof.
  intros Hf. unfold render, IsAbs. destruct rooted.
  { rewrite bool_decide_false by done. cbn. by destruct (join "/" ws). }
  change ("" +:+ join "/" ws) with (join "/" ws). case_bool_decide as E; [done|].
  destruct Hf as [|w ws (Hw & _ & Hs & _) Hf]; [done|].
  destruct w as [|c w]; [done|]. simpl in Hs. apply andb_true_iff in Hs as [Hc _].
  assert (∃ t, join "/" (String c w :: ws) = String c t) as [t ->].
  { destruct ws as [|x ws]; [by exists w|]. rewrite join_cons. by eexists. }
  cbn [String.prefix]. destruct (Ascii.ascii_dec _ _) as [<-|]; [|done]. by rewrite Ascii.eqb_refl in Hc.
Qed.

Lemma elements_render rooted ws :
  clean_stack rooted (rev ws) → elements rooted (render rooted ws) = ws.
Proof.
  intros Hc. pose proof (clean_plain _ _ Hc) as Hp. apply Forall_rev in Hp.
  rewrite rev_involutive in Hp.
  pose proof (push_all _ _ Hc) as Hpush. rewrite rev_involutive in Hpush.
  unfold elements, render.
  assert (Hsplit : ws ≠ [] → split slash (join "/" ws) = ws).
  { intros Hne. apply (split_join slash); [done|]. intros w Hw.
    rewrite Forall_forall in Hp. by destruct (Hp w Hw) as (_ & _ & ? & _). }
  destruct rooted.
  - rewrite bool_decide_false by done. change ("/" +:+ join "/" ws) with ("" +:+ String slash (join "/" ws)).
    rewrite split_app by done. cbn [foldl]. change (push true [] "") with (@nil string).
    destruct ws as [|w ws]; [done|]. rewrite Hsplit, Hpush by done. apply rev_involutive.
  - change ("" +:+ join "/" ws) with (join "/" ws). destruct ws as [|w ws]; [done|].
    rewrite bool_decide_false.
    + rewrite Hsplit, Hpush by done. apply rev_involutive.
    + inversion Hp as [|?? (Hw & _) _]; subst. destruct w as [|c w]; [done|].
      destruct ws as [|x ws]; [done|]. by rewrite join_cons.
Qed.

Lemma Clean_abs p : IsAbs (Clean p) = IsAbs p.
Proof.
  unfold Clean. apply IsAbs_render. pose proof (clean_plain _ _ (elements_clean (IsAbs p) p)) as H.
  apply Forall_rev in H. by rewrite rev_involutive in H.
Qed.

(** A clean path is its own cleaning. *)
Lemma Clean_idem p : Clean (Clean p) = Clean p.
Proof.
  unfold Clean at 1. rewrite Clean_abs. unfold Clean. f_equal.
  apply elements_render, elements_clean.
Qed.

(** No element of a clean absolute path leads up. *)
Lemma Clean_no_up p : IsAbs p = true → ".." ∉ split slash (Clean p).
Proof.
  intros Ha Hin. pose proof (clean_plain _ _ (elements_clean true p)) as Hp.
  apply Forall_rev in Hp. rewrite rev_involutive in Hp.
  unfold Clean, render in Hin. rewrite Ha in Hin. rewrite bool_decide_false in Hin by done.
  change ("/" +:+ ?t) with ("" +:+ String slash t) in Hin. rewrite split_app in Hin by done.
  apply elem_of_cons in Hin as [?|Hin]; [done|].
  destruct (elements true p) as [|w ws] eqn:E; [by apply list_elem_of_singleton in Hin|].
  rewrite (split_join slash) in Hin.
  - rewrite Forall_forall in Hp. destruct (Hp _ Hin) as (_ & _ & _ & H). by apply H.
  - done.
  - intros x Hx. rewrite Forall_forall in Hp. by destruct (Hp x Hx) as (_ & _ & ? & _).
Qed.

(** ** Configurations the programs can run with *)

Inductive store_ok (clean : bool) (s : LogStoreConfig) : Prop :=
| store_dir : ls_StoreType s = "filesystem" → fsc_BaseDir (ls_FileSystem s) ≠ "" →
    (clean = true → IsAbs (fsc_BaseDir (ls_FileSystem s)) = true ∧
       Clean (fsc_BaseDir (ls_FileSystem s)) = fsc_BaseDir (ls_FileSystem s) ∧
       ".." ∉ split slash (fsc_BaseDir (ls_FileSystem s))) → store_ok clean s
| store_bucket : ls_StoreType s = "s3" → s3c_BucketName (ls_S3Configs s) ≠ "" → store_ok clean s.

Inductive worker_type_ok (w : WorkerConfigs) : Prop :=
| workers_memory : wcs_WorkerType w = "memory" → worker_type_ok w
| workers_pebble : wcs_WorkerType w = "pebble" → wcs_QueueDir w ≠ "" → worker_type_ok w.

Record controller_ok (c : ControllerConfig) : Prop := {
  ck_workers : wcs_Workers (cfg_Workers c) ≠ [];
  ck_type : worker_type_ok (cfg_Workers c);
  ck_poll : wcs_PollDuration (cfg_Workers c) ≠ "";
  ck_leader : cfg_LeaderElectionID c ≠ "";
  ck_store : store_ok true (cfg_LogStore c)
}.

(** The directories a configuration has made. *)
Definition queue_dirs (w : WorkerConfigs) : list string :=
  if wcs_WorkerType w =b "pebble" then [wcs_QueueDir w] else [].

(** What a file says is fit to run with, in an environment. *)
Record fit (h : Host) (c : ControllerConfig) : Prop := {
  fit_workers : wcs_Workers (cfg_Workers c) ≠ [];
  fit_type : worker_type_ok (cfg_Workers c);
  fit_dirs : Forall (λ d, MkdirAll h d = None) (queue_dirs (cfg_Workers c));
  fit_leader : Getenv h "LEADER_ELECTION_ID" ≠ "" ∨ cfg_LeaderElectionID c ≠ "";
  fit_store : let s := ControllerCfg.default_log_store h (cfg_LogStore c) in
    (ls_StoreType s = "filesystem" ∧ IsAbs (fsc_BaseDir (ls_FileSystem s)) = true) ∨
    (ls_StoreType s = "s3" ∧ s3c_BucketName (ls_S3Configs s) ≠ "")
}.

Lemma or_default_not_empty v d : d ≠ "" → or_default v d ≠ "".
Proof. unfold or_default. by case_bool_decide. Qed.

Lemma IsAbs_not_empty p : IsAbs p = true → p ≠ "".
Proof. by intros H ->. Qed.

Lemma validateLogStore_ok s s' :
  ControllerCfg.validateLogStore s = Ok s' →
  store_ok true s' ∧ ls_StoreType s' = ls_StoreType s ∧ ls_S3Configs s' = ls_S3Configs s ∧
  ((ls_StoreType s = "filesystem" ∧ IsAbs (fsc_BaseDir (ls_FileSystem s)) = true) ∨
   (ls_StoreType s = "s3" ∧ s3c_BucketName (ls_S3Configs s) ≠ "")).
Proof.
  unfold ControllerCfg.validateLogStore. case_bool_decide as Hf.
  - case_bool_decide as Hd; [done|]. destruct (IsAbs (Clean _)) eqn:Ha; [|done]. intros [= <-].
    rewrite Clean_abs in Ha. split; [|by auto]. constructor; [done|..]; simpl.
    + apply IsAbs_not_empty. by rewrite Clean_abs.
    + intros _. split; [by rewrite Clean_abs|]. split; [apply Clean_idem|]. by apply Clean_no_up.
  - case_bool_decide as H3; [|done]. case_bool_decide as Hb; [done|]. intros [= <-].
    split; [by apply store_bucket|]. auto.
Qed.

Lemma validateLogStore_fit s :
  (ls_StoreType s = "filesystem" ∧ IsAbs (fsc_BaseDir (ls_FileSystem s)) = true) ∨
  (ls_StoreType s = "s3" ∧ s3c_BucketName (ls_S3Configs s) ≠ "") →
  is_ok (ControllerCfg.validateLogStore s) = true.
Proof.
  unfold ControllerCfg.validateLogStore. intros [[-> Ha]|[-> Hb]]; simpl.
  - rewrite bool_decide_false by (by apply IsAbs_not_empty). by rewrite Clean_abs, Ha.
  - by rewrite bool_decide_false.
Qed.

Lemma validate_workers_ok h w made r made' :
  ControllerCfg.validate_workers h w made = (Ok r, made') →
  wcs_Workers w ≠ [] ∧ worker_type_ok w ∧ made' = made ++ queue_dirs w ∧
  Forall (λ d, MkdirAll h d = None) (queue_dirs w).
Proof.
  unfold ControllerCfg.validate_workers, queue_dirs. case_bool_decide as Hw; [done|].
  case_bool_decide as Hm.
  - intros [= _ <-]. rewrite Hm. simpl. rewrite app_nil_r. split; [done|]. split; [by left|]. done.
  - case_bool_decide as Hp; [|done]. case_bool_decide as Hd; [done|].
    unfold ControllerCfg.mkdir. destruct (MkdirAll h _) eqn:E; [done|]. intros [= _ <-].
    split; [done|]. split; [by right|]. split; [done|]. by repeat constructor.
Qed.

Lemma validate_workers_fit h w made :
  wcs_Workers w ≠ [] → worker_type_ok w → Forall (λ d, MkdirAll h d = None) (queue_dirs w) →
  ∃ made', ControllerCfg.validate_workers h w made = (Ok tt, made').
Proof.
  intros Hw Ht Hd. unfold ControllerCfg.validate_workers. rewrite bool_decide_false by done.
  destruct Ht as [Hm|Hp Hq]; [rewrite Hm; by eexists|].
  unfold queue_dirs in Hd. rewrite Hp in *. simpl in *. rewrite bool_decide_false by done.
  inversion Hd as [|?? Hmk _]; subst. unfold ControllerCfg.mkdir. rewrite Hmk. by eexists.
Qed.


(** ** The server *)

Record server_ok (c : ServerConfig) : Prop := {
  sk_path : scfg_KubeConfigPath c = "" ∨
    (IsAbs (scfg_KubeConfigPath c) = true ∧ Clean (scfg_KubeConfigPath c) = scfg_KubeConfigPath c);
  sk_store : ls_StoreType (scfg_LogStorage c) = "" ∨ store_ok false (scfg_LogStorage c)
}.

Lemma validateConfig_ok c :
  ServerCfg.validateConfig c = Ok tt →
  ls_StoreType (scfg_LogStorage c) = "" ∨ store_ok false (scfg_LogStorage c).
Proof.
  unfold ServerCfg.validateConfig. case_bool_decide as H0; [by left|].
  case_bool_decide as H3.
  - case_bool_decide as Hb; [done|]. intros _. right. by apply store_bucket.
  - case_bool_decide as Hf; [|done]. case_bool_decide as Hd; [done|]. intros _. right.
    by constructor.
Qed.

(** The server starts only with a configuration it can run with; what its file
    says of the log store goes before the environment, which fills in what is
    missing. *)
Theorem server_configuration h path c :
  ServerCfg.ParseConfig h path = Ok c →
  server_ok c ∧
  ∃ file, (if path =b "" then Ok empty_server else ServerCfg.loadConfigFromYAML h path) = Ok file ∧
    let s := scfg_LogStorage file in let s' := scfg_LogStorage c in
    (ls_StoreType s ≠ "" → ls_StoreType s' = ls_StoreType s) ∧
    (ls_StoreType s = "s3" → s3c_BucketName (ls_S3Configs s) ≠ "" →
       s3c_BucketName (ls_S3Configs s') = s3c_BucketName (ls_S3Configs s)) ∧
    (ls_StoreType s = "" → Getenv h "S3_BUCKETNAME" ≠ "" →
       ls_StoreType s' = "s3" ∧ s3c_BucketName (ls_S3Configs s') = Getenv h "S3_BUCKETNAME").
Proof.
  unfold ServerCfg.ParseConfig. intros H.
  destruct (if path =b "" then _ else _) as [file|e] eqn:Ef; [|done].
  set (c0 := ServerCfg.applyEnvironmentConfig h file) in *.
  destruct (ServerCfg.validateConfig c0) as [[]|e] eqn:Ev; [|done].
  apply validateConfig_ok in Ev. unfold ServerCfg.validatePaths in H.
  assert (scfg_LogStorage c = scfg_LogStorage c0 ∧ server_ok c) as [Es Hok].
  { case_bool_decide as Hp; [injection H as <-; split; [done|]; split; [by left|done]|].
    destruct (IsAbs (Clean _)) eqn:Ha; [|done]. injection H as <-. split; [done|]. split; [|done].
    right. split; [done|]. apply Clean_idem. }
  split; [done|]. exists file. split; [done|]. cbn zeta. rewrite Es. unfold c0.
  unfold ServerCfg.applyEnvironmentConfig, or_default.
  repeat case_bool_decide; simpl; split_and!; intros; simplify_eq/=; try congruence; try done;
    repeat case_bool_decide; congruence.
Qed.

(** ** Connections *)

(** What both programs ask of the settings of PostgreSQL, and how they connect:
    without TLS when it is disabled, else with a configuration that checks the
    server's certificate unless the mode is [require]. *)
Theorem postgres_settings h c :
  DbCfg.ConfigurePostgres h = Ok c ∨ ServerDbCfg.ConfigurePostgres h = Ok c →
  Getenv h "DB_NAME" ≠ "" ∧ Getenv h "DB_USER" ≠ "" ∧ Getenv h "DB_PASSWORD" ≠ "" ∧
  (sslMode_of h ≠ "disable" →
   ∃ tls, pgc_TLSConfig c = Some tls ∧ tls_ServerName tls = "" ∧
     (tls_InsecureSkipVerify tls = true ↔ sslMode_of h = "require")).
Proof.
  assert (Ht : ∀ tls, tls_of_mode h (sslMode_of h) = Ok tls →
    tls_ServerName tls = "" ∧ (tls_InsecureSkipVerify tls = true ↔ sslMode_of h = "require")).
  { intros tls. unfold tls_of_mode. destruct (UpdateDBSSLConfig h _) as [t|e] eqn:E; [|done].
    intros [= <-].
    assert (tls_ServerName t = "" ∧ tls_InsecureSkipVerify t = false) as [H1 H2].
    { revert E. unfold UpdateDBSSLConfig. repeat case_match; intros; simplify_eq/=; done. }
    repeat case_bool_decide; simpl; rewrite ?H1, ?H2; split; try done; naive_solver. }
  unfold DbCfg.ConfigurePostgres, ServerDbCfg.ConfigurePostgres.
  intros [H|H]; revert H; repeat (case_bool_decide; [done|]);
    (destruct (pgx_ParseConfig h _) as [c0|]; [|done]);
    (destruct (tls_of_mode h (sslMode_of h)) as [tls|] eqn:Et; [|done]); intros [= <-];
    (do 3 (split; [done|])); intros _; exists tls; split; try done; by apply Ht.
Qed.

(** ** Where the code does not do what it means to *)

(** The controller's bucket is the environment's: one that only its file names is
    not opened, and no logs are kept. *)
Theorem configured_bucket_is_ignored h s :
  ls_StoreType s = "s3" → Getenv h "S3_BUCKETNAME" = "" → createLogStore h s = Ok NoLogs.
Proof. unfold createLogStore, NewLogStore. by intros -> ->. Qed.

(** A cache size that is set is not read: the cache gets the size zero. *)
Theorem cache_size_is_not_read h c :
  Getenv h "SQLITE_CACHE_SIZE" ≠ "" → DbCfg.ConfigureSqlite h = Ok c → sqc_CacheSize c = 0%Z.
Proof.
  unfold DbCfg.ConfigureSqlite. intros Hs. case_bool_decide; [done|]. intros [= <-]. simpl.
  by rewrite bool_decide_false.
Qed.

(** User, password and endpoint are not escaped: different settings are the same
    connection string. *)
Example connection_string_is_ambiguous :
  dsn_of "app" "secret@db" "prod" "k" = dsn_of "app" "secret" "db@prod" "k".
Proof. reflexivity. Qed.

Definition demo_host (vars : list (string * string)) : Host := {|
  LookupEnv n := snd <$> List.find (λ v, v.1 =b n) vars;
  ReadFile _ := Ok "config";
  IsNotExist _ := false;
  MkdirAll _ := None;
  Stat _ := Ok true;
  yaml_controller _ _ :=
    Ok (mkControllerConfig "" "id" (mkWorkerConfigs "pebble" "/queue" [mkWorkerConfig "default" 2] "")
          (mkLogStoreConfig "filesystem" (mkFileSystemLogStoreConfig "/var//logs/../logs/")
             (mkS3LogStoreConfig "" "")));
  yaml_server _ c := Ok c;
  LoadX509KeyPair _ _ := None;
  pgx_ParseConfig dsn := Ok (mkPgConfig dsn None);
  LoadDefaultConfig _ := None;
  HeadBucket _ _ := None
|}.

(** The controller checks the user twice and the endpoint never; the server
    checks it. *)
Example endpoint_is_not_checked :
  let h := demo_host [("DB_NAME", "k"); ("DB_USER", "u"); ("DB_PASSWORD", "p")] in
  is_ok (DbCfg.ConfigurePostgres h) = true ∧ is_ok (ServerDbCfg.ConfigurePostgres h) = false.
Proof. split; reflexivity. Qed.

(** A configuration that is accepted: its directory is cleaned. *)
Example accepted_configuration :
  ∃ c, ControllerCfg.ParseConfig (demo_host []) "config.yaml" [] = (Ok c, ["/queue"]) ∧
    fsc_BaseDir (ls_FileSystem (cfg_LogStore c)) = "/var/logs" ∧
    wcs_PollDuration (cfg_Workers c) = "100ms".
Proof. eexists. split; [vm_compute; reflexivity|]. done. Qed.
