(* ===== verification/Watch.v ===== *)
(** * What the controller watches and what it admits

    The pods that a task watcher is told of (internal/dag/taskWatcher.go): those
    in its namespace that its label selector selects.  The validation of DagRuns
    for the admission webhook (api/v1alpha1/dagrun_webhook.go). *)

From S2P Require Import Prelude Api Kube Allocator.
Local Open Scope kontroler_scope.

(** ** Task watchers *)

Module Watchers.

(** [labels.Set(...).AsSelector()] *)
Definition task_selector (id : string) : gmap string string :=
  {[ "managed-by" := "kontroler"; "kontroler/type" := "task"; "kontroler/id" := id ]}.

(** A selector made of a set selects the objects that have its labels. *)
Definition selects (selector labels : gmap string string) : bool := bool_decide (selector ⊆ labels).

(** The informer of [NewTaskWatcher] hands a pod to its handlers. *)
Definition watches (id namespace : string) (pod : Pod) : bool :=
  (p_Namespace pod =b namespace) && selects (task_selector id) (p_Labels pod).

(** The selector of the reconciler of orphan pods (orphan_reconciler.go). *)
Definition orphan_selector : gmap string string :=
  {[ "managed-by" := "kontroler"; "kontroler/type" := "task" ]}.

End Watchers.

(** ** Admission of DagRuns *)

Module Admission.

Definition check_parameter (p : ParameterSpec) : option GoError :=
  if ps_Name p =b "" then Some (EErrorf "parameter name must be set")
  else if negb (ps_Value p =b "") && negb (ps_FromSecret p =b "")
  then Some (EErrorf ("only one of value or fromSecret can be set for parameter " +:+ ps_Name p))
  else if (ps_Value p =b "") && (ps_FromSecret p =b "")
  then Some (EErrorf ("either value or fromSecret must be set for parameter " +:+ ps_Name p))
  else None.

Fixpoint check_parameters (l : list ParameterSpec) : option GoError :=
  match l with
  | [] => None
  | p :: l' => match check_parameter p with Some e => Some e | None => check_parameters l' end
  end.

Definition validateDagRun (spec : DagRunSpec) : option GoError :=
  if drs_DagName spec =b "" then Some (EErrorf "DagName cannot be empty")
  else check_parameters (drs_Parameters spec).

(** The webhooks of a DagRun; the defaulting one changes nothing. *)
Definition Default (spec : DagRunSpec) : DagRunSpec := spec.
Definition ValidateCreate (spec : DagRunSpec) : option GoError := validateDagRun spec.
Definition ValidateUpdate (old new : DagRunSpec) : option GoError := validateDagRun new.
Definition ValidateDelete (spec : DagRunSpec) : option GoError := None.

End Admission.

(** ** What is seen and what is let in *)

Import Watchers Admission.

(** A parameter has a name and exactly one of a value and a secret. *)
Definition parameter_ok (p : ParameterSpec) : Prop :=
  ps_Name p ≠ "" ∧ (ps_Value p = "" ↔ ps_FromSecret p ≠ "").

Lemma check_parameters_ok l : check_parameters l = None ↔ Forall parameter_ok l.
Proof.
  induction l as [|p l IH]; simpl; [by split|]. rewrite Forall_cons, <- IH.
  unfold parameter_ok, check_parameter. repeat case_bool_decide; simpl; naive_solver.
Qed.

(** The webhook lets in exactly the runs that name a DAG and whose parameters are
    each named and have either a value or a secret. *)
Theorem admitted_runs spec :
  ValidateCreate spec = None ↔ drs_DagName spec ≠ "" ∧ Forall parameter_ok (drs_Parameters spec).
Proof.
  unfold ValidateCreate, validateDagRun. rewrite <- check_parameters_ok.
  case_bool_decide; naive_solver.
Qed.

(** A watcher is told of the pods that allocators with its id fill, and of no
    others: a process that allocates under an id of its own, as cmd/worker does,
    makes pods whose events no controller handles - while every controller's
    reconciler of orphans lists them. *)
Theorem watched_by_its_own_id env task dagRunId taskRunId claimedBy spec p id
    (Hp : pooled p) :
  let pod := fill_pod env task dagRunId taskRunId claimedBy spec p in
  (watches id (p_Namespace pod) pod = true ↔ id = ae_id env) ∧
  selects orphan_selector (p_Labels pod) = true.
Proof.
  cbv zeta. rewrite fill_pooled by done. unfold watches. rewrite bool_decide_true by done.
  cbn [andb p_Labels set_Name]. set (labels := p_Labels (fill_pod _ _ _ _ _ _ _)).
  assert (H1 : labels !! "managed-by" = Some "kontroler") by done.
  assert (H2 : labels !! "kontroler/type" = Some "task") by done.
  assert (H3 : labels !! "kontroler/id" = Some (ae_id env)) by done.
  unfold selects, task_selector, orphan_selector. rewrite !bool_decide_eq_true. split; [split|].
  - intros Hs. apply (map_subseteq_spec _ _) with (i := "kontroler/id") (x := id) in Hs; [|done].
    congruence.
  - intros ->. repeat (apply insert_subseteq_l; [done|]). apply map_empty_subseteq.
  - repeat (apply insert_subseteq_l; [done|]). apply map_empty_subseteq.
Qed.

Lemma pod_of_another_id task spec :
  watches "kontroler-2" "" (fill_pod demo_alloc_env task 1 2 "" spec new_pod) = false.
Proof.
  apply not_true_is_false. intros H.
  by apply (watched_by_its_own_id demo_alloc_env task 1 2 "" spec new_pod "kontroler-2" pooled_new) in H.
Qed.
